(* ===== verification/_CoqProject ===== *)
-Q . S2P
Prelude.v
RustStd.v
Model.v
Ipam.v
Frame.v
MacTable.v
Engine.v
Gateway.v
Json.v
StateStore.v
Protocol.v
Server.v
Dhcp.v
Dns.v
Passt.v
Packet.v
VhostPort.v
Wakeup.v
Recovery.v
Frontend.v
Session.v
Lifecycle.v
Dataplane.v
Control.v
Crash.v
ControlLoop.v
Registry.v
Planes.v
Addresses.v
Config.v
Pump.v
Daemon.v
Lives.v
Supervision.v
Replies.v
Client.v
Transit.v
Datagrams.v
Leases.v
Wan.v
Resolution.v
Presence.v
Witnesses.v
Scenarios.v
Conversations.v
Journeys.v
Tests.v
TestsSwitch.v
TestsRpc.v
TestsSvc.v
TestsDaemon.v
TestsPort.v
