(* ===== verification/Prelude.v ===== *)
(** * k8netd: a verification library

    k8netd is a user-space network daemon for virtual machines. Each VM has a
    port, a vhost-user socket on which its hypervisor connects a virtio-net
    device; ports are attached to networks; a software switch carries Ethernet
    frames between the ports of one network; the daemon answers ARP for the
    gateway, DHCP, DNS and ping itself; everything else that leaves a network
    goes through one passt process per port. A JSON-RPC socket, control.sock,
    serves the twelve control operations, and a state file survives restarts.

    This library translates that program from src/crates/ and proves what makes
    it correct. Definitions keep the names of the source, and they evaluate:
    the witnesses run them on concrete inputs.

    ** The parts and their files

    Foundations.
    - [Prelude]: results, panics ([may_panic]), stateful fallible commands
      ([cmd S E A], a method on [&mut self] whose state survives an early
      return and a panic), their weakest preconditions ([wp], [wp_steps]) and
      the tactics and rewrite database the other files use.
    - [RustStd]: the standard library as the source uses it: integers of a
      width with their wrap-around, big-endian bytes, string splitting, the
      parsers and printers of numbers and addresses, B-tree order, paths.

    The switch core, crates/k8netd-core/src.
    - [Model] (model.rs): CIDR blocks, pools, networks, MAC addresses, ports,
      the publish table; parsing, validation and display.
    - [Ipam] (ipam.rs): addresses of one network by MAC; the class
      [AddressManagerLaws] is what it promises to the DHCP server.
    - [StateStore] (state.rs): the snapshot with its version guard, and the
      atomic save over a file system in which every call may fail and the
      machine may stop between any two.
    - [Frame], [MacTable], [Engine], [Gateway] (switch/): the frame view, the
      bounded learning table, forwarding, and the ARP responder with the
      classifier of WAN egress.

    The control protocol, crates/k8netd-rpc/src.
    - [Json]: the interface of JSON values, with laws and a tree that meets them.
    - [Protocol] (protocol.rs): requests, responses and typed errors.
    - [Server] (server.rs): dispatch over the class [ControlPlane], one
      connection, the binding of the socket and the accept loop, and the
      in-memory control plane (Module [Memory]).
    - [ControlLoop] (server.rs, serve): the same loop over time, its clients
      connecting, writing and leaving while it waits for one of them.

    The services, crates/k8netd-svc/src.
    - [Dhcp] (dhcp.rs), [Dns] (dns.rs), [Passt] (passt.rs): the DHCP server
      over an address manager, the forwarder over the outcomes of its socket
      calls, the framing and the life of a passt process.

    The guest side, crates/k8netd-vhost/src.
    - [VhostPort] (port.rs, NetBackend): the transmit and receive service over
      a virtqueue, the configuration space.
    - [Recovery] (service_rx): what the reconnect recovery finds on a ring with
      positions.
    - [Wakeup]: the receive worker, its two event counters and the parties
      that write them, in any interleaving.
    - [Session] (VhostPort::new, Drop): the session thread as a state machine.
    - [Frontend] (fake_frontend.rs): the client's handshake and ring layout.

    The daemon, crates/k8netd/src.
    - [Packet] (dataplane.rs, helpers): the IPv4 reader, checksums, the packets
      the daemon builds.
    - [Dataplane], Module [Dp] (dataplane.rs): the state behind the mutex
      ([Inner]), the world it acts on ([World]: disk, processes, clock,
      trace of frames), persistence, passt supervision and the twelve
      operations; the invariant [dp_ok].
    - [Control]: theorems about the operations. [Replies]: the types of the
      state's numbers and of every answer.
    - [Registry]: what a control plane is to its clients: the abstract state,
      what each request may do to it, conversations; the class [Registered] is
      the promise. [Planes]: both control planes keep it. [Addresses]: how long
      the address reserved at an attachment lasts.
    - [Pump] (spawn_pump, read_passt_frames): a frame from a VM through the
      services, the gateway, the switch and the WAN seam; a frame from passt.
    - [Daemon]: the threads as a labelled step relation, one critical section
      a step; a panic inside one poisons the mutex.
    - [Lifecycle]: who holds a port's object and when it is dropped, across
      creation and deletion. [Supervision]: sequences of supervision ticks.
    - [Config] (config.rs, main.rs, build.rs): flags, environment, defaults,
      the start of the daemon up to its accept loop.

    The parts composed.
    - [Transit]: ring, pump, switch, channel and ring of two guests. [Wan]:
      from a guest's ring to its passt socket, over a pump thread's turns, and
      from the bytes of that socket, however they arrive, to a guest's ring.
    - [Presence]: the gateway as its guests see it, by ARP and by ping.
      [Datagrams]: a guest's datagram at the service seam. [Leases]:
      attachment, pump, DHCP server and reply. [Resolution]: a guest's query,
      the forwarder and its upstreams, and the answer in the guest's buffer.
    - [Crash]: power losses inside a request and the start that follows: the
      save of the state file, the requests and [try_new]. [Lives]: any number
      of lives of the daemon, each a start, a run and a power loss.
    - [Client]: a client's call, from the line it writes to the one it reads.
    - [Witnesses], [Scenarios], [Conversations], [Journeys]: every theorem
      with hypotheses at concrete inputs.

    The unit tests of the repository, run on the definitions: a test is a
    command that returns without a panic, with the name of its Rust function.
    - [Tests] (the harness, model.rs, ipam.rs), [TestsSwitch] (switch/),
      [TestsRpc] (protocol.rs, server.rs), [TestsSvc] (dhcp.rs, dns.rs,
      passt.rs, config.rs), [TestsPort] (port.rs), [TestsDaemon] (dataplane.rs,
      from the transmit ring of one guest to the receive ring of another).

    How they interact. A request is read by [Server.handle_connection],
    dispatched to [Dp.dataplane], and changes [Inner] under the mutex, with
    [StateStore.save_to_disk] before it answers. A frame leaves a guest by
    [VhostPort.service_tx], is taken from the channel by the port's pump
    ([Pump.pump_frame], under the same mutex), meets the services, the
    [Gateway] and the [Engine], and is queued on the receivers' channels or
    framed to passt; [VhostPort.service_rx] puts it into a guest's buffer. A
    reader thread per port does the same for frames from passt.

    ** What the theorems show

    - Isolation and consistency of the running daemon, in every reachable
      state: frames stay within their network, all tables agree, the mutex is
      poisoned by one kind of frame only ([Daemon]).
    - Delivery end to end: a frame posted by one guest reaches the buffers of
      the guests the switch names, one for the world reaches passt framed, and
      one from the world reaches its guest; no wake-up is lost, and buffers in
      flight at a disconnect are recovered ([Transit], [Wan], [Wakeup],
      [VhostPort], [Recovery]).
    - What a guest is answered: its gateway's MAC and ping ([Presence]), its
      lease ([Leases]), the names it asks for ([Resolution]).
    - What power losses, failing saves and restarts leave: a published port
      stays published to the port it was ([Crash]); over all of its lives the
      daemon's state stays consistent, and it starts from tables that were in
      force since the state file was last up to date ([Lives]).
    - The control operations: what each leaves behind on success and failure,
      durability of what is reported, typed answers, the state the daemon
      starts from ([Control], [Replies], [Config]).
    - What clients may rely on over whole conversations: both control planes
      refine one registry ([Planes]); a published port keeps its host port; an
      attached port keeps its address ([Addresses]), which its guest obtains by
      DHCP ([Leases]); a call is carried out once and its outcome read back
      as it was ([Client]); clients that send their line are answered in
      order, one whose line is not UTF-8 is dropped, and one that sends none
      holds up the others ([ControlLoop]).
    - Processes and threads over time: ports keep their sockets and serve their
      clients as long as names hold no slash and are reused late enough, what
      goes wrong when not, and a crashed passt comes back on time
      ([Lifecycle], [Session], [Supervision]).
    - Persistence: crash atomicity, round trip, version guard.
    - The switch core: exact forwarding, the MAC table as a recency list and
      its bound, the gateway's two reactions, safety of the allocator, frames.
    - The services and the protocol: what DHCP, DNS and ping answer, the
      passt stream reassembled however it is cut, exact request decoding.
    - The definitions behave as the repository's own tests say ([Tests] and
      its companions), from the parsers to the dataplane end to end.

    ** Bounds and fuel

    Four functions carry fuel, and it is enough: the chains of a
    ring ([RING_FUEL], 65536: a ring holds fewer, [ring_fuel]); the frames of
    a reader's buffer ([drain], one more than its bytes: each frame takes at
    least its header); the carries of a checksum ([fold_carries], two: the sum
    is 32 bits wide, [fold_carries_spec]); in the example codec of DHCP
    messages, the options (as many as there are bytes). Two helpers of the
    tests carry some as well: the options read from a reply (one per byte) and
    the steps a session thread takes before it waits (ten; seven suffice).
    Every other recursion is structural. Theorems about runs of the daemon
    take fewer than 2^32 - 1 steps, because port numbers are 32 bits and
    each step takes at most one. [usize] is 64 bits wide.

    ** What is assumed of other code

    Code outside the repository is a class, with the behaviour the code relies
    on as its laws and an implementation that meets them: JSON values
    ([JsonLaws]), the derived codecs of requests and snapshots
    ([ProtocolLaws], [SnapshotLaws]; [RequestWire]: the text of a request ends
    in no white space of its own), the DHCP codec ([DhcpLaws], and
    [DhcpWire]: where RFC 2131 puts [yiaddr]), the DNS codec ([DnsCodec]), a
    virtqueue in guest memory whose driver keeps its descriptors out of its
    buffers ([VirtQueueLaws], [RingIndices]). The
    vhost-user-backend package appears through what it answers to the session
    thread: its accept blocks until a client connects. The class
    [Lifecycle.Host] says which file a port's path names (names without a
    slash name different files) and leaves open whether the vhost package's
    listener removes its path when dropped. Hash maps are [gmap];
    where their order shows, theorems hold for any order. The outcomes of
    system calls (files, sockets, spawn, wait, the clock) are inputs; a thread
    that is started is taken to start ([thread::spawn] panics when the system
    has none to give, and would poison the mutex in [create_port]). A passt
    reader sends on the channel it was given; the model delivers to the port
    that has the name, which is the same one while names are reused late
    enough in the sense of [Lifecycle].

    ** Not modelled

    Logging, its formatting helpers (hex_prefix, dump_descs) and the callbacks
    that only log (acked_features, set_event_idx); the text of a configuration
    error, which quotes by Rust's debug escapes; the duration of sleeps and
    timeouts, which only bound waiting: any order of turns is allowed; for how
    long a write to a socket blocks; the inside of the passt process, of the
    guest and of the kernel; module declarations (the crate roots). Of the
    tests: the stand-ins for passt and the drivers over raw guest memory; those about
    the text or the sections that serde and the DNS codec produce (all of
    state.rs among them), those of server.rs and passt.rs that start threads
    or processes of their own, those of port.rs about the socket file and the
    vring numbers, and the integration tests in the tests directories. *)
From stdpp Require Export base tactics list gmap strings sets sorting pretty.
From stdpp Require Import numbers.
From Stdlib Require Export ZArith Lia Ascii.
#[export] Set Default Goal Selector "!".
#[export] Set Warnings "-clear-no-such-hyp".
Close Scope nat_scope.
Open Scope Z_scope.

(** ** Rust results, early returns and panics *)

(** [Result<A, E>]. *)
Inductive result (E A : Type) : Type :=
  | Ok (a : A)
  | Err (e : E).
Arguments Ok {E A} a.
Arguments Err {E A} e.

#[export] Instance result_ret {E} : MRet (result E) := fun A a => Ok a.
#[export] Instance result_bind {E} : MBind (result E) :=
  fun A B f r => match r with Ok a => f a | Err e => Err e end.
#[export] Instance result_fmap {E} : FMap (result E) :=
  fun A B f r => match r with Ok a => Ok (f a) | Err e => Err e end.

#[export] Instance result_eq_dec {E A} `{EqDecision E, EqDecision A} :
  EqDecision (result E A).
Proof. solve_decision. Defined.

(** [Option::ok_or] and [Result::map_err], [Result::ok]. *)
Definition ok_or {E A} (o : option A) (e : E) : result E A :=
  match o with Some a => Ok a | None => Err e end.
Definition map_err {E F A} (f : E -> F) (r : result E A) : result F A :=
  match r with Ok a => Ok a | Err e => Err (f e) end.
Definition ok {E A} (r : result E A) : option A :=
  match r with Ok a => Some a | Err _ => None end.
Definition is_ok {E A} (r : result E A) : bool :=
  match r with Ok _ => true | Err _ => false end.

(** A pure computation that may index out of bounds or unwrap an error. *)
Inductive may_panic (A : Type) : Type :=
  | Val (a : A)
  | Panic.
Arguments Val {A} a.
Arguments Panic {A}.

#[export] Instance may_panic_ret : MRet may_panic := fun A a => Val a.
#[export] Instance may_panic_bind : MBind may_panic :=
  fun A B f m => match m with Val a => f a | Panic => Panic end.

#[export] Instance may_panic_eq_dec {A} `{EqDecision A} : EqDecision (may_panic A).
Proof. solve_decision. Defined.

(** [slice[i]]: a panic out of range. *)
Definition index {A} (l : list A) (i : nat) : may_panic A :=
  match l !! i with Some a => Val a | None => Panic end.

(** [&slice[i..j]]: a panic unless [i <= j <= len]. *)
Definition slice {A} (l : list A) (i j : nat) : may_panic (list A) :=
  if decide ((i <= j)%nat /\ (j <= length l)%nat) then Val (take (j - i) (drop i l)) else Panic.

(** [slice.get(i..j)]. *)
Definition get_range {A} (l : list A) (i j : nat) : option (list A) :=
  if decide ((i <= j)%nat /\ (j <= length l)%nat) then Some (take (j - i) (drop i l)) else None.

(** ** Stateful fallible commands

    [cmd S E A] is a method on [&mut self] returning [Result<A, E>]: the
    state reached so far survives an early return ([?]) and a panic. *)
Inductive run (S R : Type) : Type :=
  | Returns (s : S) (r : R)
  | Panics (s : S).
Arguments Returns {S R} s r.
Arguments Panics {S R} s.

Definition cmd (S E A : Type) : Type := S -> run S (result E A).

Section Cmd.
Context {S E : Type}.

#[export] Instance cmd_ret : MRet (cmd S E) := fun A a s => Returns s (Ok a).
#[export] Instance cmd_bind : MBind (cmd S E) := fun A B f m s =>
  match m s with
  | Returns s' (Ok a) => f a s'
  | Returns s' (Err e) => Returns s' (Err e)
  | Panics s' => Panics s'
  end.

Definition throw {A} (e : E) : cmd S E A := fun s => Returns s (Err e).
Definition get : cmd S E S := fun s => Returns s (Ok s).
Definition modify (f : S -> S) : cmd S E unit := fun s => Returns (f s) (Ok tt).
Definition lift {A} (r : result E A) : cmd S E A := fun s => Returns s r.
Definition unwrap {A} (o : option A) : cmd S E A := fun s =>
  match o with Some a => Returns s (Ok a) | None => Panics s end.
End Cmd.

Definition run_state {S R} (r : run S R) : S :=
  match r with Returns s _ => s | Panics s => s end.

(** Runs a command symbolically: the monad is unfolded, local definitions
    and the operations called are kept. *)
Ltac run_cmd := cbv beta iota delta [mbind cmd_bind mret cmd_ret get modify lift throw unwrap].
Tactic Notation "run_cmd" "in" hyp(H) :=
  cbv beta iota delta [mbind cmd_bind mret cmd_ret get modify lift throw unwrap] in H.

(** ** Reasoning about commands

    [wp m s Q R]: from [s] the command [m] does not panic; a success ends in
    [Q], an early return in [R]. *)
Definition wp {S E A} (m : cmd S E A) (s : S) (Q : A -> S -> Prop) (R : E -> S -> Prop) : Prop :=
  match m s with
  | Returns s' (Ok a) => Q a s'
  | Returns s' (Err e) => R e s'
  | Panics _ => False
  end.

Section Wp.
Context {S E : Type}.
Implicit Types (s : S) (R : E -> S -> Prop).

Lemma wp_bind {A B} (m : cmd S E A) (f : A -> cmd S E B) s Q R :
  wp m s (fun a s' => wp (f a) s' Q R) R -> wp (m ≫= f) s Q R.
Proof. unfold wp, mbind, cmd_bind. by destruct (m s) as [s' [a|e]|s']. Qed.

Lemma wp_ret {A} (a : A) s (Q : A -> S -> Prop) R : Q a s -> wp (mret a) s Q R.
Proof. done. Qed.

Lemma wp_throw {A} (e : E) s (Q : A -> S -> Prop) R : R e s -> wp (throw e) s Q R.
Proof. done. Qed.

Lemma wp_get s (Q : S -> S -> Prop) R : Q s s -> wp get s Q R.
Proof. done. Qed.

Lemma wp_modify (f : S -> S) s (Q : unit -> S -> Prop) R : Q tt (f s) -> wp (modify f) s Q R.
Proof. done. Qed.

Lemma wp_lift {A} (r : result E A) s (Q : A -> S -> Prop) R :
  (forall a, r = Ok a -> Q a s) -> (forall e, r = Err e -> R e s) -> wp (lift r) s Q R.
Proof. unfold wp, lift. destruct r; auto. Qed.

Lemma wp_unwrap {A} (o : option A) (a : A) s (Q : A -> S -> Prop) R :
  o = Some a -> Q a s -> wp (unwrap o) s Q R.
Proof. by intros ->. Qed.

Lemma wp_and {A} (m : cmd S E A) s Q Q' R R' :
  wp m s Q R -> wp m s Q' R' -> wp m s (fun a s' => Q a s' /\ Q' a s') (fun e s' => R e s' /\ R' e s').
Proof. unfold wp. destruct (m s) as [s' [a|e]|s']; auto. Qed.

(** A weakest precondition as an outcome. *)
Lemma wp_returns {A} (m : cmd S E A) s Q R :
  wp m s Q R -> exists s' r, m s = Returns s' r /\ match r with Ok a => Q a s' | Err e => R e s' end.
Proof. unfold wp. destruct (m s) as [s' [a|e]|s']; [by eexists _, (Ok a)|by eexists _, (Err e)|done]. Qed.

Lemma wp_mono {A} (m : cmd S E A) s (Q Q' : A -> S -> Prop) R R' :
  wp m s Q R -> (forall a s', Q a s' -> Q' a s') -> (forall e s', R e s' -> R' e s') -> wp m s Q' R'.
Proof. unfold wp. destruct (m s) as [s' [a|e]|s']; auto. Qed.
End Wp.

(** Steps through the straight-line part of a command; a branch is split
    with its equation. *)
Ltac wp_step :=
  match goal with
  | |- wp (_ ≫= _) _ _ _ => apply wp_bind
  | |- wp (mret _) _ _ _ => apply wp_ret
  | |- wp (throw _) _ _ _ => apply wp_throw
  | |- wp get _ _ _ => apply wp_get
  | |- wp (modify _) _ _ _ => apply wp_modify
  | |- wp (lift _) _ _ _ => apply wp_lift; [intros ? ?|intros ? ?]
  | |- wp (match ?x with _ => _ end) _ _ _ => destruct x eqn:?
  | |- wp (let '(_, _) := ?x in _) _ _ _ => destruct x eqn:?
  | |- wp (let _ := _ in _) _ _ _ => cbv zeta
  | |- wp ((fun _ => _) _) _ _ _ => cbv beta
  end.
Ltac wp_steps := repeat (wp_step; cbv beta).

(** ** Results that succeeded *)
Lemma ok_or_Ok {E A} (o : option A) (e : E) a : ok_or o e = Ok a <-> o = Some a.
Proof. destruct o; simpl; split; congruence. Qed.

Lemma map_err_Ok {E F A} (f : E -> F) (r : result E A) a : map_err f r = Ok a <-> r = Ok a.
Proof. destruct r; simpl; split; congruence. Qed.

Create Rewrite HintDb results.
#[export] Hint Rewrite @ok_or_Ok @map_err_Ok : results.

(** Rewrites every hypothesis about a conversion that succeeded. *)
Ltac simp_results := autorewrite with results in *.

(** Two equations about one computation agree: substitutes, or closes the
    goal when they cannot. *)
Ltac determine :=
  repeat match goal with
  | H1 : ?x = Ok _, H2 : ?x = _ |- _ => rewrite H1 in H2; first [injection H2 as <- | simplify_eq]
  | H1 : ?x = Some _, H2 : ?x = _ |- _ => rewrite H1 in H2; first [injection H2 as <- | simplify_eq]
  | H1 : ?x = None, H2 : ?x = _ |- _ => rewrite H1 in H2; first [discriminate H2 | simplify_eq]
  | H1 : ?x = (_, _), H2 : ?x = _ |- _ => rewrite H1 in H2; first [injection H2 as <- <- | simplify_eq]
  | H1 : ?x = true, H2 : ?x = _ |- _ => rewrite H1 in H2; first [discriminate H2 | clear H2]
  | H1 : ?x = false, H2 : ?x = _ |- _ => rewrite H1 in H2; first [discriminate H2 | clear H2]
  | H1 : ok_or ?o _ = Err _, H2 : ?o = Some _ |- _ => rewrite H2 in H1; discriminate
  | H1 : map_err _ ?o = Err _, H2 : ?o = Ok _ |- _ => rewrite H2 in H1; discriminate
  | H1 : map_err _ (Ok _) = Err _ |- _ => discriminate
  | H1 : ok_or (Some _) _ = Err _ |- _ => discriminate
  | H1 : ?x = None, H2 : is_Some ?x |- _ => exfalso; pose proof H2 as [? ?]; congruence
  | H1 : true = false |- _ => discriminate H1
  | H1 : false = true |- _ => discriminate H1
  | H1 : _ /\ _ |- _ => destruct H1
  end.
