(* ===== verification/RustStd.v ===== *)
(** * The parts of the Rust standard library the daemon uses

    Machine integers are [Z] with their width written out; bytes are [Z] in
    [0, 256); [String] and [&str] are byte strings ([String.string]); an
    [Ipv4Addr] is its big-endian [u32] value.  Text is UTF-8, so [trim] works
    on the characters of the byte string. *)
From S2P Require Import Prelude.

(** ** Machine integers *)
Definition u8_max : Z := 255.
Definition u16_max : Z := 65535.
Definition u32_max : Z := 4294967295.
Definition u64_max : Z := 18446744073709551615.

Definition is_u8 (z : Z) : Prop := 0 <= z <= u8_max.
Definition is_u16 (z : Z) : Prop := 0 <= z <= u16_max.
Definition is_u32 (z : Z) : Prop := 0 <= z <= u32_max.
Definition is_u64 (z : Z) : Prop := 0 <= z <= u64_max.

#[export] Instance is_u8_dec z : Decision (is_u8 z).
Proof. unfold is_u8. apply _. Defined.
#[export] Instance is_u16_dec z : Decision (is_u16 z).
Proof. unfold is_u16. apply _. Defined.
#[export] Instance is_u32_dec z : Decision (is_u32 z).
Proof. unfold is_u32. apply _. Defined.
#[export] Instance is_u64_dec z : Decision (is_u64 z).
Proof. unfold is_u64. apply _. Defined.

Definition wrap_u16 (z : Z) : Z := z mod 2 ^ 16.
Definition wrap_u32 (z : Z) : Z := z mod 2 ^ 32.
Definition wrap_u64 (z : Z) : Z := z mod 2 ^ 64.
Definition sat_u32 (z : Z) : Z := Z.max 0 (Z.min z u32_max).

(** [u16::try_from(n).unwrap_or(u16::MAX)]. *)
Definition u16_or_max (z : Z) : Z := if decide (is_u16 z) then z else u16_max.

Definition u16_to_be (z : Z) : list Z := [z / 256 mod 256; z mod 256].
Definition u16_from_be (b0 b1 : Z) : Z := b0 * 256 + b1.
Definition u16_to_le (z : Z) : list Z := [z mod 256; z / 256 mod 256].
Definition u32_to_be (z : Z) : list Z :=
  [z / 2 ^ 24 mod 256; z / 2 ^ 16 mod 256; z / 256 mod 256; z mod 256].
Definition u32_from_be (b0 b1 b2 b3 : Z) : Z :=
  b0 * 2 ^ 24 + b1 * 2 ^ 16 + b2 * 256 + b3.

Definition bytes_ok (l : list Z) : Prop := Forall is_u8 l.

Definition zlen {A} (l : list A) : Z := Z.of_nat (length l).

(** ** Text *)

Definition slen (s : string) : nat := String.length s.

(** [str::split(c)]: never empty. *)
Fixpoint split_on (c : ascii) (s : string) : list string :=
  match s with
  | EmptyString => [EmptyString]
  | String a s' =>
      if decide (a = c) then EmptyString :: split_on c s'
      else match split_on c s' with
           | w :: ws => String a w :: ws
           | [] => [String a EmptyString]
           end
  end.

(** [str::split_once(c)]: at the first occurrence. *)
Fixpoint split_once (c : ascii) (s : string) : option (string * string) :=
  match s with
  | EmptyString => None
  | String a s' =>
      if decide (a = c) then Some (EmptyString, s')
      else match split_once c s' with
           | Some (l, r) => Some (String a l, r)
           | None => None
           end
  end.

Definition code (a : ascii) : Z := Z.of_N (N_of_ascii a).

(** The characters of a UTF-8 string, as byte strings. *)
Definition is_continuation (a : ascii) : bool := (128 <=? code a) && (code a <? 192).
Fixpoint chars (s : string) : list string :=
  match s with
  | EmptyString => []
  | String a s' =>
      match chars s' with
      | String b w :: ws =>
          if is_continuation b then String a (String b w) :: ws
          else String a EmptyString :: String b w :: ws
      | ws => String a EmptyString :: ws
      end
  end.

(** [str::from_utf8] succeeds: every character is in its shortest form, no
    surrogate and at most U+10FFFF. *)
Definition in_range (lo hi : Z) (a : ascii) : bool := (lo <=? code a) && (code a <=? hi).
Fixpoint utf8 (s : string) : bool :=
  match s with
  | EmptyString => true
  | String a s1 =>
      if code a <? 128 then utf8 s1
      else match s1 with
      | EmptyString => false
      | String b s2 =>
          if in_range 194 223 a then is_continuation b && utf8 s2
          else match s2 with
          | EmptyString => false
          | String c s3 =>
              if in_range 224 239 a then
                in_range (if code a =? 224 then 160 else 128) (if code a =? 237 then 159 else 191) b &&
                is_continuation c && utf8 s3
              else match s3 with
              | EmptyString => false
              | String d s4 =>
                  in_range 240 244 a &&
                  in_range (if code a =? 240 then 144 else 128) (if code a =? 244 then 143 else 191) b &&
                  is_continuation c && is_continuation d && utf8 s4
              end
          end
      end
  end.

Definition bytes_string (l : list Z) : string :=
  foldr (fun z s => String (ascii_of_N (Z.to_N z)) s) EmptyString l.

(** [char::is_whitespace]: the Unicode White_Space characters. *)
Definition whitespace_chars : list string :=
  bytes_string <$>
    [[9]; [10]; [11]; [12]; [13]; [32]; [194; 133]; [194; 160]; [225; 154; 128];
     [226; 128; 128]; [226; 128; 129]; [226; 128; 130]; [226; 128; 131];
     [226; 128; 132]; [226; 128; 133]; [226; 128; 134]; [226; 128; 135];
     [226; 128; 136]; [226; 128; 137]; [226; 128; 138]; [226; 128; 168];
     [226; 128; 169]; [226; 128; 175]; [226; 129; 159]; [227; 128; 128]].
Definition is_whitespace (w : string) : bool := bool_decide (w ∈ whitespace_chars).

Fixpoint drop_while {A} (f : A -> bool) (l : list A) : list A :=
  match l with
  | [] => []
  | x :: l' => if f x then drop_while f l' else l
  end.

Definition concat_string (l : list string) : string := foldr String.append EmptyString l.

Definition trim (s : string) : string :=
  concat_string (reverse (drop_while is_whitespace
    (reverse (drop_while is_whitespace (chars s))))).
Definition trim_end (s : string) : string :=
  concat_string (reverse (drop_while is_whitespace (reverse (chars s)))).

Definition is_empty (s : string) : bool := bool_decide (s = EmptyString).

(** [join]: the parts with a separator between them. *)
Fixpoint join (sep : string) (l : list string) : string :=
  match l with
  | [] => EmptyString
  | [w] => w
  | w :: l' => String.append w (String.append sep (join sep l'))
  end.

(** ** Numbers in text *)

(** [char::to_digit(radix)] for radix 10 and 16. *)
Definition digit (radix : Z) (a : ascii) : option Z :=
  let c := code a in
  let d := if (48 <=? c) && (c <=? 57) then Some (c - 48)
           else if (97 <=? c) && (c <=? 122) then Some (c - 87)
           else if (65 <=? c) && (c <=? 90) then Some (c - 55)
           else None in
  match d with Some v => if v <? radix then Some v else None | None => None end.

(** All digits, most significant first; an overflow of [max] is an error at
    the digit where it happens. *)
Fixpoint digits_acc (radix max acc : Z) (s : string) : option Z :=
  match s with
  | EmptyString => Some acc
  | String a s' =>
      match digit radix a with
      | None => None
      | Some d =>
          let acc' := acc * radix + d in
          if acc' <=? max then digits_acc radix max acc' s' else None
      end
  end.

(** [u8::from_str_radix] and the like on an unsigned type: one leading [+]
    is accepted, nothing else but digits. *)
Definition parse_uint (radix max : Z) (s : string) : option Z :=
  match s with
  | EmptyString => None
  | String a EmptyString =>
      if (code a =? 43) || (code a =? 45) then None else digits_acc radix max 0 s
  | String a s' => if code a =? 43 then digits_acc radix max 0 s' else digits_acc radix max 0 s
  end.

Definition parse_u8 (s : string) : option Z := parse_uint 10 u8_max s.
Definition parse_u16 (s : string) : option Z := parse_uint 10 u16_max s.
Definition parse_u8_hex (s : string) : option Z := parse_uint 16 u8_max s.

(** [{}] of an unsigned integer. *)
Definition show_uint (z : Z) : string := pretty (Z.to_N z).

(** [{:02x}] of a byte. *)
Definition hex_digit (d : Z) : ascii :=
  ascii_of_N (Z.to_N (if d <? 10 then 48 + d else 87 + d)).
Definition show_hex2 (b : Z) : string :=
  String (hex_digit (b / 16)) (String (hex_digit (b mod 16)) EmptyString).

(** ** Ipv4Addr *)
Abbreviation Ipv4Addr := Z (only parsing).

Definition ip_new (a b c d : Z) : Ipv4Addr := u32_from_be a b c d.
Definition ip_octets (ip : Ipv4Addr) : list Z := u32_to_be ip.
Definition ip_unspecified : Ipv4Addr := 0.
Definition ip_broadcast : Ipv4Addr := u32_max.

(** An octet in dotted-quad text: one to three digits, no leading zero,
    at most 255. *)
Definition parse_octet (s : string) : option Z :=
  match s with
  | EmptyString => None
  | String a s' =>
      if decide ((3 < slen s)%nat) then None
      else if (code a =? 48) && negb (is_empty s') then None
      else digits_acc 10 u8_max 0 s
  end.

Definition parse_ipv4_addr (s : string) : option Ipv4Addr :=
  match split_on "."%char s with
  | [a; b; c; d] =>
      a ← parse_octet a; b ← parse_octet b; c ← parse_octet c; d ← parse_octet d;
      Some (ip_new a b c d)
  | _ => None
  end.

Definition show_ipv4_addr (ip : Ipv4Addr) : string :=
  join "." (show_uint <$> ip_octets ip).

(** ** Ordered maps: [BTreeMap] iterates by ascending key *)
Definition btree_entries {K V} `{Countable K} (leb : K -> K -> bool) (m : gmap K V) : list (K * V) :=
  merge_sort (fun p q : K * V => Is_true (leb p.1 q.1)) (map_to_list m).

(** ** Paths: [Path::join] replaces the directory when the file is absolute *)
Definition starts_with_slash (s : string) : bool :=
  match s with String a _ => bool_decide (a = "/"%char) | EmptyString => false end.
Fixpoint ends_with_slash (s : string) : bool :=
  match s with
  | EmptyString => false
  | String a EmptyString => bool_decide (a = "/"%char)
  | String _ s' => ends_with_slash s'
  end.
Definition path_join (dir file : string) : string :=
  if starts_with_slash file then file
  else if is_empty dir || ends_with_slash dir then String.append dir file
  else String.append dir (String "/" file).

#[global] Arguments parse_uint : simpl never.
#[global] Arguments parse_u8 : simpl never.
#[global] Arguments parse_u16 : simpl never.
#[global] Arguments parse_u8_hex : simpl never.
#[global] Arguments parse_octet : simpl never.
#[global] Arguments parse_ipv4_addr : simpl never.
#[global] Arguments show_ipv4_addr : simpl never.
#[global] Arguments show_uint : simpl never.
#[global] Arguments show_hex2 : simpl never.
#[global] Arguments trim : simpl never.
#[global] Arguments is_whitespace : simpl never.
#[global] Arguments u16_to_be : simpl never.
#[global] Arguments u32_to_be : simpl never.
#[global] Arguments ip_octets : simpl never.

(** ** Lemmas: integers and bytes *)

Ltac unfold_width :=
  unfold is_u8, is_u16, is_u32, is_u64, u8_max, u16_max, u32_max, u64_max in *.

Lemma is_u8_mod z : is_u8 (z mod 256).
Proof. unfold_width. pose proof (Z.mod_pos_bound z 256). lia. Qed.
#[export] Hint Resolve is_u8_mod : core.

(** Byte lists written out element by element. *)
Ltac solve_bytes :=
  unfold bytes_ok in *; cbn [app];
  repeat first [apply Forall_nil_2 | apply Forall_cons_2; [first [done | auto | by unfold_width]|]
               | apply Forall_app_2]; auto.

Lemma u16_to_be_ok z : bytes_ok (u16_to_be z).
Proof. unfold u16_to_be. solve_bytes. Qed.
Lemma u32_to_be_ok z : bytes_ok (u32_to_be z).
Proof. unfold u32_to_be. solve_bytes. Qed.

Lemma u16_from_to_be z : is_u16 z -> u16_from_be (z / 256 mod 256) (z mod 256) = z.
Proof.
  unfold u16_from_be; unfold_width; intros Hz.
  rewrite (Z.mod_small (z / 256)).
  - pose proof (Z.div_mod z 256). lia.
  - split; [apply Z.div_pos; lia | apply Z.div_lt_upper_bound; lia].
Qed.

Lemma u16_from_be_range b0 b1 : is_u8 b0 -> is_u8 b1 -> is_u16 (u16_from_be b0 b1).
Proof. unfold u16_from_be; unfold_width. lia. Qed.

Lemma u16_from_be_inj a b c d :
  is_u8 a -> is_u8 b -> is_u8 c -> is_u8 d ->
  u16_from_be a b = u16_from_be c d -> a = c /\ b = d.
Proof. unfold u16_from_be; unfold_width. lia. Qed.

Lemma u32_from_be_range a b c d :
  is_u8 a -> is_u8 b -> is_u8 c -> is_u8 d -> is_u32 (u32_from_be a b c d).
Proof. unfold u32_from_be; unfold_width. lia. Qed.

Lemma u32_from_to_be z :
  is_u32 z ->
  u32_from_be (z / 2 ^ 24 mod 256) (z / 2 ^ 16 mod 256) (z / 256 mod 256) (z mod 256) = z.
Proof.
  unfold u32_from_be; unfold_width; intros Hz.
  rewrite (Z.mod_small (z / 2 ^ 24)) by
    (split; [apply Z.div_pos; lia | apply Z.div_lt_upper_bound; lia]).
  pose proof (Z.div_mod z 256 ltac:(lia)) as H0.
  pose proof (Z.div_mod (z / 256) 256 ltac:(lia)) as H1.
  pose proof (Z.div_mod (z / 256 / 256) 256 ltac:(lia)) as H2.
  rewrite !Z.div_div in H1, H2 by lia. rewrite !Z.div_div in H2 by lia.
  change (256 * 256) with (2 ^ 16) in *. change (2 ^ 16 * 256) with (2 ^ 24) in *. lia.
Qed.

Lemma u32_to_from_be a b c d :
  is_u8 a -> is_u8 b -> is_u8 c -> is_u8 d ->
  u32_to_be (u32_from_be a b c d) = [a; b; c; d].
Proof.
  unfold u32_to_be, u32_from_be; unfold_width; intros.
  repeat f_equal; Z.div_mod_to_equations; lia.
Qed.

Lemma u16_to_from_be a b : is_u8 a -> is_u8 b -> u16_to_be (u16_from_be a b) = [a; b].
Proof.
  unfold u16_to_be, u16_from_be; unfold_width; intros.
  repeat f_equal; Z.div_mod_to_equations; lia.
Qed.

Lemma ip_octets_range ip : bytes_ok (ip_octets ip).
Proof. apply u32_to_be_ok. Qed.

Lemma ip_octets_inj a b : is_u32 a -> is_u32 b -> ip_octets a = ip_octets b -> a = b.
Proof.
  intros Ha Hb H. rewrite <- (u32_from_to_be a), <- (u32_from_to_be b) by done.
  unfold ip_octets, u32_to_be in H. simplify_eq. by f_equal.
Qed.

(** ** Lemmas: text *)

Lemma append_assoc a b c : String.append (String.append a b) c = String.append a (String.append b c).
Proof. induction a as [|x a IH]; [done | exact (f_equal (String x) IH)]. Qed.
Lemma append_nil_r a : String.append a EmptyString = a.
Proof. induction a as [|x a IH]; [done | exact (f_equal (String x) IH)]. Qed.
Lemma slen_append a b : slen (String.append a b) = (slen a + slen b)%nat.
Proof. induction a as [|x a IH]; [done | exact (f_equal Datatypes.S IH)]. Qed.
Lemma append_cons x a b : String.append (String x a) b = String x (String.append a b).
Proof. done. Qed.
Lemma append_nil_l b : String.append EmptyString b = b.
Proof. done. Qed.

(** [c] does not occur in [s]. *)
Fixpoint no_char (c : ascii) (s : string) : bool :=
  match s with
  | EmptyString => true
  | String a s' => bool_decide (a <> c) && no_char c s'
  end.

Lemma split_on_no_char c s : no_char c s = true -> split_on c s = [s].
Proof.
  induction s as [|a s IH]; simpl; [done|].
  intros [Ha Hs]%andb_true_iff. apply bool_decide_eq_true in Ha.
  rewrite decide_False by done. by rewrite IH.
Qed.

Lemma split_on_app c w s :
  no_char c w = true -> split_on c (String.append w (String c s)) = w :: split_on c s.
Proof.
  induction w as [|a w IH]; rewrite ?append_cons, ?append_nil_l; simpl.
  - by rewrite decide_True.
  - intros [Ha Hs]%andb_true_iff. apply bool_decide_eq_true in Ha.
    rewrite decide_False by done. by rewrite IH.
Qed.

Lemma split_once_app c w s :
  no_char c w = true -> split_once c (String.append w (String c s)) = Some (w, s).
Proof.
  induction w as [|a w IH]; rewrite ?append_cons, ?append_nil_l; simpl.
  - by rewrite decide_True.
  - intros [Ha Hs]%andb_true_iff. apply bool_decide_eq_true in Ha.
    rewrite decide_False by done. by rewrite IH.
Qed.

Lemma split_on_join c l :
  l <> [] -> Forall (fun w => no_char c w = true) l ->
  split_on c (join (String c EmptyString) l) = l.
Proof.
  intros Hne Hl. induction Hl as [|w l Hw Hl IH]; [done|].
  destruct l as [|w' l']; [by apply split_on_no_char|].
  specialize (IH ltac:(done)). cbn [join] in *.
  by rewrite append_cons, append_nil_l, split_on_app, IH by done.
Qed.

(** A property of all the values of a machine type, by evaluation. *)
Lemma all_u8 (P : Z -> Prop) `{!forall z, Decision (P z)} :
  forallb (fun n => bool_decide (P (Z.of_nat n))) (seq 0 256) = true ->
  forall z, is_u8 z -> P z.
Proof.
  intros Hall z Hz. unfold_width. rewrite forallb_forall in Hall.
  specialize (Hall (Z.to_nat z)). rewrite in_seq, Z2Nat.id in Hall by lia.
  eapply bool_decide_eq_true, Hall. lia.
Qed.

Lemma digit_pretty d : (d < 10)%N -> digit 10 (pretty_N_char d) = Some (Z.of_N d).
Proof.
  intros Hd.
  assert (d = 0 \/ d = 1 \/ d = 2 \/ d = 3 \/ d = 4 \/ d = 5 \/ d = 6 \/ d = 7 \/ d = 8 \/ d = 9)%N
    as Hcases by lia.
  by repeat destruct Hcases as [->|Hcases]; subst.
Qed.

(** Reading the decimal digits [pretty] writes: [s] is what follows them. *)
Lemma digits_acc_pretty max x s :
  Z.of_N x <= max ->
  digits_acc 10 max 0 (pretty_N_go x s) = digits_acc 10 max (Z.of_N x) s.
Proof.
  revert s. induction (N.lt_wf_0 x) as [x _ IH]. intros s Hmax.
  destruct (decide (x = 0%N)) as [->|Hx]; [by rewrite pretty_N_go_0|].
  pose proof (N.div_mod x 10 ltac:(done)). pose proof (N.mod_lt x 10 ltac:(done)).
  pose proof (N.div_lt x 10 ltac:(lia) ltac:(done)).
  rewrite pretty_N_go_step by lia.
  rewrite IH by lia. cbn [digits_acc].
  rewrite digit_pretty by done.
  replace (Z.of_N (x / 10) * 10 + Z.of_N (x mod 10)) with (Z.of_N x) by lia.
  by destruct (Z.leb_spec (Z.of_N x) max); [|lia].
Qed.

(** A digit is not a sign, so [from_str] reads the digits from the start. *)
Lemma parse_uint_digits max s v :
  s <> EmptyString -> digits_acc 10 max 0 s = Some v -> parse_uint 10 max s = Some v.
Proof.
  destruct s as [|a s]; [done|]. intros _ Hd.
  assert ((code a =? 43) = false /\ (code a =? 45) = false) as [H43 H45].
  { simpl in Hd. unfold digit in Hd. cbv zeta in Hd.
    destruct (Z.eqb_spec (code a) 43) as [E|], (Z.eqb_spec (code a) 45) as [E'|];
      try done; by (rewrite E in Hd || rewrite E' in Hd). }
  unfold parse_uint. rewrite H43, H45. by destruct s.
Qed.

Lemma parse_show_uint max z : 0 <= z <= max -> parse_uint 10 max (show_uint z) = Some z.
Proof.
  intros Hz. unfold show_uint, pretty, pretty_N.
  destruct (decide (Z.to_N z = 0%N)) as [H0|H0].
  - assert (z = 0) as -> by lia. apply parse_uint_digits; [done|]. simpl.
    change (0 * 10 + (code "0" - 48)) with 0. by rewrite (proj2 (Z.leb_le 0 max)) by lia.
  - apply parse_uint_digits.
    + intros Heq. apply (f_equal (digits_acc 10 max 0)) in Heq.
      rewrite digits_acc_pretty in Heq by lia. simpl in Heq. injection Heq. lia.
    + rewrite digits_acc_pretty by lia. simpl. f_equal. lia.
Qed.

Lemma parse_show_u16 b : is_u16 b -> parse_u16 (show_uint b) = Some b.
Proof. apply parse_show_uint. Qed.

Lemma parse_show_octet b : is_u8 b -> parse_octet (show_uint b) = Some b.
Proof. revert b. refine (all_u8 _ _). by vm_compute. Qed.

Lemma parse_show_u8 b : is_u8 b -> parse_u8 (show_uint b) = Some b.
Proof. apply parse_show_uint. Qed.

Lemma show_octet_no_char b :
  is_u8 b -> no_char "."%char (show_uint b) = true /\ no_char "/"%char (show_uint b) = true.
Proof. revert b. refine (all_u8 _ _). by vm_compute. Qed.

Lemma parse_show_hex2 b : is_u8 b -> parse_u8_hex (show_hex2 b) = Some b.
Proof. revert b. refine (all_u8 _ _). by vm_compute. Qed.

Lemma show_hex2_shape b :
  is_u8 b -> slen (show_hex2 b) = 2%nat /\ no_char ":"%char (show_hex2 b) = true.
Proof. revert b. refine (all_u8 _ _). by vm_compute. Qed.

Lemma parse_show_ipv4 ip : is_u32 ip -> parse_ipv4_addr (show_ipv4_addr ip) = Some ip.
Proof.
  intros Hip. unfold parse_ipv4_addr, show_ipv4_addr.
  rewrite split_on_join.
  - unfold ip_octets, u32_to_be. cbn [fmap list_fmap].
    rewrite !parse_show_octet by auto. simpl. unfold ip_new.
    by rewrite u32_from_to_be.
  - done.
  - rewrite Forall_fmap. eapply Forall_impl; [apply ip_octets_range|].
    intros b Hb. by apply show_octet_no_char.
Qed.

Lemma show_ipv4_inj a b :
  is_u32 a -> is_u32 b -> show_ipv4_addr a = show_ipv4_addr b -> a = b.
Proof.
  intros Ha Hb H. apply (f_equal parse_ipv4_addr) in H.
  rewrite !parse_show_ipv4 in H by done. congruence.
Qed.

Lemma digit_nonneg radix a d : digit radix a = Some d -> 0 <= d.
Proof. unfold digit. intros H. repeat case_match; simplify_eq; lia. Qed.

Lemma digits_acc_range radix max acc s v :
  0 <= radix -> 0 <= acc <= max -> digits_acc radix max acc s = Some v -> 0 <= v <= max.
Proof.
  intros Hr. revert acc. induction s as [|a s IH]; simpl; intros acc Hacc; [naive_solver|].
  destruct (digit radix a) as [d|] eqn:Hd; [|done].
  destruct (Z.leb_spec (acc * radix + d) max); [|done].
  apply IH. split; [|done]. apply digit_nonneg in Hd. nia.
Qed.

Lemma parse_octet_range s v : parse_octet s = Some v -> is_u8 v.
Proof.
  unfold parse_octet. repeat case_match; try done.
  apply digits_acc_range; unfold_width; lia.
Qed.

Lemma parse_uint_range radix max s v :
  0 <= radix -> 0 <= max -> parse_uint radix max s = Some v -> 0 <= v <= max.
Proof.
  intros Hr Hm. unfold parse_uint.
  repeat case_match; try done; intros Hd;
    apply digits_acc_range in Hd; lia.
Qed.

Lemma parse_ipv4_range s ip : parse_ipv4_addr s = Some ip -> is_u32 ip.
Proof.
  unfold parse_ipv4_addr. intros H. repeat case_match; try done.
  repeat match goal with
  | H : (?o ≫= _) = Some _ |- _ =>
      let E := fresh "E" in destruct o eqn:E; simpl in H; [apply parse_octet_range in E|done]
  end. simplify_eq. by apply u32_from_be_range.
Qed.

(** ** [(lo..=hi).find(f)] *)
Fixpoint find_from (f : Z -> bool) (lo : Z) (n : nat) : option Z :=
  match n with
  | O => None
  | Datatypes.S n' => if f lo then Some lo else find_from f (lo + 1) n'
  end.
Definition range_find (f : Z -> bool) (lo hi : Z) : option Z :=
  find_from f lo (Z.to_nat (hi - lo + 1)).

Lemma find_from_Some f lo n v :
  find_from f lo n = Some v ->
  lo <= v < lo + Z.of_nat n /\ f v = true /\ forall w, lo <= w < v -> f w = false.
Proof.
  revert lo. induction n as [|n IH]; simpl; intros lo H; [done|].
  destruct (f lo) eqn:E; simplify_eq.
  - split_and!; [lia|lia|done|]. intros; lia.
  - apply IH in H as (Hr & Hv & Hlow). split_and!; [lia|lia|done|].
    intros w Hw. destruct (decide (w = lo)) as [->|]; [done|]. apply Hlow. lia.
Qed.

Lemma find_from_None f lo n :
  find_from f lo n = None -> forall w, lo <= w < lo + Z.of_nat n -> f w = false.
Proof.
  revert lo. induction n as [|n IH]; simpl; intros lo H w Hw; [lia|].
  destruct (f lo) eqn:E; [done|].
  destruct (decide (w = lo)) as [->|]; [done|]. apply (IH (lo + 1)); [done|lia].
Qed.

Lemma range_find_Some f lo hi v :
  range_find f lo hi = Some v ->
  lo <= v <= hi /\ f v = true /\ forall w, lo <= w < v -> f w = false.
Proof. intros (?&?&?)%find_from_Some. split_and!; auto; lia. Qed.

Lemma range_find_None f lo hi :
  range_find f lo hi = None -> forall w, lo <= w <= hi -> f w = false.
Proof. intros H w Hw. eapply find_from_None; [exact H|lia]. Qed.
