(* ===== verification/Model.v ===== *)
(** * Domain model (crates/k8netd-core/src/model.rs)

    Networks, MAC addresses, ports and the publish table, with the parsers
    and validating constructors of the source. *)
From S2P Require Import Prelude RustStd.

Inductive ModelError :=
  | EmptyName
  | InvalidCidr (s : string)
  | InvalidGateway (s : string)
  | InvalidPool (s : string)
  | InvalidMac (s : string).

#[export] Instance ModelError_eq_dec : EqDecision ModelError.
Proof. solve_decision. Defined.

(** [impl Display for ModelError]. *)
Definition show_ModelError (e : ModelError) : string :=
  match e with
  | EmptyName => "name must not be empty or whitespace"
  | InvalidCidr s => "invalid IPv4 CIDR: " +:+ s
  | InvalidGateway s => "invalid gateway address: " +:+ s
  | InvalidPool s => "invalid IP pool: " +:+ s
  | InvalidMac s => "invalid MAC address: " +:+ s
  end.

(** ** CIDR blocks *)
Record Ipv4Cidr := { cidr_addr : Ipv4Addr; cidr_prefix : Z }.

#[export] Instance Ipv4Cidr_eq_dec : EqDecision Ipv4Cidr.
Proof. solve_decision. Defined.

(** [u32::MAX << (32 - prefix)], bits above 31 shifted out. *)
Definition mask (c : Ipv4Cidr) : Z :=
  if cidr_prefix c =? 0 then 0 else wrap_u32 (Z.shiftl u32_max (32 - cidr_prefix c)).

Definition netmask (c : Ipv4Cidr) : Ipv4Addr := mask c.

Definition show_cidr (c : Ipv4Cidr) : string :=
  show_ipv4_addr (cidr_addr c) +:+ "/" +:+ show_uint (cidr_prefix c).

Definition parse_cidr (s : string) : result ModelError Ipv4Cidr :=
  '(addr_str, prefix_str) ← ok_or (split_once "/"%char s) (InvalidCidr s);
  addr ← ok_or (parse_ipv4_addr addr_str) (InvalidCidr s);
  prefix ← ok_or (parse_u8 prefix_str) (InvalidCidr s);
  if prefix >? 32 then Err (InvalidCidr s)
  else
    let cidr := {| cidr_addr := addr; cidr_prefix := prefix |} in
    if negb (Z.land addr (mask cidr) =? addr) then Err (InvalidCidr s)
    else Ok cidr.

(** ** Pools and networks *)
Record IpPool := { pool_start : Ipv4Addr; pool_end : Ipv4Addr }.

#[export] Instance IpPool_eq_dec : EqDecision IpPool.
Proof. solve_decision. Defined.

Definition IpPool_new (start end_ : Ipv4Addr) : result ModelError IpPool :=
  if start >? end_ then
    Err (InvalidPool ("start " +:+ show_ipv4_addr start +:+ " is after end " +:+ show_ipv4_addr end_))
  else Ok {| pool_start := start; pool_end := end_ |}.

Record Network := {
  net_name : string;
  net_cidr : Ipv4Cidr;
  net_gateway : Ipv4Addr;
  net_pool : IpPool;
}.

#[export] Instance Network_eq_dec : EqDecision Network.
Proof. solve_decision. Defined.

Definition show_pool (p : IpPool) : string :=
  show_ipv4_addr (pool_start p) +:+ "-" +:+ show_ipv4_addr (pool_end p).

Definition Network_new (name cidr gateway : string) (pool : IpPool) : result ModelError Network :=
  if is_empty (trim name) then Err EmptyName
  else
    cidr ← parse_cidr cidr;
    gateway ← ok_or (parse_ipv4_addr gateway) (InvalidGateway gateway);
    if negb (Z.land gateway (mask cidr) =? cidr_addr cidr) then
      Err (InvalidGateway (show_ipv4_addr gateway +:+ " is outside " +:+ show_cidr cidr))
    else if negb (Z.land (pool_start pool) (mask cidr) =? cidr_addr cidr)
            || negb (Z.land (pool_end pool) (mask cidr) =? cidr_addr cidr) then
      Err (InvalidPool ("pool " +:+ show_pool pool +:+ " is outside " +:+ show_cidr cidr))
    else if (pool_start pool <=? gateway) && (gateway <=? pool_end pool) then
      Err (InvalidPool ("pool " +:+ show_pool pool +:+ " contains gateway " +:+ show_ipv4_addr gateway))
    else Ok {| net_name := name; net_cidr := cidr; net_gateway := gateway; net_pool := pool |}.

(** ** MAC addresses: [MacAddr([u8; 6])] *)
Record MacAddr := Mac { mac0 : Z; mac1 : Z; mac2 : Z; mac3 : Z; mac4 : Z; mac5 : Z }.

#[export] Instance MacAddr_eq_dec : EqDecision MacAddr.
Proof. solve_decision. Defined.
#[export] Instance MacAddr_countable : Countable MacAddr.
Proof.
  apply (inj_countable' (fun m => (mac0 m, mac1 m, mac2 m, mac3 m, mac4 m, mac5 m))
    (fun '(a, b, c, d, e, f) => Mac a b c d e f)).
  by intros [].
Defined.

Definition octets (m : MacAddr) : list Z := [mac0 m; mac1 m; mac2 m; mac3 m; mac4 m; mac5 m].

(** [<[u8; 6]>::try_from(slice)] followed by [MacAddr::from_bytes]. *)
Definition mac_from_bytes (l : list Z) : option MacAddr :=
  match l with [a; b; c; d; e; f] => Some (Mac a b c d e f) | _ => None end.

Fixpoint parse_mac_parts (s : string) (parts : list string) : result ModelError (list Z) :=
  match parts with
  | [] => Ok []
  | part :: rest =>
      if negb (Nat.eqb (slen part) 2) then Err (InvalidMac s)
      else
        octet ← ok_or (parse_u8_hex part) (InvalidMac s);
        octets ← parse_mac_parts s rest;
        Ok (octet :: octets)
  end.

Definition parse_mac (s : string) : result ModelError MacAddr :=
  let parts := split_on ":"%char s in
  if negb (Nat.eqb (length parts) 6) then Err (InvalidMac s)
  else
    octets ← parse_mac_parts s parts;
    ok_or (mac_from_bytes octets) (InvalidMac s).

Definition show_mac (m : MacAddr) : string := join ":" (show_hex2 <$> octets m).

(** ** Ports *)
Record Port := {
  port_name : string;
  port_socket_path : string;
  port_network : option string;
  port_mac : option MacAddr;
  port_ip : option Ipv4Addr;
}.

#[export] Instance Port_eq_dec : EqDecision Port.
Proof. solve_decision. Defined.

Definition Port_new (name socket_path : string) : result ModelError Port :=
  if is_empty (trim name) then Err EmptyName
  else Ok {| port_name := name; port_socket_path := socket_path;
             port_network := None; port_mac := None; port_ip := None |}.

Definition Port_attach (p : Port) (network : string) (mac : MacAddr) (ip : Ipv4Addr) : Port :=
  {| port_name := port_name p; port_socket_path := port_socket_path p;
     port_network := Some network; port_mac := Some mac; port_ip := Some ip |}.

Definition Port_detach (p : Port) : Port :=
  {| port_name := port_name p; port_socket_path := port_socket_path p;
     port_network := None; port_mac := None; port_ip := None |}.

(** ** Records of allocations and leases *)
Record Allocation := { alloc_network : string; alloc_mac : MacAddr; alloc_ip : Ipv4Addr }.
Record DhcpLease := { lease_mac : MacAddr; lease_ip : Ipv4Addr; lease_seconds : Z }.

(** ** The publish table: port name -> vm port -> host port *)
Record PublishTable := { entries : gmap string (gmap Z Z) }.

#[export] Instance PublishTable_eq_dec : EqDecision PublishTable.
Proof. solve_decision. Defined.

Definition pt_empty : PublishTable := {| entries := ∅ |}.

Definition pt_get (t : PublishTable) (port : string) (vm_port : Z) : option Z :=
  m ← entries t !! port; m !! vm_port.

Definition pt_remove_port (t : PublishTable) (port : string) : bool * PublishTable :=
  (bool_decide (is_Some (entries t !! port)), {| entries := delete port (entries t) |}).

Definition pt_remove (t : PublishTable) (port : string) (vm_port : Z) : option Z * PublishTable :=
  match entries t !! port with
  | None => (None, t)
  | Some m =>
      match m !! vm_port with
      | None => (None, t)
      | Some host_port =>
          let m' := delete vm_port m in
          (Some host_port,
           {| entries := if decide (m' = ∅) then delete port (entries t)
                         else <[port := m']> (entries t) |})
      end
  end.

(** The host ports in use, over every port of the table. *)
Definition pt_used (t : PublishTable) : gset Z :=
  list_to_set (map_to_list (entries t) ≫= fun pm => (map_to_list pm.2).*2).

Definition pt_allocate (t : PublishTable) (port : string) (vm_port : Z) (range : Z * Z)
    : option Z * PublishTable :=
  match pt_get t port vm_port with
  | Some host => (Some host, t)
  | None =>
      let used := pt_used t in
      match range_find (fun p => negb (bool_decide (p ∈ used))) range.1 range.2 with
      | None => (None, t)
      | Some host =>
          (Some host,
           {| entries := <[port := <[vm_port := host]> (default ∅ (entries t !! port))]> (entries t) |})
      end
  end.

(** ** The whole persisted state *)
Record State := {
  st_networks : gmap string Network;
  st_ports : gmap string Port;
  st_allocations : list Allocation;
  st_leases : list DhcpLease;
  st_publish_table : PublishTable;
}.
Definition State_default : State :=
  {| st_networks := ∅; st_ports := ∅; st_allocations := []; st_leases := [];
     st_publish_table := pt_empty |}.

#[global] Arguments octets : simpl never.
#[global] Arguments mac_from_bytes : simpl never.
#[global] Arguments mask : simpl never.

(** ** Well-formedness *)
Definition in_cidr (c : Ipv4Cidr) (ip : Ipv4Addr) : Prop := Z.land ip (mask c) = cidr_addr c.

Record wf_cidr (c : Ipv4Cidr) : Prop := {
  wfc_addr : is_u32 (cidr_addr c);
  wfc_prefix : 0 <= cidr_prefix c <= 32;
  wfc_clean : in_cidr c (cidr_addr c);
}.

Record wf_pool (p : IpPool) : Prop := {
  wfp_start : is_u32 (pool_start p);
  wfp_end : is_u32 (pool_end p);
  wfp_order : pool_start p <= pool_end p;
}.

(** Address [ip] belongs to the inclusive pool. *)
Definition in_pool (p : IpPool) (ip : Ipv4Addr) : Prop := pool_start p <= ip <= pool_end p.

Record wf_network (n : Network) : Prop := {
  wfn_name : is_empty (trim (net_name n)) = false;
  wfn_cidr : wf_cidr (net_cidr n);
  wfn_pool : wf_pool (net_pool n);
  wfn_gateway_u32 : is_u32 (net_gateway n);
  wfn_gateway : in_cidr (net_cidr n) (net_gateway n);
  wfn_pool_in : forall ip, in_pool (net_pool n) ip -> in_cidr (net_cidr n) ip;
  wfn_gateway_out : ~ in_pool (net_pool n) (net_gateway n);
}.

Definition wf_mac (m : MacAddr) : Prop := bytes_ok (octets m).

(** ** Lemmas: masks *)

Lemma mask_eq c : 0 <= cidr_prefix c <= 32 -> mask c = 2 ^ 32 - 2 ^ (32 - cidr_prefix c).
Proof.
  unfold mask. intros Hp. destruct (Z.eqb_spec (cidr_prefix c) 0) as [->|Hne]; [done|].
  rewrite Z.shiftl_mul_pow2 by lia. unfold wrap_u32, u32_max.
  set (k := 32 - cidr_prefix c).
  assert (2 ^ k < 2 ^ 32) by (apply Z.pow_lt_mono_r; lia).
  assert (0 < 2 ^ k) by (apply Z.pow_pos_nonneg; lia).
  symmetry. apply (Z.mod_unique _ _ (2 ^ k - 1)); lia.
Qed.

(** Masking rounds an address down to a multiple of the block size. *)
Lemma land_mask c ip :
  is_u32 ip -> 0 <= cidr_prefix c <= 32 ->
  Z.land ip (mask c) = ip / 2 ^ (32 - cidr_prefix c) * 2 ^ (32 - cidr_prefix c).
Proof.
  intros Hip Hp. rewrite mask_eq by done. set (k := 32 - cidr_prefix c).
  assert (Hk : 0 <= k <= 32) by lia.
  replace (2 ^ 32 - 2 ^ k) with (Z.shiftl (Z.ones (32 - k)) k).
  2: { rewrite Z.shiftl_mul_pow2, Z.ones_equiv by lia.
       replace (2 ^ 32) with (2 ^ (32 - k) * 2 ^ k); [nia|].
       rewrite <- Z.pow_add_r by lia. f_equal. lia. }
  rewrite <- Z.shiftr_div_pow2, <- Z.shiftl_mul_pow2 by lia.
  apply Z.bits_inj'. intros n Hn.
  rewrite Z.land_spec, !Z.shiftl_spec by lia.
  destruct (decide (n < k)).
  - rewrite !(Z.testbit_neg_r _ (n - k)) by lia. apply andb_false_r.
  - rewrite Z.shiftr_spec by lia. replace (n - k + k) with n by lia.
    destruct (decide (n < 32)).
    + rewrite Z.ones_spec_low by lia. apply andb_true_r.
    + rewrite Z.ones_spec_high by lia. rewrite andb_false_r. symmetry.
      unfold_width. destruct (decide (ip = 0)) as [->|]; [apply Z.testbit_0_l|].
      apply Z.bits_above_log2; [lia|].
      enough (Z.log2 ip < 32) by lia. apply Z.log2_lt_pow2; lia.
Qed.

(** Being inside a block is convex. *)
Lemma in_cidr_between c lo hi ip :
  0 <= cidr_prefix c <= 32 -> is_u32 lo -> is_u32 hi -> lo <= ip <= hi ->
  in_cidr c lo -> in_cidr c hi -> in_cidr c ip.
Proof.
  unfold in_cidr. intros Hp Hlo Hhi Hip Hl Hh.
  assert (is_u32 ip) by (unfold_width; lia).
  rewrite land_mask in * by done.
  set (b := 2 ^ (32 - cidr_prefix c)) in *.
  assert (0 < b) by (apply Z.pow_pos_nonneg; lia).
  assert (lo / b = hi / b) by nia.
  assert (lo / b <= ip / b <= hi / b) by (split; apply Z.div_le_mono; lia).
  nia.
Qed.

(** The addresses of a block are the [2^(32-prefix)] ones from its address. *)
Lemma in_cidr_range c ip :
  wf_cidr c -> is_u32 ip ->
  in_cidr c ip <-> cidr_addr c <= ip < cidr_addr c + 2 ^ (32 - cidr_prefix c).
Proof.
  intros [Ha Hp Hc] Hip. unfold in_cidr in *. rewrite land_mask in * by done.
  set (b := 2 ^ (32 - cidr_prefix c)) in *.
  assert (0 < b) by (apply Z.pow_pos_nonneg; lia).
  pose proof (Z.div_mod ip b ltac:(lia)). pose proof (Z.mod_pos_bound ip b ltac:(lia)).
  split; [nia|]. intros Hr. rewrite <- Hc in Hr |- *.
  assert (ip / b = cidr_addr c / b); [|nia].
  symmetry. apply Z.div_unique with (ip - cidr_addr c / b * b); lia.
Qed.

Lemma mask_range c : 0 <= cidr_prefix c <= 32 -> is_u32 (mask c).
Proof.
  intros Hp. rewrite mask_eq by done.
  assert (0 < 2 ^ (32 - cidr_prefix c) <= 2 ^ 32).
  { split; [apply Z.pow_pos_nonneg; lia | apply Z.pow_le_mono_r; lia]. }
  unfold_width. lia.
Qed.

(** ** Lemmas: parsers and constructors *)

Ltac inv_result :=
  repeat match goal with
  | H : mbind _ ?r = Ok _ |- _ =>
      let E := fresh "E" in destruct r eqn:E; simpl in H; [|done]
  | H : ok_or _ _ = Ok _ |- _ => apply ok_or_Ok in H
  | H : (let '(_, _) := ?p in _) = Ok _ |- _ => destruct p
  | H : (if ?b then Err _ else _) = Ok _ |- _ =>
      let E := fresh "E" in destruct b eqn:E; [done|]
  | H : Ok _ = Ok _ |- _ => injection H as H; subst
  end.

Lemma parse_cidr_wf s c : parse_cidr s = Ok c -> wf_cidr c.
Proof.
  unfold parse_cidr. intros H. inv_result.
  apply parse_ipv4_range in E0. apply parse_uint_range in E1; [|unfold_width; lia..].
  apply negb_false_iff, Z.eqb_eq in E3.
  destruct (Z.gtb_spec a0 32); [done|].
  split; simpl; [done|lia|done].
Qed.

Lemma show_u8_inj a b : is_u8 a -> is_u8 b -> show_uint a = show_uint b -> a = b.
Proof.
  intros Ha Hb H. apply (f_equal parse_u8) in H.
  rewrite !parse_show_u8 in H by done. congruence.
Qed.

Lemma no_char_append c a b : no_char c (a +:+ b) = no_char c a && no_char c b.
Proof.
  induction a as [|x a IH]; rewrite ?append_cons, ?append_nil_l; simpl; [done|].
  by rewrite IH, andb_assoc.
Qed.

Lemma show_ipv4_no_slash ip : no_char "/"%char (show_ipv4_addr ip) = true.
Proof.
  unfold show_ipv4_addr, ip_octets, u32_to_be. cbn [fmap list_fmap join].
  rewrite !no_char_append. simpl.
  by rewrite !(proj2 (show_octet_no_char _ (is_u8_mod _))).
Qed.

(** Printing a clean CIDR block and parsing the text gives the block back. *)
Theorem cidr_parse_show (c : Ipv4Cidr) : wf_cidr c -> parse_cidr (show_cidr c) = Ok c.
Proof.
  intros [Ha Hp Hc]. unfold parse_cidr, show_cidr.
  rewrite append_cons, append_nil_l, split_once_app by apply show_ipv4_no_slash. simpl.
  rewrite parse_show_ipv4 by done. simpl.
  rewrite parse_show_u8 by (unfold_width; lia). simpl.
  destruct (Z.gtb_spec (cidr_prefix c) 32); [lia|]. unfold in_cidr in Hc. destruct c; simpl in *.
  by rewrite Hc, Z.eqb_refl.
Qed.

Lemma Network_new_wf (name cidr gateway : string) (pool : IpPool) (n : Network) :
  wf_pool pool -> Network_new name cidr gateway pool = Ok n ->
  wf_network n /\ net_name n = name /\ net_pool n = pool /\
  parse_cidr cidr = Ok (net_cidr n) /\ parse_ipv4_addr gateway = Some (net_gateway n).
Proof.
  intros Hpool H. unfold Network_new in H. inv_result. apply orb_false_iff in E3 as [Es Ee].
  apply negb_false_iff, Z.eqb_eq in E2, Es, Ee.
  pose proof (parse_cidr_wf _ _ E0) as Hc. pose proof (parse_ipv4_range _ _ E1).
  split_and!; simpl; auto. destruct Hpool, Hc. split; simpl; try done.
  - intros ip Hin. by apply (in_cidr_between a (pool_start pool) (pool_end pool)).
  - intros [Hl Hr]. apply andb_false_iff in E4 as [?%Z.leb_gt|?%Z.leb_gt]; lia.
Qed.

(** [Network::new] accepts exactly the parameters that make a
    well-formed network: the whole pool (not only its two ends) lies inside
    the CIDR block and the gateway inside the block but outside the pool. *)
Theorem network_new_iff (name cidr gateway : string) (pool : IpPool) (n : Network) :
  wf_pool pool ->
  Network_new name cidr gateway pool = Ok n <->
  wf_network n /\ net_name n = name /\ net_pool n = pool /\
  parse_cidr cidr = Ok (net_cidr n) /\ parse_ipv4_addr gateway = Some (net_gateway n).
Proof.
  intros Hpool. split; [by apply Network_new_wf|].
  intros ([Hn Hc Hp Hg Hgin Hpin Hgout] & <- & <- & Ec & Eg). unfold Network_new.
  rewrite Hn, Ec. simpl. rewrite Eg. simpl. destruct Hp as [? ? Hord].
  pose proof (Hpin _ (conj (Z.le_refl _) Hord)) as Hs.
  pose proof (Hpin _ (conj Hord (Z.le_refl _))) as He.
  unfold in_cidr in Hgin, Hs, He. rewrite Hgin, Hs, He, !Z.eqb_refl. simpl.
  destruct (Z.leb_spec (pool_start (net_pool n)) (net_gateway n));
    destruct (Z.leb_spec (net_gateway n) (pool_end (net_pool n)));
    [exfalso; apply Hgout; split; lia | simpl; by destruct n ..].
Qed.

Lemma IpPool_new_wf s e p : is_u32 s -> is_u32 e -> IpPool_new s e = Ok p -> wf_pool p.
Proof.
  unfold IpPool_new. intros Hs He H. inv_result.
  split; simpl; auto. by destruct (Z.gtb_spec s e).
Qed.

Lemma IpPool_new_reversed s e : (exists m, IpPool_new s e = Err m) <-> e < s.
Proof.
  unfold IpPool_new. destruct (Z.gtb_spec s e); naive_solver lia.
Qed.

Lemma parse_mac_parts_wf s parts l :
  parse_mac_parts s parts = Ok l -> bytes_ok l /\ length l = length parts.
Proof.
  revert l. induction parts as [|p parts IH]; simpl; intros l H; inv_result; [by repeat constructor|].
  apply parse_uint_range in E0; [|unfold_width; lia..].
  destruct (IH _ eq_refl) as [Hl Hlen]. split; [by constructor|simpl; congruence].
Qed.

Lemma mac_from_bytes_octets l m : mac_from_bytes l = Some m -> octets m = l.
Proof. unfold mac_from_bytes. intros H. repeat case_match; by simplify_eq. Qed.
Lemma mac_from_octets m : mac_from_bytes (octets m) = Some m.
Proof. by destruct m. Qed.

Lemma parse_mac_wf s m : parse_mac s = Ok m -> wf_mac m.
Proof.
  unfold parse_mac. intros H. inv_result. apply mac_from_bytes_octets in H.
  apply parse_mac_parts_wf in E0 as [? _]. unfold wf_mac. by rewrite H.
Qed.

Lemma parse_mac_parts_show s l :
  bytes_ok l -> parse_mac_parts s (show_hex2 <$> l) = Ok l.
Proof.
  induction 1 as [|b l Hb Hl IH]; [done|]. cbn [fmap list_fmap parse_mac_parts].
  destruct (show_hex2_shape b Hb) as [-> _]. simpl. rewrite parse_show_hex2 by done. simpl.
  change (list_fmap Z string show_hex2 l) with (show_hex2 <$> l). by rewrite IH.
Qed.

(** The text form of a MAC address parses back to the address. *)
Theorem mac_parse_show (m : MacAddr) : wf_mac m -> parse_mac (show_mac m) = Ok m.
Proof.
  intros Hm. unfold parse_mac, show_mac. rewrite split_on_join.
  - rewrite length_fmap. change (length (octets m)) with 6%nat. cbn [Nat.eqb negb].
    rewrite parse_mac_parts_show by done. by destruct m.
  - done.
  - rewrite Forall_fmap. eapply Forall_impl; [exact Hm|]. intros b Hb. by apply show_hex2_shape.
Qed.

Lemma show_mac_inj a b : wf_mac a -> wf_mac b -> show_mac a = show_mac b -> a = b.
Proof.
  intros Ha Hb H. apply (f_equal parse_mac) in H. rewrite !mac_parse_show in H by done. congruence.
Qed.

(** ** Lemmas: the publish table *)

Lemma elem_of_pt_used t h : h ∈ pt_used t <-> exists p v, pt_get t p v = Some h.
Proof.
  unfold pt_used, pt_get. rewrite elem_of_list_to_set, list_elem_of_bind. split.
  - intros ([p m] & Hh & Hp). apply list_elem_of_fmap in Hh as ([v h'] & -> & Hv).
    apply elem_of_map_to_list in Hp, Hv. exists p, v. by rewrite Hp.
  - intros (p & v & H). destruct (entries t !! p) as [m|] eqn:Hp; [|done].
    exists (p, m). split; [|by apply elem_of_map_to_list].
    apply list_elem_of_fmap. exists (v, h). split; [done|]. by apply elem_of_map_to_list.
Qed.

(** No two published pairs share a host port. *)
Definition pt_unique (t : PublishTable) : Prop :=
  forall p v p' v' h, pt_get t p v = Some h -> pt_get t p' v' = Some h -> p = p' /\ v = v'.
(** Every host port handed out comes from the range. *)
Definition pt_in_range (range : Z * Z) (t : PublishTable) : Prop :=
  forall p v h, pt_get t p v = Some h -> range.1 <= h <= range.2.

Lemma pt_get_insert t port vm h p v :
  pt_get {| entries := <[port := <[vm := h]> (default ∅ (entries t !! port))]> (entries t) |} p v
  = if decide (p = port /\ v = vm) then Some h else pt_get t p v.
Proof.
  unfold pt_get. simpl. destruct (decide (p = port)) as [->|Hp].
  - rewrite lookup_insert_eq. simpl. destruct (decide (v = vm)) as [->|Hv].
    + by rewrite lookup_insert_eq, decide_True.
    + rewrite lookup_insert_ne, decide_False by naive_solver.
      by destruct (entries t !! port).
  - by rewrite lookup_insert_ne, decide_False by naive_solver.
Qed.

Lemma pt_remove_port_get t port p v :
  pt_get (pt_remove_port t port).2 p v = if decide (p = port) then None else pt_get t p v.
Proof.
  unfold pt_get. simpl. destruct (decide (p = port)) as [->|]; simplify_map_eq; done.
Qed.

Lemma pt_remove_port_None t port v : pt_get (pt_remove_port t port).2 port v = None.
Proof. by rewrite pt_remove_port_get, decide_True. Qed.

Lemma pt_remove_get t port vm p v :
  pt_get (pt_remove t port vm).2 p v
  = if decide (p = port /\ v = vm) then None else pt_get t p v.
Proof.
  unfold pt_remove, pt_get. destruct (entries t !! port) as [m|] eqn:Hm; simpl.
  2: { case_decide as Hd; [|done]. destruct Hd as [-> ->]. by rewrite Hm. }
  destruct (m !! vm) as [h|] eqn:Hv; simpl.
  2: { case_decide as Hd; [|done]. destruct Hd as [-> ->]. by rewrite Hm. }
  destruct (decide (p = port)) as [->|Hp].
  - rewrite Hm. case_decide as He; simplify_map_eq.
    + destruct (decide (v = vm)) as [->|Hne]; [by rewrite decide_True|].
      rewrite decide_False by naive_solver.
      rewrite <- (lookup_delete_ne m vm v) by done. by rewrite He.
    + destruct (decide (v = vm)) as [->|Hne].
      * by rewrite lookup_delete_eq, decide_True.
      * by rewrite lookup_delete_ne, decide_False by naive_solver.
  - rewrite (decide_False (P := p = port /\ v = vm)) by naive_solver.
    case_decide; by simplify_map_eq.
Qed.

Lemma pt_remove_result t port vm : (pt_remove t port vm).1 = pt_get t port vm.
Proof. unfold pt_remove, pt_get. by repeat case_match; simplify_eq/=. Qed.

Lemma pt_allocate_cases (t : PublishTable) (port : string) (vm_port : Z) (range : Z * Z) :
  let '(r, t') := pt_allocate t port vm_port range in
  match r with
  | Some h =>
      pt_get t' port vm_port = Some h /\
      (forall p v, ~ (p = port /\ v = vm_port) -> pt_get t' p v = pt_get t p v) /\
      (pt_get t port vm_port = Some h /\ t' = t \/
       pt_get t port vm_port = None /\ range.1 <= h <= range.2 /\ (h ∉ pt_used t) /\
       forall w, range.1 <= w < h -> w ∈ pt_used t)
  | None =>
      t' = t /\ pt_get t port vm_port = None /\ forall w, range.1 <= w <= range.2 -> w ∈ pt_used t
  end.
Proof.
  unfold pt_allocate. destruct (pt_get t port vm_port) as [h|] eqn:Hg; [naive_solver|].
  destruct (range_find _ _ _) as [h|] eqn:Hf.
  - apply range_find_Some in Hf as (Hr & Hfree & Hlow). split_and!.
    + by rewrite pt_get_insert, decide_True.
    + intros p v Hne. by rewrite pt_get_insert, decide_False.
    + right. split_and!; [done|lia..| |].
      * by apply negb_true_iff, bool_decide_eq_false in Hfree.
      * intros w Hw. by apply Hlow, negb_false_iff, bool_decide_eq_true in Hw.
  - split_and!; [done..|]. intros w Hw.
    by apply (range_find_None _ _ _ Hf), negb_false_iff, bool_decide_eq_true in Hw.
Qed.

(** The allocator returns the recorded host port of a published pair,
    otherwise the lowest host port of the range that no pair uses, and
    changes that pair only; it fails, without any change, exactly when every
    host port of the range is in use. *)
Theorem pt_allocate_spec (t : PublishTable) (port : string) (vm_port : Z) (range : Z * Z) :
  let '(r, t') := pt_allocate t port vm_port range in
  match r with
  | Some h =>
      pt_get t' port vm_port = Some h /\
      (forall p v, ~ (p = port /\ v = vm_port) -> pt_get t' p v = pt_get t p v) /\
      (pt_get t port vm_port = Some h /\ t' = t \/
       pt_get t port vm_port = None /\ range.1 <= h <= range.2 /\ (h ∉ pt_used t) /\
       forall w, range.1 <= w < h -> w ∈ pt_used t)
  | None =>
      t' = t /\ pt_get t port vm_port = None /\ forall w, range.1 <= w <= range.2 -> w ∈ pt_used t
  end.
Proof. exact (pt_allocate_cases t port vm_port range). Qed.

(** The operations on the table, and the tables they reach from empty. *)
Inductive pt_reachable (range : Z * Z) : PublishTable -> Prop :=
  | ptr_empty : pt_reachable range pt_empty
  | ptr_allocate t port vm :
      pt_reachable range t -> pt_reachable range (pt_allocate t port vm range).2
  | ptr_remove t port vm :
      pt_reachable range t -> pt_reachable range (pt_remove t port vm).2
  | ptr_remove_port t port :
      pt_reachable range t -> pt_reachable range (pt_remove_port t port).2.

Lemma pt_shrink_inv range t t' :
  (forall p v h, pt_get t' p v = Some h -> pt_get t p v = Some h) ->
  pt_unique t -> pt_in_range range t -> pt_unique t' /\ pt_in_range range t'.
Proof. unfold pt_unique, pt_in_range. naive_solver. Qed.

(** Other pairs keep their host port. *)
Lemma pt_allocate_get t port vm range p v :
  ~ (p = port /\ v = vm) -> pt_get (pt_allocate t port vm range).2 p v = pt_get t p v.
Proof.
  intros Hne. unfold pt_allocate. destruct (pt_get t port vm); [done|].
  case_match; simpl; [|done]. by rewrite pt_get_insert, decide_False.
Qed.

Lemma pt_allocate_unique t port vm range : pt_unique t -> pt_unique (pt_allocate t port vm range).2.
Proof.
  intros Hu. pose proof (pt_allocate_cases t port vm range) as H.
  destruct (pt_allocate t port vm range) as [[h|] t']; simpl; [|naive_solver].
  destruct H as (Hg & Hother & [[_ ->]|(Hnone & Hh & Hfree & _)]); [done|].
  rewrite elem_of_pt_used in Hfree. intros p v p' v' h'.
  destruct (decide (p = port /\ v = vm)) as [[-> ->]|Hne];
    destruct (decide (p' = port /\ v' = vm)) as [[-> ->]|Hne'];
    rewrite ?Hg, ?(Hother p v), ?(Hother p' v') by done; intros H1 H2; simplify_eq;
    first [done | by eapply Hu | exfalso; by eauto].
Qed.

Lemma pt_allocate_inv range t port vm :
  pt_unique t -> pt_in_range range t ->
  pt_unique (pt_allocate t port vm range).2 /\ pt_in_range range (pt_allocate t port vm range).2.
Proof.
  intros Hu Hr. split; [by apply pt_allocate_unique|].
  pose proof (pt_allocate_cases t port vm range) as H.
  destruct (pt_allocate t port vm range) as [[h|] t']; simpl; [|naive_solver].
  destruct H as (Hg & Hother & [[_ ->]|(Hnone & Hh & Hfree & _)]); [done|].
  intros p v h'. destruct (decide (p = port /\ v = vm)) as [[-> ->]|Hne].
  - rewrite Hg. intros [= <-]. lia.
  - rewrite Hother by done. apply Hr.
Qed.

(** Over any sequence of publish, unpublish and port removals the
    published pairs keep distinct host ports, all inside the range. *)
Theorem pt_reachable_unique (range : Z * Z) (t : PublishTable) :
  pt_reachable range t -> pt_unique t /\ pt_in_range range t.
Proof.
  induction 1 as [|t p v _ [Hu Hr]|t p v _ [Hu Hr]|t p _ [Hu Hr]].
  - split; [intros ????? Hg | intros ??? Hg]; unfold pt_get in Hg; simpl in Hg;
      rewrite lookup_empty in Hg; done.
  - by apply pt_allocate_inv.
  - apply (pt_shrink_inv range t); [|done..]. intros p' v' h.
    rewrite pt_remove_get. by case_decide.
  - apply (pt_shrink_inv range t); [|done..]. intros p' v' h.
    rewrite pt_remove_port_get. by case_decide.
Qed.
