(* ===== verification/Ipam.v ===== *)
(** * IP address management (crates/k8netd-core/src/ipam.rs)

    The allocator of one network: MAC -> address bindings, lowest free
    address first. *)
From S2P Require Import Prelude RustStd Model.

Inductive IpamError := PoolExhausted | UnknownMac.

#[export] Instance IpamError_eq_dec : EqDecision IpamError.
Proof. solve_decision. Defined.

Definition show_IpamError (e : IpamError) : string :=
  match e with
  | PoolExhausted => "IP pool exhausted"
  | UnknownMac => "no allocation for the given MAC"
  end.

Record Ipam := { ipam_network : Network; allocations : gmap MacAddr Ipv4Addr }.

#[export] Instance Ipam_eq_dec : EqDecision Ipam.
Proof. solve_decision. Defined.

Definition Ipam_new (network : Network) : Ipam := {| ipam_network := network; allocations := ∅ |}.

Definition into_network (i : Ipam) : Network := ipam_network i.

(** [allocations.values().any(|bound| *bound == ip)]. *)
Definition bound (m : gmap MacAddr Ipv4Addr) (ip : Ipv4Addr) : bool :=
  bool_decide (ip ∈ (map_to_list m).*2).

Definition snapshot (i : Ipam) : gmap string string :=
  list_to_map ((fun '(mac, ip) => (show_mac mac, show_ipv4_addr ip)) <$> map_to_list (allocations i)).

(** One iteration of the restore loop. *)
Definition restore_entry (n : Network) (acc : gmap MacAddr Ipv4Addr) (e : string * string)
    : result string (gmap MacAddr Ipv4Addr) :=
  let '(mac_text, ip_text) := e in
  mac ← map_err (fun e => "invalid MAC " +:+ mac_text +:+ ": " +:+ show_ModelError e) (parse_mac mac_text);
  ip ← ok_or (parse_ipv4_addr ip_text)
         ("invalid IP " +:+ ip_text +:+ ": invalid IPv4 address syntax");
  if (ip <? pool_start (net_pool n)) || (pool_end (net_pool n) <? ip) then
    Err ("IP " +:+ show_ipv4_addr ip +:+ " for " +:+ show_mac mac +:+ " is outside the allocation pool")
  else if bound acc ip then Err ("duplicate IP allocation " +:+ show_ipv4_addr ip)
  else Ok (<[mac := ip]> acc).

Fixpoint restore_entries (n : Network) (acc : gmap MacAddr Ipv4Addr) (l : list (string * string))
    : result string (gmap MacAddr Ipv4Addr) :=
  match l with
  | [] => Ok acc
  | e :: l' => acc' ← restore_entry n acc e; restore_entries n acc' l'
  end.

Definition from_snapshot (network : Network) (s : gmap string string) : result string Ipam :=
  m ← restore_entries network ∅ (btree_entries String.leb s);
  Ok {| ipam_network := network; allocations := m |}.

Definition allocate (i : Ipam) (mac : MacAddr) : result IpamError Ipv4Addr * Ipam :=
  match allocations i !! mac with
  | Some ip => (Ok ip, i)
  | None =>
      match range_find (fun ip => negb (bound (allocations i) ip))
              (pool_start (net_pool (ipam_network i))) (pool_end (net_pool (ipam_network i))) with
      | Some ip =>
          (Ok ip, {| ipam_network := ipam_network i; allocations := <[mac := ip]> (allocations i) |})
      | None => (Err PoolExhausted, i)
      end
  end.

Definition release (i : Ipam) (mac : MacAddr) : result IpamError unit * Ipam :=
  match allocations i !! mac with
  | None => (Err UnknownMac, i)
  | Some _ => (Ok tt, {| ipam_network := ipam_network i; allocations := delete mac (allocations i) |})
  end.

Definition lookup_mac (i : Ipam) (mac : MacAddr) : option Ipv4Addr := allocations i !! mac.

(** ** Invariant: distinct MACs hold distinct addresses, all of the pool *)
Record ipam_ok (i : Ipam) : Prop := {
  ok_network : wf_network (ipam_network i);
  ok_macs : forall m ip, allocations i !! m = Some ip -> wf_mac m;
  ok_pool : forall m ip, allocations i !! m = Some ip -> in_pool (net_pool (ipam_network i)) ip;
  ok_inj : forall m m' ip, allocations i !! m = Some ip -> allocations i !! m' = Some ip -> m = m';
}.

Lemma bound_true m ip : bound m ip = true <-> exists mac, m !! mac = Some ip.
Proof.
  unfold bound. rewrite bool_decide_eq_true, list_elem_of_fmap. split.
  - intros ([mac ip'] & -> & H). apply elem_of_map_to_list in H. eauto.
  - intros [mac H]. exists (mac, ip). split; [done|]. by apply elem_of_map_to_list.
Qed.
Lemma bound_false m ip : bound m ip = false <-> forall mac, m !! mac <> Some ip.
Proof.
  rewrite <- not_true_iff_false, bound_true. naive_solver.
Qed.

Lemma allocate_cases (i : Ipam) (mac : MacAddr) :
  let p := net_pool (ipam_network i) in
  let '(r, i') := allocate i mac in
  ipam_network i' = ipam_network i /\
  match r with
  | Ok ip =>
      lookup_mac i' mac = Some ip /\
      (forall m, m <> mac -> lookup_mac i' m = lookup_mac i m) /\
      (lookup_mac i mac = Some ip \/
       lookup_mac i mac = None /\ in_pool p ip /\ (forall m, lookup_mac i m <> Some ip) /\
       forall w, pool_start p <= w < ip -> exists m, lookup_mac i m = Some w)
  | Err e =>
      e = PoolExhausted /\ i' = i /\ lookup_mac i mac = None /\
      forall w, in_pool p w -> exists m, lookup_mac i m = Some w
  end.
Proof.
  unfold allocate, lookup_mac. simpl.
  destruct (allocations i !! mac) as [ip|] eqn:Hm; [naive_solver|].
  destruct (range_find _ _ _) as [ip|] eqn:Hf; simpl.
  - apply range_find_Some in Hf as (Hr & Hfree & Hlow).
    apply negb_true_iff in Hfree. rewrite bound_false in Hfree.
    split_and!; [done| | |].
    + by rewrite lookup_insert_eq.
    + intros m Hne. by rewrite lookup_insert_ne.
    + right. split_and!; [done|done|done|]. intros w Hw.
      specialize (Hlow w Hw). by apply negb_false_iff, bound_true in Hlow.
  - split_and!; [done..|]. intros w Hw.
    pose proof (range_find_None _ _ _ Hf w Hw) as Hb. by apply negb_false_iff, bound_true in Hb.
Qed.

(** C29: on a MAC without a binding the allocator binds the lowest pool
    address that no MAC holds; a bound MAC gets its address again; every
    other binding is kept; [PoolExhausted] means that the whole pool is
    bound, and then nothing changes. *)
Theorem allocate_spec (i : Ipam) (mac : MacAddr) :
  let p := net_pool (ipam_network i) in
  let '(r, i') := allocate i mac in
  ipam_network i' = ipam_network i /\
  match r with
  | Ok ip =>
      lookup_mac i' mac = Some ip /\
      (forall m, m <> mac -> lookup_mac i' m = lookup_mac i m) /\
      (lookup_mac i mac = Some ip \/
       lookup_mac i mac = None /\ in_pool p ip /\ (forall m, lookup_mac i m <> Some ip) /\
       forall w, pool_start p <= w < ip -> exists m, lookup_mac i m = Some w)
  | Err e =>
      e = PoolExhausted /\ i' = i /\ lookup_mac i mac = None /\
      forall w, in_pool p w -> exists m, lookup_mac i m = Some w
  end.
Proof. exact (allocate_cases i mac). Qed.

Lemma allocate_network i mac : ipam_network (allocate i mac).2 = ipam_network i.
Proof. unfold allocate. by repeat case_match. Qed.

Lemma allocate_lookup i mac ip :
  (allocate i mac).1 = Ok ip -> lookup_mac (allocate i mac).2 mac = Some ip.
Proof.
  unfold allocate, lookup_mac. repeat case_match; simpl; intros; simplify_eq; [done|].
  by rewrite lookup_insert_eq.
Qed.

Lemma allocate_err i mac e : (allocate i mac).1 = Err e -> (allocate i mac).2 = i.
Proof. unfold allocate. by repeat case_match. Qed.

Lemma allocate_error i mac e i' : allocate i mac = (Err e, i') -> e = PoolExhausted.
Proof. unfold allocate. by repeat case_match; intros [= <- _]. Qed.

Lemma release_lookup i mac : lookup_mac (release i mac).2 mac = None.
Proof.
  unfold release, lookup_mac. destruct (allocations i !! mac) eqn:Hm; simpl; [by rewrite lookup_delete_eq|done].
Qed.

Lemma release_error i mac e i' : release i mac = (Err e, i') -> e = UnknownMac.
Proof. unfold release. by case_match; intros [= <- _]. Qed.

Lemma release_network i mac : ipam_network (release i mac).2 = ipam_network i.
Proof. unfold release. by case_match. Qed.

Lemma allocate_ok i mac : wf_mac mac -> ipam_ok i -> ipam_ok (allocate i mac).2.
Proof.
  intros Hmac Hi. pose proof (allocate_cases i mac) as H. cbv zeta in H.
  destruct (allocate i mac) as [[ip|e] i']; simpl; [|by destruct H as (_ & _ & -> & _)].
  destruct H as (Hn & Hl & Hother & Hcase). unfold lookup_mac in *.
  destruct Hi as [Hwf Hmacs Hpool Hinj].
  assert (Hold : forall m ip', allocations i' !! m = Some ip' ->
    (m = mac /\ ip' = ip) \/ (m <> mac /\ allocations i !! m = Some ip')).
  { intros m ip' Hl'. destruct (decide (m = mac)) as [->|]; [left; split; congruence|right].
    by rewrite <- Hother. }
  split; rewrite ?Hn; [done|..].
  - intros m ip' [[-> ->]|[_ ?]]%Hold; eauto.
  - intros m ip' [[-> ->]|[_ ?]]%Hold; [|by eapply Hpool].
    destruct Hcase as [?|(_ & ? & _)]; [by eapply Hpool|done].
  - intros m m' ip' [[-> ->]|[? Hm]]%Hold [[-> Hip]|[? Hm']]%Hold; [done|..];
      destruct Hcase as [?|(_ & _ & Hfree & _)]; subst; naive_solver.
Qed.

Lemma release_ok i mac : ipam_ok i -> ipam_ok (release i mac).2.
Proof.
  intros [Hwf Hmacs Hpool Hinj]. unfold release. destruct (allocations i !! mac); [|done].
  split; simpl; [done|..].
  - intros m ip [_ ?]%lookup_delete_Some. eauto.
  - intros m ip [_ ?]%lookup_delete_Some. eauto.
  - intros m m' ip [_ ?]%lookup_delete_Some [_ ?]%lookup_delete_Some. eauto.
Qed.

(** Release removes exactly the binding of its MAC, and is an error on
    a MAC without one; the freed address can be allocated again. *)
Theorem release_spec (i : Ipam) (mac : MacAddr) :
  let '(r, i') := release i mac in
  ipam_network i' = ipam_network i /\
  (forall m, m <> mac -> lookup_mac i' m = lookup_mac i m) /\
  match r with
  | Ok _ => is_Some (lookup_mac i mac) /\ lookup_mac i' mac = None
  | Err e => e = UnknownMac /\ lookup_mac i mac = None /\ i' = i
  end.
Proof.
  unfold release, lookup_mac. destruct (allocations i !! mac) eqn:Hm; simpl; [|naive_solver].
  split_and!; [done| |by eauto|by rewrite lookup_delete_eq].
  intros m Hne. by rewrite lookup_delete_ne.
Qed.

(** ** Reachable allocators *)
Inductive ipam_reachable (n : Network) : Ipam -> Prop :=
  | ir_new : ipam_reachable n (Ipam_new n)
  | ir_allocate i mac : ipam_reachable n i -> wf_mac mac -> ipam_reachable n (allocate i mac).2
  | ir_release i mac : ipam_reachable n i -> ipam_reachable n (release i mac).2.

Lemma Ipam_new_ok n : wf_network n -> ipam_ok (Ipam_new n).
Proof. intros Hn. split; simpl; [done|intros *; by rewrite lookup_empty..]. Qed.

(** A network created from text parameters, with its fresh address pool. *)
Lemma network_params_ok name c g start end_ a b pool n :
  Network_new name c g pool = Ok n -> IpPool_new a b = Ok pool ->
  parse_ipv4_addr start = Some a -> parse_ipv4_addr end_ = Some b ->
  net_name n = name /\ ipam_ok (Ipam_new n).
Proof.
  intros Hn Hp Ha Hb. destruct (Network_new_wf name c g pool n) as (Hwf & Hname & _); [|done|].
  - eapply IpPool_new_wf; [..|exact Hp]; by eapply parse_ipv4_range.
  - split; [done|]. by apply Ipam_new_ok.
Qed.

Lemma ipam_reachable_network n i : ipam_reachable n i -> ipam_network i = n.
Proof.
  induction 1 as [|i mac _ IH _|i mac _ IH]; [done|..].
  - pose proof (allocate_cases i mac) as Hs. cbv zeta in Hs.
    destruct (allocate i mac). simpl. destruct Hs as [-> _]. done.
  - pose proof (release_spec i mac) as Hs. destruct (release i mac). simpl.
    destruct Hs as [-> _]. done.
Qed.

Lemma ipam_reachable_ok n i : wf_network n -> ipam_reachable n i -> ipam_ok i.
Proof.
  intros Hn. induction 1; eauto using Ipam_new_ok, allocate_ok, release_ok.
Qed.

(** C30: whatever the sequence of allocations and releases on a well-formed
    network, two MACs never hold the same address, every address held is of
    the pool, and no MAC holds the gateway address. *)
Theorem ipam_reachable_safe (n : Network) (i : Ipam) :
  wf_network n -> ipam_reachable n i ->
  (forall m m' ip, lookup_mac i m = Some ip -> lookup_mac i m' = Some ip -> m = m') /\
  (forall m ip, lookup_mac i m = Some ip -> in_pool (net_pool n) ip /\ ip <> net_gateway n).
Proof.
  intros Hn Hr. pose proof (ipam_reachable_ok n i Hn Hr) as [_ _ Hpool Hinj].
  rewrite (ipam_reachable_network n i Hr) in Hpool. unfold lookup_mac. split; [done|].
  intros m ip Hm. split; [by eapply Hpool|]. intros ->.
  by eapply (wfn_gateway_out n Hn), Hpool.
Qed.

(** ** Persistence *)
Definition show_binding (b : MacAddr * Ipv4Addr) : string * string :=
  (show_mac b.1, show_ipv4_addr b.2).

Lemma restore_entry_ok n acc e acc' :
  wf_network n -> ipam_ok {| ipam_network := n; allocations := acc |} ->
  restore_entry n acc e = Ok acc' -> ipam_ok {| ipam_network := n; allocations := acc' |}.
Proof.
  intros Hn [_ Hmacs Hpool Hinj] H. unfold restore_entry in H. simpl in *.
  destruct e as [mt it]. destruct (parse_mac mt) as [mac|] eqn:Em; simpl in H; [|done]. inv_result.
  apply parse_mac_wf in Em. apply orb_false_iff in E0 as [El%Z.ltb_ge Er%Z.ltb_ge].
  rewrite bound_false in E1.
  split; simpl; [done|..].
  - intros m ip [[<- <-]|[_ ?]]%lookup_insert_Some; eauto.
  - intros m ip [[<- <-]|[_ ?]]%lookup_insert_Some; [done|by eapply Hpool].
  - intros m m' ip [[<- <-]|[? ?]]%lookup_insert_Some [[<- ?]|[? ?]]%lookup_insert_Some;
      subst; naive_solver.
Qed.

(** An allocator restored from any snapshot text satisfies the allocator
    invariant: addresses in the pool, held by one MAC each. *)
Theorem from_snapshot_ok (n : Network) (s : gmap string string) (i : Ipam) :
  wf_network n -> from_snapshot n s = Ok i -> ipam_ok i /\ ipam_network i = n.
Proof.
  intros Hn. unfold from_snapshot.
  destruct (restore_entries n ∅ _) as [m|] eqn:E; simpl; [|done]. intros [= <-].
  split; [|done]. revert E. generalize (btree_entries String.leb s) as l.
  assert (Hok : ipam_ok {| ipam_network := n; allocations := ∅ |}) by by apply Ipam_new_ok.
  revert Hok. generalize (∅ : gmap MacAddr Ipv4Addr) as acc. intros acc Hok l. revert acc Hok.
  induction l as [|e l IH]; simpl; intros acc Hok E; [by simplify_eq|].
  destruct (restore_entry n acc e) as [acc'|] eqn:Ee; simpl in E; [|done].
  eapply IH, E. by eapply restore_entry_ok.
Qed.

Lemma restore_entries_show n acc l :
  (forall b, b ∈ l -> wf_mac b.1 /\ in_pool (net_pool n) b.2) ->
  wf_pool (net_pool n) ->
  NoDup (l.*2) -> (forall b mac, b ∈ l -> acc !! mac <> Some b.2) ->
  restore_entries n acc (show_binding <$> l) = Ok (foldl (fun m b => <[b.1 := b.2]> m) acc l).
Proof.
  intros Hl Hp. revert acc. induction l as [|[mac ip] l IH]; intros acc Hnd Hacc; [done|].
  cbn [fmap list_fmap restore_entries foldl show_binding fst snd] in *.
  apply NoDup_cons in Hnd as [Hnin Hnd].
  destruct (Hl (mac, ip) ltac:(left)) as [Hmac Hip]. simpl in *.
  destruct Hp as [Hs He Ho]. unfold in_pool in Hip.
  assert (is_u32 ip) by (unfold_width; lia).
  unfold restore_entry. rewrite mac_parse_show by done. simpl.
  rewrite parse_show_ipv4 by done. simpl.
  destruct (Z.ltb_spec ip (pool_start (net_pool n))); [lia|].
  destruct (Z.ltb_spec (pool_end (net_pool n)) ip); [lia|]. simpl.
  rewrite (proj2 (bound_false acc ip)) by (intros m; apply (Hacc (mac, ip)); left).
  simpl. apply IH; [intros b Hb; apply Hl; by right|done|].
  intros b m Hb [[<- Heq]|[_ ?]]%lookup_insert_Some.
  - apply Hnin. rewrite Heq. by apply list_elem_of_fmap_2.
  - eapply Hacc; [by right|done].
Qed.

Lemma foldl_insert_list_to_map (l : list (MacAddr * Ipv4Addr)) (acc : gmap MacAddr Ipv4Addr) :
  NoDup l.*1 -> (forall b, b ∈ l -> acc !! b.1 = None) ->
  foldl (fun m b => <[b.1 := b.2]> m) acc l = list_to_map l ∪ acc.
Proof.
  revert acc. induction l as [|[k v] l IH]; intros acc Hnd Hacc; simpl.
  { by rewrite (left_id_L ∅ (∪)). }
  apply NoDup_cons in Hnd as [Hnin Hnd]. rewrite IH; [|done|].
  - rewrite <- insert_union_l, <- insert_union_r; [done|]. by apply not_elem_of_list_to_map_1.
  - intros b Hb. simpl in Hnin. rewrite lookup_insert_ne.
    + apply Hacc. by right.
    + intros ->. apply Hnin. by apply list_elem_of_fmap_2.
Qed.

Lemma btree_entries_perm {K V} `{Countable K} leb (m : gmap K V) :
  btree_entries leb m ≡ₚ map_to_list m.
Proof. apply merge_sort_Permutation. Qed.

Lemma snapshot_entries i :
  ipam_ok i -> btree_entries String.leb (snapshot i) ≡ₚ show_binding <$> map_to_list (allocations i).
Proof.
  intros [_ Hmacs _ _]. rewrite btree_entries_perm. unfold snapshot.
  rewrite map_to_list_to_map.
  - apply reflexive_eq, list_fmap_ext. by intros ? [] _.
  - rewrite <- list_fmap_compose.
    apply NoDup_fmap_2_strong.
    + intros [m ip] [m' ip'] Hx Hy Heq. simpl in *.
      apply elem_of_map_to_list in Hx, Hy.
      assert (m = m') as <- by (apply show_mac_inj; eauto). congruence.
    + apply NoDup_map_to_list.
Qed.

(** Persisting an allocator and restoring it gives the same bindings. *)
Theorem snapshot_roundtrip (i : Ipam) :
  ipam_ok i -> from_snapshot (ipam_network i) (snapshot i) = Ok i.
Proof.
  intros Hi. pose proof (snapshot_entries i Hi) as Hp.
  destruct (Permutation_map_inv _ _ Hp) as (l & Hl & Hperm).
  destruct Hi as [Hwf Hmacs Hpool Hinj].
  unfold from_snapshot. rewrite Hl. change (map show_binding l) with (show_binding <$> l).
  rewrite restore_entries_show.
  - simpl. f_equal. destruct i as [n m]. simpl in *. f_equal.
    rewrite foldl_insert_list_to_map.
    + rewrite (right_id_L ∅ (∪)). rewrite <- (list_to_map_to_list m).
      symmetry. apply list_to_map_proper; [|done]. apply NoDup_fst_map_to_list.
    + rewrite <- Hperm. apply NoDup_fst_map_to_list.
    + intros b _. apply lookup_empty.
  - intros [mac ip] Hb. rewrite <- Hperm in Hb. apply elem_of_map_to_list in Hb. simpl.
    split; [by eapply Hmacs|by eapply Hpool].
  - apply Hwf.
  - rewrite <- Hperm. apply NoDup_fmap_2_strong; [|apply NoDup_map_to_list].
    intros [m ip] [m' ip'] Hx Hy Heq. simpl in *. subst.
    apply elem_of_map_to_list in Hx, Hy. f_equal. eauto.
  - intros b mac _. by rewrite lookup_empty.
Qed.

(** ** The allocator as a service

    What an address manager promises its clients (the DHCP server and the
    control plane), independent of how it chooses addresses. *)
Class AddressManager (T : Type) := {
  am_network : T -> Network;
  am_lookup : T -> MacAddr -> option Ipv4Addr;
  am_allocate : T -> MacAddr -> result IpamError Ipv4Addr * T;
}.
Class AddressManagerLaws (T : Type) `{AddressManager T} := {
  am_valid : T -> Prop;
  am_bound_in_pool : forall t m ip, am_valid t -> am_lookup t m = Some ip ->
    in_pool (net_pool (am_network t)) ip;
  am_bound_once : forall t m m' ip, am_valid t ->
    am_lookup t m = Some ip -> am_lookup t m' = Some ip -> m = m';
  am_wf_network : forall t, am_valid t -> wf_network (am_network t);
  am_allocate_valid : forall t m, am_valid t -> wf_mac m -> am_valid (am_allocate t m).2;
  am_allocate_network : forall t m, am_network (am_allocate t m).2 = am_network t;
  am_allocate_binds : forall t m ip, (am_allocate t m).1 = Ok ip ->
    am_lookup (am_allocate t m).2 m = Some ip;
  am_allocate_keeps : forall t m m', m' <> m ->
    am_lookup (am_allocate t m).2 m' = am_lookup t m';
  am_allocate_stable : forall t m ip, am_lookup t m = Some ip ->
    am_allocate t m = (Ok ip, t);
}.

#[export] Instance ipam_manager : AddressManager Ipam :=
  {| am_network := ipam_network; am_lookup := lookup_mac; am_allocate := allocate |}.

#[export] Instance ipam_manager_laws : AddressManagerLaws Ipam.
Proof.
  refine {| am_valid := ipam_ok |}; simpl.
  - intros t m ip [_ _ Hp _]. apply Hp.
  - intros t m m' ip [_ _ _ Hi]. apply Hi.
  - by intros t [? _ _ _].
  - intros t m Ht Hm. by apply allocate_ok.
  - intros t m. pose proof (allocate_cases t m) as H. cbv zeta in H.
    destruct (allocate t m). apply H.
  - intros t m ip. pose proof (allocate_cases t m) as H. cbv zeta in H.
    destruct (allocate t m) as [r t']. simpl. intros ->. apply H.
  - intros t m m' Hne. pose proof (allocate_cases t m) as H. cbv zeta in H.
    destruct (allocate t m) as [[ip|e] t']; simpl; [by apply H|].
    by destruct H as (_ & _ & -> & _).
  - intros t m ip Hl. unfold allocate. unfold lookup_mac in Hl. by rewrite Hl.
Qed.
