(* ===== verification/Frame.v ===== *)
(** * Ethernet frames (crates/k8netd-core/src/switch/frame.rs)

    A frame is its list of bytes; reads that the source indexes are indexed
    here, so that a read out of range would be a panic of the model too. *)
From S2P Require Import Prelude RustStd Model.

Inductive FrameError := TooShort (len : nat).

#[export] Instance FrameError_eq_dec : EqDecision FrameError.
Proof. solve_decision. Defined.

Definition show_FrameError (e : FrameError) : string :=
  match e with
  | TooShort len => "ethernet frame too short: " +:+ show_uint (Z.of_nat len) +:+ " bytes"
  end.

Record ParsedFrame := {
  dst : MacAddr;
  src : MacAddr;
  ethertype : Z;
  payload : list Z;
}.

#[export] Instance ParsedFrame_eq_dec : EqDecision ParsedFrame.
Proof. solve_decision. Defined.

(** [copy_from_slice(&frame[offset..offset + 6])] into a [[u8; 6]]. *)
Definition mac_at (frame : list Z) (offset : nat) : may_panic MacAddr :=
  bytes ← slice frame offset (offset + 6);
  match mac_from_bytes bytes with Some m => Val m | None => Panic end.

(** [u16::from_be_bytes([l[i], l[i + 1]])]. *)
Definition be16_at (l : list Z) (i : nat) : may_panic Z :=
  b0 ← index l i; b1 ← index l (i + 1); Val (u16_from_be b0 b1).

Definition parse (frame : list Z) : may_panic (result FrameError ParsedFrame) :=
  if Nat.ltb (length frame) 14 then Val (Err (TooShort (length frame)))
  else
    d ← mac_at frame 0;
    s ← mac_at frame 6;
    outer ← be16_at frame 12;
    if outer =? 0x8100 then
      if Nat.ltb (length frame) 18 then Val (Err (TooShort (length frame)))
      else
        inner ← be16_at frame 16;
        p ← slice frame 18 (length frame);
        Val (Ok {| dst := d; src := s; ethertype := inner; payload := p |})
    else
      p ← slice frame 14 (length frame);
      Val (Ok {| dst := d; src := s; ethertype := outer; payload := p |}).

(** An untagged frame built from its parts (the fixture of the frame, engine
    and gateway tests). *)
Definition eth_frame (d s : MacAddr) (et : Z) (p : list Z) : list Z :=
  octets d ++ octets s ++ u16_to_be et ++ p.

(** The same with an 802.1Q tag of control information [tci]. *)
Definition tagged_frame (d s : MacAddr) (tci et : Z) (p : list Z) : list Z :=
  octets d ++ octets s ++ u16_to_be 0x8100 ++ u16_to_be tci ++ u16_to_be et ++ p.

(** ** Lemmas *)

Lemma frame_split (frame : list Z) :
  (14 <= length frame)%nat ->
  exists d s e0 e1 rest, frame = octets d ++ octets s ++ e0 :: e1 :: rest.
Proof.
  intros H.
  do 14 (destruct frame as [|? frame]; [simpl in H; lia|]).
  by eexists (Mac _ _ _ _ _ _), (Mac _ _ _ _ _ _), _, _, frame.
Qed.

(** The bytes after the header, by the outer type. *)
Definition parse_rest (d s : MacAddr) (outer : Z) (rest : list Z) : result FrameError ParsedFrame :=
  if outer =? 0x8100 then
    match rest with
    | _ :: _ :: i0 :: i1 :: p => Ok {| dst := d; src := s; ethertype := u16_from_be i0 i1; payload := p |}
    | _ => Err (TooShort (14 + length rest))
    end
  else Ok {| dst := d; src := s; ethertype := outer; payload := rest |}.

Lemma slice_all {A} (l : list A) (n : nat) :
  (n <= length l)%nat -> slice l n (length l) = Val (drop n l).
Proof.
  intros H. unfold slice. rewrite decide_True by lia.
  by rewrite take_ge by (rewrite length_drop; lia).
Qed.

Lemma parse_split d s e0 e1 rest :
  parse (octets d ++ octets s ++ e0 :: e1 :: rest) = Val (parse_rest d s (u16_from_be e0 e1) rest).
Proof.
  unfold parse, parse_rest. set (frame := octets d ++ _).
  assert (Hlen : length frame = (14 + length rest)%nat) by done.
  rewrite Hlen. destruct (Nat.ltb_spec (14 + length rest) 14); [lia|].
  destruct d as [d0 d1 d2 d3 d4 d5], s as [s0 s1 s2 s3 s4 s5].
  assert (mac_at frame 0 = Val (Mac d0 d1 d2 d3 d4 d5)) as ->.
  { unfold mac_at, slice. rewrite decide_True by (rewrite Hlen; lia). done. }
  assert (mac_at frame 6 = Val (Mac s0 s1 s2 s3 s4 s5)) as ->.
  { unfold mac_at, slice. rewrite decide_True by (rewrite Hlen; lia). done. }
  cbn [mbind may_panic_bind].
  change (be16_at frame 12) with (Val (u16_from_be e0 e1)). cbn [mbind may_panic_bind].
  destruct (Z.eqb_spec (u16_from_be e0 e1) 0x8100).
  - destruct rest as [|t0 [|t1 [|i0 [|i1 p]]]]; try done.
    destruct (Nat.ltb_spec (14 + length (t0 :: t1 :: i0 :: i1 :: p)) 18); [simpl in *; lia|].
    change (be16_at frame 16) with (Val (u16_from_be i0 i1)). cbn [mbind may_panic_bind].
    rewrite <- Hlen, slice_all by (rewrite Hlen; simpl; lia). done.
  - rewrite <- Hlen, slice_all by (rewrite Hlen; lia). done.
Qed.

Lemma parse_short frame :
  (length frame < 14)%nat -> parse frame = Val (Err (TooShort (length frame))).
Proof. intros H. unfold parse. by destruct (Nat.ltb_spec (length frame) 14); [|lia]. Qed.

(** The parser never panics: every byte string gets a frame or a
    [TooShort] error carrying its length. *)
Theorem parse_total (frame : list Z) :
  exists r, parse frame = Val r /\ forall e, r = Err e -> e = TooShort (length frame).
Proof.
  destruct (decide (length frame < 14)%nat) as [H|H].
  - exists (Err (TooShort (length frame))). rewrite parse_short by done. naive_solver.
  - destruct (frame_split frame) as (d & s & e0 & e1 & rest & ->); [lia|].
    rewrite parse_split. eexists; split; [done|]. unfold parse_rest.
    intros e He. by repeat case_match; simplify_eq/=.
Qed.

Lemma parse_eth_frame d s et p :
  is_u16 et -> et <> 0x8100 ->
  parse (eth_frame d s et p) = Val (Ok {| dst := d; src := s; ethertype := et; payload := p |}).
Proof.
  intros Het Hne. unfold eth_frame, u16_to_be. cbn [app].
  rewrite parse_split, u16_from_to_be by done. unfold parse_rest.
  by destruct (Z.eqb_spec et 0x8100).
Qed.

Lemma parse_tagged_frame d s tci et p :
  is_u16 et ->
  parse (tagged_frame d s tci et p) = Val (Ok {| dst := d; src := s; ethertype := et; payload := p |}).
Proof.
  intros Het. unfold tagged_frame, u16_to_be. cbn [app].
  rewrite parse_split, (u16_from_to_be 0x8100) by (unfold_width; lia).
  unfold parse_rest. rewrite Z.eqb_refl. by rewrite u16_from_to_be.
Qed.

Lemma parse_ok_cases (frame : list Z) (p : ParsedFrame) :
  bytes_ok frame ->
  parse frame = Val (Ok p) <->
  is_u16 (ethertype p) /\
  (ethertype p <> 0x8100 /\ frame = eth_frame (dst p) (src p) (ethertype p) (payload p) \/
   exists tci, is_u16 tci /\
     frame = tagged_frame (dst p) (src p) tci (ethertype p) (payload p)).
Proof.
  intros Hb. split.
  - intros H. destruct (decide (length frame < 14)%nat) as [Hl|Hl].
    { rewrite parse_short in H by done. done. }
    destruct (frame_split frame) as (d & s & e0 & e1 & rest & ->); [lia|].
    rewrite parse_split in H. apply Forall_app in Hb as [_ [_ Hb]%Forall_app].
    apply Forall_cons in Hb as [He0 Hb]. apply Forall_cons in Hb as [He1 Hb].
    unfold parse_rest in H. destruct (Z.eqb_spec (u16_from_be e0 e1) 0x8100) as [Htag|Htag].
    + destruct rest as [|t0 [|t1 [|i0 [|i1 pl]]]]; try done. simplify_eq/=.
      do 4 (apply Forall_cons in Hb as [? Hb]).
      split; [by apply u16_from_be_range|]. right.
      exists (u16_from_be t0 t1). split; [by apply u16_from_be_range|].
      unfold tagged_frame. rewrite <- Htag, !u16_to_from_be by done. done.
    + simplify_eq/=. split; [by apply u16_from_be_range|]. left. split; [done|].
      unfold eth_frame. by rewrite u16_to_from_be.
  - destruct p as [d s et pl]; simpl. intros [Het [[Hne ->]|(tci & Ht & ->)]].
    + by apply parse_eth_frame.
    + by apply parse_tagged_frame.
Qed.

(** A byte string parses to a frame exactly when it is the untagged or
    the 802.1Q-tagged wire form of that frame; the tag is dropped. *)
Theorem parse_ok_iff (frame : list Z) (p : ParsedFrame) :
  bytes_ok frame ->
  parse frame = Val (Ok p) <->
  is_u16 (ethertype p) /\
  (ethertype p <> 0x8100 /\ frame = eth_frame (dst p) (src p) (ethertype p) (payload p) \/
   exists tci, is_u16 tci /\
     frame = tagged_frame (dst p) (src p) tci (ethertype p) (payload p)).
Proof. exact (parse_ok_cases frame p). Qed.
