(* ===== verification/MacTable.v ===== *)
(** * The MAC learning table (crates/k8netd-core/src/switch/mac_table.rs)

    A table of at most [capacity] MACs with recency stamps from a wrapping
    64-bit clock, and its abstract specification: a recency list. *)
From S2P Require Import Prelude RustStd Model.

(** [PortId(u32)]. *)
Abbreviation PortId := Z (only parsing).

Definition show_PortId (p : PortId) : string := "port " +:+ show_uint p.

Record Entry := { entry_port : PortId; last_seen : Z }.

Record MacTable := {
  capacity : nat;
  clock : Z;
  table_entries : gmap MacAddr Entry;
}.

Definition MacTable_new (capacity : nat) : MacTable :=
  {| capacity := capacity; clock := 0; table_entries := ∅ |}.

(** [iter().min_by_key(last_seen)]: the first of the least elements in the
    order of iteration. *)
Fixpoint min_by_last_seen (l : list (MacAddr * Entry)) : option (MacAddr * Entry) :=
  match l with
  | [] => None
  | x :: l' =>
      match min_by_last_seen l' with
      | None => Some x
      | Some y => if last_seen x.2 <=? last_seen y.2 then Some x else Some y
      end
  end.

Definition learn (t : MacTable) (port : PortId) (mac : MacAddr) : MacTable :=
  if Nat.eqb (capacity t) 0 then t
  else
    let now := wrap_u64 (clock t + 1) in
    match table_entries t !! mac with
    | Some _ =>
        {| capacity := capacity t; clock := now;
           table_entries := <[mac := {| entry_port := port; last_seen := now |}]> (table_entries t) |}
    | None =>
        let kept :=
          if Nat.eqb (size (table_entries t)) (capacity t) then
            match min_by_last_seen (map_to_list (table_entries t)) with
            | Some (lru, _) => delete lru (table_entries t)
            | None => table_entries t
            end
          else table_entries t in
        {| capacity := capacity t; clock := now;
           table_entries := <[mac := {| entry_port := port; last_seen := now |}]> kept |}
    end.

Definition lookup (t : MacTable) (mac : MacAddr) : option PortId :=
  entry_port <$> table_entries t !! mac.

Definition evict (t : MacTable) (mac : MacAddr) : bool * MacTable :=
  (bool_decide (is_Some (table_entries t !! mac)),
   {| capacity := capacity t; clock := clock t; table_entries := delete mac (table_entries t) |}).

Definition table_len (t : MacTable) : nat := size (table_entries t).
Definition table_is_empty (t : MacTable) : bool := bool_decide (table_entries t = ∅).

(** ** The abstract table: MACs from the most to the least recently seen *)
Definition lru_learn (cap : nat) (l : list (MacAddr * PortId)) (port : PortId) (mac : MacAddr)
    : list (MacAddr * PortId) :=
  take cap ((mac, port) :: filter (fun b => b.1 <> mac) l).

Definition forget_stamp (b : MacAddr * Entry) : MacAddr * PortId := (b.1, entry_port b.2).

(** Stamps strictly decrease along the list. *)
Definition newer (a b : MacAddr * Entry) : Prop := last_seen b.2 < last_seen a.2.

(** The table holds the bindings of [l], and its stamps order them. *)
Definition represents (t : MacTable) (l : list (MacAddr * PortId)) : Prop :=
  exists L,
    l = forget_stamp <$> L /\ table_entries t = list_to_map L /\ NoDup L.*1 /\
    StronglySorted newer L /\ Forall (fun b => last_seen b.2 <= clock t) L /\
    (length L <= capacity t)%nat /\ 0 <= clock t.

(** ** Lemmas *)

Lemma min_by_last_seen_spec l :
  match min_by_last_seen l with
  | None => l = []
  | Some m => m ∈ l /\ forall x, x ∈ l -> last_seen m.2 <= last_seen x.2
  end.
Proof.
  induction l as [|x l IH]; simpl; [done|].
  destruct (min_by_last_seen l) as [y|].
  - destruct IH as [Hy Hle]. destruct (Z.leb_spec (last_seen x.2) (last_seen y.2)); split.
    + left.
    + intros z [->|Hz]%elem_of_cons; [lia|]. specialize (Hle z Hz). lia.
    + by right.
    + intros z [->|Hz]%elem_of_cons; [lia|]. by apply Hle.
  - subst. split; [left|]. intros z [->|Hz]%elem_of_cons; [lia|]. by apply elem_of_nil in Hz.
Qed.

(** The victim of an eviction is the last element of the recency list,
    whatever order the hash map iterates in. *)
Lemma min_by_last_seen_last L m l :
  StronglySorted newer (L ++ [m]) -> l ≡ₚ L ++ [m] -> min_by_last_seen l = Some m.
Proof.
  intros Hs Hp. pose proof (min_by_last_seen_spec l) as H.
  assert (Hnewer : forall x, x ∈ L -> newer x m).
  { clear -Hs. induction L as [|y L IH]; [by intros x ?%elem_of_nil|].
    inversion Hs as [|? ? Hs' Hall]; subst. intros x [->|Hx]%elem_of_cons; [|by apply IH].
    rewrite Forall_forall in Hall. apply Hall. set_solver. }
  destruct (min_by_last_seen l) as [x|].
  - destruct H as [Hx Hle]. rewrite Hp in Hx. f_equal.
    specialize (Hle m). rewrite Hp in Hle.
    apply elem_of_app in Hx as [Hx|Hx%list_elem_of_singleton]; [|done].
    apply Hnewer in Hx. unfold newer in Hx.
    assert (m ∈ L ++ [m]) by set_solver. specialize (Hle H). lia.
  - subst. by apply Permutation_nil_l in Hp; destruct L.
Qed.

Lemma Forall_filter_impl {A} (R P : A -> Prop) `{!forall x, Decision (P x)} l :
  Forall R l -> Forall R (filter P l).
Proof. rewrite !Forall_forall. intros Hall x [_ Hx]%list_elem_of_filter. auto. Qed.

Lemma StronglySorted_filter {A} (R : A -> A -> Prop) (P : A -> Prop) `{!forall x, Decision (P x)} l :
  StronglySorted R l -> StronglySorted R (filter P l).
Proof.
  induction 1 as [|x l Hs IH Hall]; [constructor|]. rewrite filter_cons.
  case_decide; [|done]. constructor; [done|]. by apply Forall_filter_impl.
Qed.

Lemma StronglySorted_app_inv_l' {A} (R : A -> A -> Prop) l1 l2 :
  StronglySorted R (l1 ++ l2) -> StronglySorted R l1.
Proof.
  induction l1 as [|x l1 IH]; [constructor|]. simpl. intros H.
  inversion H as [|? ? Hs Hall]; subst. constructor; [by apply IH|].
  by apply Forall_app in Hall as [? _].
Qed.

Lemma list_to_map_filter_ne (L : list (MacAddr * Entry)) mac :
  (list_to_map (filter (fun b => b.1 <> mac) L) : gmap MacAddr Entry) = delete mac (list_to_map L).
Proof.
  induction L as [|[m e] L IH]; [symmetry; apply delete_empty|]. rewrite filter_cons. simpl.
  case_decide as Hd; simpl; rewrite IH.
  - by rewrite delete_insert_ne.
  - assert (m = mac) as -> by (by destruct (decide (m = mac))).
    by rewrite delete_insert_eq.
Qed.

Lemma filter_fmap_forget (L : list (MacAddr * Entry)) mac :
  forget_stamp <$> filter (fun b => b.1 <> mac) L
  = filter (fun b => b.1 <> mac) (forget_stamp <$> L).
Proof.
  induction L as [|[m e] L IH]; [done|]. rewrite fmap_cons, !filter_cons.
  change ((forget_stamp (m, e)).1) with m. change ((m, e).1) with m.
  case_decide; [rewrite fmap_cons|]; by rewrite IH.
Qed.

(** A new head stamped by the advanced clock keeps the list sorted. *)
Lemma represents_push t port mac (L : list (MacAddr * Entry)) (m : gmap MacAddr Entry) :
  clock t < u64_max -> 0 <= clock t ->
  NoDup L.*1 -> mac ∉ L.*1 -> StronglySorted newer L ->
  Forall (fun b => last_seen b.2 <= clock t) L -> (length L < capacity t)%nat ->
  m = list_to_map L ->
  represents
    {| capacity := capacity t; clock := wrap_u64 (clock t + 1);
       table_entries := <[mac := {| entry_port := port; last_seen := wrap_u64 (clock t + 1) |}]> m |}
    ((mac, port) :: (forget_stamp <$> L)).
Proof.
  intros Hc Hc0 Hnd Hnin Hs Hle Hlen ->.
  assert (Hw : wrap_u64 (clock t + 1) = clock t + 1).
  { unfold wrap_u64. apply Z.mod_small. unfold_width. lia. }
  rewrite Hw. exists ((mac, {| entry_port := port; last_seen := clock t + 1 |}) :: L).
  split_and!; simpl; [done|done|by constructor| | |lia|lia].
  - constructor; [done|]. eapply Forall_impl; [exact Hle|]. unfold newer. simpl. lia.
  - constructor; simpl; [lia|]. eapply Forall_impl; [exact Hle|]. simpl. lia.
Qed.

Lemma represents_new cap : represents (MacTable_new cap) [].
Proof.
  exists []. split_and!; simpl; try done; try constructor. lia.
Qed.

Lemma fst_forget (L : list (MacAddr * Entry)) : (forget_stamp <$> L).*1 = L.*1.
Proof. rewrite <- list_fmap_compose. by apply list_fmap_ext. Qed.

Lemma represents_lookup t l mac :
  represents t l -> lookup t mac = (list_to_map l : gmap MacAddr PortId) !! mac.
Proof.
  intros (L & -> & He & _). unfold lookup. rewrite He. clear He.
  induction L as [|[m e] L IH]; simpl; [by rewrite !lookup_empty|].
  destruct (decide (m = mac)) as [->|Hne].
  - by rewrite !lookup_insert_eq.
  - by rewrite !lookup_insert_ne.
Qed.

Lemma represents_nodup t l : represents t l -> NoDup l.*1.
Proof. intros (L & -> & _ & Hnd & _). by rewrite fst_forget. Qed.

Lemma represents_length t l : represents t l -> length l = table_len t.
Proof.
  intros (L & -> & He & Hnd & _). unfold table_len. rewrite He, length_fmap.
  by rewrite map_size_list_to_map.
Qed.

Lemma represents_capacity t l : represents t l -> (length l <= capacity t)%nat.
Proof. intros (L & -> & _ & _ & _ & _ & Hl & _). by rewrite length_fmap. Qed.

Lemma filter_fresh {V} (L : list (MacAddr * V)) mac :
  mac ∉ L.*1 -> filter (fun b => b.1 <> mac) L = L.
Proof.
  induction L as [|[m e] L IH]; [done|]. simpl. rewrite not_elem_of_cons. intros [Hne Hin].
  rewrite filter_cons_True by (simpl; congruence). by rewrite IH.
Qed.

Lemma take_push_app {A} (x y : A) l n :
  S (length l) = n -> take n (x :: l ++ [y]) = x :: l.
Proof. intros <-. simpl. f_equal. by rewrite take_app_length. Qed.

Lemma delete_list_to_map_last {V} (L : list (MacAddr * V)) mac v :
  mac ∉ L.*1 -> delete mac (list_to_map (L ++ [(mac, v)]) : gmap MacAddr V) = list_to_map L.
Proof.
  intros Hin. rewrite (list_to_map_app L [(mac, v)]).
  rewrite delete_union. simpl. rewrite insert_empty, delete_singleton_eq, (right_id_L ∅ (∪)).
  apply delete_id. by apply not_elem_of_list_to_map.
Qed.

Lemma learn_represents (t : MacTable) (l : list (MacAddr * PortId)) (port : PortId) (mac : MacAddr) :
  represents t l -> clock t < u64_max ->
  represents (learn t port mac) (lru_learn (capacity t) l port mac).
Proof.
  intros Hr Hc. unfold learn, lru_learn. destruct (Nat.eqb_spec (capacity t) 0) as [H0|H0].
  { rewrite H0. pose proof (represents_capacity t l Hr).
    destruct l; simpl in *; [done|lia]. }
  destruct Hr as (L & -> & He & Hnd & Hs & Hle & Hlen & Hc0). rewrite <- filter_fmap_forget.
  destruct (table_entries t !! mac) as [e|] eqn:Hm.
  - set (L' := filter (fun b => b.1 <> mac) L).
    assert (Hlt : (length L' < length L)%nat).
    { apply length_filter_lt with (mac, e); [|simpl; tauto].
      apply elem_of_list_to_map_2. by rewrite <- He. }
    rewrite take_ge by (simpl; rewrite length_fmap; lia).
    rewrite <- (insert_delete_eq (table_entries t)), He.
    apply represents_push; auto.
    + eapply sublist_NoDup; [exact Hnd|]. apply fmap_sublist, sublist_filter.
    + rewrite list_elem_of_fmap. intros ([m' e'] & -> & [? _]%list_elem_of_filter). by simpl in *.
    + by apply StronglySorted_filter.
    + by apply Forall_filter_impl.
    + lia.
    + unfold L'. by rewrite list_to_map_filter_ne.
  - assert (Hnin : mac ∉ L.*1) by (apply not_elem_of_list_to_map; by rewrite <- He).
    assert (Hf : filter (fun b => b.1 <> mac) L = L) by (by apply filter_fresh).
    rewrite Hf. destruct (Nat.eqb_spec (size (table_entries t)) (capacity t)) as [Hfull|Hroom];
      rewrite He, map_size_list_to_map in * by done.
    + destruct L as [|m L _] using rev_ind; [simpl in Hfull; lia|].
      rewrite length_app in Hfull, Hlen; simpl in Hfull, Hlen.
      rewrite (min_by_last_seen_last L m) by (try apply map_to_list_to_map; done).
      rewrite fmap_app. change (forget_stamp <$> [m]) with [forget_stamp m].
      rewrite take_push_app by (rewrite length_fmap; lia).
      rewrite fmap_app in Hnd, Hnin. apply NoDup_app in Hnd as (Hnd & Hdis & _).
      apply not_elem_of_app in Hnin as [Hnin _]. destruct m as [lru el].
      apply represents_push; auto.
      * by eapply StronglySorted_app_inv_l'.
      * by apply Forall_app in Hle as [? _].
      * lia.
      * apply delete_list_to_map_last. intros H. apply (Hdis _ H). simpl. by left.
    + rewrite take_ge by (simpl; rewrite length_fmap; lia).
      apply represents_push; auto. lia.
Qed.

(** C31: until its 64-bit clock wraps, learning is exactly a move to the
    front of a recency list cut to the capacity: a known MAC is refreshed
    and rebound, a new one enters first and, at capacity, evicts the least
    recently seen. *)
Theorem learn_refines_lru (t : MacTable) (l : list (MacAddr * PortId)) (port : PortId) (mac : MacAddr) :
  represents t l -> clock t < u64_max ->
  represents (learn t port mac) (lru_learn (capacity t) l port mac).
Proof. apply learn_represents. Qed.

Lemma min_by_last_seen_elem l m : min_by_last_seen l = Some m -> m ∈ l.
Proof. intros H. pose proof (min_by_last_seen_spec l) as Hs. rewrite H in Hs. by destruct Hs. Qed.

Lemma learn_capacity t port mac : capacity (learn t port mac) = capacity t.
Proof. unfold learn. repeat case_match; done. Qed.

Lemma learn_bounded t port mac :
  (table_len t <= capacity t)%nat -> (table_len (learn t port mac) <= capacity t)%nat.
Proof.
  unfold learn, table_len. intros Hle. destruct (Nat.eqb_spec (capacity t) 0); [done|].
  destruct (table_entries t !! mac) as [e|] eqn:Hm; simpl.
  { rewrite map_size_insert_Some; [done|by rewrite Hm]. }
  destruct (Nat.eqb_spec (size (table_entries t)) (capacity t)) as [Hfull|Hroom].
  - destruct (min_by_last_seen _) as [[lru e]|] eqn:Hmin.
    + apply min_by_last_seen_elem, elem_of_map_to_list in Hmin.
      assert (lru <> mac) by (intros ->; by rewrite Hmin in Hm).
      rewrite map_size_insert_None by (by rewrite lookup_delete_ne).
      rewrite map_size_delete_Some by eauto. lia.
    + pose proof (min_by_last_seen_spec (map_to_list (table_entries t))) as Hs.
      rewrite Hmin in Hs. apply map_to_list_empty_iff in Hs. rewrite Hs, map_size_empty in Hfull. lia.
  - rewrite map_size_insert_None by done. lia.
Qed.

Lemma learn_lookup t port mac : (capacity t <> 0)%nat -> lookup (learn t port mac) mac = Some port.
Proof.
  intros H. unfold learn, lookup. destruct (Nat.eqb_spec (capacity t) 0); [done|].
  case_match; simpl; by rewrite lookup_insert_eq.
Qed.

(** Any other MAC keeps its binding or is evicted. *)
Lemma learn_lookup_ne t port mac m :
  m <> mac -> lookup (learn t port mac) m = lookup t m \/ lookup (learn t port mac) m = None.
Proof.
  intros H. unfold learn, lookup. destruct (Nat.eqb_spec (capacity t) 0); [by left|].
  case_match; simpl; rewrite lookup_insert_ne by done; [by left|].
  case_match; [|by left]. destruct (min_by_last_seen _) as [[lru e]|]; [|by left].
  destruct (decide (lru = m)) as [->|Hne].
  - right. by rewrite lookup_delete_eq.
  - left. by rewrite lookup_delete_ne.
Qed.

Lemma represents_evict t l mac :
  represents t l -> represents (evict t mac).2 (filter (fun b => b.1 <> mac) l).
Proof.
  intros (L & -> & He & Hnd & Hs & Hle & Hlen & Hc). rewrite <- filter_fmap_forget.
  exists (filter (fun b => b.1 <> mac) L). simpl. split_and!; auto.
  - by rewrite He, list_to_map_filter_ne.
  - eapply sublist_NoDup; [exact Hnd|]. apply fmap_sublist, sublist_filter.
  - by apply StronglySorted_filter.
  - by apply Forall_filter_impl.
  - pose proof (length_filter (fun b => b.1 <> mac) L). lia.
Qed.

Lemma evict_bounded t mac : (table_len (evict t mac).2 <= table_len t)%nat.
Proof.
  unfold table_len, evict. cbn [snd table_entries]. rewrite map_size_delete. case_match; unfold id; lia.
Qed.

(** The operations of the table. *)
Inductive table_op := Learn (port : PortId) (mac : MacAddr) | Evict (mac : MacAddr).

Definition table_step (t : MacTable) (o : table_op) : MacTable :=
  match o with Learn port mac => learn t port mac | Evict mac => (evict t mac).2 end.

(** C39: whatever sequence of learning and eviction a new table goes
    through, wrapped clock included, it never holds more entries than its
    capacity, and a MAC just learned is found on its port. *)
Theorem table_bounded (cap : nat) (ops : list table_op) (port : PortId) (mac : MacAddr) :
  let t := foldl table_step (MacTable_new cap) ops in
  (table_len t <= cap)%nat /\ capacity t = cap /\
  lookup (learn t port mac) mac = (if Nat.eqb cap 0 then None else Some port).
Proof.
  assert (Hinv : forall ops t, (table_len t <= capacity t)%nat -> capacity t = cap ->
    (table_len (foldl table_step t ops) <= cap)%nat /\ capacity (foldl table_step t ops) = cap).
  { clear ops. induction ops as [|o ops IH]; intros t Hl Hc; [simpl; lia|].
    destruct o as [p m|m]; apply IH; simpl.
    - rewrite learn_capacity. by apply learn_bounded.
    - by rewrite learn_capacity.
    - etransitivity; [apply evict_bounded|exact Hl].
    - done. }
  intros t. destruct (Hinv ops (MacTable_new cap)) as [Hlen Hcap]; [simpl; unfold table_len; simpl; rewrite map_size_empty; lia|done|].
  fold t in Hlen, Hcap. split_and!; [done|done|].
  destruct (Nat.eqb_spec cap 0) as [->|H0].
  - unfold learn. rewrite Hcap. simpl. unfold lookup.
    assert (table_entries t = ∅) as -> by (apply map_size_empty_inv; unfold table_len in Hlen; lia).
    by rewrite lookup_empty.
  - apply learn_lookup. lia.
Qed.

(** ** How long a station is remembered *)

(** [mac] is bound to [port] among the [k + 1] most recent MACs. *)
Definition recent (t : MacTable) (mac : MacAddr) (port : PortId) (k : nat) : Prop :=
  exists l i, represents t l /\ l !! i = Some (mac, port) /\ (i <= k)%nat.

Lemma lookup_filter_le {A} (P : A -> Prop) `{!forall x, Decision (P x)} (l : list A) i x :
  l !! i = Some x -> P x -> exists j, (j <= i)%nat /\ filter P l !! j = Some x.
Proof.
  revert i. induction l as [|y l IH]; intros i Hi Hp; [done|]. destruct i as [|i]; simpl in Hi.
  - simplify_eq. exists 0%nat. by rewrite filter_cons_True.
  - destruct (IH i Hi Hp) as (j & Hj & Hl). rewrite filter_cons. case_decide.
    + exists (S j). split; [lia|done].
    + exists j. split; [lia|done].
Qed.

Lemma recent_lookup t mac port k : recent t mac port k -> lookup t mac = Some port.
Proof.
  intros (l & i & Hr & Hi & _). rewrite (represents_lookup _ _ _ Hr).
  apply elem_of_list_to_map; [by eapply represents_nodup|]. by eapply list_elem_of_lookup_2.
Qed.

Lemma learn_recent t l port mac :
  represents t l -> clock t < u64_max -> (capacity t <> 0)%nat ->
  recent (learn t port mac) mac port 0.
Proof.
  intros Hr Hc H0. eexists _, 0%nat. split_and!; [by apply learn_represents| |done].
  unfold lru_learn. by destruct (capacity t).
Qed.

Lemma recent_learn t p m mac port k :
  recent t mac port k -> m <> mac -> clock t < u64_max -> (S k < capacity t)%nat ->
  recent (learn t p m) mac port (S k).
Proof.
  intros (l & i & Hr & Hi & Hk) Hne Hc Hcap.
  destruct (lookup_filter_le (fun b => b.1 <> m) l i (mac, port)) as (j & Hj & Hl);
    [done|simpl; congruence|].
  eexists _, (S j). split_and!; [by apply learn_represents| |lia].
  unfold lru_learn. by rewrite lookup_take_lt by lia.
Qed.

Lemma learn_clock t port mac :
  clock t < u64_max -> 0 <= clock t -> clock t <= clock (learn t port mac) <= clock t + 1.
Proof.
  intros Hc H0. assert (wrap_u64 (clock t + 1) = clock t + 1) as Hw.
  { unfold wrap_u64. apply Z.mod_small. unfold_width. lia. }
  unfold learn. repeat case_match; simpl; rewrite ?Hw; lia.
Qed.

Lemma represents_clock t l : represents t l -> 0 <= clock t.
Proof. by intros (L & _ & _ & _ & _ & _ & _ & Hc). Qed.
