(* ===== verification/Engine.v ===== *)
(** * The forwarding engine (crates/k8netd-core/src/switch/engine.rs)

    One switch for all networks: MAC learning, unicast forwarding and
    flooding, per network. *)
From S2P Require Import Prelude RustStd Model Frame MacTable.

Definition MAC_TABLE_CAPACITY : nat := 1024.
#[global] Opaque MAC_TABLE_CAPACITY.

Record Switch := { ports : gmap PortId string; table : MacTable }.

Definition Switch_new : Switch := {| ports := ∅; table := MacTable_new MAC_TABLE_CAPACITY |}.

Definition add_port (s : Switch) (port : PortId) (network : string) : Switch :=
  {| ports := <[port := network]> (ports s); table := table s |}.

Definition remove_port (s : Switch) (port : PortId) : bool * Switch :=
  (bool_decide (is_Some (ports s !! port)), {| ports := delete port (ports s); table := table s |}).

Definition is_local_unicast (frame : list Z) : may_panic bool :=
  b0 ← index frame 0; Val (Z.land b0 1 =? 0).

Definition flood_set (s : Switch) (network : string) (exclude : PortId) : list PortId :=
  (filter (fun e : PortId * string => e.1 <> exclude /\ e.2 = network) (map_to_list (ports s))).*1.

Definition unicast_egress (s : Switch) (network : string) (ingress : PortId) (d : MacAddr) : list PortId :=
  match lookup (table s) d with
  | Some port =>
      if port =? ingress then []
      else
        match ports s !! port with
        | None => []
        | Some target => if decide (target = network) then [port] else flood_set s network ingress
        end
  | None => flood_set s network ingress
  end.

Definition forward (s : Switch) (ingress : PortId) (frame : list Z)
    : may_panic (list (PortId * list Z) * Switch) :=
  match ports s !! ingress with
  | None => Val ([], s)
  | Some network =>
      parsed ← parse frame;
      match parsed with
      | Err _ => Val ([], s)
      | Ok p =>
          let s' := {| ports := ports s; table := learn (table s) ingress (src p) |} in
          local ← is_local_unicast frame;
          let egress := if local : bool then unicast_egress s' network ingress (dst p)
                        else flood_set s' network ingress in
          Val ((fun port => (port, frame)) <$> egress, s')
      end
  end.

(** ** What the engine promises *)

(** The destination is a group address (its I bit is set). *)
Definition is_group (m : MacAddr) : Prop := Z.land (mac0 m) 1 <> 0.

(** A frame [p] that arrives at [ingress] is delivered to [port]: same
    network, never the ingress, and the destination is a group address, is
    not known on a live port of this network, or was learned on [port]. *)
Definition delivers (s : Switch) (ingress : PortId) (p : ParsedFrame) (port : PortId) : Prop :=
  exists network,
    ports s !! ingress = Some network /\ ports s !! port = Some network /\ port <> ingress /\
    (is_group (dst p) \/
     match lookup (table s) (dst p) with
     | None => True
     | Some q => q <> ingress /\ (q = port \/ exists other, ports s !! q = Some other /\ other <> network)
     end).

Lemma elem_of_flood_set s network x port :
  port ∈ flood_set s network x <-> port <> x /\ ports s !! port = Some network.
Proof.
  unfold flood_set. rewrite list_elem_of_fmap. split.
  - intros ([q n] & -> & [[Hne Hn] Hin]%list_elem_of_filter). simpl in *. subst n.
    by apply elem_of_map_to_list in Hin.
  - intros [Hne Hp]. exists (port, network). split; [done|].
    apply list_elem_of_filter. split; [done|]. by apply elem_of_map_to_list.
Qed.

Lemma NoDup_flood_set s network x : NoDup (flood_set s network x).
Proof.
  unfold flood_set. eapply sublist_NoDup; [apply (NoDup_fst_map_to_list (ports s))|].
  apply fmap_sublist, sublist_filter.
Qed.

Lemma NoDup_unicast_egress s network x d : NoDup (unicast_egress s network x d).
Proof.
  unfold unicast_egress. repeat case_match; auto using NoDup_nil_2, NoDup_flood_set.
  apply NoDup_singleton.
Qed.

(** Past the parser, the first byte is the first octet of the destination. *)
Lemma is_local_unicast_parsed frame p :
  parse frame = Val (Ok p) -> is_local_unicast frame = Val (Z.land (mac0 (dst p)) 1 =? 0).
Proof.
  intros H. destruct (decide (length frame < 14)%nat) as [Hl|Hl].
  { by rewrite parse_short in H by done. }
  destruct (frame_split frame) as (d & s & e0 & e1 & rest & ->); [lia|].
  rewrite parse_split in H. unfold parse_rest in H.
  assert (dst p = d) as -> by (by repeat case_match; simplify_eq/=).
  done.
Qed.

(** One equation for every accepted frame. *)
Lemma forward_accepted s ingress frame network p :
  ports s !! ingress = Some network -> parse frame = Val (Ok p) ->
  let s' := {| ports := ports s; table := learn (table s) ingress (src p) |} in
  forward s ingress frame =
    Val ((fun port => (port, frame)) <$>
           (if Z.land (mac0 (dst p)) 1 =? 0 then unicast_egress s' network ingress (dst p)
            else flood_set s' network ingress), s').
Proof.
  intros Hi Hp. unfold forward. rewrite Hi, Hp. cbn [mbind may_panic_bind].
  by rewrite (is_local_unicast_parsed _ _ Hp).
Qed.

Lemma elem_of_egress s ingress network p port :
  ports s !! ingress = Some network ->
  port ∈ (if Z.land (mac0 (dst p)) 1 =? 0 then unicast_egress s network ingress (dst p)
          else flood_set s network ingress) <-> delivers s ingress p port.
Proof.
  intros Hi. unfold delivers, is_group, unicast_egress.
  destruct (Z.eqb_spec (Z.land (mac0 (dst p)) 1) 0) as [Hz|Hz];
    [|rewrite elem_of_flood_set; naive_solver].
  destruct (lookup (table s) (dst p)) as [q|]; [|rewrite elem_of_flood_set; naive_solver].
  destruct (Z.eqb_spec q ingress) as [->|Hne]; [set_solver|].
  destruct (ports s !! q) as [target|] eqn:Hq; [case_decide|].
  - rewrite list_elem_of_singleton. naive_solver.
  - rewrite elem_of_flood_set. naive_solver.
  - set_solver.
Qed.

Lemma forward_spec (s : Switch) (ingress : PortId) (frame : list Z) :
  exists egress s', forward s ingress frame = Val ((fun port => (port, frame)) <$> egress, s') /\
    ports s' = ports s /\ NoDup egress /\
    match ports s !! ingress, parse frame with
    | Some _, Val (Ok p) =>
        table s' = learn (table s) ingress (src p) /\
        forall port, port ∈ egress <-> delivers s' ingress p port
    | _, _ => egress = [] /\ s' = s
    end.
Proof.
  destruct (ports s !! ingress) as [network|] eqn:Hi.
  2: { exists [], s. unfold forward. rewrite Hi. split_and!; auto using NoDup_nil_2. }
  destruct (parse_total frame) as (r & Hr & _). rewrite Hr. destruct r as [p|e].
  - rewrite (forward_accepted s ingress frame network p Hi Hr).
    eexists _, _. split_and!; [done|done| |done|].
    + case_match; [apply NoDup_unicast_egress|apply NoDup_flood_set].
    + intros port. by apply elem_of_egress.
  - exists [], s. unfold forward. rewrite Hi, Hr. split_and!; auto using NoDup_nil_2.
Qed.

(** C27: forwarding never panics; the ports set is untouched, and exactly the
    live ports that the delivery rule names get the frame, each one once and
    byte for byte. A frame from a dead port, or one that does not parse, is
    dropped without learning. *)
Theorem forward_exact (s : Switch) (ingress : PortId) (frame : list Z) :
  exists egress s', forward s ingress frame = Val ((fun port => (port, frame)) <$> egress, s') /\
    ports s' = ports s /\ NoDup egress /\
    match ports s !! ingress, parse frame with
    | Some _, Val (Ok p) =>
        table s' = learn (table s) ingress (src p) /\
        forall port, port ∈ egress <-> delivers s' ingress p port
    | _, _ => egress = [] /\ s' = s
    end.
Proof. exact (forward_spec s ingress frame). Qed.

(** Frames forwarded one after the other; only the switch is kept. *)
Definition forward_all (s : Switch) (frames : list (PortId * list Z)) : Switch :=
  foldl (fun s '(ingress, frame) =>
    match forward s ingress frame with Val (_, s') => s' | Panic => s end) s frames.

(** A switch as its operations leave it: a full-size table that its recency
    list represents. *)
Definition switch_ok (s : Switch) : Prop :=
  capacity (table s) = MAC_TABLE_CAPACITY /\ exists l, represents (table s) l.

(** A forwarded frame leaves the table alone or learns its source. *)
Lemma forward_table s ingress frame out s' :
  forward s ingress frame = Val (out, s') ->
  ports s' = ports s /\
  (table s' = table s \/
   exists p, parse frame = Val (Ok p) /\ table s' = learn (table s) ingress (src p)).
Proof.
  intros H. destruct (forward_spec s ingress frame) as (egress & s2 & Hf & Hp & _ & Hm).
  rewrite Hf in H. simplify_eq. split; [done|].
  destruct (ports s !! ingress); [|left; by destruct Hm as [_ ->]].
  destruct (parse frame) as [[p|]|]; [|left; by destruct Hm as [_ ->]..].
  right. exists p. by destruct Hm.
Qed.

(** No frame of [later] claims the source address [mac]. *)
Definition not_from (mac : MacAddr) (f : PortId * list Z) : Prop :=
  forall p, parse f.2 = Val (Ok p) -> src p <> mac.

(** One frame, from whatever station, costs at most one tick and one place. *)
Lemma forward_recent s q f mac port k out s' :
  forward s q f = Val (out, s') -> recent (table s) mac port k -> not_from mac (q, f) ->
  clock (table s) < u64_max -> (S k < capacity (table s))%nat ->
  recent (table s') mac port (S k) /\ ports s' = ports s /\
  capacity (table s') = capacity (table s) /\ clock (table s') <= clock (table s) + 1.
Proof.
  intros Hf Hr Hn Hclk Hk. destruct (forward_table _ _ _ _ _ Hf) as (Hp & Ht).
  assert (0 <= clock (table s)) as H0 by (destruct Hr as (l & _ & Hl & _); by eapply represents_clock).
  destruct Ht as [->|(p & Hparse & ->)].
  - destruct Hr as (l & i & ? & ? & ?). split_and!; [|done|done|lia].
    exists l, i. split_and!; [done|done|lia].
  - rewrite learn_capacity. pose proof (learn_clock (table s) q (src p)).
    split_and!; [|done|done|lia]. apply recent_learn; auto.
Qed.

Lemma forward_all_recent (later : list (PortId * list Z)) s mac port k :
  recent (table s) mac port k -> Forall (not_from mac) later ->
  clock (table s) + zlen later < u64_max -> (k + length later < capacity (table s))%nat ->
  let s' := forward_all s later in
  recent (table s') mac port (k + length later) /\ ports s' = ports s /\
  capacity (table s') = capacity (table s) /\ clock (table s') <= clock (table s) + zlen later.
Proof.
  unfold zlen. revert s k. induction later as [|[q f] later IH]; intros s k Hr Hall Hclk Hk.
  { simpl. rewrite Nat.add_0_r. split_and!; [done..|lia]. }
  apply Forall_cons in Hall as [Hn Hall]. simpl in Hclk, Hk. simpl.
  destruct (forward_spec s q f) as (egress & s' & Hf & _). rewrite Hf.
  destruct (forward_recent s q f mac port k _ s' Hf) as (Hr' & Hp & Hc & Hcl); [done|done|lia|lia|].
  destruct (IH s' (S k) Hr' Hall) as (Hr2 & Hp2 & Hc2 & Hcl2); [lia|lia|].
  rewrite <- Nat.add_succ_comm, Hp2, Hp, Hc2, Hc. split_and!; [done..|lia].
Qed.

(** Once a station has sent a frame, a unicast to its address from
    another port of its network goes to its port and to no other, even after
    up to 1023 frames from other stations have passed through the switch. *)
Theorem reply_reaches_station (s : Switch) (p1 p2 : PortId) (network : string)
    (hello reply : list Z) (h r : ParsedFrame) (later : list (PortId * list Z)) :
  switch_ok s -> clock (table s) + 1 + zlen later < u64_max ->
  ports s !! p1 = Some network -> ports s !! p2 = Some network -> p1 <> p2 ->
  parse hello = Val (Ok h) -> Forall (not_from (src h)) later ->
  (length later < 1023)%nat ->
  parse reply = Val (Ok r) -> dst r = src h -> src r <> src h -> ~ is_group (src h) ->
  exists s', forward (forward_all s ((p1, hello) :: later)) p2 reply = Val ([(p1, reply)], s').
Proof.
  intros [Hcap [l Hl]] Hclk H1 H2 Hne Hh Hall Hlen Hr Hd Hs Hg.
  assert (Hclk0 := represents_clock _ _ Hl).
  assert (HC : MAC_TABLE_CAPACITY = 1024%nat) by done.
  assert (Hz : 0 <= zlen later) by (unfold zlen; lia).
  simpl. rewrite (forward_accepted s p1 hello network h H1 Hh).
  set (s1 := {| ports := ports s; table := _ |}).
  pose proof (learn_clock (table s) p1 (src h)) as Hclk1.
  destruct (forward_all_recent later s1 (src h) p1 0) as (Hrec & Hports & Hcap2 & Hclk2).
  - apply learn_recent with l; [done|lia|lia].
  - done.
  - simpl. lia.
  - simpl. rewrite learn_capacity. lia.
  - set (s2 := forward_all s1 later) in *.
    simpl in Hcap2, Hclk2. rewrite learn_capacity in Hcap2.
    rewrite (forward_accepted s2 p2 reply network r) by (rewrite ?Hports; done).
    eexists. f_equal. f_equal. rewrite Hd.
    destruct (Z.eqb_spec (Z.land (mac0 (src h)) 1) 0) as [_|Hx]; [|by destruct Hg].
    unfold unicast_egress. cbn [table ports].
    assert (Hlook : lookup (learn (table s2) p2 (src r)) (src h) = Some p1).
    { eapply recent_lookup, recent_learn; [done|done|lia|lia]. }
    rewrite Hlook. destruct (Z.eqb_spec p1 p2); [done|].
    rewrite Hports. cbn [ports s1]. rewrite H1. by rewrite decide_True.
Qed.
