(* ===== verification/Gateway.v ===== *)
(** * The gateway (crates/k8netd-core/src/switch/gateway.rs)

    The per-network ARP responder and the classifier of WAN egress. *)
From S2P Require Import Prelude RustStd Model Frame MacTable.

Definition ETHERTYPE_ARP : Z := 0x0806.
Definition ETHERTYPE_IPV4 : Z := 0x0800.
Definition ARP_LEN : nat := 28.
Definition IPV4_MIN_HEADER_LEN : nat := 20.
Definition IPV4_MIN_IHL : Z := 5.
Definition IPV4_IHL_UNIT : Z := 4.

Record Gateway := { networks : gmap string Network; gw_ports : gmap PortId string }.

Definition Gateway_new : Gateway := {| networks := ∅; gw_ports := ∅ |}.

Definition gw_add_network (g : Gateway) (n : Network) : Gateway :=
  {| networks := <[net_name n := n]> (networks g); gw_ports := gw_ports g |}.

Definition gw_remove_network (g : Gateway) (name : string) : bool * Gateway :=
  (bool_decide (is_Some (networks g !! name)),
   {| networks := delete name (networks g); gw_ports := gw_ports g |}).

Definition gw_add_port (g : Gateway) (port : PortId) (network : string) : Gateway :=
  {| networks := networks g; gw_ports := <[port := network]> (gw_ports g) |}.

Definition gw_remove_port (g : Gateway) (port : PortId) : bool * Gateway :=
  (bool_decide (is_Some (gw_ports g !! port)),
   {| networks := networks g; gw_ports := delete port (gw_ports g) |}).

Inductive GatewayAction :=
  | L2
  | Wan (frame : list Z)
  | ArpReply (reply : list Z).

#[export] Instance GatewayAction_eq_dec : EqDecision GatewayAction.
Proof. solve_decision. Defined.

(** The conditions short-circuit: the indices after the length guard are in
    range, and the model would panic if they were not. *)
Definition and_then (b : bool) (m : may_panic bool) : may_panic bool :=
  if b then m else Val false.

Definition is_ipv4_over_ethernet_arp_request (payload : list Z) : may_panic bool :=
  and_then (Nat.leb ARP_LEN (length payload)) (
  htype ← be16_at payload 0; and_then (htype =? 1) (
  ptype ← be16_at payload 2; and_then (ptype =? 0x0800) (
  hlen ← index payload 4; and_then (hlen =? 6) (
  plen ← index payload 5; and_then (plen =? 4) (
  op ← be16_at payload 6; Val (op =? 1)))))).

Definition is_valid_ipv4_header (payload : list Z) : may_panic bool :=
  if Nat.ltb (length payload) IPV4_MIN_HEADER_LEN then Val false
  else
    first ← index payload 0;
    let version := Z.shiftr first 4 in
    let ihl := Z.land first 0x0f in
    Val ((version =? 4) && (IPV4_MIN_IHL <=? ihl) && (ihl * IPV4_IHL_UNIT <=? zlen payload)).

Definition gateway_mac (gateway : Ipv4Addr) : list Z := 0x02 :: 0x00 :: ip_octets gateway.

Definition build_arp_reply (request : list Z) (gateway : Ipv4Addr) : may_panic (list Z) :=
  let gw_mac := gateway_mac gateway in
  sha ← slice request 8 14;
  spa ← slice request 14 18;
  Val (sha ++ gw_mac ++ u16_to_be ETHERTYPE_ARP ++ u16_to_be 1 ++ u16_to_be 0x0800 ++ [6] ++ [4]
       ++ u16_to_be 2 ++ gw_mac ++ ip_octets gateway ++ sha ++ spa).

Definition arp_response (network : Network) (parsed : ParsedFrame) : may_panic GatewayAction :=
  let p := payload parsed in
  request ← is_ipv4_over_ethernet_arp_request p;
  if negb request then Val L2
  else
    b0 ← index p 24; b1 ← index p 25; b2 ← index p 26; b3 ← index p 27;
    let tpa := ip_new b0 b1 b2 b3 in
    if negb (tpa =? net_gateway network) then Val L2
    else reply ← build_arp_reply p (net_gateway network); Val (ArpReply reply).

Definition ipv4_egress (network : Network) (parsed : ParsedFrame) (frame : list Z)
    : may_panic GatewayAction :=
  valid ← is_valid_ipv4_header (payload parsed);
  if negb valid then Val L2
  else
    to_gateway ← and_then (Nat.leb 6 (length frame))
      (d ← slice frame 0 6; Val (bool_decide (d = gateway_mac (net_gateway network))));
    Val (if to_gateway : bool then Wan frame else L2).

Definition handle_frame (g : Gateway) (ingress : PortId) (frame : list Z) : may_panic GatewayAction :=
  match gw_ports g !! ingress with
  | None => Val L2
  | Some network_name =>
      match networks g !! network_name with
      | None => Val L2
      | Some network =>
          parsed ← parse frame;
          match parsed with
          | Err _ => Val L2
          | Ok p =>
              if ethertype p =? ETHERTYPE_ARP then arp_response network p
              else if ethertype p =? ETHERTYPE_IPV4 then ipv4_egress network p frame
              else Val L2
          end
      end
  end.

(** ** Wire formats the gateway recognises and produces *)

Definition arp_payload (op : Z) (sha : MacAddr) (spa : Ipv4Addr) (tha : MacAddr) (tpa : Ipv4Addr) : list Z :=
  u16_to_be 1 ++ u16_to_be 0x0800 ++ [6; 4] ++ u16_to_be op ++
  octets sha ++ ip_octets spa ++ octets tha ++ ip_octets tpa.

(** The MAC address of a gateway: [02:00] and the address. *)
Definition gateway_mac_addr (gw : Ipv4Addr) : MacAddr :=
  match ip_octets gw with
  | [a; b; c; d] => Mac 2 0 a b c d
  | _ => Mac 2 0 0 0 0 0
  end.

(** The ARP reply that tells [sha]/[spa] where the gateway is. *)
Definition arp_reply_frame (gw : Ipv4Addr) (sha : MacAddr) (spa : Ipv4Addr) : list Z :=
  eth_frame sha (gateway_mac_addr gw) ETHERTYPE_ARP (arp_payload 2 (gateway_mac_addr gw) gw sha spa).

(** A payload that starts with a whole IPv4 header. *)
Definition ipv4_header_ok (payload : list Z) : Prop :=
  exists first rest, payload = first :: rest /\
    Z.shiftr first 4 = 4 /\ 5 <= Z.land first 0x0f /\ Z.land first 0x0f * 4 <= zlen payload.

(** [ingress] is attached to the configured network [n]. *)
Definition attached (g : Gateway) (ingress : PortId) (n : Network) : Prop :=
  exists name, gw_ports g !! ingress = Some name /\ networks g !! name = Some n.

Definition gateway_ok (g : Gateway) : Prop :=
  forall name n, networks g !! name = Some n -> is_u32 (net_gateway n).

(** The two frames a gateway acts on: an ARP request for its address, which
    it answers to the requester, and an IPv4 packet sent to its MAC, which
    leaves by the WAN as it came. *)
Inductive acts (g : Gateway) (ingress : PortId) (frame : list Z) : GatewayAction -> Prop :=
  | acts_arp n p sha spa tha pad :
      attached g ingress n -> parse frame = Val (Ok p) -> ethertype p = ETHERTYPE_ARP ->
      payload p = arp_payload 1 sha spa tha (net_gateway n) ++ pad -> is_u32 spa ->
      acts g ingress frame (ArpReply (arp_reply_frame (net_gateway n) sha spa))
  | acts_wan n p :
      attached g ingress n -> parse frame = Val (Ok p) -> ethertype p = ETHERTYPE_IPV4 ->
      ipv4_header_ok (payload p) -> dst p = gateway_mac_addr (net_gateway n) ->
      acts g ingress frame (Wan frame).

Lemma gateway_mac_octets gw : octets (gateway_mac_addr gw) = gateway_mac gw.
Proof. done. Qed.

Lemma u16_from_be_eq a b z : is_u8 a -> is_u8 b -> u16_from_be a b = z -> a = z / 256 /\ b = z mod 256.
Proof.
  unfold u16_from_be. intros Ha Hb <-. unfold_width.
  split; [apply Z.div_unique with b|apply Z.mod_unique with a]; lia.
Qed.

Lemma arp_request_total payload :
  exists b, is_ipv4_over_ethernet_arp_request payload = Val b.
Proof.
  unfold is_ipv4_over_ethernet_arp_request, and_then, ARP_LEN.
  destruct (Nat.leb_spec 28 (length payload)) as [H|H]; [|by eexists].
  do 8 (destruct payload as [|? payload]; [simpl in H; lia|]).
  unfold be16_at, index. cbn. repeat (case_match; [|by eexists]). by eexists.
Qed.

Lemma arp_request_inv payload :
  bytes_ok payload -> is_ipv4_over_ethernet_arp_request payload = Val true ->
  exists sha spa tha tpa pad, is_u32 spa /\ is_u32 tpa /\
    payload = arp_payload 1 sha spa tha tpa ++ pad.
Proof.
  unfold is_ipv4_over_ethernet_arp_request, and_then, ARP_LEN.
  destruct (Nat.leb_spec 28 (length payload)) as [H|H]; [|done].
  do 28 (destruct payload as [|? payload]; [simpl in H; lia|]). clear H.
  intros Hb. do 28 (apply Forall_cons in Hb as [? Hb]).
  unfold be16_at, index. cbn -[u16_from_be Z.eqb].
  do 4 (case_match; [|done]). intros Hop. simplify_eq.
  repeat match goal with H : (_ =? _) = true |- _ => apply Z.eqb_eq in H end.
  repeat match goal with
  | H : u16_from_be _ _ = _ |- _ => apply u16_from_be_eq in H as [? ?]; [|done..]
  end. subst.
  match goal with |- context [_ :: _ :: _ :: _ :: _ :: _ :: _ :: _ ::
      ?s0 :: ?s1 :: ?s2 :: ?s3 :: ?s4 :: ?s5 :: ?p0 :: ?p1 :: ?p2 :: ?p3 ::
      ?t0 :: ?t1 :: ?t2 :: ?t3 :: ?t4 :: ?t5 :: ?q0 :: ?q1 :: ?q2 :: ?q3 :: ?pad] =>
    exists (Mac s0 s1 s2 s3 s4 s5), (u32_from_be p0 p1 p2 p3), (Mac t0 t1 t2 t3 t4 t5),
      (u32_from_be q0 q1 q2 q3), pad
  end.
  split_and!; [by apply u32_from_be_range..|].
  unfold arp_payload, ip_octets. by rewrite !u32_to_from_be.
Qed.

(** On a request the responder compares the target and answers. *)
Lemma arp_response_request n p sha spa tha tpa pad :
  is_u32 tpa -> payload p = arp_payload 1 sha spa tha tpa ++ pad ->
  arp_response n p =
    Val (if tpa =? net_gateway n then ArpReply (arp_reply_frame (net_gateway n) sha spa) else L2).
Proof.
  intros Ht Hp. unfold arp_response. rewrite Hp.
  change (is_ipv4_over_ethernet_arp_request (arp_payload 1 sha spa tha tpa ++ pad)) with (Val true).
  cbn [mbind may_panic_bind negb].
  set (l := arp_payload 1 sha spa tha tpa ++ pad).
  change (index l 24) with (Val (tpa / 2 ^ 24 mod 256)).
  change (index l 25) with (Val (tpa / 2 ^ 16 mod 256)).
  change (index l 26) with (Val (tpa / 2 ^ 8 mod 256)).
  change (index l 27) with (Val (tpa mod 256)).
  cbn [mbind may_panic_bind]. unfold ip_new. rewrite u32_from_to_be by done.
  destruct (tpa =? net_gateway n); [|done]. cbn [negb].
  by destruct sha, tha.
Qed.

Lemma arp_response_no_request n p :
  is_ipv4_over_ethernet_arp_request (payload p) = Val false -> arp_response n p = Val L2.
Proof. intros H. unfold arp_response. by rewrite H. Qed.

Lemma valid_ipv4_header_total payload :
  exists b, is_valid_ipv4_header payload = Val b /\ (b = true <-> ipv4_header_ok payload).
Proof.
  unfold is_valid_ipv4_header, ipv4_header_ok, IPV4_MIN_HEADER_LEN, IPV4_MIN_IHL, IPV4_IHL_UNIT.
  destruct (Nat.ltb_spec (length payload) 20) as [H|H].
  - exists false. split; [done|]. split; [done|]. intros (f & r & -> & _ & Hi & Hl).
    unfold zlen in Hl. lia.
  - destruct payload as [|first rest]; [simpl in H; lia|]. eexists. split; [done|].
    rewrite !andb_true_iff, Z.eqb_eq, !Z.leb_le. naive_solver.
Qed.

Lemma handle_frame_attached g ingress frame n p :
  attached g ingress n -> parse frame = Val (Ok p) ->
  handle_frame g ingress frame =
    (if ethertype p =? ETHERTYPE_ARP then arp_response n p
     else if ethertype p =? ETHERTYPE_IPV4 then ipv4_egress n p frame else Val L2).
Proof.
  intros (name & Hp & Hn) Hparse. unfold handle_frame. by rewrite Hp, Hn, Hparse.
Qed.

(** Without an attached, configured network and a parsed frame: plain L2. *)
Lemma handle_frame_l2 g ingress frame :
  (exists n p, attached g ingress n /\ parse frame = Val (Ok p)) \/
  handle_frame g ingress frame = Val L2.
Proof.
  unfold handle_frame, attached. destruct (gw_ports g !! ingress) as [name|]; [|by right].
  destruct (networks g !! name) as [n|] eqn:Hn; [|by right].
  destruct (parse_total frame) as (r & -> & _). destruct r as [p|]; [|by right].
  left. exists n, p. eauto.
Qed.

(** The first six bytes of a parsed frame are its destination. *)
Lemma slice_dst frame p :
  parse frame = Val (Ok p) -> (6 <= length frame)%nat /\ slice frame 0 6 = Val (octets (dst p)).
Proof.
  intros H. destruct (decide (length frame < 14)%nat) as [Hl|Hl].
  { by rewrite parse_short in H by done. }
  split; [lia|].
  destruct (frame_split frame) as (d & s & e0 & e1 & rest & ->); [lia|].
  rewrite parse_split in H. unfold parse_rest in H.
  assert (dst p = d) as -> by (by repeat case_match; simplify_eq/=).
  done.
Qed.

Lemma ipv4_egress_spec n p frame :
  parse frame = Val (Ok p) ->
  ipv4_egress n p frame = Val L2 \/
  ipv4_header_ok (payload p) /\ dst p = gateway_mac_addr (net_gateway n) /\
  ipv4_egress n p frame = Val (Wan frame).
Proof.
  intros Hp. unfold ipv4_egress.
  destruct (valid_ipv4_header_total (payload p)) as (b & -> & Hb). cbn [mbind may_panic_bind].
  destruct b; cbn [negb]; [|by left].
  destruct (slice_dst _ _ Hp) as [Hlen ->]. unfold and_then.
  destruct (Nat.leb_spec 6 (length frame)); [|lia]. cbn [mbind may_panic_bind].
  rewrite <- gateway_mac_octets. case_bool_decide as Hd; [|by left].
  right. split_and!; [by apply Hb| |done].
  apply (f_equal mac_from_bytes) in Hd. rewrite !mac_from_octets in Hd. by injection Hd.
Qed.

Lemma ipv4_egress_wan n p frame :
  parse frame = Val (Ok p) -> ipv4_header_ok (payload p) ->
  dst p = gateway_mac_addr (net_gateway n) -> ipv4_egress n p frame = Val (Wan frame).
Proof.
  intros Hp Hh Hd. unfold ipv4_egress.
  destruct (valid_ipv4_header_total (payload p)) as (b & -> & Hb). apply Hb in Hh as ->.
  destruct (slice_dst _ _ Hp) as [Hlen ->]. cbn [mbind may_panic_bind negb]. unfold and_then.
  destruct (Nat.leb_spec 6 (length frame)); [|lia]. cbn [mbind may_panic_bind].
  by rewrite Hd, <- gateway_mac_octets, bool_decide_eq_true_2.
Qed.

Lemma arp_response_spec n p :
  bytes_ok (payload p) -> is_u32 (net_gateway n) ->
  arp_response n p = Val L2 \/
  exists sha spa tha pad, is_u32 spa /\
    payload p = arp_payload 1 sha spa tha (net_gateway n) ++ pad /\
    arp_response n p = Val (ArpReply (arp_reply_frame (net_gateway n) sha spa)).
Proof.
  intros Hb Hg. destruct (arp_request_total (payload p)) as [[] Hr].
  2: { left. by apply arp_response_no_request. }
  destruct (arp_request_inv _ Hb Hr) as (sha & spa & tha & tpa & pad & Hs & Ht & Hp).
  rewrite (arp_response_request n p sha spa tha tpa pad Ht Hp).
  destruct (Z.eqb_spec tpa (net_gateway n)) as [Heq|]; [|by left].
  right. exists sha, spa, tha, pad. rewrite Heq in Hp. done.
Qed.

#[global] Arguments arp_payload : simpl never.
#[global] Arguments arp_reply_frame : simpl never.
#[global] Arguments gateway_mac : simpl never.

Lemma parsed_payload_bytes frame p :
  bytes_ok frame -> parse frame = Val (Ok p) -> bytes_ok (payload p).
Proof.
  intros Hb Hp. apply parse_ok_cases in Hp as [_ Hcase]; [|done].
  destruct Hcase as [[_ ->]|(tci & _ & ->)]; unfold eth_frame, tagged_frame, bytes_ok in Hb;
    rewrite !Forall_app in Hb; tauto.
Qed.

Lemma attached_gateway_ok g ingress n : gateway_ok g -> attached g ingress n -> is_u32 (net_gateway n).
Proof. intros Hg (name & _ & Hn). by eapply Hg. Qed.

Lemma handle_frame_sound g ingress frame :
  bytes_ok frame -> gateway_ok g ->
  handle_frame g ingress frame = Val L2 \/
  exists a, handle_frame g ingress frame = Val a /\ acts g ingress frame a.
Proof.
  intros Hb Hg. destruct (handle_frame_l2 g ingress frame) as [(n & p & Ha & Hp)|]; [|by left].
  rewrite (handle_frame_attached g ingress frame n p Ha Hp).
  destruct (Z.eqb_spec (ethertype p) ETHERTYPE_ARP) as [He|He].
  - destruct (arp_response_spec n p) as [|(sha & spa & tha & pad & Hs & Hpl & ->)];
      [by eapply parsed_payload_bytes|by eapply attached_gateway_ok|by left|].
    right. eexists. split; [done|]. by eapply acts_arp.
  - destruct (Z.eqb_spec (ethertype p) ETHERTYPE_IPV4) as [H4|H4]; [|by left].
    destruct (ipv4_egress_spec n p frame Hp) as [|(Hh & Hd & ->)]; [by left|].
    right. eexists. split; [done|]. by eapply acts_wan.
Qed.

Lemma handle_frame_complete g ingress frame a :
  gateway_ok g -> acts g ingress frame a -> handle_frame g ingress frame = Val a.
Proof.
  intros Hg Ha. destruct Ha as [n p sha spa tha pad Ha Hp He Hpl Hs|n p Ha Hp He Hh Hd];
    rewrite (handle_frame_attached g ingress frame n p Ha Hp), He.
  - rewrite Z.eqb_refl. rewrite (arp_response_request n p sha spa tha (net_gateway n) pad);
      [by rewrite Z.eqb_refl|by eapply attached_gateway_ok|done].
  - by apply ipv4_egress_wan.
Qed.

(** A valid IPv4 packet goes to the WAN by its destination MAC alone. Its
    destination address is not looked at: inside the network's block or
    outside, a packet for the gateway's MAC leaves, any other stays. *)
Theorem egress_by_mac_alone (g : Gateway) (ingress : PortId) (frame : list Z) (n : Network) (p : ParsedFrame) :
  attached g ingress n -> parse frame = Val (Ok p) -> ethertype p = ETHERTYPE_IPV4 -> ipv4_header_ok (payload p) ->
  handle_frame g ingress frame =
    Val (if decide (dst p = gateway_mac_addr (net_gateway n)) then Wan frame else L2).
Proof.
  intros Ha Hp He Hh. rewrite (handle_frame_attached g ingress frame n p Ha Hp), He. simpl.
  case_decide as Hd; [by apply ipv4_egress_wan|]. by destruct (ipv4_egress_spec n p frame Hp) as [|(_ & ? & _)].
Qed.

(** C28: the gateway never panics, acts exactly on the ARP requests for its
    address and on the IPv4 packets sent to its MAC, and leaves every other
    frame to the switch. This is the rule of [ipv4_egress]'s own comment and
    of the contract; pins 5 and 6 in the module's tests state an older one,
    by the destination address, which the code does not follow
    ([egress_by_mac_alone]). *)
Theorem gateway_exact (g : Gateway) (ingress : PortId) (frame : list Z) :
  bytes_ok frame -> gateway_ok g ->
  exists a, handle_frame g ingress frame = Val a /\
    forall b, acts g ingress frame b <-> a = b /\ b <> L2.
Proof.
  intros Hb Hg. destruct (handle_frame_sound g ingress frame Hb Hg) as [Hl|(a & Ha & Hacts)].
  - exists L2. split; [done|]. intros b. split; [|naive_solver].
    intros H. pose proof (handle_frame_complete _ _ _ _ Hg H) as Hc. rewrite Hl in Hc.
    injection Hc as <-. inversion H.
  - exists a. split; [done|]. intros b. split; [|by intros [<- _]].
    intros H. split; [|by inversion H]. apply handle_frame_complete in H; [|done]. congruence.
Qed.

(** The reply the gateway builds is a 42-byte frame that parses back as
    an ARP reply, unicast to the requester and sent by the gateway MAC. *)
Theorem arp_reply_roundtrip (g : Gateway) (ingress : PortId) (frame reply : list Z) :
  bytes_ok frame -> gateway_ok g -> handle_frame g ingress frame = Val (ArpReply reply) ->
  exists n p sha spa tha pad, attached g ingress n /\ parse frame = Val (Ok p) /\
    payload p = arp_payload 1 sha spa tha (net_gateway n) ++ pad /\
    length reply = 42%nat /\
    parse reply = Val (Ok {| dst := sha; src := gateway_mac_addr (net_gateway n);
      ethertype := ETHERTYPE_ARP;
      payload := arp_payload 2 (gateway_mac_addr (net_gateway n)) (net_gateway n) sha spa |}).
Proof.
  intros Hb Hg H. destruct (handle_frame_sound g ingress frame Hb Hg) as [Hl|(a & Ha & Hacts)];
    rewrite H in *; [done|]. injection Ha as <-.
  inversion Hacts as [n p sha spa tha pad Hn Hp _ Hpl _ Heq|]. exists n, p, sha, spa, tha, pad.
  split_and!; [exact Hn|exact Hp|exact Hpl|done|]. by apply parse_eth_frame.
Qed.
