(* ===== verification/Json.v ===== *)
(** * JSON values (the interface of the serde_json package)

    The package is not part of the repository: the operations of its [Value]
    that the code calls are a class, and the behaviour the proofs rely on is
    the class of laws below it. The last section gives one implementation, a
    tree, so that theorems about any [JsonValue] can be applied. *)
From S2P Require Import Prelude RustStd.

Class JsonValue (V : Type) := {
  value_eq_dec :: EqDecision V;
  Null : V;                                 (* [Value::Null] *)
  Str : string -> V;                        (* [Value::String], [json!("..")] *)
  Num : Z -> V;                             (* [Value::from] of an unsigned integer *)
  Obj : list (string * V) -> V;             (* [json!({ .. })] *)
  get_key : V -> string -> option V;        (* [Value::get] with a string *)
  as_str : V -> option string;
  as_u64 : V -> option Z;
  is_object : V -> bool;                    (* [as_object_mut().is_some()] *)
  insert_key : string -> V -> V -> V;       (* [Map::insert] *)
  json_from_str : string -> option V;
}.

Class JsonLaws (V : Type) `{JsonValue V} := {
  as_str_Str s : as_str (Str s) = Some s;
  as_str_Null : as_str Null = None;
  as_u64_Num n : is_u64 n -> as_u64 (Num n) = Some n;
  as_u64_range v n : as_u64 v = Some n -> is_u64 n;
  get_Obj_head k v l : get_key (Obj ((k, v) :: l)) k = Some v;
  get_Obj_tail k k' v l : k <> k' -> get_key (Obj ((k', v) :: l)) k = get_key (Obj l) k;
  get_Null k : get_key Null k = None;
  Null_Str s : Str s <> Null;
  get_insert v k x : is_object v = true -> get_key (insert_key k x v) k = Some x;
  is_object_Obj l : is_object (Obj l) = true;
}.

(** [Option<T>] serialised: [null] when absent. *)
Definition of_option {V} `{JsonValue V} (o : option V) : V := default Null o.

(** ** An implementation *)

(** Leaves: null, a boolean, an integer, a string; node 0 is an array, node 1
    an object whose children are nodes 2 of a key and a value. *)
Definition Tree : Type := gen_tree (option (bool + Z + string)).

Definition tree_str (s : string) : Tree := GenLeaf (Some (inr s)).

Fixpoint fields_get (l : list Tree) (k : string) : option Tree :=
  match l with
  | GenNode 2 [GenLeaf (Some (inr k')); v] :: l' => if decide (k = k') then Some v else fields_get l' k
  | _ :: l' => fields_get l' k
  | [] => None
  end.

Definition field (k : string) (v : Tree) : Tree := GenNode 2 [tree_str k; v].

Fixpoint fields_insert (k : string) (x : Tree) (l : list Tree) : list Tree :=
  match l with
  | GenNode 2 [GenLeaf (Some (inr k')); v] :: l' =>
      if decide (k = k') then field k x :: l' else field k' v :: fields_insert k x l'
  | t :: l' => t :: fields_insert k x l'
  | [] => [field k x]
  end.

(** A document is the binary expansion of the code of its tree. *)
Fixpoint bits (p : positive) : string :=
  match p with
  | xH => EmptyString
  | xO q => String "0" (bits q)
  | xI q => String "1" (bits q)
  end.

Fixpoint of_bits (s : string) : option positive :=
  match s with
  | EmptyString => Some xH
  | String c s' =>
      p ← of_bits s';
      if Ascii.eqb c "0" then Some (xO p) else if Ascii.eqb c "1" then Some (xI p) else None
  end.

Definition print_coded {A} `{Countable A} (a : A) : string := bits (encode a).
Definition parse_coded {A} `{Countable A} (s : string) : option A := p ← of_bits s; decode p.

Lemma of_bits_bits p : of_bits (bits p) = Some p.
Proof. induction p as [p IH|p IH|]; simpl; [by rewrite IH..|done]. Qed.

Lemma parse_print_coded {A} `{Countable A} (a : A) : parse_coded (print_coded a) = Some a.
Proof. unfold parse_coded, print_coded. rewrite of_bits_bits. apply decode_encode. Qed.

Lemma no_char_print_coded {A} `{Countable A} (a : A) c :
  c <> "0"%char -> c <> "1"%char -> no_char c (print_coded a) = true.
Proof.
  intros H0 H1. unfold print_coded. induction (encode a) as [p IH|p IH|]; simpl; [..|done];
    rewrite IH, andb_true_r; apply bool_decide_eq_true; congruence.
Qed.

#[export] Instance tree_json : JsonValue Tree := {
  value_eq_dec := _;
  Null := GenLeaf None;
  Str := tree_str;
  Num n := GenLeaf (Some (inl (inr n)));
  Obj l := GenNode 1 ((fun '(k, v) => field k v) <$> l);
  get_key v k := match v with GenNode 1 l => fields_get l k | _ => None end;
  as_str v := match v with GenLeaf (Some (inr s)) => Some s | _ => None end;
  as_u64 v := match v with
              | GenLeaf (Some (inl (inr n))) => if decide (is_u64 n) then Some n else None
              | _ => None end;
  is_object v := match v with GenNode 1 _ => true | _ => false end;
  insert_key k x v := match v with GenNode 1 l => GenNode 1 (fields_insert k x l) | _ => v end;
  json_from_str := parse_coded;
}.

Lemma fields_get_insert k x l : fields_get (fields_insert k x l) k = Some x.
Proof.
  induction l as [|t l IH]; simpl; [by rewrite decide_True|].
  repeat (case_match; simplify_eq/=; rewrite ?IH, ?decide_True by done; try done).
Qed.

#[export] Instance tree_laws : JsonLaws Tree.
Proof.
  split; try done.
  - intros n Hn. simpl. by rewrite decide_True.
  - intros v n. simpl. repeat case_match; naive_solver.
  - intros k v l. simpl. by rewrite decide_True.
  - intros k k' v l Hne. simpl. by rewrite decide_False.
  - intros [|[|[|]]] k x; simpl; try done. intros _. apply fields_get_insert.
Qed.
