(* ===== verification/StateStore.v ===== *)
(** * The persisted state (crates/k8netd-core/src/state.rs)

    The snapshot format with its version guard and migration, and the
    load/save pair over a small file system in which a step may fail or the
    machine may stop. *)
From S2P Require Import Prelude RustStd Model Json.

Definition STATE_FORMAT_VERSION : Z := 2.
Definition STATE_FILE_NAME : string := "state.json".
Definition TMP_FILE_NAME : string := ".state.json.tmp".

(** The library errors carried as sources are their text. *)
Inductive StateError :=
  | MissingParent (path : string)
  | Io (source path : string)
  | VersionMismatch (expected found : Z)
  | Corrupt (source : string)
  | StateNotFound (path : string).

Section Snapshot.
Context {V : Type}.

Record NetworkState := {
  ns_cidr : string;
  ns_gateway : string;
  ns_dns : list string;
  ns_mtu : Z;
  ns_params : V;
  ns_pool_start : option string;
  ns_pool_end : option string;
}.

Record IpamSnapshot := { free_ranges : list string; snap_allocations : gmap string string }.

Record PortState := { vm_ip : option string; ps_mac : option string; ps_ipam : IpamSnapshot }.

Record DhcpLeaseState := {
  chaddr : string;
  ip_address : string;
  lease_time : Z;
  dl_dns : list string;
}.

Record StateSnapshot := {
  version : Z;
  snap_networks : gmap string NetworkState;
  snap_ports : gmap string PortState;
  snap_ipam_records : gmap string string;
  snap_dhcp_leases : gmap string DhcpLeaseState;
  snap_publish_table : PublishTable;
}.

Record StateStore := {
  st_networks : gmap string NetworkState;
  st_ports : gmap string PortState;
  ipam_records : gmap string string;
  dhcp_leases : gmap string DhcpLeaseState;
  st_publish_table : PublishTable;
}.

Definition StateStore_default : StateStore :=
  {| st_networks := ∅; st_ports := ∅; ipam_records := ∅; dhcp_leases := ∅;
     st_publish_table := pt_empty |}.

Definition from_store (s : StateStore) : StateSnapshot :=
  {| version := STATE_FORMAT_VERSION; snap_networks := st_networks s; snap_ports := st_ports s;
     snap_ipam_records := ipam_records s; snap_dhcp_leases := dhcp_leases s;
     snap_publish_table := st_publish_table s |}.

(** [impl From<StateSnapshot> for StateStore]. *)
Definition into_store (s : StateSnapshot) : StateStore :=
  {| st_networks := snap_networks s; st_ports := snap_ports s; ipam_records := snap_ipam_records s;
     dhcp_leases := snap_dhcp_leases s; st_publish_table := snap_publish_table s |}.

(** ** Accessors *)
Definition insert_network (s : StateStore) (name : string) (n : NetworkState) : StateStore :=
  {| st_networks := <[name := n]> (st_networks s); st_ports := st_ports s; ipam_records := ipam_records s;
     dhcp_leases := dhcp_leases s; st_publish_table := st_publish_table s |}.
Definition remove_network (s : StateStore) (name : string) : option NetworkState * StateStore :=
  (st_networks s !! name,
   {| st_networks := delete name (st_networks s); st_ports := st_ports s; ipam_records := ipam_records s;
      dhcp_leases := dhcp_leases s; st_publish_table := st_publish_table s |}).
Definition get_network (s : StateStore) (name : string) : option NetworkState := st_networks s !! name.

Definition insert_port (s : StateStore) (name : string) (p : PortState) : StateStore :=
  {| st_networks := st_networks s; st_ports := <[name := p]> (st_ports s); ipam_records := ipam_records s;
     dhcp_leases := dhcp_leases s; st_publish_table := st_publish_table s |}.
Definition remove_state_port (s : StateStore) (name : string) : option PortState * StateStore :=
  (st_ports s !! name,
   {| st_networks := st_networks s; st_ports := delete name (st_ports s); ipam_records := ipam_records s;
      dhcp_leases := dhcp_leases s; st_publish_table := st_publish_table s |}).
Definition get_port (s : StateStore) (name : string) : option PortState := st_ports s !! name.

Definition insert_ipam (s : StateStore) (chaddr cidr : string) : StateStore :=
  {| st_networks := st_networks s; st_ports := st_ports s;
     ipam_records := <[chaddr := cidr]> (ipam_records s);
     dhcp_leases := dhcp_leases s; st_publish_table := st_publish_table s |}.
Definition remove_ipam (s : StateStore) (chaddr : string) : option string * StateStore :=
  (ipam_records s !! chaddr,
   {| st_networks := st_networks s; st_ports := st_ports s; ipam_records := delete chaddr (ipam_records s);
      dhcp_leases := dhcp_leases s; st_publish_table := st_publish_table s |}).
Definition get_ipam (s : StateStore) (chaddr : string) : option string := ipam_records s !! chaddr.

Definition insert_dhcp_lease (s : StateStore) (chaddr : string) (l : DhcpLeaseState) : StateStore :=
  {| st_networks := st_networks s; st_ports := st_ports s; ipam_records := ipam_records s;
     dhcp_leases := <[chaddr := l]> (dhcp_leases s); st_publish_table := st_publish_table s |}.
Definition remove_dhcp_lease (s : StateStore) (chaddr : string) : option DhcpLeaseState * StateStore :=
  (dhcp_leases s !! chaddr,
   {| st_networks := st_networks s; st_ports := st_ports s; ipam_records := ipam_records s;
      dhcp_leases := delete chaddr (dhcp_leases s); st_publish_table := st_publish_table s |}).
Definition get_dhcp_lease (s : StateStore) (chaddr : string) : option DhcpLeaseState :=
  dhcp_leases s !! chaddr.

Definition network_count (s : StateStore) : nat := size (st_networks s).
Definition port_count (s : StateStore) : nat := size (st_ports s).
Definition ipam_count (s : StateStore) : nat := size (ipam_records s).
Definition dhcp_lease_count (s : StateStore) : nat := size (dhcp_leases s).
End Snapshot.
Arguments NetworkState : clear implicits.
Arguments StateStore : clear implicits.
Arguments StateSnapshot : clear implicits.

(** ** The derived serialisation of snapshots (generated by serde) *)
Class SnapshotCodec (V : Type) := {
  snapshot_to_string : StateSnapshot V -> string;          (* [serde_json::to_string] *)
  snapshot_from_value : V -> option (StateSnapshot V);     (* [serde_json::from_value] *)
}.

Definition json_version {V} `{JsonValue V} (v : V) : option Z := get_key v "version" ≫= as_u64.

Class SnapshotLaws (V : Type) `{JsonValue V, SnapshotCodec V} := {
  (* what was written reads back as an object that holds the version and the snapshot *)
  snapshot_roundtrip_law s : is_u64 (version s) -> exists v,
    json_from_str (snapshot_to_string s) = Some v /\ is_object v = true /\
    json_version v = Some (version s) /\ snapshot_from_value v = Some s;
  (* the version field is read on its own *)
  snapshot_version_law v s : snapshot_from_value v = Some s -> is_object v = true ->
    snapshot_from_value (insert_key "version" (Num 2) v) =
      Some {| version := 2; snap_networks := snap_networks s; snap_ports := snap_ports s;
              snap_ipam_records := snap_ipam_records s; snap_dhcp_leases := snap_dhcp_leases s;
              snap_publish_table := snap_publish_table s |};
}.

Section Format.
Context {V : Type} `{JsonValue V, SnapshotCodec V}.

(** The parser's own messages are not modelled. *)
Definition json_syntax : StateError := Corrupt "invalid json".
Definition corrupt_state_error : StateError := Corrupt "EOF while parsing a value".

(** [as u32]: the version is truncated to 32 bits before the match. *)
Definition deserialize_snapshot (data : string) : result StateError (StateSnapshot V) :=
  value ← ok_or (json_from_str data) json_syntax;
  if negb (is_object value) then Err corrupt_state_error
  else
    v ← ok_or (json_version value) corrupt_state_error;
    let ver := wrap_u32 v in
    value ← (if ver =? 1 then Ok (insert_key "version" (Num STATE_FORMAT_VERSION) value)
             else if ver =? STATE_FORMAT_VERSION then Ok value
             else Err (VersionMismatch STATE_FORMAT_VERSION ver));
    ok_or (snapshot_from_value value) json_syntax.

Definition parse_snapshot (data : string) : result StateError (StateSnapshot V) :=
  deserialize_snapshot data.

Definition serialize_snapshot (s : StateSnapshot V) : result StateError string :=
  Ok (snapshot_to_string s).
End Format.

(** ** The file system

    A file has contents and is synced or not; a directory has the entries a
    running system sees and the entries that are on the disk. *)
Record file := { contents : string; synced : bool }.
Record fs := { live : gmap string file; stable : gmap string file }.

(** Every system call may succeed, fail, or be the last one before the
    machine stops; an unfinished write leaves some contents behind. *)
Inductive outcome :=
  | Done
  | Fails (source torn : string)
  | Stops (torn : string).

Inductive syscall :=
  | Read (p : string)
  | Write (p data : string)
  | Sync (p : string)
  | Rename (a b : string)
  | SyncDir (p : string).

(** Writing in place changes the one file that both views may name. *)
Definition set_contents (p data : string) (d : fs) : fs :=
  {| live := <[p := {| contents := data; synced := false |}]> (live d);
     stable := alter (fun f => {| contents := data; synced := false |}) p (stable d) |}.

Definition set_synced (p : string) (d : fs) : fs :=
  {| live := alter (fun f => {| contents := contents f; synced := true |}) p (live d);
     stable := stable d |}.

Definition rename (a b : string) (d : fs) : fs :=
  match live d !! a with
  | Some f => {| live := <[b := f]> (delete a (live d)); stable := stable d |}
  | None => d
  end.

Definition effect (c : syscall) (d : fs) : fs :=
  match c with
  | Read _ => d
  | Write p data => set_contents p data d
  | Sync p => set_synced p d
  | Rename a b => rename a b d
  | SyncDir _ => {| live := live d; stable := live d |}
  end.

Definition torn_effect (c : syscall) (torn : string) (d : fs) : fs :=
  match c with Write p _ => set_contents p torn d | _ => d end.

Definition environment : Type := syscall -> outcome.

Definition perform (env : environment) (c : syscall) (path : string) : cmd fs StateError unit :=
  fun d =>
    match env c with
    | Done => Returns (effect c d) (Ok tt)
    | Fails source torn => Returns (torn_effect c torn d) (Err (Io source path))
    | Stops torn => Panics (torn_effect c torn d)
    end.

(** What the file [p] may read as after a power loss: either view may be the
    one on the disk, and contents that were not synced may be anything. *)
Definition may_read (d : fs) (p : string) (o : option string) : Prop :=
  exists f : option file, (f = live d !! p \/ f = stable d !! p) /\
    match f with
    | None => o = None
    | Some f => exists c, o = Some c /\ (synced f = true -> c = contents f)
    end.

Definition read (env : environment) (p : string) : cmd fs StateError string :=
  _ ← perform env (Read p) p;
  d ← get;
  lift (ok_or (contents <$> live d !! p) (Io "No such file or directory" p)).

Section Disk.
Context {V : Type} `{JsonValue V, SnapshotCodec V}.

Definition save_to_disk (env : environment) (store : StateStore V) (path : string)
    : cmd fs StateError unit :=
  let state_path := path_join path STATE_FILE_NAME in
  let tmp_path := path_join path TMP_FILE_NAME in
  let content := snapshot_to_string (from_store store) in
  _ ← perform env (Write tmp_path content) tmp_path;
  _ ← perform env (Sync tmp_path) tmp_path;
  _ ← perform env (Rename tmp_path state_path) state_path;
  perform env (SyncDir path) path.

Definition load_from_disk (env : environment) (path : string) : cmd fs StateError (StateStore V) :=
  let state_path := path_join path STATE_FILE_NAME in
  d ← get;
  match live d !! state_path with
  | None => mret StateStore_default
  | Some _ =>
      content ← read env state_path;
      raw ← lift (ok_or (json_from_str content) json_syntax);
      let was_v1 := bool_decide (json_version raw = Some 1) in
      snapshot ← lift (deserialize_snapshot content);
      let store := into_store snapshot in
      if was_v1 then
        _ ← save_to_disk env store path;
        mret store
      else mret store
  end.
End Disk.

(** ** Lemmas *)

Lemma state_not_tmp path : path_join path STATE_FILE_NAME <> path_join path TMP_FILE_NAME.
Proof.
  intros Heq. apply (f_equal slen) in Heq. revert Heq. unfold path_join.
  change (starts_with_slash STATE_FILE_NAME) with false.
  change (starts_with_slash TMP_FILE_NAME) with false.
  cbv iota. case_match; rewrite !slen_append; cbn; lia.
Qed.

(** The file [p] is synced in both views. *)
Definition clean (d : fs) (p : string) : Prop :=
  forall f, live d !! p = Some f \/ stable d !! p = Some f -> synced f = true.

Lemma may_read_clean d p o :
  clean d p -> may_read d p o <-> o = contents <$> live d !! p \/ o = contents <$> stable d !! p.
Proof.
  intros Hc. unfold may_read. split.
  - intros (f & Hf & Ho). destruct f as [f|].
    + destruct Ho as (c & -> & Hs).
      assert (c = contents f) as -> by (apply Hs, Hc; destruct Hf; auto).
      destruct Hf as [<-|<-]; auto.
    + subst o. destruct Hf as [<-|<-]; auto.
  - intros [-> | ->].
    + exists (live d !! p). split; [auto|]. destruct (live d !! p); simpl; eauto.
    + exists (stable d !! p). split; [auto|]. destruct (stable d !! p); simpl; eauto.
Qed.

(** Two file systems look the same at [p]. *)
Definition same_at (p : string) (d d' : fs) : Prop :=
  live d' !! p = live d !! p /\ stable d' !! p = stable d !! p.

Lemma set_contents_other p q data d : p <> q -> same_at p d (set_contents q data d).
Proof. intros. split; simpl; [by rewrite lookup_insert_ne|by rewrite lookup_alter_ne]. Qed.

Lemma set_synced_other p q d : p <> q -> same_at p d (set_synced q d).
Proof. intros. split; simpl; [by rewrite lookup_alter_ne|done]. Qed.

Lemma same_at_trans p d d1 d2 : same_at p d d1 -> same_at p d1 d2 -> same_at p d d2.
Proof. intros [H1 H2] [H3 H4]. by split; etransitivity; eauto. Qed.

Lemma same_at_clean p d d' : same_at p d d' -> clean d p -> clean d' p.
Proof. intros [Hl Hs] Hc f. rewrite Hl, Hs. apply Hc. Qed.

(** How the four steps can end. *)
Inductive saved (p tmp content : string) (d : fs) : run fs (result StateError unit) -> Prop :=
  | saved_before d' r :
      same_at p d d' -> (r = Panics d' \/ exists e, r = Returns d' (Err e)) -> saved p tmp content d r
  | saved_live d' r :
      live d' !! p = Some {| contents := content; synced := true |} -> stable d' !! p = stable d !! p ->
      (r = Panics d' \/ exists e, r = Returns d' (Err e)) -> saved p tmp content d r
  | saved_stable d' :
      live d' !! p = Some {| contents := content; synced := true |} -> stable d' = live d' ->
      saved p tmp content d (Returns d' (Ok tt)).

Lemma save_steps {V} `{JsonValue V, SnapshotCodec V} env (store : StateStore V) path d :
  saved (path_join path STATE_FILE_NAME) (path_join path TMP_FILE_NAME)
    (snapshot_to_string (from_store store)) d (save_to_disk env store path d).
Proof.
  unfold save_to_disk, perform. pose proof (state_not_tmp path) as Hne.
  set (p := path_join path STATE_FILE_NAME) in *. set (tmp := path_join path TMP_FILE_NAME) in *.
  set (content := snapshot_to_string _). cbn [mbind cmd_bind].
  destruct (env (Write tmp content)) as [|e t|t]; cbn [effect torn_effect].
  2, 3: by apply saved_before with (set_contents tmp t d); [apply set_contents_other|eauto].
  set (d1 := set_contents tmp content d).
  assert (H1 : same_at p d d1) by by apply set_contents_other.
  destruct (env (Sync tmp)) as [|e t|t]; cbn [effect torn_effect].
  2, 3: by apply saved_before with d1; [|eauto].
  set (d2 := set_synced tmp d1).
  assert (H2 : same_at p d d2).
  { eapply same_at_trans; [exact H1|by apply set_synced_other]. }
  assert (Htmp : live d2 !! tmp = Some {| contents := content; synced := true |}).
  { simpl. by rewrite lookup_alter_eq, lookup_insert_eq. }
  destruct (env (Rename tmp p)) as [|e t|t]; cbn [effect torn_effect].
  2, 3: by apply saved_before with d2; [|eauto].
  set (d3 := rename tmp p d2).
  assert (H3 : live d3 !! p = Some {| contents := content; synced := true |} /\ stable d3 = stable d2).
  { unfold d3, rename. rewrite Htmp. simpl. by rewrite lookup_insert_eq. }
  destruct H3 as [H3 Hst]. destruct H2 as [_ H2].
  destruct (env (SyncDir path)) as [|e t|t]; cbn [effect torn_effect].
  - by apply saved_stable.
  - apply saved_live with d3; [done|by rewrite Hst|eauto].
  - apply saved_live with d3; [done|by rewrite Hst|eauto].
Qed.

Lemma run_state_ends {S R} (r : run S R) (d : S) :
  r = Panics d \/ (exists e, r = Returns d e) -> run_state r = d.
Proof. by intros [->|[e ->]]. Qed.

Lemma saved_clean p tmp content d r :
  saved p tmp content d r -> clean d p ->
  clean (run_state r) p /\
  forall o, may_read (run_state r) p o -> may_read d p o \/ o = Some content.
Proof.
  intros Hs Hc. destruct Hs as [d' r Hsame Hr|d' r Hl Hst Hr|d' Hl Hst].
  - rewrite (run_state_ends r d') by naive_solver.
    assert (Hc' : clean d' p) by by eapply same_at_clean. split; [done|]. intros o.
    rewrite (may_read_clean d' p o Hc'), (may_read_clean d p o Hc).
    destruct Hsame as [-> ->]. auto.
  - rewrite (run_state_ends r d') by naive_solver.
    assert (Hc' : clean d' p) by (intros f; rewrite Hl, Hst; intros [[= <-]|Hf]; eauto).
    split; [done|]. intros o.
    rewrite (may_read_clean d' p o Hc'), (may_read_clean d p o Hc), Hl, Hst. simpl. tauto.
  - simpl. assert (Hc' : clean d' p) by (intros f; rewrite Hst, Hl; naive_solver).
    split; [done|]. intros o. rewrite (may_read_clean d' p o Hc'), Hst, Hl. simpl. tauto.
Qed.

(** C26: whatever step of a save fails, and wherever the machine stops, the
    state file reads afterwards as it could before or as the whole new
    document, never as a torn one, and it stays synced so that the next save
    starts from the same guarantee. When the save succeeds only the new
    document can be read. *)
Theorem save_crash_atomic {V} `{JsonValue V, SnapshotCodec V} (env : environment)
    (store : StateStore V) (path : string) (d : fs) :
  let p := path_join path STATE_FILE_NAME in
  let content := snapshot_to_string (from_store store) in
  let r := save_to_disk env store path d in
  clean d p ->
  clean (run_state r) p /\
  (forall o, may_read (run_state r) p o -> may_read d p o \/ o = Some content) /\
  (forall d', r = Returns d' (Ok tt) -> forall o, may_read d' p o <-> o = Some content).
Proof.
  intros p content r Hc. pose proof (save_steps env store path d) as Hs. fold p content r in Hs.
  destruct (saved_clean _ _ _ _ _ Hs Hc) as [Hc' Hread]. split_and!; [done|done|].
  intros d' Hr o. rewrite Hr in *. inversion Hs as [? ? ? [?|[? ?]]|? ? ? ? [?|[? ?]]|? Hl Hst]; try done.
  subst. simpl in Hc'. rewrite (may_read_clean _ _ _ Hc'), Hst, Hl. simpl. tauto.
Qed.

Section Laws.
Context {V : Type} `{JsonLaws V, !SnapshotCodec V, !SnapshotLaws V}.

Lemma version_ok (store : StateStore V) : is_u64 (version (from_store store)).
Proof. simpl. unfold STATE_FORMAT_VERSION. unfold_width. lia. Qed.

Lemma into_from_store (store : StateStore V) : into_store (from_store store) = store.
Proof. by destruct store. Qed.

Lemma deserialize_saved (store : StateStore V) :
  exists v, json_from_str (snapshot_to_string (from_store store)) = Some v /\
    json_version v = Some STATE_FORMAT_VERSION /\
    deserialize_snapshot (snapshot_to_string (from_store store)) = Ok (from_store store).
Proof.
  destruct (snapshot_roundtrip_law (from_store store) (version_ok store)) as (v & Hp & Ho & Hv & Hs).
  exists v. split_and!; [done|done|]. unfold deserialize_snapshot.
  rewrite Hp. simpl. rewrite Ho, Hv. simpl. by rewrite Hs.
Qed.

Lemma save_ok_live env (store : StateStore V) path d d' :
  save_to_disk env store path d = Returns d' (Ok tt) ->
  live d' !! path_join path STATE_FILE_NAME =
    Some {| contents := snapshot_to_string (from_store store); synced := true |}.
Proof.
  intros Hr. pose proof (save_steps env store path d) as Hs. rewrite Hr in Hs.
  by inversion Hs as [? ? ? [?|[? ?]]|? ? ? ? [?|[? ?]]|? Hl Hst].
Qed.

Lemma load_saved env (store : StateStore V) path d b :
  live d !! path_join path STATE_FILE_NAME =
    Some {| contents := snapshot_to_string (from_store store); synced := b |} ->
  env (Read (path_join path STATE_FILE_NAME)) = Done ->
  load_from_disk env path d = Returns d (Ok store).
Proof.
  intros Hl He. destruct (deserialize_saved store) as (v & Hp & Hv & Hd).
  unfold load_from_disk, read, perform. run_cmd.
  rewrite Hl, He. cbn [effect]. run_cmd. rewrite Hl. simpl. rewrite Hp. simpl.
  rewrite Hd. simpl. rewrite Hv. by rewrite into_from_store.
Qed.

(** A store that was saved successfully is what the next start loads,
    field for field, with nothing written on the way. *)
Theorem save_then_load (env env' : environment) (store : StateStore V) (path : string) (d d' : fs) :
  save_to_disk env store path d = Returns d' (Ok tt) ->
  env' (Read (path_join path STATE_FILE_NAME)) = Done ->
  load_from_disk env' path d' = Returns d' (Ok store).
Proof. intros Hs He. eapply load_saved; [by eapply save_ok_live|done]. Qed.

(** The version guard. A document loads only when its version, cut to 32
    bits, is the current one, and is then taken as it is, or version 1, and is
    then read as the current version with all its contents; any other version
    is refused with the number found. *)
Theorem version_guard (data : string) (v : V) (n : Z) (s : StateSnapshot V) :
  json_from_str data = Some v -> is_object v = true -> json_version v = Some n ->
  snapshot_from_value v = Some s ->
  deserialize_snapshot data =
    if decide (n mod 2 ^ 32 = 1) then Ok (from_store (into_store s))
    else if decide (n mod 2 ^ 32 = 2) then Ok s
    else Err (VersionMismatch 2 (n mod 2 ^ 32)).
Proof.
  intros Hp Ho Hn Hs. unfold deserialize_snapshot. rewrite Hp. simpl. rewrite Ho, Hn. simpl.
  unfold wrap_u32, STATE_FORMAT_VERSION.
  destruct (decide (n mod 2 ^ 32 = 1)) as [->|H1].
  - simpl. by rewrite (snapshot_version_law v s Hs Ho).
  - destruct (Z.eqb_spec (n mod 2 ^ 32) 1) as [|_]; [done|].
    destruct (Z.eqb_spec (n mod 2 ^ 32) 2) as [->|H2].
    + simpl. by rewrite Hs.
    + by rewrite decide_False.
Qed.

(** A version 1 file is migrated: the load yields the store it holds and
    leaves a version 2 file that loads to the same store. *)
Theorem load_migrates_v1 (path : string) (d : fs) (f : file) (v : V) (s : StateSnapshot V) :
  let p := path_join path STATE_FILE_NAME in
  live d !! p = Some f -> json_from_str (contents f) = Some v -> is_object v = true ->
  json_version v = Some 1 -> snapshot_from_value v = Some s ->
  exists d', load_from_disk (fun _ => Done) path d = Returns d' (Ok (into_store s)) /\
    live d' !! p = Some {| contents := snapshot_to_string (from_store (into_store s)); synced := true |} /\
    load_from_disk (fun _ => Done) path d' = Returns d' (Ok (into_store s)).
Proof.
  intros p Hl Hp Ho Hv Hs.
  assert (Hd : deserialize_snapshot (contents f) = Ok (from_store (into_store s))).
  { unfold deserialize_snapshot. rewrite Hp. simpl. rewrite Ho, Hv. change (wrap_u32 1) with 1. simpl.
    change STATE_FORMAT_VERSION with 2. by rewrite (snapshot_version_law v s Hs Ho). }
  destruct (save_to_disk (fun _ => Done) (into_store s) path d) as [d' [[]|e]|d'] eqn:Hsave.
  2, 3: unfold save_to_disk, perform in Hsave; simpl in Hsave; discriminate.
  exists d'. split_and!; [|by eapply save_ok_live|by eapply load_saved; [eapply save_ok_live|]].
  unfold load_from_disk, read, perform. run_cmd. fold p.
  rewrite Hl. cbn [effect]. rewrite Hl. simpl. rewrite Hp. simpl.
  rewrite Hd. simpl. rewrite bool_decide_eq_true_2 by done. rewrite into_from_store.
  run_cmd. simpl in Hsave. by injection Hsave as <-.
Qed.
End Laws.

(** ** An implementation of the codec *)
#[export] Instance NetworkState_eq_dec {V} `{EqDecision V} : EqDecision (NetworkState V).
Proof. solve_decision. Defined.
#[export] Instance NetworkState_countable {V} `{Countable V} : Countable (NetworkState V).
Proof.
  apply (inj_countable'
    (fun n => (ns_cidr n, ns_gateway n, ns_dns n, ns_mtu n, ns_params n, ns_pool_start n, ns_pool_end n))
    (fun '(a, b, c, d, e, f, g) => {| ns_cidr := a; ns_gateway := b; ns_dns := c; ns_mtu := d;
       ns_params := e; ns_pool_start := f; ns_pool_end := g |})).
  by intros [].
Defined.
#[export] Instance IpamSnapshot_eq_dec : EqDecision IpamSnapshot.
Proof. solve_decision. Defined.
#[export] Instance IpamSnapshot_countable : Countable IpamSnapshot.
Proof.
  apply (inj_countable' (fun n => (free_ranges n, snap_allocations n))
    (fun '(a, b) => {| free_ranges := a; snap_allocations := b |})).
  by intros [].
Defined.
#[export] Instance PortState_eq_dec : EqDecision PortState.
Proof. solve_decision. Defined.
#[export] Instance PortState_countable : Countable PortState.
Proof.
  apply (inj_countable' (fun n => (vm_ip n, ps_mac n, ps_ipam n))
    (fun '(a, b, c) => {| vm_ip := a; ps_mac := b; ps_ipam := c |})).
  by intros [].
Defined.
#[export] Instance DhcpLeaseState_eq_dec : EqDecision DhcpLeaseState.
Proof. solve_decision. Defined.
#[export] Instance DhcpLeaseState_countable : Countable DhcpLeaseState.
Proof.
  apply (inj_countable' (fun n => (chaddr n, ip_address n, lease_time n, dl_dns n))
    (fun '(a, b, c, d) => {| chaddr := a; ip_address := b; lease_time := c; dl_dns := d |})).
  by intros [].
Defined.

(** The fields of a snapshot apart from its version. *)
Definition snapshot_body {V} (s : StateSnapshot V) :=
  (snap_networks s, snap_ports s, snap_ipam_records s, snap_dhcp_leases s, entries (snap_publish_table s)).

Definition snapshot_of_body {V} (n : Z) (b : gmap string (NetworkState V) * gmap string PortState
    * gmap string string * gmap string DhcpLeaseState * gmap string (gmap Z Z)) : StateSnapshot V :=
  let '(nets, ps, ips, ls, t) := b in
  {| version := n; snap_networks := nets; snap_ports := ps; snap_ipam_records := ips;
     snap_dhcp_leases := ls; snap_publish_table := {| entries := t |} |}.

Definition snapshot_tree (s : StateSnapshot Tree) : Tree :=
  Obj [("version", Num (version s)); ("body", Str (print_coded (snapshot_body s)))].

#[export] Instance tree_codec : SnapshotCodec Tree := {
  snapshot_to_string s := print_coded (snapshot_tree s);
  snapshot_from_value v :=
    n ← json_version v;
    b ← get_key v "body" ≫= as_str;
    b ← parse_coded b;
    Some (snapshot_of_body n b);
}.

Lemma fields_get_insert_ne k k' x l : k <> k' -> fields_get (fields_insert k x l) k' = fields_get l k'.
Proof.
  intros Hne. induction l as [|t l IH]; simpl; [by rewrite decide_False|].
  repeat (case_match; simplify_eq/=; rewrite ?IH, ?decide_False by done; try done).
Qed.

#[export] Instance tree_codec_laws : SnapshotLaws Tree.
Proof.
  split.
  - intros s Hv. exists (snapshot_tree s). split_and!; [apply parse_print_coded|done| |].
    + unfold json_version, snapshot_tree. rewrite get_Obj_head. by apply as_u64_Num.
    + unfold snapshot_from_value, tree_codec, json_version, snapshot_tree.
      rewrite get_Obj_head, get_Obj_tail, get_Obj_head by done. cbn [mbind option_bind].
      rewrite as_u64_Num by done. cbn [mbind option_bind]. rewrite as_str_Str. cbn [mbind option_bind].
      rewrite parse_print_coded. by destruct s as [? ? ? ? ? []].
  - intros v s Hs Ho. destruct v as [|[|[|]] l]; try done. revert Hs.
    unfold snapshot_from_value, tree_codec, json_version. simpl.
    rewrite fields_get_insert, fields_get_insert_ne by done. simpl.
    destruct (fields_get l "version" ≫= _) as [n|]; simpl; [|done].
    destruct (fields_get l "body" ≫= _) as [b|]; simpl; [|done].
    destruct (parse_coded b) as [[[[[? ?] ?] ?] ?]|]; simpl; [|done]. by intros [= <-].
Qed.
