(* ===== verification/Protocol.v ===== *)
(** * The JSON-RPC envelope (crates/k8netd-rpc/src/protocol.rs)

    Requests with the version guard, typed errors with their wire codes, and
    responses. The derived (de)serialisers that serde generates are a class;
    the hand-written ones are definitions. *)
From S2P Require Import Prelude RustStd Json.

Definition PROTOCOL_VERSION : string := "1.0".

Inductive RpcError :=
  | ParseError | InvalidRequest | MethodNotFound | InvalidParams
  | NotFound | AlreadyExists | Conflict | Internal.

#[export] Instance RpcError_eq_dec : EqDecision RpcError.
Proof. solve_decision. Defined.

Definition rpc_code (e : RpcError) : string :=
  match e with
  | ParseError => "parse_error"
  | InvalidRequest => "invalid_request"
  | MethodNotFound => "method_not_found"
  | InvalidParams => "invalid_params"
  | NotFound => "not_found"
  | AlreadyExists => "already_exists"
  | Conflict => "conflict"
  | Internal => "internal"
  end.

Definition rpc_message (e : RpcError) : string :=
  match e with
  | ParseError => "invalid JSON payload"
  | InvalidRequest => "request is not a valid JSON-RPC request"
  | MethodNotFound => "unknown method"
  | InvalidParams => "invalid parameters"
  | NotFound => "object not found"
  | AlreadyExists => "object already exists"
  | Conflict => "object exists with conflicting parameters"
  | Internal => "internal server error"
  end.

Definition from_code (code : string) : option RpcError :=
  if decide (code = "parse_error") then Some ParseError
  else if decide (code = "invalid_request") then Some InvalidRequest
  else if decide (code = "method_not_found") then Some MethodNotFound
  else if decide (code = "invalid_params") then Some InvalidParams
  else if decide (code = "not_found") then Some NotFound
  else if decide (code = "already_exists") then Some AlreadyExists
  else if decide (code = "conflict") then Some Conflict
  else if decide (code = "internal") then Some Internal
  else None.

Section Envelope.
Context {V : Type}.

Record Request := {
  rq_jsonrpc : string;
  rq_version : string;
  rq_method : string;
  rq_params : option V;
  rq_id : V;
}.

(** The struct [Raw] local to [Request::parse]. *)
Record RawRequest := {
  raw_jsonrpc : option string;
  raw_version : option string;
  raw_method : option string;
  raw_params : option V;
  raw_id : option V;
}.

Record Response := {
  rs_jsonrpc : string;
  rs_result : option V;
  rs_error : option RpcError;
  rs_id : V;
}.

Definition Request_new (method : string) (params : option V) (id : V) : Request :=
  {| rq_jsonrpc := "2.0"; rq_version := PROTOCOL_VERSION; rq_method := method;
     rq_params := params; rq_id := id |}.

Definition Response_ok (id result : V) : Response :=
  {| rs_jsonrpc := "2.0"; rs_result := Some result; rs_error := None; rs_id := id |}.
Definition Response_err (id : V) (error : RpcError) : Response :=
  {| rs_jsonrpc := "2.0"; rs_result := None; rs_error := Some error; rs_id := id |}.
End Envelope.
Arguments Request : clear implicits.
Arguments RawRequest : clear implicits.
Arguments Response : clear implicits.

Section Errors.
Context {V : Type} `{JsonValue V}.

(** [impl Serialize for RpcError] and [impl Deserialize for RpcError]. *)
Definition error_to_value (e : RpcError) : V :=
  Obj [("code", Str (rpc_code e)); ("message", Str (rpc_message e))].
Definition error_from_value (v : V) : option RpcError :=
  code ← get_key v "code"; s ← as_str code; from_code s.

(** [deserialize_result]: a field that is there is kept, [null] included. *)
Definition deserialize_result (v : V) : option V := Some v.
End Errors.

(** The derived serialisers. *)
Class ProtocolCodec (V : Type) := {
  raw_from_str : string -> option (RawRequest V);   (* [serde_json::from_str::<Raw>] *)
  request_to_string : Request V -> string;
  response_to_string : Response V -> string;
  response_from_str : string -> option (Response V);
}.

(** An [Option] field reads [null] as absent. *)
Definition null_absent {V} `{JsonValue V} (o : option V) : option V :=
  v ← o; if decide (v = Null) then None else Some v.

Class ProtocolLaws (V : Type) `{JsonValue V, ProtocolCodec V} := {
  request_law (r : Request V) :
    raw_from_str (request_to_string r) =
      Some {| raw_jsonrpc := Some (rq_jsonrpc r); raw_version := Some (rq_version r);
              raw_method := Some (rq_method r); raw_params := null_absent (rq_params r);
              raw_id := null_absent (Some (rq_id r)) |};
  response_law (r : Response V) : response_from_str (response_to_string r) = Some r;
  response_one_line (r : Response V) : no_char "010"%char (response_to_string r) = true;
}.

Section Parse.
Context {V : Type} `{JsonValue V, ProtocolCodec V}.

(** [Request::parse] after the JSON has been decoded. *)
Definition validate (raw : RawRequest V) : result RpcError (Request V) :=
  jsonrpc ← match raw_jsonrpc raw with
            | Some v => if decide (v = "2.0") then Ok v else Err InvalidRequest
            | None => Err InvalidRequest
            end;
  version ← ok_or (raw_version raw) InvalidRequest;
  if decide (version <> PROTOCOL_VERSION) then Err InvalidParams
  else
    method ← ok_or (raw_method raw) InvalidRequest;
    id ← ok_or (raw_id raw) InvalidRequest;
    Ok {| rq_jsonrpc := jsonrpc; rq_version := version; rq_method := method;
          rq_params := raw_params raw; rq_id := id |}.

Definition parse_request (input : string) : result RpcError (Request V) :=
  raw ← ok_or (raw_from_str input) ParseError;
  validate raw.
End Parse.

(** The wire codes are exact: a code resolves to an error if and only if
    it is that error's code, so the eight codes are distinct, and the JSON
    object of an error reads back as the error. *)
Theorem error_codes_exact {V} `{JsonLaws V} (c : string) (e : RpcError) :
  (from_code c = Some e <-> c = rpc_code e) /\ error_from_value (error_to_value (V := V) e) = Some e.
Proof.
  split.
  - split; [|intros ->; by destruct e].
    unfold from_code. repeat case_decide; simplify_eq/=; try done; by intros [= <-].
  - unfold error_from_value, error_to_value. rewrite get_Obj_head. simpl.
    rewrite as_str_Str. by destruct e.
Qed.

(** C37: decoding accepts exactly the envelopes with the right markers and an
    id. The version guard is checked before the method and the id, and has
    its own error; a field that is missing is an invalid request. A parse
    error is whatever the derived decoder refuses: text that is no JSON, and
    also JSON of another shape, such as an array or a number for a version,
    which the comments on [RpcError] call an invalid request. *)
Theorem parse_request_exact {V} `{JsonValue V, ProtocolCodec V} (input : string) :
  match parse_request input with
  | Ok r => rq_jsonrpc r = "2.0" /\ rq_version r = PROTOCOL_VERSION /\
      raw_from_str input = Some {| raw_jsonrpc := Some "2.0"; raw_version := Some PROTOCOL_VERSION;
        raw_method := Some (rq_method r); raw_params := rq_params r; raw_id := Some (rq_id r) |}
  | Err e =>
      match raw_from_str input with
      | None => e = ParseError
      | Some raw =>
          if decide (raw_jsonrpc raw = Some "2.0" /\ is_Some (raw_version raw) /\
                     raw_version raw <> Some PROTOCOL_VERSION)
          then e = InvalidParams
          else e = InvalidRequest /\
               ~ (raw_jsonrpc raw = Some "2.0" /\ is_Some (raw_version raw) /\
                  is_Some (raw_method raw) /\ is_Some (raw_id raw))
      end
  end.
Proof.
  unfold parse_request, validate, ok_or. destruct (raw_from_str input) as [[j v m p i]|]; [|done].
  cbn [mbind result_bind raw_jsonrpc raw_version raw_method raw_params raw_id].
  destruct j as [j|]; [destruct (decide (j = "2.0")) as [->|Hj]|]; cbn [mbind result_bind];
    [|rewrite decide_False by naive_solver; naive_solver..].
  destruct v as [v|]; cbn [mbind result_bind].
  2: { rewrite decide_False by (intros (_ & [? ?] & _); done). split; [done|].
       by intros (_ & [? ?] & _). }
  destruct (decide (v <> PROTOCOL_VERSION)) as [Hv|Hv].
  { by rewrite decide_True by naive_solver. }
  apply dec_stable in Hv as ->. destruct m; cbn [mbind result_bind].
  2: { rewrite decide_False by naive_solver. split; [done|]. by intros (_ & _ & [? ?] & _). }
  destruct i; cbn [mbind result_bind]; [done|].
  rewrite decide_False by naive_solver. split; [done|]. by intros (_ & _ & _ & [? ?]).
Qed.

(** A request built by a client reads back as itself, provided its id is
    not null (null parameters read as absent ones). *)
Theorem request_roundtrip {V} `{ProtocolLaws V} (method : string) (params : option V) (id : V) :
  id <> Null ->
  parse_request (request_to_string (Request_new method params id)) =
    Ok (Request_new method (null_absent params) id).
Proof.
  intros Hid. unfold parse_request. rewrite request_law. simpl.
  by rewrite (decide_False (P := id = Null)).
Qed.

(** ** An implementation of the serialisers, on trees *)
#[export] Instance tree_protocol : ProtocolCodec Tree := {
  raw_from_str s :=
    '(j, v, m, p, i) ← parse_coded (A := string * string * string * option Tree * Tree) s;
    Some {| raw_jsonrpc := Some j; raw_version := Some v; raw_method := Some m;
            raw_params := null_absent p; raw_id := null_absent (Some i) |};
  request_to_string r :=
    print_coded (rq_jsonrpc r, rq_version r, rq_method r, rq_params r, rq_id r);
  response_to_string r :=
    print_coded (rs_jsonrpc r, rs_result r, rpc_code <$> rs_error r, rs_id r);
  response_from_str s :=
    '(j, o, e, i) ← parse_coded (A := string * option Tree * option string * Tree) s;
    Some {| rs_jsonrpc := j; rs_result := o; rs_error := c ← e; from_code c; rs_id := i |};
}.

Lemma from_code_code e : from_code (rpc_code e) = Some e.
Proof. by destruct e. Qed.

#[export] Instance tree_protocol_laws : ProtocolLaws Tree.
Proof.
  split.
  - intros r. simpl. by rewrite parse_print_coded.
  - intros r. simpl. rewrite parse_print_coded. simpl. destruct r as [j o [e|] i]; simpl; [|done].
    by rewrite from_code_code.
  - intros r. by apply no_char_print_coded.
Qed.
