(* ===== verification/Server.v ===== *)
(** * The control-plane server (crates/k8netd-rpc/src/server.rs)

    The router over any control plane, the connection handler, and the
    in-memory control plane. *)
From S2P Require Import Prelude RustStd Model Ipam Json Protocol StateStore.

Definition DEFAULT_PUBLISH_RANGE : Z * Z := (20000, 21000).

(** ** The interface: [trait ControlPlane] *)
Class ControlPlane (C V : Type) := {
  cp_create_network : V -> cmd C RpcError V;
  cp_delete_network : V -> cmd C RpcError V;
  cp_get_network : V -> cmd C RpcError V;
  cp_create_port : V -> cmd C RpcError V;
  cp_delete_port : V -> cmd C RpcError V;
  cp_get_port : V -> cmd C RpcError V;
  cp_attach_port : V -> cmd C RpcError V;
  cp_detach_port : V -> cmd C RpcError V;
  cp_allocate_ip : V -> cmd C RpcError V;
  cp_release_ip : V -> cmd C RpcError V;
  cp_publish_port : V -> cmd C RpcError V;
  cp_unpublish_port : V -> cmd C RpcError V;
}.

(** ** The router *)
Section Router.
Context {C V : Type} `{JsonValue V, ControlPlane C V}.

(** The handler of a method name, [None] for a name the router does not know. *)
Definition handler (method : string) : option (V -> cmd C RpcError V) :=
  if decide (method = "CreateNetwork") then Some cp_create_network
  else if decide (method = "DeleteNetwork") then Some cp_delete_network
  else if decide (method = "GetNetwork") then Some cp_get_network
  else if decide (method = "CreatePort") then Some cp_create_port
  else if decide (method = "DeletePort") then Some cp_delete_port
  else if decide (method = "GetPort") then Some cp_get_port
  else if decide (method = "AttachPort") then Some cp_attach_port
  else if decide (method = "DetachPort") then Some cp_detach_port
  else if decide (method = "AllocateIP") then Some cp_allocate_ip
  else if decide (method = "ReleaseIP") then Some cp_release_ip
  else if decide (method = "PublishPort") then Some cp_publish_port
  else if decide (method = "UnpublishPort") then Some cp_unpublish_port
  else None.

Definition dispatch (req : Request V) (cp : C) : run C (Response V) :=
  let params := default Null (rq_params req) in
  let outcome := match handler (rq_method req) with
                 | Some h => h params cp
                 | None => Returns cp (Err MethodNotFound)
                 end in
  match outcome with
  | Returns cp' (Ok v) => Returns cp' (Response_ok (rq_id req) v)
  | Returns cp' (Err e) => Returns cp' (Response_err (rq_id req) e)
  | Panics cp' => Panics cp'
  end.
End Router.

(** ** Connections

    What the peer and the socket do is an argument: the line read ([""] at
    end of stream) or an I/O error, and the outcome of the write. *)
Record connection := { line_in : result string string; write_ok : result string unit }.

Section Transport.
Context {C V : Type} `{JsonValue V, ProtocolCodec V, ControlPlane C V}.

(** The number of requests handled and the bytes written. *)
Definition handle_connection (c : connection) (cp : C) : run C (result string (nat * string)) :=
  match line_in c with
  | Err e => Returns cp (Err e)
  | Ok line =>
      if is_empty line then Returns cp (Ok (0%nat, EmptyString))
      else
        let response := match parse_request (trim_end line) with
                        | Ok req => dispatch req cp
                        | Err e => Returns cp (Response_err Null e)
                        end in
        match response with
        | Panics cp' => Panics cp'
        | Returns cp' r =>
            let body := String.append (response_to_string r) (String "010" EmptyString) in
            match write_ok c with
            | Ok _ => Returns cp' (Ok (1%nat, body))
            | Err e => Returns cp' (Err e)
            end
        end
  end.

(** The accept loop: an accept error ends it, a failed connection does not.
    The second component is the log of what each connection returned. *)
Fixpoint serve_loop (streams : list (result string connection)) (cp : C)
    : run C (result string unit * list (result string (nat * string))) :=
  match streams with
  | [] => Returns cp (Ok tt, [])
  | Err e :: _ => Returns cp (Err e, [])
  | Ok c :: streams' =>
      match handle_connection c cp with
      | Panics cp' => Panics cp'
      | Returns cp' r =>
          match serve_loop streams' cp' with
          | Returns cp'' (res, log) => Returns cp'' (res, r :: log)
          | Panics cp'' => Panics cp''
          end
      end
  end.

(** [serve]: the parent directory, when the path has one, is made first, a
    stale socket file is removed, the socket is bound, and then the accept
    loop runs. The arguments are what the system answers. *)
Definition serve (parent : option (result string unit)) (bind : result string unit)
    (streams : list (result string connection)) (cp : C)
    : run C (result string unit * list (result string (nat * string))) :=
  match default (Ok tt) parent with
  | Err e => Returns cp (Err e, [])
  | Ok _ =>
      match bind with
      | Err e => Returns cp (Err e, [])
      | Ok _ => serve_loop streams cp
      end
  end.
End Transport.

(** ** Parameters *)
Section Params.
Context {V : Type} `{JsonValue V}.

Definition str_param (params : V) (key : string) : result RpcError string :=
  ok_or (v ← get_key params key; as_str v) InvalidParams.

Definition u16_param (params : V) (key : string) : result RpcError Z :=
  ok_or (v ← get_key params key; n ← as_u64 v; if n <=? u16_max then Some n else None) InvalidParams.
End Params.

Definition ipam_error (e : IpamError) : RpcError :=
  match e with PoolExhausted => Conflict | UnknownMac => Internal end.

(** ** The in-memory control plane *)
Module Memory.

Section Plane.
Context {V : Type} `{JsonValue V}.

Record NetworkEntry := { ne_network : Network; ne_ipam : Ipam; created_with : V }.

Record MemoryControlPlane := {
  networks : gmap string NetworkEntry;
  ports : gmap string Port;
  publish_range : Z * Z;
  publish_table : PublishTable;
}.

Definition new : MemoryControlPlane :=
  {| networks := ∅; ports := ∅; publish_range := DEFAULT_PUBLISH_RANGE; publish_table := pt_empty |}.
Definition with_publish_range (start end_ : Z) : MemoryControlPlane :=
  {| networks := ∅; ports := ∅; publish_range := (start, end_); publish_table := pt_empty |}.
Definition from_store (s : StateStore V) : MemoryControlPlane :=
  {| networks := ∅; ports := ∅; publish_range := DEFAULT_PUBLISH_RANGE;
     publish_table := st_publish_table s |}.

(** Assignments to the fields. *)
Definition set_networks (f : gmap string NetworkEntry -> gmap string NetworkEntry)
    (s : MemoryControlPlane) : MemoryControlPlane :=
  {| networks := f (networks s); ports := ports s; publish_range := publish_range s;
     publish_table := publish_table s |}.
Definition set_ports (f : gmap string Port -> gmap string Port) (s : MemoryControlPlane) : MemoryControlPlane :=
  {| networks := networks s; ports := f (ports s); publish_range := publish_range s;
     publish_table := publish_table s |}.
Definition set_table (t : PublishTable) (s : MemoryControlPlane) : MemoryControlPlane :=
  {| networks := networks s; ports := ports s; publish_range := publish_range s; publish_table := t |}.

Definition method : Type := V -> cmd MemoryControlPlane RpcError V.

Definition create_network : method := fun params =>
  name ← lift (str_param params "name");
  cidr ← lift (str_param params "cidr");
  gateway ← lift (str_param params "gateway");
  pool_start ← lift (str_param params "poolStart");
  pool_end ← lift (str_param params "poolEnd");
  s ← get;
  match networks s !! name with
  | Some entry => if decide (created_with entry = params) then mret Null else throw Conflict
  | None =>
      start ← lift (ok_or (parse_ipv4_addr pool_start) InvalidParams);
      end_ ← lift (ok_or (parse_ipv4_addr pool_end) InvalidParams);
      pool ← lift (map_err (fun _ => InvalidParams) (IpPool_new start end_));
      network ← lift (map_err (fun _ => InvalidParams) (Network_new name cidr gateway pool));
      let entry := {| ne_network := network; ne_ipam := Ipam_new network; created_with := params |} in
      _ ← modify (set_networks (insert name entry));
      mret Null
  end.

Definition delete_network : method := fun params =>
  name ← lift (str_param params "name");
  s ← get;
  _ ← modify (set_networks (delete name));
  match networks s !! name with Some _ => mret Null | None => throw NotFound end.

Definition get_network : method := fun params =>
  name ← lift (str_param params "name");
  s ← get;
  e ← lift (ok_or (networks s !! name) NotFound);
  mret (Obj [("name", Str (net_name (ne_network e)));
             ("cidr", Str (show_cidr (net_cidr (ne_network e))));
             ("gateway", Str (show_ipv4_addr (net_gateway (ne_network e))))]).

Definition create_port : method := fun params =>
  name ← lift (str_param params "name");
  s ← get;
  match ports s !! name with
  | Some _ => mret Null
  | None =>
      port ← lift (map_err (fun _ => InvalidParams)
        (Port_new name ("/run/user/1000/k8snet/" +:+ name +:+ ".sock")));
      _ ← modify (set_ports (insert name port));
      mret Null
  end.

Definition delete_port : method := fun params =>
  name ← lift (str_param params "name");
  s ← get;
  _ ← modify (set_table (pt_remove_port (publish_table s) name).2);
  _ ← modify (set_ports (delete name));
  match ports s !! name with Some _ => mret Null | None => throw NotFound end.

Definition get_port : method := fun params =>
  name ← lift (str_param params "name");
  s ← get;
  p ← lift (ok_or (ports s !! name) NotFound);
  mret (Obj [("name", Str (port_name p));
             ("network", of_option (Str <$> port_network p));
             ("mac", of_option ((fun m => Str (show_mac m)) <$> port_mac p));
             ("ip", of_option ((fun i => Str (show_ipv4_addr i)) <$> port_ip p))]).

(** [entry.ipam.allocate(mac)] on the entry in the map. *)
Definition allocate_in (net : string) (mac : MacAddr) : cmd MemoryControlPlane RpcError Ipv4Addr :=
  s ← get;
  entry ← lift (ok_or (networks s !! net) NotFound);
  let '(r, ipam) := allocate (ne_ipam entry) mac in
  _ ← modify (set_networks (insert net
        {| ne_network := ne_network entry; ne_ipam := ipam; created_with := created_with entry |}));
  lift (map_err ipam_error r).

Definition attach_port : method := fun params =>
  port_name ← lift (str_param params "port");
  net_name ← lift (str_param params "network");
  mac_text ← lift (str_param params "mac");
  mac ← lift (map_err (fun _ => InvalidParams) (parse_mac mac_text));
  s ← get;
  match ports s !! port_name with
  | None => throw NotFound
  | Some _ =>
      ip ← allocate_in net_name mac;
      s ← get;
      port ← unwrap (ports s !! port_name);
      if decide (port_network port = Some net_name /\ port_mac port = Some mac) then mret Null
      else if decide (is_Some (port_network port)) then throw Conflict
      else
        _ ← modify (set_ports (insert port_name (Port_attach port net_name mac ip)));
        mret Null
  end.

Definition detach_port : method := fun params =>
  name ← lift (str_param params "name");
  s ← get;
  port ← lift (ok_or (ports s !! name) NotFound);
  _ ← modify (set_ports (insert name (Port_detach port)));
  _ ← modify (set_table (pt_remove_port (publish_table s) name).2);
  mret Null.

Definition allocate_ip : method := fun params =>
  net ← lift (str_param params "network");
  mac_text ← lift (str_param params "mac");
  mac ← lift (map_err (fun _ => InvalidParams) (parse_mac mac_text));
  ip ← allocate_in net mac;
  mret (Str (show_ipv4_addr ip)).

Definition release_ip : method := fun params =>
  net ← lift (str_param params "network");
  mac_text ← lift (str_param params "mac");
  mac ← lift (map_err (fun _ => InvalidParams) (parse_mac mac_text));
  s ← get;
  entry ← lift (ok_or (networks s !! net) NotFound);
  let '(r, ipam) := release (ne_ipam entry) mac in
  _ ← modify (set_networks (insert net
        {| ne_network := ne_network entry; ne_ipam := ipam; created_with := created_with entry |}));
  _ ← lift (map_err (fun e => match e with UnknownMac => NotFound | other => ipam_error other end) r);
  mret Null.

Definition publish_port : method := fun params =>
  port_name ← lift (str_param params "port");
  vm_port ← lift (u16_param params "vm_port");
  s ← get;
  port ← lift (ok_or (ports s !! port_name) NotFound);
  match port_network port with
  | None => throw NotFound
  | Some _ =>
      host_port ←
        match pt_get (publish_table s) port_name vm_port with
        | Some host => mret host
        | None =>
            let '(r, t) := pt_allocate (publish_table s) port_name vm_port (publish_range s) in
            _ ← modify (set_table t);
            lift (ok_or r Conflict)
        end;
      mret (Obj [("host_port", Num host_port)])
  end.

Definition unpublish_port : method := fun params =>
  port_name ← lift (str_param params "port");
  vm_port ← lift (u16_param params "vm_port");
  s ← get;
  let '(r, t) := pt_remove (publish_table s) port_name vm_port in
  _ ← modify (set_table t);
  _ ← lift (ok_or r NotFound);
  mret Null.

#[global] Instance memory_plane : ControlPlane MemoryControlPlane V := {
  cp_create_network := create_network;
  cp_delete_network := delete_network;
  cp_get_network := get_network;
  cp_create_port := create_port;
  cp_delete_port := delete_port;
  cp_get_port := get_port;
  cp_attach_port := attach_port;
  cp_detach_port := detach_port;
  cp_allocate_ip := allocate_ip;
  cp_release_ip := release_ip;
  cp_publish_port := publish_port;
  cp_unpublish_port := unpublish_port;
}.
End Plane.
Arguments NetworkEntry : clear implicits.
Arguments MemoryControlPlane : clear implicits.
End Memory.

(** ** What a control plane promises to the server *)
Class ControlPlaneLaws (C V : Type) `{ControlPlane C V} := {
  cp_valid : C -> Prop;
  cp_safe : forall name h params s, handler (C := C) (V := V) name = Some h -> cp_valid s ->
    wp (h params) s (fun _ => cp_valid) (fun _ => cp_valid);
}.

(** A response carries either a result or an error, and its markers. *)
Definition well_formed {V} (r : Response V) (id : V) : Prop :=
  rs_jsonrpc r = "2.0" /\ rs_id r = id /\
  (is_Some (rs_result r) /\ rs_error r = None \/ rs_result r = None /\ is_Some (rs_error r)).

Section Served.
Context {C V : Type} `{ControlPlaneLaws C V, !JsonValue V, !ProtocolCodec V, !ProtocolLaws V}.

Lemma dispatch_safe (req : Request V) (cp : C) :
  cp_valid cp -> exists cp' r, dispatch req cp = Returns cp' r /\ cp_valid cp' /\
    well_formed r (rq_id req) /\
    (handler (C := C) (V := V) (rq_method req) = None ->
      cp' = cp /\ r = Response_err (rq_id req) MethodNotFound).
Proof.
  intros Hv. unfold dispatch. destruct (handler (rq_method req)) as [h|] eqn:Hh.
  - pose proof (cp_safe _ h (default Null (rq_params req)) cp Hh Hv) as Hwp. unfold wp in Hwp.
    destruct (h _ cp) as [cp' [v|e]|]; [..|done]; eexists _, _; split_and!; try done.
    + split_and!; [done..|]. left. done.
    + split_and!; [done..|]. right. done.
  - eexists _, _. split_and!; try done. split_and!; [done..|]. by right.
Qed.

(** C35: a connection gets at most one response, on one line: nothing for an
    empty stream, otherwise one line that reads back as a response with the
    id of the request. A line that does not parse, or names no method, is
    answered by its error without reaching the control plane. *)
Theorem connection_answered (c : connection) (line : string) (cp : C) :
  cp_valid cp -> line_in c = Ok line -> write_ok c = Ok tt ->
  exists cp' n body, handle_connection c cp = Returns cp' (Ok (n, body)) /\ cp_valid cp' /\
    (line = EmptyString /\ n = 0%nat /\ body = EmptyString /\ cp' = cp \/
     n = 1%nat /\ exists r text, body = text +:+ String "010" EmptyString /\
       no_char "010"%char text = true /\ response_from_str text = Some r /\
       match parse_request (trim_end line) with
       | Err e => r = Response_err Null e /\ cp' = cp
       | Ok req => well_formed r (rq_id req) /\
           (handler (C := C) (V := V) (rq_method req) = None ->
             cp' = cp /\ r = Response_err (rq_id req) MethodNotFound)
       end).
Proof.
  intros Hv Hl Hw. unfold handle_connection. rewrite Hl, Hw. unfold is_empty.
  case_bool_decide as Hempty; [eexists _, _, _; naive_solver|].
  destruct (parse_request (trim_end line)) as [req|e].
  - destruct (dispatch_safe req cp Hv) as (cp' & r & -> & Hv' & Hwf & Hnone).
    eexists _, _, _. split_and!; [done|done|]. right. split; [done|]. eexists r, _.
    split_and!; [done|apply response_one_line|apply response_law|done..].
  - eexists _, _, _. split_and!; [done|done|]. right. split; [done|]. eexists _, _.
    split_and!; [done|apply response_one_line|apply response_law|done..].
Qed.

Lemma handle_connection_safe (c : connection) (cp : C) :
  cp_valid cp -> exists cp' r, handle_connection c cp = Returns cp' r /\ cp_valid cp'.
Proof.
  intros Hv. unfold handle_connection. destruct (line_in c) as [line|e]; [|eauto].
  case_match; [eauto|]. destruct (parse_request (trim_end line)) as [req|e].
  - destruct (dispatch_safe req cp Hv) as (cp' & r & -> & Hv' & _). case_match; eauto.
  - case_match; eauto.
Qed.

(** No malformed client wedges the server: whatever lines the connections
    bring, and whatever fails on them, every one of them is handled, the loop
    ends only with the listener, and the control plane stays valid. (A client
    that brings no line at all is in [ControlLoop].) *)
Theorem serve_survives (conns : list connection) (cp : C) :
  cp_valid cp ->
  exists cp' log, serve_loop (Ok <$> conns) cp = Returns cp' (Ok tt, log) /\
    cp_valid cp' /\ length log = length conns.
Proof.
  revert cp. induction conns as [|c conns IH]; intros cp Hv; [by eexists _, _|].
  rewrite fmap_cons. cbn [serve_loop].
  destruct (handle_connection_safe c cp Hv) as (cp1 & r & -> & Hv1).
  destruct (IH cp1 Hv1) as (cp2 & log & -> & Hv2 & Hlen).
  exists cp2, (r :: log). split_and!; [done..|]. simpl. by rewrite Hlen.
Qed.
End Served.

(** ** The in-memory control plane keeps its invariant *)
Section MemoryInvariant.
Context {V : Type} `{JsonValue V}.
Import Memory.
Implicit Types (s : MemoryControlPlane V).

Definition entry_ok (name : string) (e : NetworkEntry V) : Prop :=
  ne_network e = ipam_network (ne_ipam e) /\ net_name (ne_network e) = name /\ ipam_ok (ne_ipam e).

Record memory_ok s : Prop := {
  mem_networks : forall name e, networks s !! name = Some e -> entry_ok name e;
  mem_unique : pt_unique (publish_table s);
  mem_in_range : pt_in_range (publish_range s) (publish_table s);
  mem_attached : forall p v h, pt_get (publish_table s) p v = Some h ->
    exists port, ports s !! p = Some port /\ is_Some (port_network port);
}.

Lemma set_networks_ok s name e :
  memory_ok s -> entry_ok name e -> memory_ok (set_networks (insert name e) s).
Proof.
  intros [Hn Hu Hr Ha] He. split; simpl; [|done..].
  intros name' e' [[<- <-]|[_ ?]]%lookup_insert_Some; auto.
Qed.

Lemma delete_network_ok s name : memory_ok s -> memory_ok (set_networks (delete name) s).
Proof.
  intros [Hn Hu Hr Ha]. split; simpl; [|done..]. intros name' e' [_ ?]%lookup_delete_Some. auto.
Qed.

(** A port may be replaced when it stays attached or is not published. *)
Lemma set_ports_ok s name port :
  memory_ok s -> is_Some (port_network port) \/ (forall v, pt_get (publish_table s) name v = None) ->
  memory_ok (set_ports (insert name port) s).
Proof.
  intros [Hn Hu Hr Ha] Hp. split; simpl; [done..|]. intros p v h Hg.
  destruct (decide (p = name)) as [->|Hne].
  - exists port. rewrite lookup_insert_eq. split; [done|]. destruct Hp as [|Hp]; [done|]. by rewrite Hp in Hg.
  - rewrite lookup_insert_ne by done. eauto.
Qed.

Lemma delete_port_ok s name :
  memory_ok s -> (forall v, pt_get (publish_table s) name v = None) ->
  memory_ok (set_ports (delete name) s).
Proof.
  intros [Hn Hu Hr Ha] Hp. split; simpl; [done..|]. intros p v h Hg.
  destruct (decide (p = name)) as [->|Hne]; [by rewrite Hp in Hg|].
  rewrite lookup_delete_ne by done. eauto.
Qed.

(** Fewer allocations are always fine. *)
Lemma shrink_table_ok s t :
  memory_ok s -> (forall p v h, pt_get t p v = Some h -> pt_get (publish_table s) p v = Some h) ->
  memory_ok (set_table t s).
Proof.
  intros [Hn Hu Hr Ha] Ht. destruct (pt_shrink_inv _ _ _ Ht Hu Hr) as [Hu' Hr'].
  split; simpl; [done..|]. intros p v h Hg. eauto.
Qed.

Lemma remove_port_shrinks t name p v h :
  pt_get (pt_remove_port t name).2 p v = Some h -> pt_get t p v = Some h.
Proof. rewrite pt_remove_port_get. by case_decide. Qed.

Lemma remove_shrinks t name vm p v h :
  pt_get (pt_remove t name vm).2 p v = Some h -> pt_get t p v = Some h.
Proof. rewrite pt_remove_get. by case_decide. Qed.

Lemma create_network_safe params s :
  memory_ok s -> wp (create_network params) s (fun _ => memory_ok) (fun _ => memory_ok).
Proof.
  intros Hs. unfold create_network. wp_steps; try done. simp_results.
  apply set_networks_ok; [done|].
  match goal with |- entry_ok ?a {| ne_network := ?n |} =>
    assert (net_name n = a /\ ipam_ok (Ipam_new n)) as [Hname Hok] by (eapply network_params_ok; eassumption)
  end. by split_and!.
Qed.

Lemma delete_network_safe params s :
  memory_ok s -> wp (delete_network params) s (fun _ => memory_ok) (fun _ => memory_ok).
Proof. intros Hs. unfold delete_network. wp_steps; auto using delete_network_ok. Qed.

Lemma get_network_safe params s :
  memory_ok s -> wp (get_network params) s (fun _ => memory_ok) (fun _ => memory_ok).
Proof. intros Hs. unfold get_network. wp_steps; done. Qed.

Lemma no_port_unpublished s name v :
  memory_ok s -> ports s !! name = None -> pt_get (publish_table s) name v = None.
Proof.
  intros Hs Hp. destruct (pt_get _ _ _) as [h|] eqn:Hg; [|done].
  apply (mem_attached s Hs) in Hg as (? & ? & _). congruence.
Qed.

Lemma removed_unpublished t name v : pt_get (pt_remove_port t name).2 name v = None.
Proof. rewrite pt_remove_port_get. by rewrite decide_True. Qed.

Lemma create_port_safe params s :
  memory_ok s -> wp (create_port params) s (fun _ => memory_ok) (fun _ => memory_ok).
Proof.
  intros Hs. unfold create_port. wp_steps; try done.
  apply set_ports_ok; [done|]. right. intros v. by apply no_port_unpublished.
Qed.

(** Removing the publications of a port first. *)
Lemma unpublish_all_ok s name :
  memory_ok s -> memory_ok (set_table (pt_remove_port (publish_table s) name).2 s).
Proof. intros Hs. apply shrink_table_ok; [done|]. intros p v h. apply remove_port_shrinks. Qed.

Lemma delete_port_safe params s :
  memory_ok s -> wp (delete_port params) s (fun _ => memory_ok) (fun _ => memory_ok).
Proof.
  intros Hs. unfold delete_port. wp_steps; try done;
    (apply delete_port_ok; [by apply unpublish_all_ok|]; intros v; apply removed_unpublished).
Qed.

Lemma get_port_safe params s :
  memory_ok s -> wp (get_port params) s (fun _ => memory_ok) (fun _ => memory_ok).
Proof. intros Hs. unfold get_port. wp_steps; done. Qed.

Lemma entry_ipam_ok name e i :
  entry_ok name e -> ipam_network i = ipam_network (ne_ipam e) -> ipam_ok i ->
  entry_ok name {| ne_network := ne_network e; ne_ipam := i; created_with := created_with e |}.
Proof. intros (Hn & Hname & _) Hi Hok. split_and!; simpl; [congruence|done|done]. Qed.

Lemma allocate_in_safe net mac s :
  memory_ok s -> wf_mac mac ->
  wp (allocate_in net mac) s (fun _ s' => memory_ok s' /\ ports s' = ports s)
    (fun _ s' => memory_ok s').
Proof.
  intros Hs Hmac. unfold allocate_in. wp_steps; simp_results;
    try (split; [|done]); try done;
    (apply set_networks_ok; [done|]);
    match goal with Hn : networks s !! net = Some ?e, Ha : allocate _ mac = (_, ?i) |- _ =>
      pose proof (mem_networks s Hs _ _ Hn) as He; apply entry_ipam_ok; [done|..];
      [pose proof (allocate_network (ne_ipam e) mac) as Hnet
      |pose proof (allocate_ok (ne_ipam e) mac Hmac (proj2 (proj2 He))) as Hok]; by rewrite Ha in *
    end.
Qed.

Lemma attach_port_safe params s :
  memory_ok s -> wp (attach_port params) s (fun _ => memory_ok) (fun _ => memory_ok).
Proof.
  intros Hs. unfold attach_port. wp_steps; try done. simp_results.
  eapply wp_mono; [apply allocate_in_safe; [done|by eapply parse_mac_wf]| |done].
  intros ip s' [Hs' Hports]. wp_steps. eapply wp_unwrap; [by rewrite Hports|].
  wp_steps; try done. apply set_ports_ok; [done|]. left. simpl. eauto.
Qed.

Lemma detach_port_safe params s :
  memory_ok s -> wp (detach_port params) s (fun _ => memory_ok) (fun _ => memory_ok).
Proof.
  intros Hs. unfold detach_port. wp_steps; try done.
  (* the two updates commute: the table goes first *)
  match goal with |- memory_ok (set_table _ (set_ports (insert ?n ?p) s)) =>
    change (memory_ok (set_ports (insert n p) (set_table (pt_remove_port (publish_table s) n).2 s)))
  end.
  apply set_ports_ok; [by apply unpublish_all_ok|]. right. intros v. apply removed_unpublished.
Qed.

Lemma allocate_ip_safe params s :
  memory_ok s -> wp (allocate_ip params) s (fun _ => memory_ok) (fun _ => memory_ok).
Proof.
  intros Hs. unfold allocate_ip. wp_steps; try done. simp_results.
  eapply wp_mono; [apply allocate_in_safe; [done|by eapply parse_mac_wf]| |done].
  intros ip s' [Hs' _]. by wp_steps.
Qed.

Lemma release_ip_safe params s :
  memory_ok s -> wp (release_ip params) s (fun _ => memory_ok) (fun _ => memory_ok).
Proof.
  intros Hs. unfold release_ip. wp_steps; simp_results; try done;
    (apply set_networks_ok; [done|]);
    match goal with Hn : networks s !! ?net = Some ?e, Ha : release _ ?mac = (_, ?i) |- _ =>
      pose proof (mem_networks s Hs _ _ Hn) as He; apply entry_ipam_ok; [done|..];
      [pose proof (release_network (ne_ipam e) mac) as Hnet
      |pose proof (release_ok (ne_ipam e) mac (proj2 (proj2 He))) as Hok]; by rewrite Ha in *
    end.
Qed.

Lemma publish_table_ok s name port vm r t :
  memory_ok s -> ports s !! name = Some port -> is_Some (port_network port) ->
  pt_allocate (publish_table s) name vm (publish_range s) = (r, t) -> memory_ok (set_table t s).
Proof.
  intros [Hn Hu Hr Ha] Hp Hatt Halloc.
  pose proof (pt_allocate_inv _ _ name vm Hu Hr) as Hinv. pose proof (pt_allocate_get (publish_table s) name vm (publish_range s)) as Hget.
  rewrite Halloc in *. destruct Hinv as [Hu' Hr']. split; simpl; [done..|].
  intros p v h Hg. destruct (decide (p = name)) as [->|Hne]; [by exists port|].
  rewrite Hget in Hg by naive_solver. eauto.
Qed.

Lemma publish_port_safe params s :
  memory_ok s -> wp (publish_port params) s (fun _ => memory_ok) (fun _ => memory_ok).
Proof.
  intros Hs. unfold publish_port. wp_steps; try done; simp_results;
    by eapply publish_table_ok.
Qed.

Lemma unpublish_port_safe params s :
  memory_ok s -> wp (unpublish_port params) s (fun _ => memory_ok) (fun _ => memory_ok).
Proof.
  intros Hs. unfold unpublish_port. wp_steps; try done;
    (apply shrink_table_ok; [done|]); intros p' v h;
    match goal with Hr : pt_remove _ ?n ?vm = (_, _) |- _ =>
      intros Hg; apply (remove_shrinks _ n vm); by rewrite Hr
    end.
Qed.

(** A property of the handlers is shown handler by handler. *)
Lemma handler_cases {C W} `{ControlPlane C W} (P : (W -> cmd C RpcError W) -> Prop) name h :
  handler name = Some h ->
  P cp_create_network -> P cp_delete_network -> P cp_get_network -> P cp_create_port ->
  P cp_delete_port -> P cp_get_port -> P cp_attach_port -> P cp_detach_port -> P cp_allocate_ip ->
  P cp_release_ip -> P cp_publish_port -> P cp_unpublish_port -> P h.
Proof. unfold handler. intros Hh **. repeat (case_decide; [by simplify_eq|]). done. Qed.

Lemma memory_handlers_safe name h params s :
  handler (C := MemoryControlPlane V) (V := V) name = Some h -> memory_ok s ->
  wp (h params) s (fun _ => memory_ok) (fun _ => memory_ok).
Proof.
  intros Hh Hs.
  refine (handler_cases (fun h => wp (h params) s (fun _ => memory_ok) (fun _ => memory_ok)) name h Hh
    _ _ _ _ _ _ _ _ _ _ _ _);
    eauto using create_network_safe, delete_network_safe, get_network_safe, create_port_safe,
      delete_port_safe, get_port_safe, attach_port_safe, detach_port_safe, allocate_ip_safe,
      release_ip_safe, publish_port_safe, unpublish_port_safe.
Qed.

Lemma memory_new_ok : memory_ok (new : MemoryControlPlane V).
Proof.
  split; simpl.
  - intros ? ? Hn. by rewrite lookup_empty in Hn.
  - intros ????? Hg. unfold pt_get in Hg; simpl in Hg. by rewrite lookup_empty in Hg.
  - intros ??? Hg. unfold pt_get in Hg; simpl in Hg. by rewrite lookup_empty in Hg.
  - intros ??? Hg. unfold pt_get in Hg; simpl in Hg. by rewrite lookup_empty in Hg.
Qed.
End MemoryInvariant.

#[export] Instance memory_plane_laws {V} `{JsonValue V} :
  ControlPlaneLaws (Memory.MemoryControlPlane V) V :=
  {| cp_valid := memory_ok; cp_safe := memory_handlers_safe |}.

Section MemoryBehaviour.
Context {V : Type} `{JsonValue V}.
Import Memory.

(** Creating a network is idempotent. After a success, the same
    parameters succeed again and change nothing, and any other parameters
    under that name fail and change nothing. *)
Theorem create_network_idempotent (s s' : MemoryControlPlane V) (params v : V) :
  create_network params s = Returns s' (Ok v) ->
  v = Null /\ create_network params s' = Returns s' (Ok Null) /\
  forall params', str_param params' "name" = str_param params "name" -> params' <> params ->
    exists e, create_network params' s' = Returns s' (Err e) /\ (e = Conflict \/ e = InvalidParams).
Proof.
  intros Hc. unfold create_network in Hc. run_cmd in Hc.
  destruct (str_param params "name") as [name|] eqn:Hn; [|done].
  destruct (str_param params "cidr") as [c|] eqn:Hcidr; [|done].
  destruct (str_param params "gateway") as [g|] eqn:Hg; [|done].
  destruct (str_param params "poolStart") as [ps|] eqn:Hps; [|done].
  destruct (str_param params "poolEnd") as [pe|] eqn:Hpe; [|done].
  assert (Hentry : v = Null /\ exists e, networks s' !! name = Some e /\ created_with e = params).
  { destruct (networks s !! name) as [e|] eqn:He.
    - case_decide; simplify_eq. eauto.
    - repeat (case_match; simplify_eq; try done). split; [done|]. eexists.
      split; [simpl; by rewrite lookup_insert_eq|done]. }
  clear Hc. destruct Hentry as (-> & e & He & Hw). split_and!; [done|..].
  - unfold create_network. run_cmd. rewrite Hn, Hcidr, Hg, Hps, Hpe, He. by rewrite decide_True.
  - intros params' Hn' Hne. unfold create_network. run_cmd. rewrite Hn'.
    repeat match goal with
    | |- context [str_param params' ?k] =>
        let E := fresh "E" in unfold str_param at 1;
        destruct (v ← get_key params' k; as_str v) eqn:E; simpl; [|by eauto]
    end.
    rewrite He, decide_False by congruence. eauto.
Qed.

(** Attaching a port that is attached to another network reports a
    conflict and leaves the port alone, yet the address is reserved in the
    other network all the same. *)
Theorem attach_conflict_reserves (s : MemoryControlPlane V) (params : V) (name net : string)
    (mac_text : string) (mac : MacAddr) (port : Port) (entry : NetworkEntry V) (ip : Ipv4Addr) (ipam : Ipam) :
  str_param params "port" = Ok name -> str_param params "network" = Ok net ->
  str_param params "mac" = Ok mac_text -> parse_mac mac_text = Ok mac ->
  ports s !! name = Some port -> is_Some (port_network port) -> port_network port <> Some net ->
  networks s !! net = Some entry -> allocate (ne_ipam entry) mac = (Ok ip, ipam) ->
  exists s', attach_port params s = Returns s' (Err Conflict) /\ ports s' = ports s /\
    exists e, networks s' !! net = Some e /\ lookup_mac (ne_ipam e) mac = Some ip.
Proof.
  intros Hn Hnet Ht Hmac Hp Hatt Hne He Ha. unfold attach_port, allocate_in. run_cmd.
  rewrite Hn, Hnet, Ht. unfold map_err. rewrite Hmac, Hp, He. simpl. rewrite Ha. simpl. rewrite Hp.
  rewrite decide_False by naive_solver. rewrite decide_True by done.
  eexists. split_and!; [done|done|]. simpl. rewrite lookup_insert_eq. eexists. split; [done|]. simpl.
  assert (lookup_mac (allocate (ne_ipam entry) mac).2 mac = Some ip) as Hl by by apply allocate_lookup; rewrite Ha.
  by rewrite Ha in Hl.
Qed.
End MemoryBehaviour.
