(* ===== verification/Dhcp.v ===== *)
(** * The DHCP server (crates/k8netd-svc/src/dhcp.rs)

    The DHCPv4 codec (the dhcproto package) is a class: the getters of a
    message are its [header] and [get_opt]. *)
From S2P Require Import Prelude RustStd Model Ipam.

Inductive Opcode := BootRequest | BootReply.
Inductive MessageType := Discover | Offer | DhcpRequest | Decline | Ack | Nak | Release | Inform.
Inductive OptionCode :=
  | CodeMessageType | CodeServerIdentifier | CodeSubnetMask | CodeRouter
  | CodeDomainNameServer | CodeAddressLeaseTime | CodeRequestedIpAddress.

Inductive DhcpOption :=
  | OptMessageType (t : MessageType)
  | OptServerIdentifier (ip : Ipv4Addr)
  | OptSubnetMask (ip : Ipv4Addr)
  | OptRouter (ips : list Ipv4Addr)
  | OptDomainNameServer (ips : list Ipv4Addr)
  | OptAddressLeaseTime (seconds : Z)
  | OptRequestedIpAddress (ip : Ipv4Addr).

#[export] Instance Opcode_eq_dec : EqDecision Opcode.
Proof. solve_decision. Defined.
#[export] Instance MessageType_eq_dec : EqDecision MessageType.
Proof. solve_decision. Defined.
#[export] Instance OptionCode_eq_dec : EqDecision OptionCode.
Proof. solve_decision. Defined.
#[export] Instance DhcpOption_eq_dec : EqDecision DhcpOption.
Proof. solve_decision. Defined.

Definition option_code (o : DhcpOption) : OptionCode :=
  match o with
  | OptMessageType _ => CodeMessageType
  | OptServerIdentifier _ => CodeServerIdentifier
  | OptSubnetMask _ => CodeSubnetMask
  | OptRouter _ => CodeRouter
  | OptDomainNameServer _ => CodeDomainNameServer
  | OptAddressLeaseTime _ => CodeAddressLeaseTime
  | OptRequestedIpAddress _ => CodeRequestedIpAddress
  end.

(** What the getters of a message return; [ethernet] is [htype() == Eth]. *)
Record Header := {
  opcode : Opcode;
  ethernet : bool;
  hlen : Z;
  xid : Z;
  flags : Z;
  ciaddr : Ipv4Addr;
  yiaddr : Ipv4Addr;
  chaddr : list Z;
}.

Class DhcpCodec (M : Type) := {
  from_bytes : list Z -> option M;
  to_vec : M -> option (list Z);
  header : M -> Header;
  get_opt : M -> OptionCode -> option DhcpOption;
  new_with_id : Z -> Ipv4Addr -> Ipv4Addr -> Ipv4Addr -> Ipv4Addr -> list Z -> M;
  set_opcode : Opcode -> M -> M;
  set_flags : Z -> M -> M;
  insert_opt : DhcpOption -> M -> M;
}.

Class DhcpLaws (M : Type) `{DhcpCodec M} := {
  encodes m : is_Some (to_vec m);
  chaddr_bytes b m : from_bytes b = Some m -> bytes_ok b -> bytes_ok (chaddr (header m));
  header_new x c y s g ch : header (new_with_id x c y s g ch) =
    {| opcode := BootRequest; ethernet := true; hlen := zlen ch; xid := x; flags := 0;
       ciaddr := c; yiaddr := y; chaddr := ch |};
  opt_new x c y s g ch code : get_opt (new_with_id x c y s g ch) code = None;
  header_set_opcode o m : header (set_opcode o m) =
    let h := header m in {| opcode := o; ethernet := ethernet h; hlen := hlen h; xid := xid h;
      flags := flags h; ciaddr := ciaddr h; yiaddr := yiaddr h; chaddr := chaddr h |};
  opt_set_opcode o m code : get_opt (set_opcode o m) code = get_opt m code;
  header_set_flags f m : header (set_flags f m) =
    let h := header m in {| opcode := opcode h; ethernet := ethernet h; hlen := hlen h; xid := xid h;
      flags := f; ciaddr := ciaddr h; yiaddr := yiaddr h; chaddr := chaddr h |};
  opt_set_flags f m code : get_opt (set_flags f m) code = get_opt m code;
  header_insert o m : header (insert_opt o m) = header m;
  opt_insert o m code :
    get_opt (insert_opt o m) code = if decide (option_code o = code) then Some o else get_opt m code;
}.

Definition MAGIC : list Z := [99; 130; 83; 99].
Definition MAGIC_COOKIE_OFFSET : nat := 236.
Definition MIN_PACKET_SIZE : nat := 240.
Definition LEASE_SECONDS : Z := 3600.

(** [u32::MAX << (32 - prefix)]: the subtraction panics past 32. *)
Definition dhcp_netmask (prefix : Z) : may_panic Ipv4Addr :=
  if prefix =? 0 then Val ip_unspecified
  else if 32 <? prefix then Panic
  else Val (wrap_u32 (Z.shiftl u32_max (32 - prefix))).

Record DhcpServer := { ipam : Ipam; reply_buf : list Z }.

Definition DhcpServer_new (i : Ipam) : DhcpServer := {| ipam := i; reply_buf := [] |}.

Section Handler.
Context {M : Type} `{DhcpCodec M}.

(** [msg_type()]. *)
Definition msg_type (m : M) : option MessageType :=
  match get_opt m CodeMessageType with Some (OptMessageType t) => Some t | _ => None end.

(** The message [reply] builds before encoding it. *)
Definition reply_message (n : Network) (mask : Ipv4Addr) (msg : M) (ip : Ipv4Addr) (t : MessageType) : M :=
  let gateway := net_gateway n in
  let out := new_with_id (xid (header msg)) ip_unspecified ip ip_unspecified ip_unspecified
               (chaddr (header msg)) in
  let out := set_opcode BootReply out in
  let out := set_flags (flags (header msg)) out in
  let out := insert_opt (OptMessageType t) out in
  let out := insert_opt (OptServerIdentifier gateway) out in
  let out := insert_opt (OptSubnetMask mask) out in
  let out := insert_opt (OptRouter [gateway]) out in
  let out := insert_opt (OptDomainNameServer [gateway]) out in
  insert_opt (OptAddressLeaseTime LEASE_SECONDS) out.

Definition reply (i : Ipam) (msg : M) (ip : Ipv4Addr) (t : MessageType) : may_panic (option (list Z)) :=
  let network := ipam_network i in
  mask ← dhcp_netmask (cidr_prefix (net_cidr network));
  Val (to_vec (reply_message network mask msg ip t)).

Definition nak_message (msg : M) : M :=
  let out := new_with_id (xid (header msg)) ip_unspecified ip_unspecified ip_unspecified ip_unspecified
               (chaddr (header msg)) in
  let out := set_opcode BootReply out in
  let out := set_flags (flags (header msg)) out in
  insert_opt (OptMessageType Nak) out.

Definition nak (msg : M) : option (list Z) := to_vec (nak_message msg).

Definition discover (i : Ipam) (msg : M) (mac : MacAddr) : may_panic (option (list Z) * Ipam) :=
  match lookup_mac i mac with
  | Some ip => r ← reply i msg ip Offer; Val (r, i)
  | None =>
      let '(res, i') := allocate i mac in
      match res with
      | Err _ => Val (None, i')
      | Ok ip => r ← reply i' msg ip Offer; Val (r, i')
      end
  end.

(** Option 50, or the client's own address in [ciaddr]. *)
Definition requested_ip (msg : M) : Ipv4Addr :=
  match get_opt msg CodeRequestedIpAddress with
  | Some (OptRequestedIpAddress ip) => ip
  | _ => ciaddr (header msg)
  end.

Definition request (i : Ipam) (msg : M) (mac : MacAddr) : may_panic (option (list Z)) :=
  let requested := requested_ip msg in
  if decide (lookup_mac i mac = Some requested) then reply i msg requested Ack
  else Val (nak msg).

(** [packet.len() < MIN_PACKET_SIZE || packet[236..240] != MAGIC]. *)
Definition bad_cookie (packet : list Z) : may_panic bool :=
  if Nat.ltb (length packet) MIN_PACKET_SIZE then Val true
  else cookie ← slice packet MAGIC_COOKIE_OFFSET (MAGIC_COOKIE_OFFSET + 4);
       Val (negb (bool_decide (cookie = MAGIC))).

Definition process (s : DhcpServer) (packet : list Z) : may_panic (option (list Z) * Ipam) :=
  let i := ipam s in
  bad ← bad_cookie packet;
  if bad : bool then Val (None, i)
  else
    match from_bytes packet with
    | None => Val (None, i)
    | Some msg =>
        let h := header msg in
        if negb (bool_decide (opcode h = BootRequest)) || negb (ethernet h) || negb (hlen h =? 6)
        then Val (None, i)
        else
          match mac_from_bytes (chaddr h) with
          | None => Val (None, i)
          | Some mac =>
              match msg_type msg with
              | None => Val (None, i)
              | Some Discover => discover i msg mac
              | Some DhcpRequest => r ← request i msg mac; Val (r, i)
              | Some _ => Val (None, i)
              end
          end
    end.

Definition handle (s : DhcpServer) (packet : list Z) : may_panic (option (list Z) * DhcpServer) :=
  res ← process s packet;
  let '(r, i) := res in
  match r with
  | Some encoded => Val (Some encoded, {| ipam := i; reply_buf := encoded |})
  | None => Val (None, {| ipam := i; reply_buf := reply_buf s |})
  end.
End Handler.

(** ** What a client sees *)

Section Replies.
Context {M : Type} `{DhcpLaws M}.

(** An OFFER or ACK of [ip] to the sender of [msg], with the options the
    network dictates. *)
Definition is_lease (n : Network) (msg out : M) (ip : Ipv4Addr) (t : MessageType) : Prop :=
  opcode (header out) = BootReply /\ xid (header out) = xid (header msg) /\
  chaddr (header out) = chaddr (header msg) /\ flags (header out) = flags (header msg) /\
  yiaddr (header out) = ip /\ msg_type out = Some t /\
  get_opt out CodeServerIdentifier = Some (OptServerIdentifier (net_gateway n)) /\
  get_opt out CodeSubnetMask = Some (OptSubnetMask (netmask (net_cidr n))) /\
  get_opt out CodeRouter = Some (OptRouter [net_gateway n]) /\
  get_opt out CodeDomainNameServer = Some (OptDomainNameServer [net_gateway n]) /\
  get_opt out CodeAddressLeaseTime = Some (OptAddressLeaseTime LEASE_SECONDS).

Definition is_nak (msg out : M) : Prop :=
  opcode (header out) = BootReply /\ xid (header out) = xid (header msg) /\
  chaddr (header out) = chaddr (header msg) /\ yiaddr (header out) = ip_unspecified /\
  msg_type out = Some Nak /\ get_opt out CodeRouter = None.

(** The packet is a well-formed client message of type [t] from [mac]. *)
Definition client_message (packet : list Z) (msg : M) (mac : MacAddr) (t : MessageType) : Prop :=
  (240 <= length packet)%nat /\ take 4 (drop 236 packet) = MAGIC /\ from_bytes packet = Some msg /\
  opcode (header msg) = BootRequest /\ ethernet (header msg) = true /\ hlen (header msg) = 6 /\
  chaddr (header msg) = octets mac /\ msg_type msg = Some t.

Lemma dhcp_netmask_ok n : wf_network n ->
  dhcp_netmask (cidr_prefix (net_cidr n)) = Val (netmask (net_cidr n)).
Proof.
  intros Hn. destruct (wfn_cidr n Hn) as [_ Hp _]. unfold dhcp_netmask, netmask, mask.
  destruct (cidr_prefix (net_cidr n) =? 0); [done|]. by destruct (Z.ltb_spec 32 (cidr_prefix (net_cidr n))); [lia|].
Qed.

Ltac solve_message :=
  unfold msg_type;
  repeat first [rewrite header_insert | rewrite header_set_flags | rewrite header_set_opcode
               | rewrite header_new | rewrite opt_insert | rewrite opt_set_flags
               | rewrite opt_set_opcode | rewrite opt_new]; done.

Lemma reply_message_ok n msg ip t : is_lease n msg (reply_message n (netmask (net_cidr n)) msg ip t) ip t.
Proof. unfold is_lease, reply_message. split_and!; solve_message. Qed.

Lemma nak_message_ok msg : is_nak msg (nak_message msg).
Proof. unfold is_nak, nak_message. split_and!; solve_message. Qed.

Lemma reply_ok i msg ip t :
  wf_network (ipam_network i) ->
  exists out b, reply i msg ip t = Val (Some b) /\ to_vec out = Some b /\
    is_lease (ipam_network i) msg out ip t.
Proof.
  intros Hn. unfold reply. rewrite (dhcp_netmask_ok _ Hn). cbn [mbind may_panic_bind].
  destruct (encodes (reply_message (ipam_network i) (netmask (net_cidr (ipam_network i))) msg ip t)) as [b Hb].
  eexists _, b. split_and!; [by rewrite Hb|exact Hb|apply reply_message_ok].
Qed.

Lemma bad_cookie_total packet :
  exists b, bad_cookie packet = Val b /\
    (b = false <-> (240 <= length packet)%nat /\ take 4 (drop 236 packet) = MAGIC).
Proof.
  unfold bad_cookie, MIN_PACKET_SIZE, MAGIC_COOKIE_OFFSET.
  destruct (Nat.ltb_spec (length packet) 240) as [Hl|Hl].
  - exists true. split; [done|]. split; [done|]. intros [? _]. lia.
  - unfold slice. rewrite decide_True by lia. cbn [mbind may_panic_bind Nat.add Nat.sub].
    eexists. split; [done|]. rewrite negb_false_iff, bool_decide_eq_true. naive_solver.
Qed.

(** One step of the server, once the packet is known to be a message. *)
Definition respond (i : Ipam) (msg : M) (mac : MacAddr) (t : MessageType) : may_panic (option (list Z) * Ipam) :=
  match t with
  | Discover => discover i msg mac
  | DhcpRequest => r ← request i msg mac; Val (r, i)
  | _ => Val (None, i)
  end.

Lemma process_client s packet msg mac t :
  client_message packet msg mac t -> process s packet = respond (ipam s) msg mac t.
Proof.
  intros (Hl & Hm & Hd & Ho & He & Hh & Hc & Ht). unfold process.
  destruct (bad_cookie_total packet) as (b & -> & Hb). destruct b; [by assert (true = false) by (by apply Hb)|].
  cbn [mbind may_panic_bind]. rewrite Hd, Ho, He, Hh, Hc, Ht, mac_from_octets. by destruct t.
Qed.

(** Any other packet is dropped without an effect. *)
Lemma process_other s packet :
  (exists msg mac t, client_message packet msg mac t) \/ process s packet = Val (None, ipam s).
Proof.
  unfold process, client_message. destruct (bad_cookie_total packet) as (b & -> & Hb).
  cbn [mbind may_panic_bind]. destruct b; [by right|].
  destruct (proj1 Hb eq_refl) as [Hl Hm]. destruct (from_bytes packet) as [msg|] eqn:Hd; [|by right].
  case_match eqn:Hguard; [by right|]. rewrite !orb_false_iff, !negb_false_iff in Hguard.
  destruct Hguard as [[Ho He] Hh]. apply bool_decide_eq_true in Ho. apply Z.eqb_eq in Hh.
  destruct (mac_from_bytes (chaddr (header msg))) as [mac|] eqn:Hmac; [|by right].
  destruct (msg_type msg) as [t|] eqn:Ht; [|by right].
  left. exists msg, mac, t. split_and!; try done. symmetry. by apply mac_from_bytes_octets.
Qed.

Lemma handle_process s packet r i :
  process s packet = Val (r, i) ->
  exists s', handle s packet = Val (r, s') /\ ipam s' = i.
Proof. intros Hp. unfold handle. rewrite Hp. cbn [mbind may_panic_bind]. destruct r; eauto. Qed.

Lemma discover_spec i msg mac :
  ipam_ok i -> wf_mac mac ->
  exists r i', discover i msg mac = Val (r, i') /\ ipam_ok i' /\ ipam_network i' = ipam_network i /\
    match lookup_mac i' mac with
    | Some ip => exists out b, r = Some b /\ to_vec out = Some b /\ is_lease (ipam_network i) msg out ip Offer
    | None => r = None /\ i' = i
    end.
Proof.
  intros Hi Hmac. unfold discover. destruct (lookup_mac i mac) as [ip|] eqn:Hl.
  - destruct (reply_ok i msg ip Offer (ok_network i Hi)) as (out & b & -> & Hb & Hlease).
    cbn [mbind may_panic_bind]. eexists _, _. split_and!; [done..|]. rewrite Hl. eauto.
  - pose proof (allocate_ok i mac Hmac Hi) as Hok. pose proof (allocate_network i mac) as Hnet.
    pose proof (allocate_lookup i mac) as Hlook. pose proof (allocate_err i mac) as Herr.
    destruct (allocate i mac) as [[ip|e] i']; simpl in *.
    + destruct (reply_ok i' msg ip Offer (ok_network i' Hok)) as (out & b & -> & Hb & Hlease).
      cbn [mbind may_panic_bind]. eexists _, _. split_and!; [done..|]. rewrite (Hlook ip eq_refl), <- Hnet. eauto.
    + eexists _, _. split_and!; [done..|]. rewrite (Herr e eq_refl), Hl. done.
Qed.

Lemma request_spec i msg mac :
  ipam_ok i ->
  exists out b, request i msg mac = Val (Some b) /\ to_vec out = Some b /\
    if decide (lookup_mac i mac = Some (requested_ip msg))
    then is_lease (ipam_network i) msg out (requested_ip msg) Ack else is_nak msg out.
Proof.
  intros Hi. unfold request. case_decide.
  - destruct (reply_ok i msg (requested_ip msg) Ack (ok_network i Hi)) as (out & b & -> & Hb & Hlease). eauto.
  - unfold nak. destruct (encodes (nak_message msg)) as [b Hb]. rewrite Hb.
    exists (nak_message msg), b. split_and!; [done..|apply nak_message_ok].
Qed.

Lemma client_mac_ok packet msg mac t :
  bytes_ok packet -> client_message packet msg mac t -> wf_mac mac.
Proof.
  intros Hb (_ & _ & Hd & _ & _ & _ & Hc & _). unfold wf_mac. rewrite <- Hc. by eapply chaddr_bytes.
Qed.

Lemma handle_total s packet :
  ipam_ok (ipam s) -> bytes_ok packet -> exists r s', handle s packet = Val (r, s').
Proof.
  intros Hi Hb. destruct (process_other s packet) as [(msg & mac & t & Hc)|Hp].
  2: { destruct (handle_process _ _ _ _ Hp) as (s' & -> & _). eauto. }
  assert (exists r i', process s packet = Val (r, i')) as (r & i' & Hp).
  { rewrite (process_client s packet msg mac t Hc). pose proof (client_mac_ok _ _ _ _ Hb Hc) as Hmac.
    destruct t; simpl; eauto.
    - destruct (discover_spec (ipam s) msg mac Hi Hmac) as (r & i' & -> & _). eauto.
    - destruct (request_spec (ipam s) msg mac Hi) as (out & b & -> & _). simpl. eauto. }
  destruct (handle_process _ _ _ _ Hp) as (s' & -> & _). eauto.
Qed.

(** On any packet at all the server does not panic and keeps the
    bindings valid; it answers only DISCOVER and REQUEST messages, and
    nothing but a DISCOVER from an unknown client changes a binding. *)
Theorem dhcp_safe (s : DhcpServer) (packet : list Z) :
  ipam_ok (ipam s) -> bytes_ok packet ->
  exists r s', handle s packet = Val (r, s') /\ ipam_ok (ipam s') /\
    (is_Some r -> exists msg mac t, client_message packet msg mac t /\ (t = Discover \/ t = DhcpRequest)) /\
    (ipam s' <> ipam s -> exists msg mac, client_message packet msg mac Discover /\
      lookup_mac (ipam s) mac = None /\ is_Some (lookup_mac (ipam s') mac)).
Proof.
  intros Hi Hb. destruct (process_other s packet) as [(msg & mac & t & Hc)|Hp].
  2: { destruct (handle_process _ _ _ _ Hp) as (s' & -> & Hs').
       eexists _, s'. rewrite Hs'. split_and!; [done|done|by intros [? ?]|done]. }
  pose proof (process_client s packet msg mac t Hc) as Hp. pose proof (client_mac_ok _ _ _ _ Hb Hc) as Hmac.
  destruct (decide (t = Discover)) as [->|Hnd].
  - destruct (discover_spec (ipam s) msg mac Hi Hmac) as (r & i' & Hd & Hok & _ & Hcase).
    simpl in Hp. rewrite Hd in Hp. destruct (handle_process _ _ _ _ Hp) as (s' & -> & Hs').
    exists r, s'. rewrite Hs'. split_and!; [done|done|eauto 8|]. intros Hne. exists msg, mac.
    split; [done|]. destruct (lookup_mac i' mac) eqn:Hl'; [|naive_solver]. split; [|done].
    destruct (lookup_mac (ipam s) mac) eqn:Hl; [|done]. exfalso. apply Hne.
    unfold discover in Hd. rewrite Hl in Hd. destruct (reply _ _ _ _); naive_solver.
  - assert (exists r, process s packet = Val (r, ipam s) /\ (is_Some r -> t = DhcpRequest)) as (r & Hr & Ht).
    { rewrite Hp. destruct t; try done; simpl; try (eexists; split; [done|]; by intros [? ?]).
      destruct (request_spec (ipam s) msg mac Hi) as (out & b & -> & _). eexists. split; [done|done]. }
    destruct (handle_process _ _ _ _ Hr) as (s' & -> & Hs'). exists r, s'. rewrite Hs'.
    split_and!; [done|done| |done]. intros Hsome. exists msg, mac, t. auto.
Qed.

(** A DISCOVER is answered by an OFFER of the address that is then bound
    to the client, with the options of its network; there is no answer only
    when no address is bound, and then nothing has changed. *)
Theorem discover_offers_binding (s : DhcpServer) (packet : list Z) (msg : M) (mac : MacAddr) :
  ipam_ok (ipam s) -> bytes_ok packet -> client_message packet msg mac Discover ->
  exists r s', handle s packet = Val (r, s') /\
    match lookup_mac (ipam s') mac with
    | Some ip => exists out b, r = Some b /\ to_vec out = Some b /\
        is_lease (ipam_network (ipam s)) msg out ip Offer /\ in_pool (net_pool (ipam_network (ipam s))) ip
    | None => r = None /\ ipam s' = ipam s
    end.
Proof.
  intros Hi Hb Hc. pose proof (client_mac_ok _ _ _ _ Hb Hc) as Hmac.
  destruct (discover_spec (ipam s) msg mac Hi Hmac) as (r & i' & Hd & Hok & Hnet & Hcase).
  destruct (handle_process s packet r i') as (s' & -> & Hs'); [by rewrite (process_client s _ _ _ _ Hc)|].
  exists r, s'. split; [done|]. rewrite Hs'. destruct (lookup_mac i' mac) as [ip|] eqn:Hl; [|done].
  destruct Hcase as (out & b & -> & Ho & Hlease). exists out, b. split_and!; [done..|].
  rewrite <- Hnet. by eapply ok_pool.
Qed.

Lemma handle_request (s : DhcpServer) (packet : list Z) (msg : M) (mac : MacAddr) :
  ipam_ok (ipam s) -> client_message packet msg mac DhcpRequest ->
  exists b s' out, handle s packet = Val (Some b, s') /\ ipam s' = ipam s /\ to_vec out = Some b /\
    if decide (lookup_mac (ipam s) mac = Some (requested_ip msg))
    then is_lease (ipam_network (ipam s)) msg out (requested_ip msg) Ack else is_nak msg out.
Proof.
  intros Hi Hc. destruct (request_spec (ipam s) msg mac Hi) as (out & b & Hr & Ho & Hcase).
  destruct (handle_process s packet (Some b) (ipam s)) as (s' & -> & Hs').
  { rewrite (process_client s _ _ _ _ Hc). simpl. by rewrite Hr. }
  exists b, s', out. done.
Qed.

(** A REQUEST is always answered and changes nothing: by an ACK exactly
    when the address it asks for (option 50, or [ciaddr] without it) is the
    one bound to the client, and by a NAK otherwise. *)
Theorem request_acks_bound (s : DhcpServer) (packet : list Z) (msg : M) (mac : MacAddr) :
  ipam_ok (ipam s) -> client_message packet msg mac DhcpRequest ->
  exists b s' out, handle s packet = Val (Some b, s') /\ ipam s' = ipam s /\ to_vec out = Some b /\
    if decide (lookup_mac (ipam s) mac = Some (requested_ip msg))
    then is_lease (ipam_network (ipam s)) msg out (requested_ip msg) Ack else is_nak msg out.
Proof. by apply handle_request. Qed.
End Replies.

(** ** An implementation of the codec: the wire format of RFC 2131, cut down
    to the options above *)
Record WireMessage := { wire_header : Header; wire_opts : list DhcpOption }.

Definition u32_at (l : list Z) (i : nat) : Z :=
  match drop i l with a :: b :: c :: d :: _ => u32_from_be a b c d | _ => 0 end.

Definition message_type_code (t : MessageType) : Z :=
  match t with
  | Discover => 1 | Offer => 2 | DhcpRequest => 3 | Decline => 4 | Ack => 5 | Nak => 6
  | Release => 7 | Inform => 8
  end.

Definition message_type_of (z : Z) : option MessageType :=
  head (filter (fun t => message_type_code t = z) [Discover; Offer; DhcpRequest; Decline; Ack; Nak; Release; Inform]).

Definition parse_option (code : Z) (body : list Z) : option DhcpOption :=
  let ip := u32_at body 0 in
  if code =? 53 then match body with [t] => OptMessageType <$> message_type_of t | _ => None end
  else if code =? 50 then Some (OptRequestedIpAddress ip)
  else if code =? 54 then Some (OptServerIdentifier ip)
  else if code =? 1 then Some (OptSubnetMask ip)
  else if code =? 3 then Some (OptRouter [ip])
  else if code =? 6 then Some (OptDomainNameServer [ip])
  else if code =? 51 then Some (OptAddressLeaseTime ip)
  else None.

Fixpoint parse_options (fuel : nat) (l : list Z) : list DhcpOption :=
  match fuel, l with
  | S fuel, code :: len :: rest =>
      let body := take (Z.to_nat len) rest in
      let tail := parse_options fuel (drop (Z.to_nat len) rest) in
      match parse_option code body with Some o => o :: tail | None => tail end
  | _, _ => []
  end.

Definition encode_option (o : DhcpOption) : list Z :=
  match o with
  | OptMessageType t => [53; 1; message_type_code t]
  | OptServerIdentifier ip => 54 :: 4 :: ip_octets ip
  | OptSubnetMask ip => 1 :: 4 :: ip_octets ip
  | OptRouter ips => 3 :: 4 * zlen ips :: concat (ip_octets <$> ips)
  | OptDomainNameServer ips => 6 :: 4 * zlen ips :: concat (ip_octets <$> ips)
  | OptAddressLeaseTime n => 51 :: 4 :: u32_to_be n
  | OptRequestedIpAddress ip => 50 :: 4 :: ip_octets ip
  end.

Definition wire_decode (l : list Z) : option WireMessage :=
  if Nat.ltb (length l) 240 then None
  else
    let at_ i := nth i l 0 in
    Some {| wire_header := {| opcode := if at_ 0%nat =? 1 then BootRequest else BootReply;
              ethernet := at_ 1%nat =? 1; hlen := at_ 2%nat; xid := u32_at l 4;
              flags := u16_from_be (at_ 10%nat) (at_ 11%nat); ciaddr := u32_at l 12; yiaddr := u32_at l 16;
              chaddr := take (Z.to_nat (at_ 2%nat)) (take 16 (drop 28 l)) |};
            wire_opts := parse_options (length l) (drop 240 l) |}.

Definition wire_encode (m : WireMessage) : list Z :=
  let h := wire_header m in
  (if decide (opcode h = BootRequest) then 1 else 2) :: (if ethernet h then 1 else 0) :: hlen h :: 0 ::
  u32_to_be (xid h) ++ [0; 0] ++ u16_to_be (flags h) ++ ip_octets (ciaddr h) ++ ip_octets (yiaddr h) ++
  replicate 8 0 ++ take 16 (chaddr h ++ replicate 16 0) ++ replicate 192 0 ++ MAGIC ++
  concat (encode_option <$> rev (wire_opts m)) ++ [255].

#[export] Instance wire_codec : DhcpCodec WireMessage := {
  from_bytes := wire_decode;
  to_vec m := Some (wire_encode m);
  header := wire_header;
  get_opt m c := head (filter (fun o => option_code o = c) (wire_opts m));
  new_with_id x c y s g ch :=
    {| wire_header := {| opcode := BootRequest; ethernet := true; hlen := zlen ch; xid := x; flags := 0;
         ciaddr := c; yiaddr := y; chaddr := ch |}; wire_opts := [] |};
  set_opcode o m := let h := wire_header m in
    {| wire_header := {| opcode := o; ethernet := ethernet h; hlen := hlen h; xid := xid h;
         flags := flags h; ciaddr := ciaddr h; yiaddr := yiaddr h; chaddr := chaddr h |};
       wire_opts := wire_opts m |};
  set_flags f m := let h := wire_header m in
    {| wire_header := {| opcode := opcode h; ethernet := ethernet h; hlen := hlen h; xid := xid h;
         flags := f; ciaddr := ciaddr h; yiaddr := yiaddr h; chaddr := chaddr h |};
       wire_opts := wire_opts m |};
  insert_opt o m := {| wire_header := wire_header m; wire_opts := o :: wire_opts m |};
}.

#[export] Instance wire_laws : DhcpLaws WireMessage.
Proof.
  split; try done.
  - intros b m. simpl. unfold wire_decode. case_match; [done|]. intros [= <-] Hb. simpl.
    by repeat apply Forall_take; apply Forall_drop.
  - intros o m c. simpl. rewrite filter_cons. by case_decide.
Qed.

(** A client packet of the wire format. *)
Definition client_packet (t : MessageType) (mac : MacAddr) (ci : Ipv4Addr) (asked : option Ipv4Addr) : list Z :=
  1 :: 1 :: 6 :: 0 :: u32_to_be 0xbeef ++ [0; 0; 0; 0] ++ ip_octets ci ++ replicate 12 0 ++
  octets mac ++ replicate 10 0 ++ replicate 192 0 ++ MAGIC ++
  encode_option (OptMessageType t) ++
  match asked with Some ip => encode_option (OptRequestedIpAddress ip) | None => [] end ++ [255].
