(* ===== verification/Dns.v ===== *)
(** * The DNS forwarder (crates/k8netd-svc/src/dns.rs)

    The DNS codec (the hickory_proto package) is a class of the three things
    the forwarder reads off a message and of the error message it builds. *)
From S2P Require Import Prelude RustStd.

Inductive UpstreamError := Timeout | Refused | UpstreamIo (kind : string).

(** [impl Clone]: the kind and message of an I/O error are preserved. *)
Definition clone_error (e : UpstreamError) : UpstreamError :=
  match e with Timeout => Timeout | Refused => Refused | UpstreamIo k => UpstreamIo k end.

(** [trait UpstreamSender]: what one exchange with an upstream returns. *)
Definition UpstreamSender : Type := list Z -> result UpstreamError (list Z).

(** The resolver asked (address and port), and the read timeout in
    milliseconds. *)
Record UdpUpstream := { up_ip : Z; up_port : Z; up_timeout : Z }.

Definition UdpUpstream_new (ip : Z) : UdpUpstream := {| up_ip := ip; up_port := 53; up_timeout := 2000 |}.

(** What the sockets of one UDP exchange do: the four set-up calls, then the
    datagram received or the kind of the receive error. *)
Record exchange := {
  ex_bind : result string unit;
  ex_connect : result string unit;
  ex_set_timeout : result string unit;
  ex_send : result string unit;
  ex_recv : result string (list Z);
}.

Definition io_step (r : result string unit) : result UpstreamError unit := map_err UpstreamIo r.

(** The receive buffer holds 4096 bytes; a longer datagram is cut. *)
Definition udp_send (ex : exchange) (query : list Z) : result UpstreamError (list Z) :=
  _ ← io_step (ex_bind ex);
  _ ← io_step (ex_connect ex);
  _ ← io_step (ex_set_timeout ex);
  _ ← io_step (ex_send ex);
  match ex_recv ex with
  | Ok datagram => Ok (take 4096 datagram)
  | Err kind =>
      if decide (kind = "WouldBlock" \/ kind = "TimedOut") then Err Timeout else Err (UpstreamIo kind)
  end.

(** [id], [message_type == Response], and [queries.is_empty()]. *)
Record DnsMessage := { dns_id : Z; is_response : bool; no_queries : bool }.

(** The upstream as a sender, over what the host's sockets do. *)
Definition udp_upstream (net : UdpUpstream -> list Z -> exchange) (u : UdpUpstream) : UpstreamSender :=
  fun query => udp_send (net u query) query.

Class DnsCodec := {
  dns_from_vec : list Z -> option DnsMessage;
  servfail_to_vec : Z -> option (list Z);  (* [Message::error_msg(id, Query, ServFail).to_vec().ok()] *)
}.

Record DnsForwarder := { upstreams : list UpstreamSender }.

Definition DnsForwarder_new (l : list UpstreamSender) : DnsForwarder := {| upstreams := l |}.

Section Forward.
Context `{DnsCodec}.

Definition servfail (id : Z) : option (list Z) := servfail_to_vec id.

(** The checks an answer must pass. *)
Definition acceptable (id : Z) (response : list Z) : bool :=
  match dns_from_vec response with
  | Some d => is_response d && (dns_id d =? id)
  | None => false
  end.

(** The loop over the upstreams: the answer to relay, and how many upstreams
    were asked. *)
Fixpoint try_upstreams (packet : list Z) (id : Z) (l : list UpstreamSender) : option (list Z) * nat :=
  match l with
  | [] => (None, 0%nat)
  | u :: l' =>
      let next := let '(r, n) := try_upstreams packet id l' in (r, S n) in
      match u packet with
      | Ok response => if acceptable id response then (Some response, 1%nat) else next
      | Err _ => next
      end
  end.

Definition handle (f : DnsForwarder) (packet : list Z) : option (list Z) * nat :=
  match dns_from_vec packet with
  | None => (None, 0%nat)
  | Some query =>
      if no_queries query then (None, 0%nat)
      else
        match try_upstreams packet (dns_id query) (upstreams f) with
        | (Some response, n) => (Some response, n)
        | (None, n) => (servfail (dns_id query), n)
        end
  end.

(** The upstream [u] answers [packet] with [response], acceptably. *)
Definition answers (packet : list Z) (id : Z) (u : UpstreamSender) (response : list Z) : Prop :=
  u packet = Ok response /\ acceptable id response = true.

Lemma try_upstreams_spec packet id l :
  match try_upstreams packet id l with
  | (Some response, n) => exists before u after, l = before ++ u :: after /\ n = S (length before) /\
      answers packet id u response /\ Forall (fun v => forall r, ~ answers packet id v r) before
  | (None, n) => n = length l /\ Forall (fun v => forall r, ~ answers packet id v r) l
  end.
Proof.
  induction l as [|u l IH]; simpl; [by split; [|constructor]|].
  assert (Hnext : (forall r, ~ answers packet id u r) ->
    match (let '(r, n) := try_upstreams packet id l in (r, S n)) with
    | (Some response, n) => exists before v after, u :: l = before ++ v :: after /\ n = S (length before) /\
        answers packet id v response /\ Forall (fun v => forall r, ~ answers packet id v r) before
    | (None, n) => n = S (length l) /\ Forall (fun v => forall r, ~ answers packet id v r) (u :: l)
    end).
  { intros Hno. destruct (try_upstreams packet id l) as [[r|] n].
    - destruct IH as (before & v & after & -> & -> & Hv & Hall). exists (u :: before), v, after.
      split_and!; [done|done|exact Hv|by constructor].
    - destruct IH as [-> Hall]. split; [done|by constructor]. }
  destruct (u packet) as [response|e] eqn:Hu; [destruct (acceptable id response) eqn:Ha|];
    [|apply Hnext; intros r [Hr1 Hr2]; congruence..].
  exists [], u, l. split_and!; [done|done|by split|constructor].
Qed.

(** A packet that is not a query with a question is dropped and no
    upstream is asked. Otherwise the upstreams are asked in order up to the
    first whose answer decodes, is a response and has the id of the query;
    that answer is relayed as it came and no later upstream is asked. When
    none qualifies every upstream has been asked and SERVFAIL goes back. *)
Theorem dns_first_acceptable (f : DnsForwarder) (packet : list Z) :
  match dns_from_vec packet with
  | Some query =>
      if no_queries query then handle f packet = (None, 0%nat)
      else
        (exists before u after response, upstreams f = before ++ u :: after /\
           answers packet (dns_id query) u response /\
           Forall (fun v => forall r, ~ answers packet (dns_id query) v r) before /\
           handle f packet = (Some response, S (length before))) \/
        (Forall (fun v => forall r, ~ answers packet (dns_id query) v r) (upstreams f) /\
         handle f packet = (servfail (dns_id query), length (upstreams f)))
  | None => handle f packet = (None, 0%nat)
  end.
Proof.
  unfold handle. destruct (dns_from_vec packet) as [query|]; [|done].
  destruct (no_queries query); [done|].
  pose proof (try_upstreams_spec packet (dns_id query) (upstreams f)) as Hs.
  destruct (try_upstreams packet (dns_id query) (upstreams f)) as [[response|] n].
  - destruct Hs as (before & u & after & Hf & -> & Ha & Hall). left.
    exists before, u, after, response. done.
  - destruct Hs as [-> Hall]. by right.
Qed.

(** A UDP upstream that is silent, refuses or sends a stray answer counts as
    one failed attempt. *)
Lemma udp_send_bounded ex query response :
  udp_send ex query = Ok response -> (length response <= 4096)%nat.
Proof.
  unfold udp_send, io_step, map_err. intros Hs.
  destruct (ex_bind ex), (ex_connect ex), (ex_set_timeout ex), (ex_send ex); try done. simpl in Hs.
  destruct (ex_recv ex); [|by case_decide]. injection Hs as <-. rewrite length_take. lia.
Qed.
End Forward.

(** ** An implementation of the codec: the fixed header of a message *)
#[export] Instance header_codec : DnsCodec := {
  dns_from_vec b :=
    match b with
    | i0 :: i1 :: f0 :: f1 :: q0 :: q1 :: _ :: _ :: _ :: _ :: _ :: _ :: _ =>
        Some {| dns_id := u16_from_be i0 i1; is_response := 128 <=? f0; no_queries := u16_from_be q0 q1 =? 0 |}
    | _ => None
    end;
  servfail_to_vec id := Some (u16_to_be id ++ [128; 2] ++ replicate 8 0);
}.
