(* ===== verification/Passt.v ===== *)
(** * The passt manager (crates/k8netd-svc/src/passt.rs)

    The command line, the framing of the tap socket and the life of the
    child process. *)
From S2P Require Import Prelude RustStd.

Definition FRAME_HEADER_LEN : nat := 4.

Record PortForward := { pf_host : Z; pf_vm : Z }.

Record PasstConfig := {
  cfg_vm_ip : string;
  cfg_netmask : string;
  cfg_gateway : string;
  forwards : list PortForward;
}.

Definition forward_flag (f : PortForward) : string :=
  "-t" +:+ show_uint (pf_host f) +:+ ":" +:+ show_uint (pf_vm f).

Definition passt_argv (config : PasstConfig) (fd : Z) : list string :=
  ["passt"; "--fd"; show_uint fd; "-a"; cfg_vm_ip config; "-n"; cfg_netmask config;
   "-g"; cfg_gateway config; "--map-host-loopback"; cfg_gateway config]
  ++ (forward_flag <$> forwards config) ++ ["--foreground"].

(** A [BTreeMap] iterates in key order. *)
Definition passt_config_for (vm_ip netmask gateway : string) (published : gmap Z Z) : PasstConfig :=
  {| cfg_vm_ip := vm_ip; cfg_netmask := netmask; cfg_gateway := gateway;
     forwards := (fun '(vm, host) => {| pf_host := host; pf_vm := vm |}) <$> btree_entries Z.leb published |}.

(** [payload.len() as u32]. *)
Definition encode_frame (payload : list Z) : list Z := u32_to_be (wrap_u32 (zlen payload)) ++ payload.

#[global] Arguments encode_frame : simpl never.

Inductive VnetError := TooShort (len : nat) | Truncated (declared have : nat).

#[export] Instance VnetError_eq_dec : EqDecision VnetError.
Proof. solve_decision. Defined.

Definition show_VnetError (e : VnetError) : string :=
  match e with
  | TooShort n => "passt buffer too short: " +:+ show_uint (Z.of_nat n) +:+ " bytes"
  | Truncated declared have =>
      "passt frame truncated: declared " +:+ show_uint (Z.of_nat declared) +:+ ", have " +:+ show_uint (Z.of_nat have)
  end.

(** The sum of the header and a 32-bit length does not overflow a 64-bit
    [usize]: the [checked_add] always succeeds. *)
Definition decode_frame (buf : list Z) : may_panic (result VnetError (list Z)) :=
  if Nat.ltb (length buf) FRAME_HEADER_LEN then Val (Err (TooShort (length buf)))
  else
    b0 ← index buf 0; b1 ← index buf 1; b2 ← index buf 2; b3 ← index buf 3;
    let len := Z.to_nat (u32_from_be b0 b1 b2 b3) in
    let end_ := (FRAME_HEADER_LEN + len)%nat in
    if Nat.ltb (length buf) end_ then
      Val (Err (Truncated len (length buf - FRAME_HEADER_LEN)))
    else p ← slice buf FRAME_HEADER_LEN end_; Val (Ok p).

(** ** The child process *)

(** What the system does when a passt is spawned. *)
Record spawn_outcome := {
  so_socketpair : result string (Z * Z);
  so_child : result string Z;              (* the child's pid *)
}.

Record PasstProc := { pp_pid : Z; pp_stream : Z; served_fd : Z }.

Definition socketpair (o : spawn_outcome) : result string (Z * Z) := so_socketpair o.

(** The command run, the descriptors closed, and the process or the error.
    Dropping the stream on a failed spawn closes our end. *)
Definition spawn (config : PasstConfig) (o : spawn_outcome)
    : option (list string) * list Z * result string PasstProc :=
  match socketpair o with
  | Err e => (None, [], Err e)
  | Ok (ours, theirs) =>
      let argv := passt_argv config theirs in
      match so_child o with
      | Ok pid => (Some argv, [theirs], Ok {| pp_pid := pid; pp_stream := ours; served_fd := theirs |})
      | Err e => (Some argv, [ours; theirs], Err e)
      end
  end.

(** [try_wait]: running, exited, or an error of the call. *)
Inductive wait_result := Running | Exited | WaitError (e : string).

Definition exited (w : wait_result) : bool := match w with Exited => true | _ => false end.

Inductive signal := SIGTERM | SIGKILL.

(** [terminate]: SIGTERM, then polls until the child is gone or the deadline
    has passed, then SIGKILL. Each poll is what [try_wait] returns and
    whether the deadline has passed by then; the polls end with the clock. *)
Fixpoint wait_loop (polls : list (wait_result * bool)) : list signal * result string unit :=
  match polls with
  | [] => ([SIGKILL], Ok tt)
  | (Exited, _) :: _ => ([], Ok tt)
  | (WaitError e, _) :: _ => ([], Err e)
  | (Running, true) :: _ => ([SIGKILL], Ok tt)
  | (Running, false) :: polls' => wait_loop polls'
  end.

Definition terminate (polls : list (wait_result * bool)) : list signal * result string unit :=
  let '(s, r) := wait_loop polls in (SIGTERM :: s, r).

(** ** Lemmas *)

Lemma zlen_wrap {A} (l : list A) : zlen l <= u32_max -> wrap_u32 (zlen l) = zlen l.
Proof. unfold wrap_u32, zlen, u32_max. intros. apply Z.mod_small. lia. Qed.

Lemma decode_at b0 b1 b2 b3 rest :
  decode_frame (b0 :: b1 :: b2 :: b3 :: rest) =
    let len := Z.to_nat (u32_from_be b0 b1 b2 b3) in
    Val (if Nat.ltb (length rest) len then Err (Truncated len (length rest)) else Ok (take len rest)).
Proof.
  unfold decode_frame, FRAME_HEADER_LEN, index. simpl length.
  destruct (Nat.ltb_spec (S (S (S (S (length rest))))) 4); [lia|]. cbn [lookup list_lookup mbind may_panic_bind].
  set (len := Z.to_nat (u32_from_be b0 b1 b2 b3)).
  destruct (Nat.ltb_spec (S (S (S (S (length rest))))) (4 + len));
    destruct (Nat.ltb_spec (length rest) len); try lia; [do 3 f_equal; lia|].
  unfold slice. rewrite decide_True by (simpl; lia). cbn [mbind may_panic_bind].
  by replace (4 + len - 4)%nat with len by lia.
Qed.

Lemma decode_short buf : (length buf < 4)%nat -> decode_frame buf = Val (Err (TooShort (length buf))).
Proof. intros Hb. unfold decode_frame, FRAME_HEADER_LEN. by destruct (Nat.ltb_spec (length buf) 4); [|lia]. Qed.

Lemma decode_encode_app payload rest :
  zlen payload <= u32_max -> decode_frame (encode_frame payload ++ rest) = Val (Ok payload).
Proof.
  intros Hl. unfold encode_frame, u32_to_be. rewrite zlen_wrap by done. cbn [app].
  rewrite decode_at, u32_from_to_be by (unfold is_u32, zlen in *; lia). cbv zeta.
  unfold zlen. rewrite Nat2Z.id, length_app.
  destruct (Nat.ltb_spec (length payload + length rest) (length payload)); [lia|].
  by rewrite take_app_length.
Qed.

(** Decoding never panics and inverts encoding: a buffer decodes to a
    payload exactly when it starts with that payload encoded, and otherwise
    the error says how many bytes there are against how many are declared. *)
Theorem frame_roundtrip (buf : list Z) (payload : list Z) :
  bytes_ok buf ->
  (decode_frame buf = Val (Ok payload) <->
   zlen payload <= u32_max /\ exists rest, buf = encode_frame payload ++ rest) /\
  exists r, decode_frame buf = Val r /\
    match r with
    | Ok _ => True
    | Err (TooShort n) => n = length buf /\ (n < 4)%nat
    | Err (Truncated declared have) => length buf = (4 + have)%nat /\ (have < declared)%nat
    end.
Proof.
  intros Hb. destruct (decide (length buf < 4)%nat) as [Hs|Hs].
  { rewrite decode_short by done. split; [split; [done|]|by eexists].
    intros (_ & rest & ->). unfold encode_frame in Hs. rewrite !length_app in Hs. simpl in Hs. lia. }
  destruct buf as [|b0 [|b1 [|b2 [|b3 rest]]]]; simpl in Hs; try lia.
  rewrite decode_at. cbv zeta. do 4 (apply Forall_cons in Hb as [? Hb]).
  pose proof (u32_from_be_range b0 b1 b2 b3) as Hr. unfold is_u32 in Hr.
  split.
  - split; [|intros (Hl & rest' & Heq)].
    + destruct (Nat.ltb_spec (length rest) (Z.to_nat (u32_from_be b0 b1 b2 b3))) as [|Hle]; [done|].
      intros [= <-]. assert (Hz : zlen (take (Z.to_nat (u32_from_be b0 b1 b2 b3)) rest) = u32_from_be b0 b1 b2 b3).
      { unfold zlen. rewrite length_take. naive_solver lia. }
      split; [rewrite Hz; naive_solver lia|]. exists (drop (Z.to_nat (u32_from_be b0 b1 b2 b3)) rest).
      unfold encode_frame. rewrite zlen_wrap, Hz by (rewrite Hz; naive_solver lia).
      rewrite u32_to_from_be by done. cbn [app]. by rewrite take_drop.
    + pose proof (decode_encode_app payload rest' Hl) as Hd. rewrite <- Heq, decode_at in Hd. done.
  - eexists. split; [done|]. destruct (Nat.ltb_spec (length rest) (Z.to_nat (u32_from_be b0 b1 b2 b3))); [|done].
    simpl. lia.
Qed.

Definition mk_forward (e : Z * Z) : PortForward := {| pf_host := e.2; pf_vm := e.1 |}.

Lemma forwards_entries vm_ip netmask gateway published :
  forwards (passt_config_for vm_ip netmask gateway published) = mk_forward <$> btree_entries Z.leb published.
Proof. simpl. apply list_fmap_ext. by intros _ [vm host] _. Qed.

Lemma vm_ports_entries (l : list (Z * Z)) : pf_vm <$> (mk_forward <$> l) = l.*1.
Proof. rewrite <- list_fmap_compose. by apply list_fmap_ext. Qed.

#[export] Instance key_order_total {V} : Total (fun p q : Z * V => Is_true (Z.leb p.1 q.1)).
Proof. intros p q. rewrite !Is_true_true, !Z.leb_le. lia. Qed.

#[export] Instance key_order_trans {V} : Transitive (fun p q : Z * V => Is_true (Z.leb p.1 q.1)).
Proof. intros p q r. rewrite !Is_true_true, !Z.leb_le. lia. Qed.

Lemma btree_entries_sorted {V} (m : gmap Z V) : StronglySorted Z.le (btree_entries Z.leb m).*1.
Proof.
  assert (Hs : StronglySorted (fun p q : Z * V => Is_true (Z.leb p.1 q.1)) (btree_entries Z.leb m))
    by (apply StronglySorted_merge_sort; apply _).
  induction Hs as [|x l Hs IH Hall]; simpl; constructor; [done|]. apply Forall_fmap.
  eapply Forall_impl; [exact Hall|]. intros y. rewrite Is_true_true. simpl. lia.
Qed.

Lemma elem_of_btree_entries {K V} `{Countable K} leb (m : gmap K V) k v :
  (k, v) ∈ btree_entries leb m <-> m !! k = Some v.
Proof. unfold btree_entries. rewrite merge_sort_Permutation. apply elem_of_map_to_list. Qed.

Lemma NoDup_btree_entries {K V} `{Countable K} leb (m : gmap K V) : NoDup (btree_entries leb m).*1.
Proof. unfold btree_entries. rewrite merge_sort_Permutation. apply NoDup_fst_map_to_list. Qed.

(** The command line advertises the VM's address, mask and gateway and
    carries one forward flag per published pair, no more, in VM port order. *)
Theorem argv_forwards (vm_ip netmask gateway : string) (published : gmap Z Z) (fd : Z) :
  let config := passt_config_for vm_ip netmask gateway published in
  exists flags,
    passt_argv config fd =
      ["passt"; "--fd"; show_uint fd; "-a"; vm_ip; "-n"; netmask; "-g"; gateway;
       "--map-host-loopback"; gateway] ++ (forward_flag <$> flags) ++ ["--foreground"] /\
    NoDup (pf_vm <$> flags) /\ StronglySorted Z.le (pf_vm <$> flags) /\
    forall f, f ∈ flags <-> published !! pf_vm f = Some (pf_host f).
Proof.
  intros config. exists (forwards config). split; [done|]. unfold config. rewrite forwards_entries, vm_ports_entries.
  split_and!; [apply NoDup_btree_entries|apply btree_entries_sorted|].
  intros [host vm]. simpl. rewrite <- (elem_of_btree_entries Z.leb), list_elem_of_fmap. split.
  - intros ([vm' host'] & [= -> ->] & Hin). done.
  - intros Hin. by exists (vm, host).
Qed.

#[export] Instance PortForward_eq_dec : EqDecision PortForward.
Proof. solve_decision. Defined.
#[export] Instance PasstConfig_eq_dec : EqDecision PasstConfig.
Proof. solve_decision. Defined.
