(* ===== verification/Packet.v ===== *)
(** * Packets of the dataplane (crates/k8netd/src/dataplane.rs, frame helpers)

    Reading IPv4 over Ethernet, the Internet checksum, and the replies the
    daemon builds itself. Indexing is explicit, so that a read out of range
    is a panic of the model. *)
From S2P Require Import Prelude RustStd Model Frame Gateway.

Definition IPPROTO_ICMP : Z := 1.
Definition IPPROTO_UDP : Z := 17.
Definition ICMP_ECHO_REQUEST : Z := 8.
Definition ICMP_ECHO_REPLY : Z := 0.
Definition DHCP_SERVER_PORT : Z := 67.
Definition DHCP_CLIENT_PORT : Z := 68.
Definition DNS_PORT : Z := 53.

Record Ipv4Frame := {
  ip_src : Ipv4Addr;
  ip_dst : Ipv4Addr;
  ip_proto : Z;
  ip_payload : list Z;
}.

(** The name [ethertype] is the field of a parsed frame. *)
Definition frame_ethertype (frame : list Z) : may_panic (option Z) :=
  if Nat.ltb (length frame) 14 then Val None
  else e ← be16_at frame 12; Val (Some e).

Definition is_routable (b : Z) : bool := bool_decide (b ∈ [1; 6; 17; 47; 50; 51; 58]).

(** [Ipv4Addr::new(o[0], o[1], o[2], o[3])]. *)
Definition ip_of_bytes (o : list Z) : may_panic Ipv4Addr :=
  a ← index o 0; b ← index o 1; c ← index o 2; d ← index o 3; Val (ip_new a b c d).

(** The end of the header, probed at the two places of the protocol byte. *)
Definition header_end (frame : list Z) (std_end : nat) : may_panic (option nat) :=
  if Nat.leb std_end (length frame) then
    std ← index frame (std_end - 11);
    if is_routable std then Val (Some std_end)
    else
      compact ← index frame (std_end - 12);
      Val (if is_routable compact then Some (std_end - 1)%nat else None)
  else Val None.

Definition parse_ipv4 (frame : list Z) : may_panic (option Ipv4Frame) :=
  et ← frame_ethertype frame;
  match et with
  | None => Val None
  | Some et =>
      if negb (et =? ETHERTYPE_IPV4) then Val None
      else
        first ← index frame 14;
        let ihl := Z.to_nat (Z.land first 0x0f * 4) in
        if negb (Z.shiftr first 4 =? 4) || Nat.ltb ihl 20 then Val None
        else
          end_ ← header_end frame (14 + ihl);
          match end_ with
          | None => Val None
          | Some e =>
              match get_range frame (e - 8) (e - 4), get_range frame (e - 4) e with
              | Some s, Some d =>
                  src ← ip_of_bytes s;
                  dst ← ip_of_bytes d;
                  proto ← index frame (e - 11);
                  p ← slice frame e (length frame);
                  Val (Some {| ip_src := src; ip_dst := dst; ip_proto := proto; ip_payload := p |})
              | _, _ => Val None
              end
          end
  end.

(** ** The Internet checksum *)

(** The 32-bit accumulator wraps. *)
Fixpoint word_sum (data : list Z) : Z :=
  match data with
  | a :: b :: rest => u16_from_be a b + word_sum rest
  | [last] => Z.shiftl last 8
  | [] => 0
  end.

(** [while sum >> 16 != 0]; two rounds are enough for 32 bits. *)
Fixpoint fold_carries (fuel : nat) (sum : Z) : Z :=
  match fuel with
  | O => sum
  | S fuel =>
      if Z.shiftr sum 16 =? 0 then sum
      else fold_carries fuel (Z.land sum 0xffff + Z.shiftr sum 16)
  end.

(** [!(sum as u16)]. *)
Definition complement (sum : Z) : Z := u16_max - sum mod 2 ^ 16.

Definition inet_checksum (data : list Z) : Z := complement (fold_carries 2 (wrap_u32 (word_sum data))).

Definition ipv4_checksum (header : list Z) : Z := complement (fold_carries 2 (wrap_u32 (word_sum header))).

(** ** Replies built by the daemon *)

(** [l[i..i + bytes.len()].copy_from_slice(bytes)] in range. *)
Definition overwrite (i : nat) (bytes l : list Z) : list Z :=
  take i l ++ bytes ++ drop (i + length bytes) l.

Definition dataplane_gateway_mac (gateway : Ipv4Addr) : list Z := 0x02 :: 0x00 :: ip_octets gateway.

Definition udp_ip_header (udp_len : Z) (gateway_ip dst_ip : Ipv4Addr) : list Z :=
  let iph := [0x45; 0] ++ u16_to_be (u16_or_max (20 + udp_len)) ++ [0; 0] ++ u16_to_be 0x4000
             ++ [64; IPPROTO_UDP] ++ [0; 0] ++ ip_octets gateway_ip ++ ip_octets dst_ip in
  overwrite 10 (u16_to_be (ipv4_checksum iph)) iph.

Definition wrap_udp_reply (payload : list Z) (vm_mac : MacAddr) (gateway_ip reply_ip : Ipv4Addr)
    (sport dport : Z) : list Z :=
  let unspecified := reply_ip =? ip_unspecified in
  let dst_ip := if unspecified then ip_broadcast else reply_ip in
  let dst_mac := if unspecified then replicate 6 255 else octets vm_mac in
  let udp_len := 8 + zlen payload in
  dst_mac ++ dataplane_gateway_mac gateway_ip ++ u16_to_be ETHERTYPE_IPV4
  ++ udp_ip_header udp_len gateway_ip dst_ip
  ++ u16_to_be sport ++ u16_to_be dport ++ u16_to_be (u16_or_max udp_len) ++ [0; 0] ++ payload.

(** The packet of an echo request turned into the reply: [pkt] is the frame
    without its Ethernet header, [ihl] its header length. *)
Definition reflect_echo (pkt : list Z) (ihl : nat) (gateway_ip : Ipv4Addr) : list Z :=
  let pkt := overwrite ihl [ICMP_ECHO_REPLY] pkt in
  let pkt := overwrite (ihl + 2) [0; 0] pkt in
  let pkt := overwrite (ihl + 2) (u16_to_be (inet_checksum (drop ihl pkt))) pkt in
  let pkt := overwrite 16 (take 4 (drop 12 pkt)) pkt in
  let pkt := overwrite 12 (ip_octets gateway_ip) pkt in
  let pkt := overwrite 8 [64] pkt in
  let pkt := overwrite 10 [0; 0] pkt in
  overwrite 10 (u16_to_be (inet_checksum (take ihl pkt))) pkt.

(** The part of [gateway_icmp_reply] after the port has been looked up. A
    write out of range would panic: the last guard is the source's slices. *)
Definition icmp_echo_reply (gateway_ip : Ipv4Addr) (vm_mac : MacAddr) (frame : list Z)
    : may_panic (option (list Z)) :=
  parsed ← parse_ipv4 frame;
  match parsed with
  | None => Val None
  | Some ip =>
      if negb (ip_dst ip =? gateway_ip) || negb (ip_proto ip =? IPPROTO_ICMP) then Val None
      else if negb (bool_decide (head (ip_payload ip) = Some ICMP_ECHO_REQUEST))
              || Nat.ltb (length (ip_payload ip)) 8 then Val None
      else
        pkt ← slice frame 14 (length frame);
        first ← index pkt 0;
        let ihl := Z.to_nat (Z.land first 0x0f * 4) in
        if Nat.ltb ihl 20 || Nat.ltb (length pkt) ihl then Val None
        else
          _ ← slice pkt (ihl + 2) (ihl + 4);
          Val (Some (octets vm_mac ++ dataplane_gateway_mac gateway_ip ++ u16_to_be ETHERTYPE_IPV4
                     ++ reflect_echo pkt ihl gateway_ip))
  end.

(** [First 16 bytes] of the frame in hex: the code takes 48. *)
Definition hex_prefix (frame : list Z) : string := concat_string (show_hex2 <$> take 48 frame).

(** [100 ms * 2^(failures - 1)], the shift cut at 16 and the delay at 2 s. *)
Definition restart_backoff (failures : Z) : Z :=
  let shift := Z.min (Z.max 0 (failures - 1)) 16 in
  Z.min (100 * 2 ^ shift) 2000.

(** ** The checksum verifies *)

Lemma land_ffff s : Z.land s 0xffff = s mod 65536.
Proof. change 0xffff with (Z.ones 16). by rewrite Z.land_ones by lia. Qed.

(** Two rounds fold a 32-bit sum to 16 bits; the residue modulo 65535 is
    kept and only zero folds to zero. *)
Lemma fold_carries_spec s :
  is_u32 s ->
  let f := fold_carries 2 s in
  is_u16 f /\ f mod 65535 = s mod 65535 /\ (f = 0 -> s = 0).
Proof.
  unfold is_u32, is_u16, u32_max, u16_max. intros Hs. cbn [fold_carries]. rewrite !land_ffff.
  rewrite !Z.shiftr_div_pow2 by lia. change (2 ^ 16) with 65536.
  destruct (Z.eqb_spec (s / 65536) 0) as [H0|H0].
  { split_and!; [Z.div_mod_to_equations; lia..|done|lia]. }
  set (s1 := s mod 65536 + s / 65536).
  assert (Hs1 : 0 < s1 <= 131070) by (unfold s1; Z.div_mod_to_equations; lia).
  assert (Hm1 : s1 mod 65535 = s mod 65535).
  { unfold s1. rewrite (Z.div_mod s 65536) at 3 by lia.
    replace (65536 * (s / 65536) + s mod 65536) with (s mod 65536 + s / 65536 + s / 65536 * 65535) by lia.
    by rewrite Z.mod_add by lia. }
  destruct (Z.eqb_spec (s1 / 65536) 0) as [H1|H1].
  { split_and!; [lia|Z.div_mod_to_equations; lia|done|lia]. }
  rewrite ?land_ffff. set (s2 := s1 mod 65536 + s1 / 65536).
  assert (Hs2 : 0 < s2 <= 65535) by (unfold s2; Z.div_mod_to_equations; lia).
  split_and!; [lia|lia| |lia]. rewrite <- Hm1. unfold s2. rewrite (Z.div_mod s1 65536) at 3 by lia.
  replace (65536 * (s1 / 65536) + s1 mod 65536) with (s1 mod 65536 + s1 / 65536 + s1 / 65536 * 65535) by lia.
  by rewrite Z.mod_add by lia.
Qed.

Definition checksum_of (sum : Z) : Z := complement (fold_carries 2 sum).

Lemma checksum_of_range s : is_u32 s -> is_u16 (checksum_of s).
Proof.
  intros Hs. destruct (fold_carries_spec s Hs) as (Hf & _). unfold checksum_of, complement, is_u16, u16_max in *.
  rewrite Z.mod_small; lia.
Qed.

(** Adding the checksum to what it was computed from leaves nothing over. *)
Lemma checksum_of_self s :
  0 <= s <= u32_max - u16_max -> checksum_of (s + checksum_of s) = 0.
Proof.
  unfold u32_max, u16_max. intros Hs. assert (Hu : is_u32 s) by (unfold is_u32, u32_max; lia).
  destruct (fold_carries_spec s Hu) as (Hf & Hmod & Hzero). cbv zeta in *.
  set (f := fold_carries 2 s) in *. unfold is_u16, u16_max in Hf.
  assert (Hc : checksum_of s = 65535 - f).
  { unfold checksum_of, complement, u16_max. fold f. rewrite Z.mod_small; lia. }
  rewrite Hc. set (t := s + (65535 - f)).
  assert (Ht : is_u32 t) by (unfold is_u32, u32_max, t; lia).
  destruct (fold_carries_spec t Ht) as (Hg & Hmodt & Hzerot). cbv zeta in *.
  assert (Hpos : t <> 0) by (unfold t; intros Heq; assert (f = 65535 /\ s = 0) as [? ->] by lia; done).
  assert (Hzmod : t mod 65535 = 0).
  { unfold t. replace (s + (65535 - f)) with (s - f + 1 * 65535) by lia. rewrite Z.mod_add by lia.
    rewrite Zminus_mod, Hmod, Z.sub_diag. done. }
  unfold checksum_of, complement, u16_max in *. unfold is_u16, u16_max in Hg.
  set (g := fold_carries 2 t) in *. assert (g <> 0) by auto.
  assert (g = 65535) as -> by (rewrite Hzmod in Hmodt; Z.div_mod_to_equations; lia). done.
Qed.

Lemma word_sum_nonneg l : bytes_ok l -> 0 <= word_sum l <= 65535 * zlen l.
Proof.
  unfold zlen. assert (Hind : forall n l, (length l <= n)%nat -> bytes_ok l ->
    0 <= word_sum l <= 65535 * Z.of_nat (length l)).
  { clear l. induction n as [|n IH]; intros l Hn Hb; [destruct l; simpl in *; [lia|lia]|].
    destruct l as [|a [|b l]]; [simpl; lia| |].
    - apply Forall_cons in Hb as [Ha _]. unfold is_u8, u8_max in Ha. cbn [word_sum length].
      rewrite Z.shiftl_mul_pow2 by lia. change (2 ^ 8) with 256. lia.
    - apply Forall_cons in Hb as [Ha Hb]. apply Forall_cons in Hb as [Hb' Hb].
      assert (Hl := IH l ltac:(simpl in Hn; lia) Hb). unfold is_u8, u8_max in Ha, Hb'.
      cbn [word_sum length]. unfold u16_from_be. lia. }
  intros Hb. by apply (Hind (length l)).
Qed.

Lemma word_sum_app_even n a b : length a = (2 * n)%nat -> word_sum (a ++ b) = word_sum a + word_sum b.
Proof.
  revert a. induction n as [|n IH]; intros a Ha; [destruct a; [done|simpl in Ha; lia]|].
  destruct a as [|x [|y a]]; [simpl in Ha; lia..|]. cbn [app word_sum].
  rewrite IH by (simpl in Ha; lia). lia.
Qed.

(** A checksum written into its zeroed field, at an even offset. *)
Lemma checksum_in_place n a b :
  length a = (2 * n)%nat -> bytes_ok a -> bytes_ok b -> zlen a + zlen b <= 65530 ->
  inet_checksum (a ++ u16_to_be (inet_checksum (a ++ [0; 0] ++ b)) ++ b) = 0.
Proof.
  intros Ha Hba Hbb Hlen. unfold inet_checksum. fold (checksum_of (wrap_u32 (word_sum (a ++ [0; 0] ++ b)))).
  pose proof (word_sum_nonneg a Hba). pose proof (word_sum_nonneg b Hbb).
  rewrite !(word_sum_app_even n a) by done.
  change (word_sum ([0; 0] ++ b)) with (word_sum b).
  set (s := word_sum a + word_sum b). assert (0 <= s <= u32_max - u16_max) by (unfold s, u32_max, u16_max; lia).
  unfold wrap_u32 at 2. rewrite (Z.mod_small s) by (unfold u32_max, u16_max in *; lia).
  assert (Hc : is_u16 (checksum_of s)).
  { apply checksum_of_range. unfold is_u32, u32_max, u16_max in *. lia. }
  change (word_sum (u16_to_be (checksum_of s) ++ b))
    with (u16_from_be (checksum_of s / 256 mod 256) (checksum_of s mod 256) + word_sum b).
  rewrite u16_from_to_be by done.
  replace (word_sum a + (checksum_of s + word_sum b)) with (s + checksum_of s) by (unfold s; lia).
  unfold wrap_u32. rewrite Z.mod_small by (unfold is_u16, u32_max, u16_max in *; lia).
  by apply checksum_of_self.
Qed.

(** ** Reading IPv4 *)

Lemma index_Some {A} (l : list A) i : (i < length l)%nat -> exists a, index l i = Val a.
Proof.
  intros Hi. unfold index. destruct (l !! i) eqn:Hl; [by eexists|].
  apply lookup_ge_None in Hl. lia.
Qed.

Lemma ip_of_bytes_total l : (4 <= length l)%nat -> exists ip, ip_of_bytes l = Val ip.
Proof.
  intros Hl. do 4 (destruct l as [|? l]; [simpl in Hl; lia|]). by eexists.
Qed.

Lemma header_end_total frame n :
  (12 <= n)%nat ->
  exists r, header_end frame n = Val r /\
    match r with Some e => (n <= length frame)%nat /\ (e = n \/ e = n - 1)%nat | None => True end.
Proof.
  intros Hn. unfold header_end. destruct (Nat.leb_spec n (length frame)) as [Hle|]; [|by eexists].
  destruct (index_Some frame (n - 11)) as [x ->]; [lia|]. cbn [mbind may_panic_bind].
  destruct (is_routable x); [eexists; split; [done|]; simpl; lia|].
  destruct (index_Some frame (n - 12)) as [y ->]; [lia|]. cbn [mbind may_panic_bind].
  eexists. split; [done|]. destruct (is_routable y); simpl; [lia|done].
Qed.

Lemma frame_ethertype_short frame : (length frame < 14)%nat -> frame_ethertype frame = Val None.
Proof. intros Hl. unfold frame_ethertype. by destruct (Nat.ltb_spec (length frame) 14); [|lia]. Qed.

Lemma frame_ethertype_total frame : exists et, frame_ethertype frame = Val et.
Proof.
  unfold frame_ethertype, be16_at. destruct (Nat.ltb_spec (length frame) 14); [by eexists|].
  destruct (index_Some frame 12) as [a ->]; [lia|]. cbn [mbind may_panic_bind].
  destruct (index_Some frame (12 + 1)) as [b ->]; [lia|]. by eexists.
Qed.

Lemma get_range_Some {A} (l : list A) i j :
  (i <= j)%nat -> (j <= length l)%nat -> exists r, get_range l i j = Some r /\ length r = (j - i)%nat.
Proof.
  intros Hi Hj. unfold get_range. rewrite decide_True by lia. eexists. split; [done|].
  rewrite length_take, length_drop. lia.
Qed.

(** Beyond the Ethernet header every read is in range. *)
Lemma parse_ipv4_long frame : length frame <> 14%nat -> exists r, parse_ipv4 frame = Val r.
Proof.
  intros Hl. unfold parse_ipv4. destruct (frame_ethertype_total frame) as [et Het].
  rewrite Het. cbn [mbind may_panic_bind]. destruct et as [et|]; [|by eexists].
  assert (14 < length frame)%nat.
  { destruct (decide (length frame < 14)%nat); [|lia]. by rewrite frame_ethertype_short in Het by done. }
  destruct (et =? ETHERTYPE_IPV4); [|by eexists]. cbn [negb].
  destruct (index_Some frame 14) as [first ->]; [lia|]. cbn [mbind may_panic_bind].
  set (ihl := Z.to_nat (Z.land first 0x0f * 4)).
  destruct (negb _); cbn [orb]; [by eexists|]. destruct (Nat.ltb_spec ihl 20); [by eexists|].
  destruct (header_end_total frame (14 + ihl)) as (r & -> & Hr); [lia|]. cbn [mbind may_panic_bind].
  destruct r as [e|]; [|by eexists].
  destruct (get_range_Some frame (e - 8) (e - 4)) as (s & -> & Hs); [lia|lia|].
  destruct (get_range_Some frame (e - 4) e) as (d & -> & Hd); [lia|lia|].
  destruct (ip_of_bytes_total s) as [src ->]; [lia|]. cbn [mbind may_panic_bind].
  destruct (ip_of_bytes_total d) as [dst ->]; [lia|]. cbn [mbind may_panic_bind].
  destruct (index_Some frame (e - 11)) as [p ->]; [lia|]. cbn [mbind may_panic_bind].
  rewrite slice_all by lia. by eexists.
Qed.

Lemma parse_ipv4_panics (frame : list Z) :
  parse_ipv4 frame = Panic <->
  length frame = 14%nat /\ frame_ethertype frame = Val (Some ETHERTYPE_IPV4).
Proof.
  split.
  - intros Hp. destruct (decide (length frame = 14%nat)) as [Hl|Hl].
    2: { destruct (parse_ipv4_long frame Hl) as [r Hr]. by rewrite Hr in Hp. }
    split; [done|]. unfold parse_ipv4 in Hp. destruct (frame_ethertype_total frame) as [et Het].
    rewrite Het in *. cbn [mbind may_panic_bind] in Hp. destruct et as [et|]; [|done].
    destruct (Z.eqb_spec et ETHERTYPE_IPV4) as [Heq|]; [by rewrite Heq|done].
  - intros [Hl Het]. unfold parse_ipv4. rewrite Het. cbn [mbind may_panic_bind].
    rewrite Z.eqb_refl. cbn [negb]. unfold index. by rewrite lookup_ge_None_2 by lia.
Qed.

(** The IPv4 reader panics on exactly one shape of frame: a bare 14-byte
    Ethernet header of type IPv4, whose version byte it reads unguarded. On
    every other frame it returns. *)
Theorem parse_ipv4_panics_iff (frame : list Z) :
  parse_ipv4 frame = Panic <->
  length frame = 14%nat /\ frame_ethertype frame = Val (Some ETHERTYPE_IPV4).
Proof. exact (parse_ipv4_panics frame). Qed.

(** A packet with a 20-byte header, the only kind the daemon builds. *)
Definition ipv4_packet (h1 : list Z) (proto : Z) (ck : list Z) (src dst : Ipv4Addr) (p : list Z) : list Z :=
  0x45 :: h1 ++ [proto] ++ ck ++ ip_octets src ++ ip_octets dst ++ p.

Lemma parse_ipv4_packet macs h1 proto ck src dst p :
  length macs = 12%nat -> length h1 = 8%nat -> length ck = 2%nat -> is_routable proto = true ->
  is_u32 src -> is_u32 dst ->
  parse_ipv4 (macs ++ u16_to_be ETHERTYPE_IPV4 ++ ipv4_packet h1 proto ck src dst p) =
    Val (Some {| ip_src := src; ip_dst := dst; ip_proto := proto; ip_payload := p |}).
Proof.
  intros Hm Hh Hc Hr Hs Hd.
  do 12 (destruct macs as [|? macs]; [done|]). destruct macs; [|done].
  do 8 (destruct h1 as [|? h1]; [done|]). destruct h1; [|done].
  do 2 (destruct ck as [|? ck]; [done|]). destruct ck; [|done].
  unfold parse_ipv4. set (frame := _ ++ _).
  assert (Hlen : length frame = (34 + length p)%nat) by done.
  change (frame_ethertype frame) with (Val (Some ETHERTYPE_IPV4)). cbn [mbind may_panic_bind].
  rewrite Z.eqb_refl. cbn [negb]. change (index frame 14) with (Val 0x45). cbn [mbind may_panic_bind].
  change (Z.to_nat (Z.land 69 15 * 4)) with 20%nat.
  change (negb (Z.shiftr 69 4 =? 4) || Nat.ltb 20 20) with false. cbv iota.
  unfold header_end. destruct (Nat.leb_spec (14 + 20) (length frame)); [|lia].
  change (index frame (14 + 20 - 11)) with (Val proto). cbn [mbind may_panic_bind]. rewrite Hr.
  cbn [mbind may_panic_bind Nat.add Nat.sub].
  unfold get_range. rewrite !decide_True by lia.
  change (take (30 - 26) (drop 26 frame)) with (ip_octets src).
  change (take (34 - 30) (drop 30 frame)) with (ip_octets dst).
  change (ip_of_bytes (ip_octets src)) with (Val (ip_new (src / 2 ^ 24 mod 256) (src / 2 ^ 16 mod 256) (src / 256 mod 256) (src mod 256))).
  change (ip_of_bytes (ip_octets dst)) with (Val (ip_new (dst / 2 ^ 24 mod 256) (dst / 2 ^ 16 mod 256) (dst / 256 mod 256) (dst mod 256))).
  cbn [mbind may_panic_bind]. unfold ip_new. rewrite !u32_from_to_be by done.
  change (index frame 23) with (Val proto). cbn [mbind may_panic_bind].
  by rewrite slice_all by lia.
Qed.

Lemma bytes_ok_ip ip : bytes_ok (ip_octets ip).
Proof. apply ip_octets_range. Qed.

Lemma bytes_ok_u16 z : bytes_ok (u16_to_be z).
Proof. apply u16_to_be_ok. Qed.

Lemma bytes_ok_app a b : bytes_ok a -> bytes_ok b -> bytes_ok (a ++ b).
Proof. intros. by apply Forall_app. Qed.

Lemma bytes_ok_list l : forallb (fun b => (0 <=? b) && (b <=? 255)) l = true -> bytes_ok l.
Proof.
  intros H. apply Forall_forall. intros x Hx. rewrite forallb_forall in H.
  assert (Hb := H x ltac:(by apply list_elem_of_In)). unfold is_u8, u8_max. lia.
Qed.

Create HintDb bytes.
#[export] Hint Resolve bytes_ok_ip bytes_ok_u16 bytes_ok_app : bytes.
#[export] Hint Extern 2 (bytes_ok _) => (apply bytes_ok_list; reflexivity) : bytes.

(** The header is written with a zero checksum first. *)
Lemma udp_ip_header_split udp_len gw dst :
  let a := [0x45; 0] ++ u16_to_be (u16_or_max (20 + udp_len)) ++ [0; 0] ++ u16_to_be 0x4000 ++ [64; 17] in
  let b := ip_octets gw ++ ip_octets dst in
  udp_ip_header udp_len gw dst = a ++ u16_to_be (inet_checksum (a ++ [0; 0] ++ b)) ++ b.
Proof. done. Qed.

Lemma udp_ip_header_checks udp_len gw dst : inet_checksum (udp_ip_header udp_len gw dst) = 0.
Proof.
  rewrite udp_ip_header_split. cbv zeta. apply (checksum_in_place 5); [done|..|done];
    auto 10 with bytes.
Qed.

(** Every UDP reply the daemon builds is a frame from the gateway MAC
    that its own reader takes apart again: the gateway as source, the
    destination asked for (the broadcast addresses when it is unspecified),
    UDP with the given ports and payload, and an IPv4 header whose checksum
    verifies. *)
Theorem udp_reply_reads_back (p : list Z) (vm_mac : MacAddr) (gateway_ip reply_ip : Ipv4Addr)
    (sport dport : Z) :
  is_u32 gateway_ip -> is_u32 reply_ip ->
  let reply := wrap_udp_reply p vm_mac gateway_ip reply_ip sport dport in
  let to := if reply_ip =? 0 then ip_broadcast else reply_ip in
  let to_mac := if reply_ip =? 0 then Mac 255 255 255 255 255 255 else vm_mac in
  let udp := u16_to_be sport ++ u16_to_be dport ++ u16_to_be (u16_or_max (8 + zlen p)) ++ [0; 0] ++ p in
  parse_ipv4 reply = Val (Some {| ip_src := gateway_ip; ip_dst := to; ip_proto := IPPROTO_UDP; ip_payload := udp |}) /\
  inet_checksum (take 20 (drop 14 reply)) = 0 /\
  exists ip_bytes, parse reply = Val (Ok {| dst := to_mac; src := gateway_mac_addr gateway_ip;
    ethertype := ETHERTYPE_IPV4; payload := ip_bytes |}).
Proof.
  intros Hg Hr reply to to_mac udp.
  assert (Hto : is_u32 to) by (unfold to; destruct (reply_ip =? 0); [done|done]).
  set (udp_len := 8 + zlen p).
  set (ck := u16_to_be (ipv4_checksum ([0x45; 0] ++ u16_to_be (u16_or_max (20 + udp_len)) ++ [0; 0] ++
    u16_to_be 0x4000 ++ [64; 17] ++ [0; 0] ++ ip_octets gateway_ip ++ ip_octets to))).
  set (h1 := [0] ++ u16_to_be (u16_or_max (20 + udp_len)) ++ [0; 0] ++ u16_to_be 0x4000 ++ [64]).
  assert (Hreply : reply = eth_frame to_mac (gateway_mac_addr gateway_ip) ETHERTYPE_IPV4
    (ipv4_packet h1 17 ck gateway_ip to udp)).
  { unfold reply, wrap_udp_reply, to, to_mac, ck, to, ip_unspecified. by destruct (reply_ip =? 0). }
  rewrite Hreply. split_and!.
  - unfold eth_frame. rewrite app_assoc. by apply parse_ipv4_packet.
  - exact (udp_ip_header_checks udp_len gateway_ip to).
  - eexists. by apply parse_eth_frame.
Qed.

(** The fields of an echo request, and of the answer to it. *)
Definition echo_body (type code : Z) (ck rest : list Z) : list Z := [type; code] ++ ck ++ rest.

Definition echo_answer (vm_mac : MacAddr) (gw src : Ipv4Addr) (h7 : list Z) (code : Z) (rest : list Z) : list Z :=
  let body ck := echo_body ICMP_ECHO_REPLY code ck rest in
  let packet ck := ipv4_packet (h7 ++ [64]) IPPROTO_ICMP ck gw src (body (u16_to_be (inet_checksum (body [0; 0])))) in
  eth_frame vm_mac (gateway_mac_addr gw) ETHERTYPE_IPV4
    (packet (u16_to_be (inet_checksum (take 20 (packet [0; 0]))))).

Lemma icmp_echo_reply_request macs h7 ttl ck src gw code c0 c1 rest vm_mac :
  length macs = 12%nat -> length h7 = 7%nat -> length ck = 2%nat -> is_u32 src -> is_u32 gw ->
  (4 <= length rest)%nat ->
  icmp_echo_reply gw vm_mac (macs ++ u16_to_be ETHERTYPE_IPV4 ++
      ipv4_packet (h7 ++ [ttl]) IPPROTO_ICMP ck src gw (echo_body ICMP_ECHO_REQUEST code [c0; c1] rest)) =
    Val (Some (echo_answer vm_mac gw src h7 code rest)).
Proof.
  intros Hm Hh Hc Hs Hg Hrest. unfold icmp_echo_reply.
  rewrite parse_ipv4_packet by (try done; rewrite length_app; simpl; lia). cbn [mbind may_panic_bind ip_dst ip_proto ip_payload].
  rewrite !Z.eqb_refl. cbn [negb orb]. rewrite bool_decide_eq_true_2 by done. cbn [negb orb].
  destruct (Nat.ltb_spec (length (echo_body ICMP_ECHO_REQUEST code [c0; c1] rest)) 8) as [Hl|_];
    [simpl in Hl; lia|].
  do 12 (destruct macs as [|? macs]; [done|]). destruct macs; [|done].
  do 7 (destruct h7 as [|? h7]; [done|]). destruct h7; [|done].
  do 2 (destruct ck as [|? ck]; [done|]). destruct ck; [|done].
  rewrite slice_all by (simpl; lia). cbn [mbind may_panic_bind].
  set (pkt := drop 14 _).
  assert (Hlen : length pkt = (24 + length rest)%nat) by done.
  change (index pkt 0) with (Val 0x45). cbn [mbind may_panic_bind].
  change (Z.to_nat (Z.land 69 15 * 4)) with 20%nat. cbn [Nat.ltb Nat.leb orb].
  destruct (Nat.ltb_spec (length pkt) 20); [lia|]. cbn [orb].
  unfold slice. rewrite decide_True by lia. cbn [mbind may_panic_bind]. done.
Qed.

Opaque inet_checksum.
Lemma echo_answer_checks vm_mac gw src h7 code rest :
  length h7 = 7%nat -> bytes_ok h7 -> is_u8 code -> bytes_ok rest -> zlen rest <= 65000 ->
  let answer := echo_answer vm_mac gw src h7 code rest in
  inet_checksum (take 20 (drop 14 answer)) = 0 /\ inet_checksum (drop 34 answer) = 0.
Proof.
  intros Hh Hb7 Hc Hb Hl. do 7 (destruct h7 as [|? h7]; [done|]). destruct h7; [|done].
  match type of Hb7 with bytes_ok ?h =>
    pose (a := 0x45 :: h ++ [64; IPPROTO_ICMP]); pose (b := ip_octets gw ++ ip_octets src)
  end. split.
  - replace (take 20 _) with (a ++ u16_to_be (inet_checksum (a ++ [0; 0] ++ b)) ++ b) by reflexivity.
    apply (checksum_in_place 5); [done| |unfold b; auto with bytes|done].
    constructor; [done|]. apply bytes_ok_app; [exact Hb7|]. by apply bytes_ok_list.
  - replace (drop 34 _) with ([0; code] ++ u16_to_be (inet_checksum ([0; code] ++ [0; 0] ++ rest)) ++ rest)
      by reflexivity.
    apply (checksum_in_place 1); [done| |done|unfold zlen in *; simpl; lia].
    by apply Forall_cons; split; [|apply Forall_singleton].
Qed.

(** The reply panics only where the reader does: the writes are in range. *)
(** What is left of the frame after the header the reader found. *)
Lemma parse_ipv4_length frame ip :
  parse_ipv4 frame = Val (Some ip) ->
  exists first, index frame 14 = Val first /\
    (13 + Z.to_nat (Z.land first 15 * 4) + length (ip_payload ip) <= length frame)%nat.
Proof.
  unfold parse_ipv4. destruct (frame_ethertype_total frame) as [[et|] ->]; [|done].
  cbn [mbind may_panic_bind]. destruct (et =? ETHERTYPE_IPV4); [|done]. cbn [negb].
  destruct (index frame 14) as [first|] eqn:Hfirst; [|done]. cbn [mbind may_panic_bind].
  set (ihl := Z.to_nat (Z.land first 15 * 4)).
  destruct (negb _); cbn [orb]; [done|]. destruct (Nat.ltb_spec ihl 20); [done|].
  destruct (header_end_total frame (14 + ihl)) as (r & -> & Hr); [lia|]. cbn [mbind may_panic_bind].
  destruct r as [e|]; [|done].
  destruct (get_range_Some frame (e - 8) (e - 4)) as (s & -> & Hs); [lia|lia|].
  destruct (get_range_Some frame (e - 4) e) as (d & -> & Hd); [lia|lia|].
  destruct (ip_of_bytes_total s) as [src ->]; [lia|]. cbn [mbind may_panic_bind].
  destruct (ip_of_bytes_total d) as [dst ->]; [lia|]. cbn [mbind may_panic_bind].
  destruct (index_Some frame (e - 11)) as [q ->]; [lia|]. cbn [mbind may_panic_bind].
  rewrite slice_all by lia. intros [= <-]. exists first. split; [done|]. cbn [ip_payload].
  rewrite length_drop. fold ihl. lia.
Qed.

Lemma icmp_echo_reply_total gw vm_mac frame :
  parse_ipv4 frame <> Panic -> exists r, icmp_echo_reply gw vm_mac frame = Val r.
Proof.
  intros Hp. unfold icmp_echo_reply. destruct (parse_ipv4 frame) as [[ip|]|] eqn:Hparse; [|by eexists|done].
  cbn [mbind may_panic_bind]. destruct (negb (ip_dst ip =? gw) || _); [by eexists|].
  destruct (negb (bool_decide _)); cbn [orb]; [by eexists|].
  destruct (Nat.ltb_spec (length (ip_payload ip)) 8) as [|H8]; [by eexists|].
  destruct (parse_ipv4_length frame ip Hparse) as (first & Hfirst & Hlen).
  rewrite slice_all by lia. cbn [mbind may_panic_bind].
  replace (index (drop 14 frame) 0) with (Val first)
    by (revert Hfirst; unfold index; by rewrite lookup_drop). cbn [mbind may_panic_bind].
  set (ihl := Z.to_nat (Z.land first 15 * 4)) in *.
  destruct (Nat.ltb_spec ihl 20); cbn [orb]; [by eexists|]. rewrite length_drop.
  destruct (Nat.ltb_spec (length frame - 14) ihl); [by eexists|]. cbn [orb].
  unfold slice. rewrite length_drop, decide_True by lia. by eexists.
Qed.

(** An echo request for the gateway is answered to the VM with the
    addresses turned round, the same identifier, sequence number and data,
    and both the IPv4 and the ICMP checksum verifying. *)
Theorem echo_reply_correct (macs h7 ck rest : list Z) (ttl code c0 c1 : Z) (src gw : Ipv4Addr) (vm_mac : MacAddr) :
  length macs = 12%nat -> length h7 = 7%nat -> length ck = 2%nat -> is_u32 src -> is_u32 gw ->
  (4 <= length rest)%nat -> zlen rest <= 65000 -> bytes_ok h7 -> bytes_ok rest -> is_u8 code ->
  let request := macs ++ u16_to_be ETHERTYPE_IPV4 ++
    ipv4_packet (h7 ++ [ttl]) IPPROTO_ICMP ck src gw (echo_body ICMP_ECHO_REQUEST code [c0; c1] rest) in
  exists reply ck', icmp_echo_reply gw vm_mac request = Val (Some reply) /\
    parse_ipv4 reply = Val (Some {| ip_src := gw; ip_dst := src; ip_proto := IPPROTO_ICMP;
      ip_payload := echo_body ICMP_ECHO_REPLY code ck' rest |}) /\
    take 6 reply = octets vm_mac /\
    inet_checksum (take 20 (drop 14 reply)) = 0 /\ inet_checksum (drop 34 reply) = 0.
Proof.
  intros Hm Hh Hc Hs Hg Hr Hl Hb7 Hb Hcode request.
  destruct (echo_answer_checks vm_mac gw src h7 code rest) as [Hck1 Hck2]; [done..|].
  exists (echo_answer vm_mac gw src h7 code rest). eexists. split_and!; [| |done|exact Hck1|exact Hck2].
  - by apply icmp_echo_reply_request.
  - unfold echo_answer, eth_frame. rewrite app_assoc. apply parse_ipv4_packet; try done.
    rewrite length_app. simpl. lia.
Qed.
Transparent inet_checksum.

(** The restart delay starts at 100 ms, never decreases with the number
    of failures, doubles until the cap, and never exceeds two seconds. *)
Theorem backoff_bounds (n m : Z) :
  0 <= n <= m ->
  100 <= restart_backoff n <= 2000 /\ restart_backoff n <= restart_backoff m /\
  (1 <= n -> restart_backoff (n + 1) = Z.min (2 * restart_backoff n) 2000).
Proof.
  intros Hn. unfold restart_backoff.
  assert (Hpos : forall k, 0 <= k -> 1 <= 2 ^ k) by (intros k Hk; pose proof (Z.pow_pos_nonneg 2 k); lia).
  set (k := Z.min (Z.max 0 (n - 1)) 16). assert (Hk : 0 <= k <= 16) by lia. split_and!.
  - pose proof (Hpos k). lia.
  - lia.
  - assert (2 ^ k <= 2 ^ Z.min (Z.max 0 (m - 1)) 16) by (apply Z.pow_le_mono_r; lia). lia.
  - intros H1. destruct (decide (n <= 16)) as [H16|H16].
    + replace (Z.min (Z.max 0 (n + 1 - 1)) 16) with (k + 1) by lia. rewrite Z.pow_add_r by lia. lia.
    + assert (k = 16) as -> by lia. replace (Z.min (Z.max 0 (n + 1 - 1)) 16) with 16 by lia. done.
Qed.
