(* ===== verification/VhostPort.v ===== *)
(** * A vhost-user port (crates/k8netd-vhost/src/port.rs)

    The frame paths between the switch and the guest's virtqueues, the device
    configuration space and the negotiated features. The virtqueue and the
    guest memory (the virtio_queue and vm_memory packages) are a class. *)
From S2P Require Import Prelude RustStd Model.

Definition NUM_QUEUES : nat := 2.
Definition RX_VRING : nat := 0.
Definition TX_VRING : nat := 1.
Definition QUEUE_SIZE : Z := 256.
Definition VIRTIO_F_VERSION_1 : Z := Z.shiftl 1 32.
Definition VHOST_USER_PROTOCOL : Z := Z.shiftl 1 30.
Definition VIRTIO_NET_F_MAC : Z := Z.shiftl 1 5.
Definition VIRTIO_NET_F_STATUS : Z := Z.shiftl 1 16.
Definition VIRTIO_NET_S_LINK_UP : Z := 1.
Definition VNET_HDR_LEN : nat := 12.
Definition NET_CONFIG_LEN : nat := 8.
Definition RX_NOTIFY_ID : Z := Z.of_nat NUM_QUEUES + 1.
Definition VIRTQ_DESC_F_WRITE : Z := 2.

Definition vnet_header : list Z := replicate VNET_HDR_LEN 0.

Definition encode_driver_tx (frame : list Z) : list Z := vnet_header ++ frame.

Definition decode_driver_rx (buf : list Z) : option (list Z) := get_range buf VNET_HDR_LEN (length buf).

Inductive PortMessage := ToVm (frame : list Z) | FromVm (frame : list Z).

(** ** The device configuration *)

Record NetDeviceConfig := { nic_mac : list Z }.

Definition NetDeviceConfig_default : NetDeviceConfig := {| nic_mac := replicate 6 0 |}.

Definition space (c : NetDeviceConfig) : list Z := nic_mac c ++ u16_to_le VIRTIO_NET_S_LINK_UP.

(** [slice.resize(n, 0)] *)
Definition resize_zero (l : list Z) (n : nat) : list Z := take n l ++ replicate (n - length l) 0.

(** On a 64-bit host [usize] holds every [u32]. *)
Definition get_config (c : NetDeviceConfig) (offset size : Z) : may_panic (list Z) :=
  let cfg := space c in
  let start := Z.to_nat offset in
  let end_ := Nat.min (start + Z.to_nat size) (length cfg) in
  if Nat.leb (length cfg) start then Val (replicate (Z.to_nat size) 0)
  else s ← slice cfg start end_; Val (resize_zero s (Z.to_nat size)).

Definition set_mac (mac : list Z) (c : NetDeviceConfig) : NetDeviceConfig := {| nic_mac := mac |}.

Definition features : Z :=
  Z.lor (Z.lor (Z.lor VIRTIO_F_VERSION_1 VHOST_USER_PROTOCOL) VIRTIO_NET_F_MAC) VIRTIO_NET_F_STATUS.

(** One worker thread per vring, as masks of vrings. *)
Definition queues_per_thread : list Z := [1; 2].

Definition backend_num_queues : nat := NUM_QUEUES.
Definition num_queues : nat := NUM_QUEUES.
Definition max_queue_size : Z := QUEUE_SIZE.

(** The bit of the vhost-user protocol. *)
Definition REPLY_ACK : Z := Z.shiftl 1 3.
Definition protocol_features : Z := REPLY_ACK.

(** Every vring has exactly one worker, and no worker has a vring that is not
    there: a receive worker that waits never holds up transmission. *)
Lemma vrings_have_own_workers (v : nat) :
  length (filter (fun mask => Z.testbit mask (Z.of_nat v) = true) queues_per_thread) =
    if decide (v < num_queues)%nat then 1%nat else 0%nat.
Proof.
  unfold num_queues, NUM_QUEUES, queues_per_thread. destruct v as [|[|v]]; [done|done|].
  rewrite decide_False by lia. rewrite !filter_cons_False; [done|..].
  - rewrite (Z.bits_above_log2 2); [done|done|]. change (Z.log2 2) with 1. lia.
  - rewrite (Z.bits_above_log2 1); [done|done|]. change (Z.log2 1) with 0. lia.
Qed.

(** ** The virtqueue *)

(** A vring with the guest memory behind it; [C] is a descriptor chain. *)
Class VirtQueue (Q C : Type) := {
  vq_desc_table : Q -> Z;
  vq_size : Q -> Z;
  vq_next_avail : Q -> Z;
  vq_next_used : Q -> Z;
  vq_avail_idx : Q -> option Z;                 (* [avail_idx(mem)] *)
  vq_set_next_avail : Q -> Z -> Q;
  vq_iter : Q -> bool;                          (* [iter(mem)] succeeds *)
  vq_next : Q -> option (C * Q);                (* the iterator's [next] *)
  vq_go_back : Q -> Q;                          (* [go_to_previous_position] *)
  vq_add_used : Q -> Z -> Z -> result string Q;
  vq_signal : Q -> result string unit;          (* [signal_used_queue] *)
  head_index : C -> Z;
  read_u16 : Q -> Z -> option Z;                (* [read_obj::<u16>(address)] *)
  chain_read : Q -> C -> result string (list Z);    (* [Reader::new], then all its bytes *)
  writer_capacity : Q -> C -> result string nat;    (* [Writer::new], [available_bytes] *)
  chain_write : Q -> C -> nat -> list Z -> result string Q;  (* [write_all] at a position *)
}.

(** The state of one worker: its vring, the frames waiting for the guest and
    the frames handed to the switch. *)
Record PortState (Q : Type) := {
  ring : Q;
  channel : list PortMessage;
  sent : list PortMessage;
}.
Arguments ring {Q} p.
Arguments channel {Q} p.
Arguments sent {Q} p.
Arguments Build_PortState {Q} ring channel sent.

(** A vring holds less than 2^16 chains. *)
Definition RING_FUEL : nat := N.to_nat 65536.

Lemma RING_FUEL_eq : Z.of_nat RING_FUEL = 65536.
Proof. unfold RING_FUEL. by rewrite N_nat_Z. Qed.
#[global] Opaque RING_FUEL.

Section Service.
Context {Q C : Type} `{VirtQueue Q C}.
Implicit Types (q : Q) (c : C) (s : PortState Q).

Definition port_cmd (A : Type) : Type := cmd (PortState Q) string A.

Definition set_ring q s : PortState Q := {| ring := q; channel := channel s; sent := sent s |}.
Definition publish (frame : list Z) s : PortState Q :=
  {| ring := ring s; channel := channel s; sent := sent s ++ [FromVm frame] |}.

(** The mutable handle of the vring. *)
Definition the_ring : port_cmd Q := s ← get; mret (ring s).
Definition put_ring q : port_cmd unit := modify (set_ring q).

Definition head_flags q (desc_table head : Z) : Z :=
  if desc_table =? 0 then 0 else default 0 (read_u16 q (desc_table + 16 * head + 12)).

Definition is_writable q (desc_table head : Z) : bool :=
  negb (Z.land (head_flags q desc_table head) VIRTQ_DESC_F_WRITE =? 0).

Fixpoint add_all (used : list (Z * Z)) : port_cmd unit :=
  match used with
  | [] => mret tt
  | (idx, len) :: used' =>
      q ← the_ring;
      q' ← lift (vq_add_used q idx len);
      _ ← put_ring q';
      add_all used'
  end.

Definition complete_used (used : list (Z * Z)) : port_cmd unit :=
  _ ← add_all used;
  match used with
  | [] => mret tt
  | _ => q ← the_ring; lift (vq_signal q)
  end.

(** [chains.extend(iter)] *)
Fixpoint collect (fuel : nat) : port_cmd (list C) :=
  match fuel with
  | O => mret []
  | S fuel =>
      q ← the_ring;
      match vq_next q with
      | None => mret []
      | Some (c, q') => _ ← put_ring q'; rest ← collect fuel; mret (c :: rest)
      end
  end.

(** The loop over the chains: each is drained and published. *)
Fixpoint drain_chains (desc_table : Z) (chains : list C) : port_cmd (list (Z * Z)) :=
  match chains with
  | [] => mret []
  | c :: chains' =>
      let head := head_index c in
      q ← the_ring;
      if is_writable q desc_table head then
        rest ← drain_chains desc_table chains'; mret ((head, 0) :: rest)
      else
        raw ← lift (chain_read q c);
        match get_range raw VNET_HDR_LEN (length raw) with
        | Some frame =>
            _ ← modify (publish frame);
            rest ← drain_chains desc_table chains'; mret ((head, wrap_u32 (zlen raw)) :: rest)
        | None => rest ← drain_chains desc_table chains'; mret ((head, 0) :: rest)
        end
  end.

Definition service_tx : port_cmd unit :=
  q ← the_ring;
  let desc_table := vq_desc_table q in
  if negb (vq_iter q) then mret tt
  else
    chains ← collect RING_FUEL;
    used ← drain_chains desc_table chains;
    complete_used used.

(** The chains posted before a reconnect are served again. *)
Definition rewind q : Q :=
  match vq_avail_idx q with
  | Some avail =>
      let new := wrap_u16 (avail - vq_next_avail q) in
      let pending := wrap_u16 (avail - vq_next_used q) in
      if (new =? 0) && negb (pending =? 0) && (pending <=? vq_size q)
      then vq_set_next_avail q (vq_next_used q) else q
  | None => q
  end.

(** [try_recv]; a closed channel is as an empty one here. *)
Definition try_recv : port_cmd (option PortMessage) :=
  s ← get;
  match channel s with
  | [] => mret None
  | m :: l => _ ← modify (fun s => {| ring := ring s; channel := l; sent := sent s |}); mret (Some m)
  end.

(** The loop over the posted chains. *)
Fixpoint fill_chains (fuel : nat) (desc_table : Z) : port_cmd (list (Z * Z)) :=
  match fuel with
  | O => mret []
  | S fuel =>
      q ← the_ring;
      match vq_next q with
      | None => mret []
      | Some (c, q') =>
          _ ← put_ring q';
          let head := head_index c in
          if negb (is_writable q' desc_table head) then
            rest ← fill_chains fuel desc_table; mret ((head, 0) :: rest)
          else
            cap ← lift (writer_capacity q' c);
            m ← try_recv;
            match m with
            | Some (ToVm frame) =>
                if Nat.leb (length frame + VNET_HDR_LEN) cap then
                  q1 ← lift (chain_write q' c 0 vnet_header);
                  _ ← put_ring q1;
                  q2 ← lift (chain_write q1 c VNET_HDR_LEN frame);
                  _ ← put_ring q2;
                  rest ← fill_chains fuel desc_table;
                  mret ((head, wrap_u32 (zlen frame + Z.of_nat VNET_HDR_LEN)) :: rest)
                else rest ← fill_chains fuel desc_table; mret ((head, 0) :: rest)
            | _ => _ ← put_ring (vq_go_back q'); mret []
            end
      end
  end.

Definition service_rx : port_cmd unit :=
  q ← the_ring;
  let desc_table := vq_desc_table q in
  _ ← put_ring (rewind q);
  q ← the_ring;
  if negb (vq_iter q) then mret tt
  else
    used ← fill_chains RING_FUEL desc_table;
    complete_used used.

(** One event of a worker thread; an error of the service is logged. *)
Definition handle_event (mem_published : bool) (thread_id : nat) : port_cmd unit := fun s =>
  if negb mem_published then Returns s (Ok tt)
  else
    match (if Nat.eqb thread_id RX_VRING then service_rx
           else if Nat.eqb thread_id TX_VRING then service_tx else mret tt) s with
    | Returns s' _ => Returns s' (Ok tt)
    | Panics s' => Panics s'
    end.
End Service.

(** ** A well-behaved vring

    What the packages document of a ring whose driver keeps its descriptors
    out of its buffers: the iterator yields the posted chains in order and can
    step back, the head of a chain can be completed and is appended to the
    completions (an index that heads no chain may be refused), writes fill the
    chain they are for. *)
Class VirtQueueLaws (Q C : Type) `{VirtQueue Q C} := {
  posted : Q -> list C;
  completed : Q -> list (Z * Z);
  buffer : Q -> C -> list Z;
  posted_bound : forall q, zlen (posted q) < 65536;
  next_nil : forall q, posted q = [] -> vq_next q = None;
  next_cons : forall q c l, posted q = c :: l -> exists q',
    vq_next q = Some (c, q') /\ posted q' = l /\ completed q' = completed q /\
    posted (vq_go_back q') = c :: l /\ completed (vq_go_back q') = completed q /\
    (forall a, read_u16 q' a = read_u16 q a) /\ (forall c, chain_read q' c = chain_read q c) /\
    (forall c, writer_capacity q' c = writer_capacity q c) /\
    (forall c, buffer q' c = buffer q c /\ buffer (vq_go_back q') c = buffer q c);
  add_used_law : forall q c n, exists q', vq_add_used q (head_index c) n = Ok q' /\
    posted q' = posted q /\ completed q' = completed q ++ [(head_index c, n)] /\ (forall c, buffer q' c = buffer q c);
  write_law : forall q c pos bytes cap, writer_capacity q c = Ok cap -> (pos + length bytes <= cap)%nat ->
    exists q', chain_write q c pos bytes = Ok q' /\ posted q' = posted q /\ completed q' = completed q /\
      (forall a, read_u16 q' a = read_u16 q a) /\ (forall c, writer_capacity q' c = writer_capacity q c) /\
      buffer q' c = take pos (buffer q c) ++ bytes /\
      (forall c', head_index c' <> head_index c -> buffer q' c' = buffer q c');
}.

Section Laws.
Context {Q C : Type} `{VirtQueueLaws Q C}.
Implicit Types (q : Q) (c : C) (s : PortState Q).

Lemma is_writable_same q q' t h :
  (forall a, read_u16 q' a = read_u16 q a) -> is_writable q' t h = is_writable q t h.
Proof. intros Hr. unfold is_writable, head_flags. by rewrite Hr. Qed.

(** Completions are of chains. *)
Definition of_chains (used : list (Z * Z)) : Prop := Forall (fun u => exists c, u.1 = head_index c) used.

Lemma of_chains_zip {A} (f : C -> A -> Z * Z) chains l :
  (forall c x, (f c x).1 = head_index c) -> of_chains (zip_with f chains l).
Proof.
  intros Hf. revert l. induction chains as [|c chains IH]; intros [|x l]; try by constructor.
  constructor; [by exists c|apply IH].
Qed.

Lemma add_all_spec used s :
  of_chains used -> exists q', add_all used s = Returns (set_ring q' s) (Ok tt) /\ posted q' = posted (ring s) /\
    completed q' = completed (ring s) ++ used /\ (forall c, buffer q' c = buffer (ring s) c).
Proof.
  intros Hof. revert s. induction Hof as [|[i n] used [c0 Hi] Hof IH]; intros s.
  { exists (ring s). rewrite app_nil_r. destruct s. by split_and!. }
  simpl in Hi. subst i. destruct (add_used_law (ring s) c0 n) as (q1 & Ha & Hp & Hc & Hb).
  destruct (IH (set_ring q1 s)) as (q2 & Hx & Hp2 & Hc2 & Hb2). exists q2.
  cbn [add_all]. unfold the_ring, put_ring. run_cmd. rewrite Ha, Hx. simpl in *.
  split_and!; [done|congruence|by rewrite Hc2, Hc, <- app_assoc|]. intros c. by rewrite Hb2, Hb.
Qed.

(** Completions are written, then the guest is signalled if there are any. *)
Lemma complete_used_spec used s :
  of_chains used -> exists q' r, complete_used used s = Returns (set_ring q' s) r /\ posted q' = posted (ring s) /\
    completed q' = completed (ring s) ++ used /\ (forall c, buffer q' c = buffer (ring s) c) /\
    r = (if decide (used = []) then Ok tt else vq_signal q').
Proof.
  intros Hof. destruct (add_all_spec used s Hof) as (q' & Ha & Hp & Hc & Hb). exists q'.
  unfold complete_used. run_cmd. rewrite Ha. destruct used; [by exists (Ok tt)|].
  unfold the_ring. run_cmd. simpl. exists (vq_signal q'). by split_and!.
Qed.

Lemma collect_spec fuel s :
  (length (posted (ring s)) < fuel)%nat ->
  exists q', collect fuel s = Returns (set_ring q' s) (Ok (posted (ring s))) /\ posted q' = [] /\
    completed q' = completed (ring s) /\ (forall a, read_u16 q' a = read_u16 (ring s) a) /\
    (forall c, chain_read q' c = chain_read (ring s) c).
Proof.
  revert s. induction fuel as [|fuel IH]; intros s Hf; [lia|]. cbn [collect]. unfold the_ring, put_ring.
  destruct (posted (ring s)) as [|c l] eqn:Hp.
  { exists (ring s). run_cmd. rewrite next_nil by done. by destruct s. }
  destruct (next_cons _ _ _ Hp) as (q1 & Hn & Hp1 & Hc1 & _ & _ & Hr1 & Hd1 & _).
  simpl in Hf. destruct (IH (set_ring q1 s)) as (q2 & Hx & Hp2 & Hc2 & Hr2 & Hd2); [simpl; rewrite Hp1; lia|].
  simpl in *. exists q2. run_cmd. rewrite Hn, Hx, Hp1.
  split_and!; [done|done|congruence|intros; by rewrite Hr2|intros; by rewrite Hd2].
Qed.

(** What a posted transmit chain holds: a frame as a driver encodes it, less
    than a header, or no egress shape at all. *)
Inductive carries q (t : Z) c : option (list Z) -> Prop :=
  | carries_frame frame :
      is_writable q t (head_index c) = false -> chain_read q c = Ok (encode_driver_tx frame) -> carries q t c (Some frame)
  | carries_runt raw :
      is_writable q t (head_index c) = false -> chain_read q c = Ok raw -> (length raw < 12)%nat -> carries q t c None
  | carries_nothing : is_writable q t (head_index c) = true -> carries q t c None.

Definition tx_used c (o : option (list Z)) : Z * Z :=
  (head_index c, match o with Some f => wrap_u32 (zlen f + 12) | None => 0 end).

(** Chains that can be read are drained one by one. *)
Lemma drain_chains_app t l1 l2 os s :
  Forall2 (carries (ring s) t) l1 os ->
  let s1 := {| ring := ring s; channel := channel s; sent := sent s ++ (FromVm <$> omap id os) |} in
  drain_chains t (l1 ++ l2) s =
    match drain_chains t l2 s1 with
    | Returns s' (Ok used) => Returns s' (Ok (zip_with tx_used l1 os ++ used))
    | Returns s' (Err e) => Returns s' (Err e)
    | Panics s' => Panics s'
    end.
Proof.
  intros Hall. revert os s Hall. induction l1 as [|c l1 IH]; intros os s Hall;
    inversion Hall as [|? o ? os' Hc Hrest]; subst; cbv zeta.
  { simpl. rewrite app_nil_r. destruct s. simpl. by destruct (drain_chains t l2 _) as [? []|]. }
  cbn [app drain_chains]. unfold the_ring. destruct Hc as [f Hw Hr|raw Hw Hr Hl|Hw]; run_cmd; rewrite Hw.
  - rewrite Hr. change (encode_driver_tx f) with (vnet_header ++ f). unfold get_range.
    assert (Hlen : length (vnet_header ++ f) = (12 + length f)%nat) by (rewrite length_app; done).
    rewrite Hlen, decide_True by (unfold VNET_HDR_LEN; lia).
    rewrite drop_app_length' by done. rewrite take_ge by (unfold VNET_HDR_LEN; lia). cbv zeta.
    assert (Hused : (head_index c, wrap_u32 (zlen (vnet_header ++ f))) = tx_used c (Some f)).
    { unfold tx_used, zlen. rewrite Hlen. do 2 f_equal. lia. }
    rewrite Hused, (IH os' (publish f s)) by done. cbn [sent channel ring publish omap list_omap id fmap list_fmap].
    rewrite <- app_assoc. by destruct (drain_chains t l2 _) as [? []|].
  - rewrite Hr. unfold get_range. rewrite decide_False by (unfold VNET_HDR_LEN; lia). cbv zeta.
    rewrite (IH os' s) by done. cbn [omap list_omap id]. by destruct (drain_chains t l2 _) as [? []|].
  - rewrite (IH os' s) by done. cbn [omap list_omap id]. by destruct (drain_chains t l2 _) as [? []|].
Qed.

Lemma carries_same q q' t c o :
  (forall a, read_u16 q' a = read_u16 q a) -> (forall c, chain_read q' c = chain_read q c) ->
  carries q t c o -> carries q' t c o.
Proof.
  intros Hr Hc [f Hw Hx|raw Hw Hx Hl|Hw];
    [apply carries_frame|eapply carries_runt; [|by rewrite Hc|done]|apply carries_nothing];
    by rewrite ?Hc, ?(is_writable_same q q').
Qed.

Lemma ring_fuel q : (length (posted q) < RING_FUEL)%nat.
Proof. pose proof (posted_bound q). pose proof RING_FUEL_eq. unfold zlen in *. lia. Qed.

Lemma service_tx_spec (s : PortState Q) (os : list (option (list Z))) :
  vq_iter (ring s) = true ->
  Forall2 (carries (ring s) (vq_desc_table (ring s))) (posted (ring s)) os ->
  exists q' r, service_tx s =
      Returns {| ring := q'; channel := channel s; sent := sent s ++ (FromVm <$> omap id os) |} r /\
    posted q' = [] /\
    completed q' = completed (ring s) ++ zip_with tx_used (posted (ring s)) os /\
    r = (if decide (posted (ring s) = []) then Ok tt else vq_signal q').
Proof.
  intros Hi Hall. destruct (collect_spec RING_FUEL s (ring_fuel _)) as (q1 & Hc & Hp & Hd & Hr & Hcr).
  assert (Hall1 : Forall2 (carries q1 (vq_desc_table (ring s))) (posted (ring s)) os).
  { eapply Forall2_impl; [exact Hall|]. intros c o. by apply carries_same. }
  pose proof (drain_chains_app (vq_desc_table (ring s)) (posted (ring s)) [] os (set_ring q1 s) Hall1) as Hdr.
  rewrite app_nil_r in Hdr. cbn [drain_chains] in Hdr. run_cmd in Hdr. rewrite app_nil_r in Hdr.
  set (used := zip_with tx_used (posted (ring s)) os) in *.
  destruct (complete_used_spec used {| ring := q1; channel := channel s; sent := sent s ++ (FromVm <$> omap id os) |}) as
    (q2 & r & Hx & Hp2 & Hc2 & _ & Hres); [by apply of_chains_zip|].
  exists q2, r. unfold service_tx, the_ring. run_cmd. rewrite Hi. cbn [negb]. rewrite Hc, Hdr. simpl in *. rewrite Hx.
  split_and!; [done|congruence|by rewrite Hc2, Hd|].
  assert (Hnil : used = [] <-> posted (ring s) = []).
  { unfold used. apply Forall2_length in Hall. destruct (posted (ring s)), os; simpl in *; split; done. }
  rewrite Hres. destruct (decide (used = [])), (decide (posted (ring s) = [])); tauto.
Qed.

(** The transmit path. Every chain the guest posted is taken and
    completed exactly once, in order; each frame a driver encoded reaches the
    switch without its virtio-net header, in order, and a chain that holds no
    frame is completed empty. Nothing waiting for the guest is touched. *)
Theorem tx_publishes_frames (s : PortState Q) (os : list (option (list Z))) :
  vq_iter (ring s) = true ->
  Forall2 (carries (ring s) (vq_desc_table (ring s))) (posted (ring s)) os ->
  exists q' r, service_tx s =
      Returns {| ring := q'; channel := channel s; sent := sent s ++ (FromVm <$> omap id os) |} r /\
    posted q' = [] /\
    completed q' = completed (ring s) ++ zip_with tx_used (posted (ring s)) os /\
    r = (if decide (posted (ring s) = []) then Ok tt else vq_signal q').
Proof. exact (service_tx_spec s os). Qed.

(** One unreadable chain loses the batch: the transmit path stops at the
    first chain it cannot read, and no chain of the batch is completed, not
    even those whose frames are already at the switch, although all of them
    have been taken off the ring. *)
Theorem tx_error_strands (s : PortState Q) (before after : list C) (c : C) (os : list (option (list Z))) (e : string) :
  vq_iter (ring s) = true -> posted (ring s) = before ++ c :: after ->
  Forall2 (carries (ring s) (vq_desc_table (ring s))) before os ->
  is_writable (ring s) (vq_desc_table (ring s)) (head_index c) = false -> chain_read (ring s) c = Err e ->
  exists q', service_tx s =
      Returns {| ring := q'; channel := channel s; sent := sent s ++ (FromVm <$> omap id os) |} (Err e) /\
    posted q' = [] /\ completed q' = completed (ring s).
Proof.
  intros Hi Hposted Hall Hw He. destruct (collect_spec RING_FUEL s (ring_fuel _)) as (q1 & Hc & Hp & Hd & Hr & Hcr).
  exists q1. unfold service_tx, the_ring. run_cmd. rewrite Hi. cbn [negb]. rewrite Hc, Hposted.
  assert (Hall1 : Forall2 (carries q1 (vq_desc_table (ring s))) before os).
  { eapply Forall2_impl; [exact Hall|]. intros c' o. by apply carries_same. }
  rewrite (drain_chains_app (vq_desc_table (ring s)) before (c :: after) os (set_ring q1 s) Hall1).
  cbn [drain_chains]. unfold the_ring. run_cmd. cbn [ring].
  rewrite (is_writable_same (ring s) q1), Hw by done. cbn [set_ring ring]. by rewrite Hcr, He.
Qed.

(** A frame of the channel meets a posted buffer of [cap] bytes. *)
Definition rx_used (caps : C -> nat) c (frame : list Z) : Z * Z :=
  (head_index c, if Nat.leb (length frame + 12) (caps c) then wrap_u32 (zlen frame + 12) else 0).

(** The receive buffers of a ring: device-writable, with known capacities. *)
Definition rx_ready q (t : Z) (caps : C -> nat) (chains : list C) : Prop :=
  Forall (fun c => is_writable q t (head_index c) = true /\ writer_capacity q c = Ok (caps c)) chains.

Lemma rx_ready_same q q' t caps chains :
  (forall a, read_u16 q' a = read_u16 q a) -> (forall c, writer_capacity q' c = writer_capacity q c) ->
  rx_ready q t caps chains -> rx_ready q' t caps chains.
Proof.
  intros Hr Hc Hall. eapply Forall_impl; [exact Hall|]. intros c [Hw Hcap].
  by rewrite (is_writable_same q q'), Hc.
Qed.

(** What the filled chains and the others hold. *)
Definition rx_filled (caps : C -> nat) (chains : list C) (frames : list (list Z)) q q' : Prop :=
  (forall i c f, chains !! i = Some c -> frames !! i = Some f -> (length f + 12 <= caps c)%nat ->
     buffer q' c = vnet_header ++ f) /\
  (forall c, head_index c ∉ head_index <$> chains -> buffer q' c = buffer q c).

Lemma rx_filled_nil caps chains q q' : (forall c, buffer q' c = buffer q c) -> rx_filled caps chains [] q q'.
Proof. intros Hb. split; [by intros|auto]. Qed.

(** The first chain holds [f] and no later write touches it. *)
Lemma rx_filled_cons caps c chains f frames q q1 q' :
  NoDup (head_index <$> c :: chains) ->
  ((length f + 12 <= caps c)%nat -> buffer q1 c = vnet_header ++ f) ->
  (forall c', head_index c' <> head_index c -> buffer q1 c' = buffer q c') ->
  rx_filled caps chains frames q1 q' -> rx_filled caps (c :: chains) (f :: frames) q q'.
Proof.
  intros [Hnin Hnd]%NoDup_cons Hf Hoth [Hin Hout]. split.
  - intros [|i] c' f' Hc Hf' Hlen; [|by eapply Hin].
    injection Hc as <-. injection Hf' as <-. rewrite Hout by done. auto.
  - intros c' [Hne Hc']%not_elem_of_cons. rewrite Hout by done. auto.
Qed.

(** A whole frame, header first, into one chain. *)
Lemma write_frame q c f cap :
  writer_capacity q c = Ok cap -> (length f + 12 <= cap)%nat ->
  exists q1 q2, chain_write q c 0 vnet_header = Ok q1 /\ chain_write q1 c VNET_HDR_LEN f = Ok q2 /\
    posted q2 = posted q /\ completed q2 = completed q /\
    (forall a, read_u16 q2 a = read_u16 q a) /\ (forall c, writer_capacity q2 c = writer_capacity q c) /\
    buffer q2 c = vnet_header ++ f /\ (forall c', head_index c' <> head_index c -> buffer q2 c' = buffer q c').
Proof.
  intros Hcap Hl.
  destruct (write_law q c 0 vnet_header cap Hcap) as (q1 & H1 & Hp1 & Hc1 & Hr1 & Hw1 & Hb1 & Ho1);
    [change (length vnet_header) with 12%nat; lia|].
  destruct (write_law q1 c VNET_HDR_LEN f cap) as (q2 & H2 & Hp2 & Hc2 & Hr2 & Hw2 & Hb2 & Ho2);
    [by rewrite Hw1|unfold VNET_HDR_LEN; lia|].
  exists q1, q2. split_and!; [done..|congruence|congruence|intros; by rewrite Hr2|intros; by rewrite Hw2| |].
  - rewrite Hb2, Hb1. done.
  - intros c' Hne. by rewrite Ho2, Ho1.
Qed.

Lemma fill_chains_spec fuel t caps chains frames s :
  (length chains < fuel)%nat -> posted (ring s) = chains -> channel s = ToVm <$> frames ->
  rx_ready (ring s) t caps chains -> NoDup (head_index <$> chains) ->
  exists q', fill_chains fuel t s =
      Returns {| ring := q'; channel := ToVm <$> drop (length chains) frames; sent := sent s |}
        (Ok (zip_with (rx_used caps) chains frames)) /\
    posted q' = drop (length frames) chains /\ completed q' = completed (ring s) /\
    rx_filled caps chains frames (ring s) q'.
Proof.
  revert fuel frames s. induction chains as [|c chains IH]; intros fuel frames s Hf Hp Hch Hrd Hnd;
    (destruct fuel as [|fuel]; [simpl in Hf; lia|]); cbn [fill_chains]; unfold the_ring, put_ring.
  { exists (ring s). run_cmd. rewrite next_nil by done. rewrite drop_nil, drop_0, <- Hch.
    destruct s. split_and!; [done..|]. split; [done|done]. }
  destruct (next_cons _ _ _ Hp) as (q1 & Hn & Hp1 & Hc1 & Hpb & Hcb & Hr1 & _ & Hw1 & Hb1).
  apply Forall_cons in Hrd as [[Hw Hcap] Hrd]. run_cmd. rewrite Hn. cbv zeta.
  assert (Hw' : is_writable q1 t (head_index c) = true) by (by rewrite (is_writable_same (ring s) q1)).
  cbn [set_ring ring]. rewrite Hw'. cbn [negb]. rewrite Hw1, Hcap. unfold try_recv. run_cmd.
  cbn [set_ring ring channel sent]. rewrite Hch.
  destruct frames as [|f frames]; cbn [fmap list_fmap].
  { exists (vq_go_back q1). rewrite drop_nil. cbn [zip_with drop length]. unfold set_ring. cbn [ring channel sent].
    rewrite Hch. split_and!; [done..|congruence|congruence|]. apply rx_filled_nil. intros c'. apply Hb1. }
  assert (Hrd1 : rx_ready q1 t caps chains) by (by eapply rx_ready_same).
  destruct (Nat.leb_spec (length f + VNET_HDR_LEN) (caps c)) as [Hfit|Hbig]; unfold VNET_HDR_LEN in *.
  - destruct (write_frame q1 c f (caps c)) as (q2 & q3 & H2 & H3 & Hp3 & Hc3 & Hr3 & Hw3 & Hb3 & Ho3);
      [by rewrite Hw1|done|]. unfold VNET_HDR_LEN in H3. rewrite H2. cbn [set_ring ring channel sent]. rewrite H3.
    destruct (IH fuel frames {| ring := q3; channel := ToVm <$> frames; sent := sent s |}) as (q' & Hx & Hp' & Hc' & Hfl);
      [simpl in Hf; lia|simpl; congruence|done|by eapply (rx_ready_same q1)|by apply NoDup_cons in Hnd as []|].
    exists q'. unfold set_ring. cbn [ring channel sent]. rewrite Hx.
    assert (Hu : rx_used caps c f = (head_index c, wrap_u32 (zlen f + Z.of_nat 12)))
      by (unfold rx_used; by destruct (Nat.leb_spec (length f + 12) (caps c)); [|lia]).
    cbn [zip_with]. rewrite Hu. split_and!; [done|done|simpl in *; congruence|].
    eapply rx_filled_cons; [done|done| |exact Hfl]. intros c' Hne. simpl. rewrite Ho3 by done. apply Hb1.
  - destruct (IH fuel frames {| ring := q1; channel := ToVm <$> frames; sent := sent s |}) as (q' & Hx & Hp' & Hc' & Hfl);
      [simpl in Hf; lia|simpl; congruence|done|done|by apply NoDup_cons in Hnd as []|].
    exists q'. cbn [zip_with]. unfold set_ring; cbn [ring channel sent]. rewrite Hx.
    assert (Hu : rx_used caps c f = (head_index c, 0))
      by (unfold rx_used; by destruct (Nat.leb_spec (length f + 12) (caps c)); [lia|]).
    rewrite Hu. split_and!; [done|done|simpl in *; congruence|].
    eapply rx_filled_cons; [done|lia| |exact Hfl]. intros c' Hne. simpl. apply Hb1.
Qed.

Lemma service_rx_spec (s : PortState Q) (caps : C -> nat) (frames : list (list Z)) :
  let q := rewind (ring s) in
  let chains := posted q in
  vq_iter q = true -> channel s = ToVm <$> frames ->
  rx_ready q (vq_desc_table (ring s)) caps chains -> NoDup (head_index <$> chains) ->
  exists q' r, service_rx s =
      Returns {| ring := q'; channel := ToVm <$> drop (length chains) frames; sent := sent s |} r /\
    posted q' = drop (length frames) chains /\
    completed q' = completed q ++ zip_with (rx_used caps) chains frames /\
    (forall i c f, chains !! i = Some c -> frames !! i = Some f -> (length f + 12 <= caps c)%nat ->
       decode_driver_rx (buffer q' c) = Some f) /\
    (r = Ok tt \/ r = vq_signal q').
Proof.
  intros q chains Hi Hch Hrd Hnd.
  destruct (fill_chains_spec RING_FUEL (vq_desc_table (ring s)) caps chains frames (set_ring q s)
    (ring_fuel q) eq_refl Hch Hrd Hnd) as (q1 & Hx & Hp & Hc & Hfill & _).
  destruct (complete_used_spec (zip_with (rx_used caps) chains frames)
    {| ring := q1; channel := ToVm <$> drop (length chains) frames; sent := sent s |}) as (q2 & r & Hy & Hp2 & Hc2 & Hb2 & Hr);
    [by apply of_chains_zip|].
  exists q2, r. unfold service_rx, the_ring, put_ring. run_cmd. fold q. cbn [set_ring ring]. rewrite Hi. cbn [negb].
  unfold set_ring at 1 in Hx. unfold set_ring. rewrite Hx. cbn [set_ring sent] in *. rewrite Hy. cbn [set_ring ring channel sent] in *. split_and!; [done|congruence|congruence| |].
  - intros i c f Hci Hfi Hfit. rewrite Hb2, (Hfill i c f) by done. unfold decode_driver_rx, get_range.
    assert (Hlen : length (vnet_header ++ f) = (12 + length f)%nat) by (rewrite length_app; done).
    rewrite Hlen, decide_True by (unfold VNET_HDR_LEN; lia).
    rewrite drop_app_length' by done. by rewrite take_ge by (unfold VNET_HDR_LEN; lia).
  - rewrite Hr. case_decide; auto.
Qed.
(** The receive path. Waiting frames go to the posted buffers one for one
    and in order, each behind a zero virtio-net header, so that the driver
    reads back the frame; a frame too large for its buffer is dropped and its
    chain completed empty. Chains without a frame stay posted and frames
    without a chain stay queued. *)
Theorem rx_delivers_frames (s : PortState Q) (caps : C -> nat) (frames : list (list Z)) :
  let q := rewind (ring s) in
  let chains := posted q in
  vq_iter q = true -> channel s = ToVm <$> frames ->
  rx_ready q (vq_desc_table (ring s)) caps chains -> NoDup (head_index <$> chains) ->
  exists q' r, service_rx s =
      Returns {| ring := q'; channel := ToVm <$> drop (length chains) frames; sent := sent s |} r /\
    posted q' = drop (length frames) chains /\
    completed q' = completed q ++ zip_with (rx_used caps) chains frames /\
    (forall i c f, chains !! i = Some c -> frames !! i = Some f -> (length f + 12 <= caps c)%nat ->
       decode_driver_rx (buffer q' c) = Some f) /\
    (r = Ok tt \/ r = vq_signal q').
Proof. exact (service_rx_spec s caps frames). Qed.
End Laws.

(** ** The configuration space *)

Lemma space_length c : length (nic_mac c) = 6%nat -> length (space c) = NET_CONFIG_LEN.
Proof. intros Hl. unfold space. rewrite length_app, Hl. done. Qed.

(** The configuration window. Whatever offset and size the frontend asks
    for, the answer has exactly that size and shows the address pinned by the
    control plane followed by the link-up status, and zeros beyond. *)
Theorem get_config_window (mac : list Z) (c : NetDeviceConfig) (offset size : Z) :
  length mac = 6%nat -> 0 <= offset -> 0 <= size ->
  exists out, get_config (set_mac mac c) offset size = Val out /\ zlen out = size /\
    forall i, 0 <= i < size ->
      out !! Z.to_nat i = Some (default 0 ((mac ++ [1; 0]) !! Z.to_nat (offset + i))).
Proof.
  intros Hm Ho Hs. unfold get_config. change (space (set_mac mac c)) with (mac ++ [1; 0]).
  assert (Hlen : length (mac ++ [1; 0]) = 8%nat) by (rewrite length_app, Hm; done).
  rewrite Hlen. destruct (Nat.leb_spec 8 (Z.to_nat offset)) as [Hbig|Hsmall].
  - eexists. split; [done|]. unfold zlen. rewrite length_replicate, Z2Nat.id by done. split; [done|].
    intros i Hi. rewrite lookup_replicate_2 by lia. by rewrite lookup_ge_None_2 by lia.
  - unfold slice. rewrite decide_True by lia. eexists. split; [done|]. unfold resize_zero, zlen.
    set (part := take _ (drop (Z.to_nat offset) (mac ++ [1; 0]))).
    assert (Hpart : length part = Nat.min (Z.to_nat size) (8 - Z.to_nat offset))
      by (unfold part; rewrite length_take, length_drop; lia).
    rewrite length_app, length_take, length_replicate, Hpart. split; [lia|]. intros i Hi.
    destruct (decide (Z.to_nat i < length part)%nat) as [Hin|Hout].
    + rewrite lookup_app_l by (rewrite length_take; lia). rewrite lookup_take_lt by lia. unfold part.
      rewrite lookup_take_lt by lia. rewrite lookup_drop. rewrite Z2Nat.inj_add by lia.
      destruct ((mac ++ [1; 0]) !! (Z.to_nat offset + Z.to_nat i)%nat) eqn:Hx; [done|].
      apply lookup_ge_None in Hx. lia.
    + rewrite lookup_app_r by (rewrite length_take; lia). rewrite length_take.
      rewrite lookup_replicate_2 by lia. by rewrite lookup_ge_None_2 by lia.
Qed.

(** ** A ring in memory, one buffer per chain *)
Record MemChain := { mc_head : Z; mc_flags : Z; mc_bytes : result string (list Z); mc_cap : nat }.

Record MemRing := {
  mr_chains : list MemChain;      (* the ring's chains, in the order posted *)
  mr_at : nat;                    (* how many the iterator has yielded *)
  mr_completed : list (Z * Z);
  mr_buffers : gmap Z (list Z);
}.

(** The chains of a ring, cut to the ring size of the indices. *)
Definition mr_all (q : MemRing) : list MemChain := take (N.to_nat 65535) (mr_chains q).

Definition mr_step (q : MemRing) (n : nat) : MemRing :=
  {| mr_chains := mr_chains q; mr_at := n; mr_completed := mr_completed q; mr_buffers := mr_buffers q |}.

#[export] Instance mem_ring : VirtQueue MemRing MemChain := {|
  vq_desc_table := fun _ => 16;
  vq_size := fun _ => QUEUE_SIZE;
  vq_next_avail := fun q => wrap_u16 (Z.of_nat (Nat.min (mr_at q) (length (mr_all q))));
  vq_next_used := fun q => wrap_u16 (zlen (mr_completed q));
  vq_avail_idx := fun q => Some (wrap_u16 (zlen (mr_all q)));
  vq_set_next_avail := fun q n => mr_step q (length (mr_all q) - Z.to_nat (wrap_u16 (zlen (mr_all q) - n)));
  vq_iter := fun _ => true;
  vq_next := fun q => c ← mr_all q !! mr_at q; Some (c, mr_step q (S (mr_at q)));
  vq_go_back := fun q => mr_step q (pred (mr_at q));
  vq_add_used := fun q i n => Ok {| mr_chains := mr_chains q; mr_at := mr_at q;
    mr_completed := mr_completed q ++ [(i, n)]; mr_buffers := mr_buffers q |};
  vq_signal := fun _ => Ok tt;
  head_index := mc_head;
  read_u16 := fun q a => mc_flags <$> head (filter (fun c => 16 + 16 * mc_head c + 12 = a) (mr_chains q));
  chain_read := fun _ c => mc_bytes c;
  writer_capacity := fun _ c => Ok (mc_cap c);
  chain_write := fun q c pos bytes => Ok {| mr_chains := mr_chains q; mr_at := mr_at q;
    mr_completed := mr_completed q;
    mr_buffers := <[mc_head c := take pos (default [] (mr_buffers q !! mc_head c)) ++ bytes]> (mr_buffers q) |};
|}.

#[export, refine] Instance mem_ring_laws : VirtQueueLaws MemRing MemChain := {|
  posted := fun q => drop (mr_at q) (mr_all q);
  completed := mr_completed;
  buffer := fun q c => default [] (mr_buffers q !! mc_head c);
|}.
Proof.
  - intros q. unfold zlen, mr_all. rewrite length_drop, length_take. lia.
  - intros q Hq. simpl. apply (f_equal length) in Hq. rewrite length_drop in Hq. simpl in Hq.
    by rewrite lookup_ge_None_2 by lia.
  - intros q c l Hq. assert (Hc : mr_all q !! mr_at q = Some c).
    { apply (f_equal (fun l => l !! 0%nat)) in Hq. rewrite lookup_drop, Nat.add_0_r in Hq. done. }
    exists (mr_step q (S (mr_at q))). simpl. rewrite Hc. split_and!; try done.
    + change (mr_all (mr_step q (S (mr_at q)))) with (mr_all q). apply (f_equal (drop 1)) in Hq.
      rewrite drop_drop in Hq. replace (mr_at q + 1)%nat with (S (mr_at q)) in Hq by lia. done.
  - intros q i n. eexists. split; [done|]. done.
  - intros q c pos bytes cap [= <-] Hl. eexists. split; [done|]. simpl. split_and!; try done.
    + by rewrite lookup_insert_eq.
    + intros c' Hne. by rewrite lookup_insert_ne.
Defined.
