(* ===== verification/Wakeup.v ===== *)
(** * Waking the receive worker (crates/k8netd-vhost/src/port.rs, crates/k8netd/src/dataplane.rs)

    A frame for the guest is queued and then the notifier is written
    ([inject_to], [read_passt_frames], [VhostPort::kick_rx]); the guest posts a
    buffer and then kicks its vring.  The receive worker sleeps until one of
    the two event counters is readable, clears it, and serves the ring
    ([handle_event]).  The steps of the three parties may interleave in any
    order. *)
From S2P Require Import Prelude RustStd VhostPort.

Section Wakeup.
Context {Q C : Type} `{VirtQueueLaws Q C}.

Record RxState := {
  port : PortState Q;
  memory : bool;         (* guest memory is published ([update_memory]) *)
  notify : nat;          (* the notifier's counter *)
  kicked : bool;         (* the vring's kick counter is not zero *)
  unnotified : nat;      (* frames queued by threads that did not write the notifier yet *)
  unkicked : nat;        (* buffers posted by the guest before its kick *)
  busy : bool;           (* the worker has read its event and did not serve yet *)
}.

Definition set_port (p : PortState Q) (s : RxState) : RxState :=
  {| port := p; memory := memory s; notify := notify s; kicked := kicked s; unnotified := unnotified s;
     unkicked := unkicked s; busy := busy s |}.

Definition push (frame : list Z) (p : PortState Q) : PortState Q :=
  {| ring := ring p; channel := channel p ++ [ToVm frame]; sent := sent p |}.

(** [inject.send(ToVm(frame))]. *)
Definition send (frame : list Z) (s : RxState) : RxState :=
  {| port := push frame (port s); memory := memory s; notify := notify s; kicked := kicked s;
     unnotified := S (unnotified s); unkicked := unkicked s; busy := busy s |}.

(** [kick_rx]: [notify.write(1)]. *)
Definition kick_rx (s : RxState) : RxState :=
  {| port := port s; memory := memory s; notify := S (notify s); kicked := kicked s;
     unnotified := pred (unnotified s); unkicked := unkicked s; busy := busy s |}.

(** The guest has posted a buffer: the ring is now [q]. *)
Definition post (q : Q) (s : RxState) : RxState :=
  {| port := set_ring q (port s); memory := memory s; notify := notify s; kicked := kicked s;
     unnotified := unnotified s; unkicked := S (unkicked s); busy := busy s |}.

Definition guest_kick (s : RxState) : RxState :=
  {| port := port s; memory := memory s; notify := notify s; kicked := true;
     unnotified := unnotified s; unkicked := pred (unkicked s); busy := busy s |}.

Definition update_memory (s : RxState) : RxState :=
  {| port := port s; memory := true; notify := notify s; kicked := kicked s;
     unnotified := unnotified s; unkicked := unkicked s; busy := busy s |}.

(** The worker reads the event it was woken by: the notifier, or the kick. *)
Definition wake (by_notifier : bool) (s : RxState) : RxState :=
  {| port := port s; memory := memory s; notify := if by_notifier then 0%nat else notify s;
     kicked := if by_notifier then kicked s else false;
     unnotified := unnotified s; unkicked := unkicked s; busy := true |}.

(** The rest of [handle_event] on the receive worker. *)
Definition serve (s : RxState) : RxState :=
  {| port := run_state (handle_event (memory s) RX_VRING (port s)); memory := memory s; notify := notify s;
     kicked := kicked s; unnotified := unnotified s; unkicked := unkicked s; busy := false |}.

(** The guest's side of a receive ring: every buffer it has posted is
    device-writable, with a head of its own. *)
Definition guest_ready (q : Q) (caps : C -> nat) : Prop :=
  vq_iter (rewind q) = true /\ rx_ready (rewind q) (vq_desc_table q) caps (posted (rewind q)) /\
  NoDup (head_index <$> posted (rewind q)).

Inductive rx_step : RxState -> RxState -> Prop :=
  | rx_send frame s : rx_step s (send frame s)
  | rx_kick s : (0 < unnotified s)%nat -> rx_step s (kick_rx s)
  | rx_post c q s : memory s = true -> posted q = posted (ring (port s)) ++ [c] -> rx_step s (post q s)
  | rx_guest_kick s : (0 < unkicked s)%nat -> rx_step s (guest_kick s)
  | rx_memory s : rx_step s (update_memory s)
  | rx_wake_notify s : busy s = false -> (0 < notify s)%nat -> rx_step s (wake true s)
  | rx_wake_kick s : busy s = false -> kicked s = true -> rx_step s (wake false s)
  | rx_serve caps s : busy s = true -> guest_ready (ring (port s)) caps -> rx_step s (serve s).

(** The backend before a frontend has come: no guest memory. *)
Definition NetBackend_new (q : Q) : RxState :=
  {| port := Build_PortState q [] []; memory := false; notify := 0; kicked := false; unnotified := 0; unkicked := 0; busy := false |}.

(** From a ring with nothing posted. *)
Inductive rx_reachable : RxState -> Prop :=
  | rx_start q : posted q = [] -> rx_reachable (NetBackend_new q)
  | rx_more s s' : rx_reachable s -> rx_step s s' -> rx_reachable s'.

Inductive rx_steps : nat -> RxState -> RxState -> Prop :=
  | rx_here s : rx_steps 0 s s
  | rx_then n s s1 s2 : rx_step s s1 -> rx_steps n s1 s2 -> rx_steps (S n) s s2.

(** Work the worker could do. *)
Definition waiting (s : RxState) : Prop := channel (port s) <> [] /\ posted (ring (port s)) <> [].

(** Something is under way that makes the worker look. *)
Definition pending (s : RxState) : Prop :=
  (0 < unnotified s)%nat \/ (0 < unkicked s)%nat \/ (0 < notify s)%nat \/ kicked s = true \/ busy s = true.

Record rx_ok (s : RxState) : Prop := {
  rx_frames : exists frames, channel (port s) = ToVm <$> frames;
  rx_pending : waiting s -> pending s;
  rx_memoryless : memory s = false -> posted (ring (port s)) = [];
}.

(** What serving does to a ring the guest keeps in order. *)
Lemma serve_spec caps frames s :
  memory s = true -> guest_ready (ring (port s)) caps -> channel (port s) = ToVm <$> frames ->
  let chains := posted (rewind (ring (port s))) in
  exists q, port (serve s) = {| ring := q; channel := ToVm <$> drop (length chains) frames; sent := sent (port s) |} /\
    posted q = drop (length frames) chains /\
    completed q = completed (rewind (ring (port s))) ++ zip_with (rx_used caps) chains frames /\
    (forall i c f, chains !! i = Some c -> frames !! i = Some f -> (length f + 12 <= caps c)%nat ->
       decode_driver_rx (buffer q c) = Some f).
Proof.
  intros Hm (Hi & Hr & Hn) Hch.
  destruct (service_rx_spec (port s) caps frames Hi Hch Hr Hn) as (q & r & Hs & Hp & Hc & Hb & _).
  exists q. split_and!; try done. unfold serve, handle_event. simpl. rewrite Hm. simpl. by rewrite Hs.
Qed.

Lemma serve_empties caps s :
  memory s = true -> guest_ready (ring (port s)) caps -> (exists frames, channel (port s) = ToVm <$> frames) ->
  ~ waiting (serve s).
Proof.
  intros Hm Hg [frames Hch]. destruct (serve_spec caps frames s Hm Hg Hch) as (q & Hs & Hp & _).
  unfold waiting. rewrite Hs. simpl. rewrite Hp. intros [Hc Hq].
  destruct (decide (length frames <= length (posted (rewind (ring (port s)))))%nat).
  - apply Hc. by rewrite drop_ge.
  - apply Hq. apply drop_ge. lia.
Qed.

Lemma rx_step_ok s s' : rx_step s s' -> rx_ok s -> rx_ok s'.
Proof.
  intros Hs [[fs Hf] Hp Hm]. destruct Hs as [f s|s Hu|c q s Hmem Hq|s Hu|s|s Hb Hn|s Hb Hk|caps s Hb Hg].
  - split; [|intros _; left; simpl; lia|done]. exists (fs ++ [f]). simpl. by rewrite Hf, fmap_app.
  - split; [by exists fs|intros _; right; right; left; simpl; lia|done].
  - split; [by exists fs|intros _; right; left; simpl; lia|simpl; congruence].
  - split; [by exists fs|intros _; do 3 right; by left|done].
  - split; [by exists fs| |done]. intros Hw. apply Hp in Hw. exact Hw.
  - split; [by exists fs|intros _; by do 4 right|done].
  - split; [by exists fs|intros _; by do 4 right|done].
  - destruct (memory s) eqn:Hmem.
    + destruct (serve_spec caps fs s Hmem Hg Hf) as (q & Hs & _).
      split; [rewrite Hs; by eexists|intros Hw; by destruct (serve_empties caps s Hmem Hg (ex_intro _ fs Hf))|simpl; congruence].
    + assert (Hsame : port (serve s) = port s) by (unfold serve, handle_event; simpl; by rewrite Hmem).
      split; [rewrite Hsame; by exists fs| |rewrite Hsame; auto].
      intros [_ Hw]. rewrite Hsame in Hw. by rewrite (Hm eq_refl) in Hw.
Qed.

Lemma rx_reachable_ok s : rx_reachable s -> rx_ok s.
Proof.
  induction 1 as [q Hq|s s' _ IH Hs]; [|by eapply rx_step_ok].
  split; simpl; [by exists []|by intros [? _]|done].
Qed.

(** C32: no wake-up is lost. However queueing, notifying, posting, kicking and
    serving interleave, a frame and a free buffer are never left together
    with the worker asleep: either someone is about to wake it, or it is
    about to look. *)
Theorem no_lost_wakeup (s : RxState) :
  rx_reachable s -> channel (port s) <> [] -> posted (ring (port s)) <> [] -> pending s.
Proof. intros Hr Hc Hp. apply (rx_pending s (rx_reachable_ok s Hr)). by split. Qed.

(** One wake-up is enough. *)
Lemma worker_looks s : busy s = false -> pending s -> exists n s', (n <= 2)%nat /\ rx_steps n s s' /\
  busy s' = true /\ port s' = port s /\ memory s' = memory s.
Proof.
  intros Hb Hp.
  assert (Hwn : forall s, busy s = false -> (0 < notify s)%nat -> rx_steps 1 s (wake true s)).
  { intros s0 ? ?. eapply rx_then; [by apply rx_wake_notify|apply rx_here]. }
  assert (Hwk : forall s, busy s = false -> kicked s = true -> rx_steps 1 s (wake false s)).
  { intros s0 ? ?. eapply rx_then; [by apply rx_wake_kick|apply rx_here]. }
  destruct Hp as [Hu|[Hu|[Hn|[Hk|Hbusy]]]]; [..|congruence].
  - exists 2%nat, (wake true (kick_rx s)). split_and!; [lia| |done..].
    eapply rx_then; [by apply rx_kick|]. apply Hwn; [done|simpl; lia].
  - exists 2%nat, (wake false (guest_kick s)). split_and!; [lia| |done..].
    eapply rx_then; [by apply rx_guest_kick|]. by apply Hwk.
  - exists 1%nat, (wake true s). split_and!; [lia|by apply Hwn|done..].
  - exists 1%nat, (wake false s). split_and!; [lia|by apply Hwk|done..].
Qed.

Lemma rx_steps_snoc n s s1 s2 : rx_steps n s s1 -> rx_step s1 s2 -> rx_steps (S n) s s2.
Proof. induction 1; intros Hs; eauto using rx_steps. Qed.

(** C6: delivery is live. From every state with frames queued and buffers posted,
    at most three steps lead to the delivery of the frames, in order, one per
    buffer, until one of the two runs out; the driver reads back each frame
    that fits its buffer. *)
Theorem queued_frames_reach_guest (s : RxState) (caps : C -> nat) :
  rx_reachable s -> memory s = true -> channel (port s) <> [] -> posted (ring (port s)) <> [] ->
  guest_ready (ring (port s)) caps ->
  exists n s' frames, (n <= 3)%nat /\ rx_steps n s s' /\ channel (port s) = ToVm <$> frames /\
    let chains := posted (rewind (ring (port s))) in
    channel (port s') = ToVm <$> drop (length chains) frames /\
    posted (ring (port s')) = drop (length frames) chains /\
    forall i c f, chains !! i = Some c -> frames !! i = Some f -> (length f + 12 <= caps c)%nat ->
      decode_driver_rx (buffer (ring (port s')) c) = Some f.
Proof.
  intros Hr Hm Hc Hp Hg. destruct (rx_reachable_ok s Hr) as [[frames Hf] Hpend _].
  assert (Hlook : exists n s1, (n <= 2)%nat /\ rx_steps n s s1 /\ busy s1 = true /\ port s1 = port s /\ memory s1 = memory s).
  { destruct (busy s) eqn:Hb; [exists 0%nat, s; split_and!; [lia|apply rx_here|done..]|]. by apply worker_looks; [|apply Hpend]. }
  destruct Hlook as (n & s1 & Hn & Hs1 & Hb1 & Hp1 & Hm1). rewrite <- Hp1 in Hg, Hf.
  destruct (serve_spec caps frames s1) as (q & Hs & Hq & _ & Hread); [congruence|done|done|].
  exists (S n), (serve s1), frames. split_and!; [lia|eapply rx_steps_snoc; [exact Hs1|by eapply rx_serve]|congruence|].
  cbv zeta. rewrite Hs. simpl. rewrite <- Hp1. by split_and!.
Qed.
End Wakeup.
