(* ===== verification/Recovery.v ===== *)
(** * Reconnect recovery of the receive ring (crates/k8netd-vhost/src/port.rs)

    [service_rx] first looks for buffers that an earlier session took off the
    ring and never completed ([rewind]).  Here the ring has its positions:
    the chains the driver ever made available, of which a prefix has been
    taken and a number has been completed.  The theorems say when the recovery
    finds the buffers in flight, and what it finds when it runs too late. *)
From S2P Require Import Prelude RustStd VhostPort.

(** ** A ring with its positions

    The three indices of a split virtqueue are positions in the sequence of
    available chains, modulo 2^16: the driver's [avail_idx], the device's
    [next_avail] and [next_used]. *)
Class RingIndices (Q C : Type) `{VirtQueueLaws Q C} := {
  entries : Q -> list C;
  posted_suffix : forall q, posted q = drop (length (entries q) - length (posted q)) (entries q);
  avail_idx_law : forall q, vq_avail_idx q = Some (wrap_u16 (zlen (entries q)));
  next_avail_law : forall q, vq_next_avail q = wrap_u16 (zlen (entries q) - zlen (posted q));
  next_used_law : forall q, vq_next_used q = wrap_u16 (zlen (completed q));
  set_next_avail_law : forall q n, (n <= length (entries q))%nat -> zlen (entries q) - Z.of_nat n < 65536 ->
    let q' := vq_set_next_avail q (wrap_u16 (Z.of_nat n)) in
    posted q' = drop n (entries q) /\ completed q' = completed q /\ entries q' = entries q /\ vq_size q' = vq_size q;
  next_entries : forall q c q', vq_next q = Some (c, q') ->
    (entries q' = entries q /\ vq_size q' = vq_size q) /\
    (entries (vq_go_back q') = entries q /\ vq_size (vq_go_back q') = vq_size q);
  add_used_entries : forall q i n q', vq_add_used q i n = Ok q' -> entries q' = entries q /\ vq_size q' = vq_size q;
  write_entries : forall q c pos bytes q', chain_write q c pos bytes = Ok q' ->
    entries q' = entries q /\ vq_size q' = vq_size q;
}.

Section Recovery.
Context {Q C : Type} `{RingIndices Q C}.
Implicit Types (q : Q) (c : C) (s : PortState Q).

(** ** What a service leaves alone

    A property that every operation on the ring keeps is kept by the service. *)
Section Closed.
Context (P : Q -> Prop).
Context (next_P : forall q c q', P q -> vq_next q = Some (c, q') -> P q' /\ P (vq_go_back q')).
Context (used_P : forall q i n q', P q -> vq_add_used q i n = Ok q' -> P q').
Context (write_P : forall q c pos bytes q', P q -> chain_write q c pos bytes = Ok q' -> P q').

Let keeps {A} (m : port_cmd (Q := Q) A) : Prop := forall s, P (ring s) -> P (ring (run_state (m s))).

Lemma keeps_bind {A B} (m : port_cmd A) (f : A -> port_cmd B) :
  keeps m -> (forall a s, P (ring s) -> P (ring (run_state (f a s)))) -> keeps (m ≫= f).
Proof.
  intros Hm Hf s Hs. specialize (Hm s Hs). unfold mbind, cmd_bind.
  destruct (m s) as [s1 [a|e]|s1]; simpl in *; auto.
Qed.

Lemma add_all_keeps used : keeps (add_all used).
Proof.
  induction used as [|[i n] used IH]; intros s Hs; [done|]. cbn [add_all]. unfold the_ring, put_ring. run_cmd.
  destruct (vq_add_used (ring s) i n) as [q'|e] eqn:Hu; simpl; [|done]. apply IH. simpl. eauto.
Qed.

Lemma complete_used_keeps used : keeps (complete_used used).
Proof.
  apply keeps_bind; [apply add_all_keeps|]. intros [] s Hs. unfold the_ring. destruct used; [done|]. by run_cmd.
Qed.

Lemma fill_chains_keeps fuel t : keeps (fill_chains fuel t).
Proof.
  induction fuel as [|fuel IH]; intros s Hs; [done|]. cbn [fill_chains].
  assert (Hrest : forall u : Z * Z, keeps (rest ← fill_chains fuel t; mret (u :: rest))).
  { intros u. apply keeps_bind; [exact IH|]. intros l s1 Hs1. by run_cmd. }
  unfold the_ring at 1. unfold mbind at 1, cmd_bind at 1. run_cmd.
  destruct (vq_next (ring s)) as [[c q']|] eqn:Hn; [|done].
  destruct (next_P (ring s) c q' Hs Hn) as [Hq' Hback].
  unfold put_ring. run_cmd. destruct (is_writable q' t (head_index c)); cbn [negb].
  2: { apply (Hrest (head_index c, 0) (set_ring q' s)). exact Hq'. }
  destruct (writer_capacity q' c) as [cap|e]; [|exact Hq'].
  unfold try_recv. run_cmd. cbn [channel set_ring ring sent].
  destruct (channel s) as [|[f|f] l]; [exact Hback| |exact Hback].
  destruct (Nat.leb _ cap); [|by apply (Hrest (head_index c, 0) {| ring := q'; channel := l; sent := sent s |})].
  destruct (chain_write q' c 0 vnet_header) as [q1|e] eqn:Hw1; [|exact Hq'].
  assert (Hq1 : P q1) by eauto. cbn [set_ring ring channel sent].
  destruct (chain_write q1 c VNET_HDR_LEN f) as [q2|e] eqn:Hw2; [|exact Hq1].
  apply (Hrest (head_index c, _) {| ring := q2; channel := l; sent := sent s |}). simpl. eauto.
Qed.

Lemma service_rx_keeps s : P (rewind (ring s)) -> P (ring (run_state (service_rx s))).
Proof.
  intros Hs. unfold service_rx, the_ring, put_ring. run_cmd. cbn [set_ring ring].
  destruct (vq_iter (rewind (ring s))); cbn [negb]; [|exact Hs].
  refine (keeps_bind (fill_chains RING_FUEL _) complete_used (fill_chains_keeps _ _) _ (set_ring (rewind (ring s)) s) Hs).
  intros used s1. apply complete_used_keeps.
Qed.
End Closed.

(** The chains ever made available, and the size of the ring, are the
    driver's: a service keeps them. *)
Lemma service_rx_entries s :
  let q' := ring (run_state (service_rx s)) in
  entries q' = entries (rewind (ring s)) /\ vq_size q' = vq_size (rewind (ring s)).
Proof.
  apply (service_rx_keeps (fun q => entries q = entries (rewind (ring s)) /\ vq_size q = vq_size (rewind (ring s)))); [| | |done].
  - intros q c q' [He Hs] Hn. destruct (next_entries q c q' Hn) as [[-> ->] [-> ->]]. done.
  - intros q i n q' [He Hs] Hn. by destruct (add_used_entries q i n q' Hn) as [-> ->].
  - intros q c pos bytes q' [He Hs] Hn. by destruct (write_entries q c pos bytes q' Hn) as [-> ->].
Qed.

(** ** What the recovery finds *)

(** The chains taken off the ring and never completed. *)
Definition in_flight q : nat := (length (entries q) - length (posted q) - length (completed q))%nat.

(** Completions follow takings, and no more chains are open than the ring
    has room for. *)
Definition ring_ok q : Prop :=
  (length (completed q) + length (posted q) <= length (entries q))%nat /\
  zlen (entries q) - zlen (completed q) <= vq_size q < 65536.

(** Modulo 2^16 and up to the ring's size, differences of positions are exact. *)
Lemma wrap_u16_sub a b : 0 <= a - b < 65536 -> wrap_u16 (wrap_u16 a - wrap_u16 b) = a - b.
Proof. intros Hab. unfold wrap_u16. rewrite <- Zminus_mod. apply Z.mod_small. lia. Qed.

(** The difference the recovery tests is zero exactly when nothing is posted. *)
Lemma rewind_unfold q :
  ring_ok q ->
  rewind q = if decide (posted q = [] /\ length (completed q) <> length (entries q))
             then vq_set_next_avail q (wrap_u16 (zlen (completed q))) else q.
Proof.
  unfold ring_ok. intros [Hle Hsize]. unfold rewind. rewrite avail_idx_law, next_avail_law, next_used_law. cbv zeta.
  assert (Hz : zlen (posted q) = 0 <-> posted q = []) by (unfold zlen; rewrite <- length_zero_iff_nil; lia).
  unfold zlen in *. rewrite !wrap_u16_sub by lia. rewrite (proj2 (Z.leb_le _ _)) by lia.
  do 2 case Z.eqb_spec; intros; cbn [negb andb]; case_decide as Hd; try done; exfalso; naive_solver lia.
Qed.

Lemma rewind_fresh q : ring_ok q -> posted q <> [] -> rewind q = q.
Proof. intros Hok Hp. rewrite rewind_unfold by done. by rewrite decide_False by tauto. Qed.

(** The recovery acts when nothing new is posted, and then puts the ring back
    to its first open chain. *)
Lemma rewind_exact q :
  ring_ok q ->
  posted (rewind q) = (if decide (posted q = []) then drop (length (completed q)) (entries q) else posted q) /\
  completed (rewind q) = completed q /\ entries (rewind q) = entries q /\ vq_size (rewind q) = vq_size q.
Proof.
  intros Hok. rewrite rewind_unfold by done. pose proof Hok as [Hle Hsize]. unfold zlen in *.
  destruct (decide (posted q = [])) as [Hp|Hp]; [|by rewrite decide_False by tauto].
  case_decide as Hc; [apply set_next_avail_law; unfold zlen; lia|].
  destruct (Nat.eq_dec (length (completed q)) (length (entries q))); [|tauto].
  by rewrite Hp, drop_ge by lia.
Qed.

(** C33: buffers of an earlier session are recovered: when the guest has posted
    nothing since, waiting frames go to the chains in flight, oldest first and
    in order, and after the service none is in flight any more: those without a
    frame are posted again. *)
Theorem recovery_serves_in_flight (s : PortState Q) (caps : C -> nat) (frames : list (list Z)) :
  let q := rewind (ring s) in
  let chains := drop (length (completed (ring s))) (entries (ring s)) in
  ring_ok (ring s) -> posted (ring s) = [] ->
  vq_iter q = true -> channel s = ToVm <$> frames ->
  rx_ready q (vq_desc_table (ring s)) caps chains -> NoDup (head_index <$> chains) ->
  exists q' r, service_rx s =
      Returns {| ring := q'; channel := ToVm <$> drop (length chains) frames; sent := sent s |} r /\
    completed q' = completed (ring s) ++ zip_with (rx_used caps) chains frames /\
    posted q' = drop (length frames) chains /\
    (forall i c f, chains !! i = Some c -> frames !! i = Some f -> (length f + 12 <= caps c)%nat ->
       decode_driver_rx (buffer q' c) = Some f) /\
    in_flight q' = 0%nat /\ ring_ok q'.
Proof.
  intros q chains Hok Hp Hi Hch Hrd Hnd. destruct (rewind_exact (ring s) Hok) as (Hpost & Hcomp & Hent & Hsize).
  rewrite decide_True in Hpost by done. fold q chains in Hpost, Hcomp, Hent, Hsize.
  destruct (service_rx_spec s caps frames) as (q' & r & Hx & Hp' & Hc' & Hd & _); fold q; rewrite ?Hpost; try done.
  fold q in Hx, Hp', Hc', Hd. rewrite Hpost in *. rewrite Hcomp in Hc'.
  pose proof (service_rx_entries s) as [He Hs]. rewrite Hx in He, Hs. simpl in He, Hs. fold q in He, Hs.
  exists q', r. split_and!; [done..| |].
  all: destruct Hok as [Hle Hsz]; unfold in_flight, ring_ok, zlen in *; rewrite He, ?Hs, Hent, ?Hsize, Hp', Hc', length_app,
    length_zip_with, length_drop; subst chains; rewrite length_drop; rewrite Hp in Hle; simpl in Hle; lia.
Qed.

(** The recovery can come too late.  When the guest posts fresh buffers before
    the first service, these are filled and the ones in flight are not; at the
    next service as many chains as are in flight, counted from the end of the
    ring, are put back: fresh buffers, when there are enough, that were
    completed a moment ago and belong to the guest again. *)
Theorem late_recovery_replays (s : PortState Q) (caps : C -> nat) (frames : list (list Z)) :
  let fresh := posted (ring s) in
  let k := in_flight (ring s) in
  ring_ok (ring s) -> (0 < k <= length fresh)%nat -> length frames = length fresh ->
  vq_iter (ring s) = true -> channel s = ToVm <$> frames ->
  rx_ready (ring s) (vq_desc_table (ring s)) caps fresh -> NoDup (head_index <$> fresh) ->
  exists q' r, service_rx s = Returns {| ring := q'; channel := []; sent := sent s |} r /\
    completed q' = completed (ring s) ++ zip_with (rx_used caps) fresh frames /\
    posted q' = [] /\ posted (rewind q') = drop (length fresh - k) fresh.
Proof.
  intros fresh k Hok Hk Hlen Hi Hch Hrd Hnd.
  assert (Hne : posted (ring s) <> []) by (intros He; subst fresh; rewrite He in Hk; simpl in Hk; lia).
  pose proof (rewind_fresh (ring s) Hok Hne) as Hrw.
  destruct (service_rx_spec s caps frames) as (q' & r & Hx & Hp' & Hc' & _); rewrite ?Hrw; try done.
  rewrite Hrw in *. fold fresh in Hx, Hp', Hc'. rewrite Hlen, drop_all in Hp'. rewrite <- Hlen, drop_all in Hx.
  pose proof (service_rx_entries s) as [He Hs]. rewrite Hx, Hrw in He, Hs. simpl in He, Hs.
  pose proof (f_equal length Hc') as Hcl. rewrite length_app, length_zip_with, Hlen, Nat.min_id in Hcl.
  exists q', r. split_and!; [done..|].
  destruct (rewind_exact q') as (Hpost & _).
  { destruct Hok as [Hle Hsz]. unfold ring_ok, zlen in *. fold fresh in Hle. rewrite He, Hs, Hp', Hcl. simpl. lia. }
  rewrite decide_True in Hpost by done. rewrite Hpost, He, Hcl.
  subst fresh k. unfold in_flight in *. pose proof (posted_suffix (ring s)) as Hsuf. rewrite Hsuf at 4. rewrite drop_drop.
  f_equal. destruct Hok as [Hle _]. lia.
Qed.
End Recovery.

(** ** The ring in memory has positions *)
Lemma wrap_u16_small z : 0 <= z < 65536 -> wrap_u16 z = z.
Proof. intros Hz. unfold wrap_u16. by apply Z.mod_small. Qed.

Lemma mr_all_length (q : MemRing) : zlen (mr_all q) < 65536.
Proof. unfold zlen, mr_all. rewrite length_take. lia. Qed.

#[export, refine] Instance mem_ring_indices : RingIndices MemRing MemChain := {| entries := mr_all |}.
Proof.
  - intros q. simpl. rewrite length_drop. destruct (le_lt_dec (mr_at q) (length (mr_all q))).
    + f_equal. lia.
    + by rewrite !drop_ge by lia.
  - done.
  - intros q. simpl. f_equal. unfold zlen. rewrite length_drop. lia.
  - done.
  - intros q n Hn _. pose proof (mr_all_length q) as Hl. simpl. unfold zlen in *.
    rewrite (wrap_u16_small (Z.of_nat n)), wrap_u16_small by lia.
    replace (length (mr_all q) - Z.to_nat (Z.of_nat (length (mr_all q)) - Z.of_nat n))%nat with n by lia. done.
  - intros q c q' Hq. simpl in Hq. destruct (mr_all q !! mr_at q); by simplify_option_eq.
  - by intros q i n q' [= <-].
  - by intros q c pos bytes q' [= <-].
Defined.
