(* ===== verification/Frontend.v ===== *)
(** * The test frontend (crates/k8netd-vhost/src/fake_frontend.rs)

    The client side of the vhost-user handshake, against any backend: the
    calls it makes in order, and the layout of the two vrings in the memory it
    shares.  The vhost package's [Frontend] is a backend that answers each call;
    what the kernel gives (the memory file and its mapping, the eventfds) is an
    argument. *)
From S2P Require Import Prelude RustStd VhostPort.


(** ** Memory layout *)
Definition GUEST_BASE : Z := 0x10000000.
Definition REGION_SIZE : Z := 0x100000.
Definition VRING_STRIDE : Z := 0x40000.
Definition DESC_TABLE_OFFSET : Z := 0x0.
Definition USED_RING_OFFSET : Z := 0x10000.
Definition AVAIL_RING_OFFSET : Z := 0x20000.
Definition DATA_OFFSET : Z := 0x80000.

(** ** The messages of the handshake *)
Record Region := { guest_phys_addr : Z; memory_size : Z; userspace_addr : Z; mmap_offset : Z; mmap_handle : Z }.

Record VringConfigData := {
  queue_max_size : Z; queue_size : Z; flags : Z;
  desc_table_addr : Z; used_ring_addr : Z; avail_ring_addr : Z; log_addr : option Z;
}.

Inductive Call :=
  | SetHdrFlags
  | SetOwner
  | GetFeatures
  | SetFeatures (f : Z)
  | GetProtocolFeatures
  | SetProtocolFeatures (f : Z)
  | SetMemTable (regions : list Region)
  | SetVringNum (i : nat) (n : Z)
  | SetVringAddr (i : nat) (cfg : VringConfigData)
  | SetVringKick (i : nat) (fd : Z)
  | SetVringCall (i : nat) (fd : Z)
  | SetVringEnable (i : nat) (enable : bool).

(** What the kernel answers: the memfd and its length, the mapping with the
    host address of the region, and each new eventfd. *)
Record Kernel := {
  memfd : result string Z;
  set_len : result string unit;
  map_region : result string Z;
  kick_fds : result string Z * result string Z;
  call_fds : result string Z * result string Z;
}.

Record FakeFrontend := {
  mem : Z;                 (* host address of the region *)
  kick : Z * Z;
  call : Z * Z;
  features : Z;
  protocol_features : Z;
}.

Section Connect.
(** The state of the other side and its answer to a call. *)
Context {B : Type} (answer : Call -> B -> result string (Z * B)).

(** The state of a handshake: the calls made, and the other side. *)
Definition fe_cmd (A : Type) : Type := cmd (list Call * B) string A.

Definition send (c : Call) : fe_cmd Z := fun '(log, b) =>
  match answer c b with
  | Ok (v, b') => Returns (log ++ [c], b') (Ok v)
  | Err e => Returns (log ++ [c], b) (Err e)
  end.

(** The header flags are set on this side only. *)
Definition set_hdr_flags : fe_cmd unit := modify (fun '(log, b) => (log ++ [SetHdrFlags], b)).

(** [create_memfd_region], then the mapping. *)
Definition build_guest_memory (k : Kernel) : result string (Z * Z) :=
  fd ← memfd k;
  _ ← set_len k;
  addr ← map_region k;
  Ok (fd, addr).

Definition vring_config (addr : Z) (i : nat) : VringConfigData :=
  let area := wrap_u64 (addr + Z.of_nat i * VRING_STRIDE) in
  {| queue_max_size := QUEUE_SIZE; queue_size := QUEUE_SIZE; flags := 0;
     desc_table_addr := wrap_u64 (area + DESC_TABLE_OFFSET);
     used_ring_addr := wrap_u64 (area + USED_RING_OFFSET);
     avail_ring_addr := wrap_u64 (area + AVAIL_RING_OFFSET);
     log_addr := None |}.

(** The body of the loop over the vrings. *)
Definition setup_vring (addr : Z) (i : nat) (kick_fd call_fd : Z) : fe_cmd unit :=
  _ ← send (SetVringNum i QUEUE_SIZE);
  _ ← send (SetVringAddr i (vring_config addr i));
  _ ← send (SetVringKick i kick_fd);
  _ ← send (SetVringCall i call_fd);
  _ ← send (SetVringEnable i true);
  mret tt.

Definition the_region (fd addr : Z) : Region :=
  {| guest_phys_addr := GUEST_BASE; memory_size := REGION_SIZE; userspace_addr := addr;
     mmap_offset := 0; mmap_handle := fd |}.

Definition connect (k : Kernel) : fe_cmd FakeFrontend :=
  _ ← set_hdr_flags;
  _ ← send SetOwner;
  backend_features ← send GetFeatures;
  let features := Z.lor backend_features VIRTIO_F_VERSION_1 in
  _ ← send (SetFeatures features);
  advertised ← send GetProtocolFeatures;
  _ ← send (SetProtocolFeatures advertised);
  '(fd, addr) ← lift (build_guest_memory k);
  _ ← send (SetMemTable [the_region fd addr]);
  k0 ← lift (kick_fds k).1;
  k1 ← lift (kick_fds k).2;
  c0 ← lift (call_fds k).1;
  c1 ← lift (call_fds k).2;
  _ ← setup_vring addr 0 k0 c0;
  _ ← setup_vring addr 1 k1 c1;
  mret {| mem := addr; kick := (k0, k1); call := (c0, c1);
          features := features; protocol_features := advertised |}.

(** ** The order of the calls *)
Definition vring_calls (addr : Z) (i : nat) (kick_fd call_fd : Z) : list Call :=
  [SetVringNum i QUEUE_SIZE; SetVringAddr i (vring_config addr i); SetVringKick i kick_fd;
   SetVringCall i call_fd; SetVringEnable i true].

Definition handshake (f p fd addr k0 k1 c0 c1 : Z) : list Call :=
  [SetHdrFlags; SetOwner; GetFeatures; SetFeatures f; GetProtocolFeatures; SetProtocolFeatures p;
   SetMemTable [the_region fd addr]] ++ vring_calls addr 0 k0 c0 ++ vring_calls addr 1 k1 c1.

Lemma wp_send c log b (Q : Z -> list Call * B -> Prop) R :
  (forall v b', answer c b = Ok (v, b') -> Q v (log ++ [c], b')) ->
  (forall e, R e (log ++ [c], b)) -> wp (send c) (log, b) Q R.
Proof. unfold wp, send. destruct (answer c b) as [[v b']|e]; auto. Qed.

Lemma wp_setup_vring addr i kf cf log b (Q : unit -> list Call * B -> Prop) (R : string -> list Call * B -> Prop) :
  (forall b', Q tt (log ++ vring_calls addr i kf cf, b')) ->
  (forall e l b', l `prefix_of` vring_calls addr i kf cf -> R e (log ++ l, b')) ->
  wp (setup_vring addr i kf cf) (log, b) Q R.
Proof.
  intros HQ HR. unfold setup_vring.
  repeat (apply wp_bind, wp_send; [intros ? ? _|intros ?; rewrite <- ?app_assoc; apply HR; eexists; reflexivity]).
  apply wp_ret. rewrite <- !app_assoc. apply HQ.
Qed.

(** Whatever the backend answers, the calls are the handshake in order, cut
    at the first call or resource that fails; the frontend reports success
    exactly at its end, and acks the bits it was offered and VERSION_1. *)
Theorem connect_handshake (k : Kernel) (b : B) :
  wp (connect k) ([], b)
    (fun fe '(log, _) => exists fd f, features fe = Z.lor f VIRTIO_F_VERSION_1 /\
      build_guest_memory k = Ok (fd, mem fe) /\
      log = handshake (features fe) (protocol_features fe) fd (mem fe) (kick fe).1 (kick fe).2 (call fe).1 (call fe).2)
    (fun _ '(log, _) => exists f p fd addr k0 k1 c0 c1, log `prefix_of` handshake f p fd addr k0 k1 c0 c1).
Proof.
  assert (Hcut : forall l f p fd addr k0 k1 c0 c1, l `prefix_of` handshake f p fd addr k0 k1 c0 c1 ->
    exists f p fd addr k0 k1 c0 c1, l `prefix_of` handshake f p fd addr k0 k1 c0 c1) by (intros; do 8 eexists; eassumption).
  unfold connect. apply wp_bind, wp_modify. simpl. cbv zeta.
  apply wp_bind, wp_send; [intros ? ? _|intros ?; by eapply (Hcut _ 0 0 0 0 0 0 0 0); eexists].
  apply wp_bind, wp_send; [intros f ? _|intros ?; by eapply (Hcut _ 0 0 0 0 0 0 0 0); eexists].
  apply wp_bind, wp_send; [intros ? ? _|intros ?; by eapply (Hcut _ _ 0 0 0 0 0 0 0); eexists].
  apply wp_bind, wp_send; [intros p ? _|intros ?; by eapply (Hcut _ _ 0 0 0 0 0 0 0); eexists].
  apply wp_bind, wp_send; [intros ? ? _|intros ?; by eapply (Hcut _ _ _ 0 0 0 0 0 0); eexists].
  apply wp_bind, wp_lift; [intros [fd addr] Hm|intros ? ?; by eapply (Hcut _ _ _ 0 0 0 0 0 0); eexists].
  apply wp_bind, wp_send; [intros ? ? _|intros ?; by eapply (Hcut _ _ _ _ _ 0 0 0 0); eexists].
  do 4 (apply wp_bind, wp_lift; [intros ? ?|intros ? ?; by eapply (Hcut _ _ _ _ _ 0 0 0 0); eexists]).
  apply wp_bind, wp_setup_vring; [intros ?|intros ? l ? [t Hl]; eapply (Hcut _ _ _ _ _ _ 0 _ 0); unfold handshake; rewrite Hl].
  2: { eexists. simpl. rewrite <- app_assoc. reflexivity. }
  apply wp_bind, wp_setup_vring; [intros ?|intros ? l ? [t Hl]; eapply Hcut; unfold handshake; rewrite Hl].
  2: { exists t. simpl. reflexivity. }
  apply wp_ret. exists fd, f. split_and!; [done..|]. reflexivity.
Qed.
End Connect.

(** Against a port the handshake acks exactly what the port offers. *)
Lemma acks_only_offered : Z.lor VhostPort.features VIRTIO_F_VERSION_1 = VhostPort.features.
Proof. reflexivity. Qed.

(** ** The layout of the vrings *)

(** The parts of a split virtqueue of [QUEUE_SIZE] entries, as an address and
    a length: 16 bytes per descriptor, 2 per available entry and 8 per used
    entry, behind 6 bytes of indices. *)
Definition vring_parts (addr : Z) (i : nat) : list (Z * Z) :=
  let cfg := vring_config addr i in
  [(desc_table_addr cfg, 16 * QUEUE_SIZE); (used_ring_addr cfg, 6 + 8 * QUEUE_SIZE); (avail_ring_addr cfg, 6 + 2 * QUEUE_SIZE)].

(** Neither vring overlaps the other, or one of its parts another; all of them
    lie in the shared region before the data. *)
Theorem vrings_disjoint (addr : Z) :
  0 <= addr -> addr + REGION_SIZE <= 2 ^ 64 ->
  let parts := vring_parts addr 0 ++ vring_parts addr 1 in
  Forall (fun '(a, n) => addr <= a /\ a + n <= addr + DATA_OFFSET) parts /\
  (forall i j a n b m, (i < j)%nat -> parts !! i = Some (a, n) -> parts !! j = Some (b, m) -> a + n <= b \/ b + m <= a).
Proof.
  intros H0 H1 parts. unfold REGION_SIZE in H1.
  assert (Hparts : parts = [(addr, 4096); (addr + 0x10000, 2054); (addr + 0x20000, 518);
    (addr + 0x40000, 4096); (addr + 0x50000, 2054); (addr + 0x60000, 518)]).
  { subst parts. unfold vring_parts, vring_config, wrap_u64, VRING_STRIDE, DESC_TABLE_OFFSET, USED_RING_OFFSET,
      AVAIL_RING_OFFSET, QUEUE_SIZE. simpl. rewrite !Z.mod_small by (rewrite ?Z.mod_small; lia).
    repeat (f_equal; try lia). }
  rewrite Hparts. unfold DATA_OFFSET. split; [by repeat (constructor; [lia|])|].
  intros i j a n b m Hij Hi Hj.
  destruct i as [|[|[|[|[|[|i]]]]]], j as [|[|[|[|[|[|j]]]]]]; try lia; simpl in Hi, Hj; simplify_eq; lia.
Qed.
