(* ===== verification/Session.v ===== *)
(** * The session thread of a port (crates/k8netd-vhost/src/port.rs)

    [VhostPort::new] binds the socket and starts a thread that serves one
    frontend after another until the port is dropped.  The thread is a state
    machine over its program points; what the vhost-user-backend package
    answers, and the moments at which it returns, are inputs. *)
From S2P Require Import Prelude.

(** The points of the loop at which the thread calls the package, waits, or
    reads the stop flag. *)
Inductive point :=
  | Top              (* [loop { if stop { break }] *)
  | Create           (* [VhostUserDaemon::new] *)
  | CreateFailed     (* stop flag, else 50 ms of sleep *)
  | Accept           (* [daemon.start(&mut listener)] *)
  | StartFailed      (* stop flag, else 50 ms of sleep *)
  | Started          (* notifier registered; stop flag *)
  | Ending           (* [shutdown], [wait], [break] *)
  | Serving          (* [daemon.wait()] *)
  | Closing          (* [shutdown]; stop flag, else [mem::forget(daemon)] *)
  | Exited.

#[export] Instance point_eq_dec : EqDecision point.
Proof. solve_decision. Defined.

Record Session := {
  stop : bool;               (* the shared flag *)
  at_point : point;
  backlog : list bool;       (* connections not accepted yet: still open? *)
  peer : bool;               (* the accepted frontend is connected *)
  served : nat;              (* sessions that ended *)
  forgotten : nat;           (* daemons given to [mem::forget] *)
}.

Definition goto (p : point) (s : Session) : Session :=
  {| stop := stop s; at_point := p; backlog := backlog s; peer := peer s; served := served s; forgotten := forgotten s |}.
Definition set_stop (s : Session) : Session :=
  {| stop := true; at_point := at_point s; backlog := backlog s; peer := peer s; served := served s; forgotten := forgotten s |}.
Definition set_peer (b : bool) (s : Session) : Session :=
  {| stop := stop s; at_point := at_point s; backlog := backlog s; peer := b; served := served s; forgotten := forgotten s |}.
Definition set_backlog (l : list bool) (s : Session) : Session :=
  {| stop := stop s; at_point := at_point s; backlog := l; peer := peer s; served := served s; forgotten := forgotten s |}.
Definition end_session (s : Session) : Session :=
  {| stop := stop s; at_point := at_point s; backlog := backlog s; peer := peer s; served := S (served s); forgotten := forgotten s |}.
Definition forget (s : Session) : Session :=
  {| stop := stop s; at_point := at_point s; backlog := backlog s; peer := peer s; served := served s; forgotten := S (forgotten s) |}.

(** The thread [VhostPort::new] starts. *)
Definition fresh : Session :=
  {| stop := false; at_point := Top; backlog := []; peer := false; served := 0; forgotten := 0 |}.

(** [VhostPort::new]: the parent directory is looked at before anything is
    made, then the notifier, then the listener, which replaces a stale socket
    file; the thread starts only when all three are there. *)
Definition new_session (parent : bool) (eventfd listener : result string unit) : result string Session :=
  if negb parent then Err "missing parent directory"%string
  else _ ← eventfd; _ ← listener; Ok fresh.

(** What a call answers. *)
Inductive answer := Good | Bad.

(** One step of the thread; [None] while it is blocked, or gone. A failed
    [start] may have taken a connection or not: [start_took] says which. *)
Definition worker (a : answer) (start_took : bool) (s : Session) : option Session :=
  match at_point s with
  | Top => Some (goto (if stop s then Exited else Create) s)
  | Create => Some (goto (match a with Good => Accept | Bad => CreateFailed end) s)
  | CreateFailed | StartFailed => Some (goto (if stop s then Exited else Top) s)
  | Accept =>
      match a, backlog s with
      | Good, [] => None
      | Good, open :: l => Some (goto Started (set_peer open (set_backlog l s)))
      | Bad, l => Some (goto StartFailed (set_backlog (if start_took then tail l else l) s))
      end
  | Started => Some (goto (if stop s then Ending else Serving) s)
  | Ending => Some (goto Exited s)
  | Serving => if peer s then None else Some (goto Closing (end_session s))
  | Closing => Some (if stop s then goto Exited s else goto Top (forget s))
  | Exited => None
  end.

(** A client connects; the listener queues it. *)
Definition connect (open : bool) (s : Session) : Session := set_backlog (backlog s ++ [open]) s.

(** [VhostPort::drop] on its own session: the flag, then a connection that is
    closed at once, which reaches the thread when the path is still bound. *)
Definition drop_port (bound : bool) (s : Session) : Session :=
  (if bound then connect false else id) (set_stop s).

(** Runs of [n] steps of the thread among the events outside it. *)
Inductive runs : nat -> Session -> Session -> Prop :=
  | runs_here s : runs 0 s s
  | runs_thread a took n s s1 s2 : worker a took s = Some s1 -> runs n s1 s2 -> runs (S n) s s2
  | runs_leave n s s2 : runs n (set_peer false s) s2 -> runs n s s2
  | runs_connect open n s s2 : runs n (connect open s) s2 -> runs n s s2
  | runs_drop bound n s s2 : runs n (drop_port bound s) s2 -> runs n s s2.

(** As above, with no new connection, no end of the session, and no call that
    fails: the thread alone. *)
Inductive alone : nat -> Session -> Session -> Prop :=
  | alone_here s : alone 0 s s
  | alone_step n s s1 s2 : worker Good false s = Some s1 -> alone n s1 s2 -> alone (S n) s s2.

(** ** Invariants *)

Record session_ok (s : Session) : Prop := {
  ok_exited : at_point s = Exited \/ at_point s = Ending -> stop s = true;
  ok_served : (forgotten s <= served s <= S (forgotten s))%nat;
  ok_level : at_point s <> Exited -> served s = (if decide (at_point s = Closing) then S (forgotten s) else forgotten s);
}.

Lemma fresh_ok : session_ok fresh.
Proof. split; simpl; [by intros []|lia|done]. Qed.

Lemma worker_ok a took s s' : session_ok s -> worker a took s = Some s' -> session_ok s'.
Proof.
  intros [He Hs Hl] Hw. destruct s as [st p bl pe sv fg]. unfold worker in Hw. simpl in *.
  destruct p, st; try destruct a; try destruct bl; try destruct pe; simplify_eq; simpl in *;
    (split; simpl; intros; try done; try specialize (Hl ltac:(done)); repeat case_decide; try done; try lia;
     naive_solver).
Qed.

Lemma worker_stop a took s s' : worker a took s = Some s' -> stop s' = stop s.
Proof.
  destruct s as [st p bl pe sv fg]. unfold worker. simpl. intros Hw.
  by destruct p, st; try destruct a; try destruct bl; try destruct pe; simplify_eq.
Qed.

Lemma runs_ok n s s' : runs n s s' -> session_ok s -> session_ok s'.
Proof.
  induction 1 as [|? ? ? ? ? ? Hw|? ? ? ? IH|o ? ? ? ? IH|b ? ? ? ? IH]; intros Hok;
    eauto using worker_ok; apply IH; destruct Hok as [He Hs Hl]; [by split..|].
  unfold drop_port. by destruct b; split; simpl.
Qed.

Lemma runs_trans n m s1 s2 s3 : runs n s1 s2 -> runs m s2 s3 -> runs (n + m) s1 s3.
Proof. induction 1; intros Hm; simpl; eauto using runs. Qed.

(** ** A thread that is told to stop *)

(** Steps the thread still takes once the flag is set. *)
Definition rank (s : Session) : nat :=
  match at_point s with
  | Exited => 0
  | Top | CreateFailed | StartFailed | Ending | Closing => 1
  | Started | Serving => 2
  | Accept => 3
  | Create => 4
  end.

(** The flag is set, and a connection waits where one is needed to see it. *)
Definition woken (s : Session) : Prop :=
  stop s = true /\ (at_point s = Create \/ at_point s = Accept -> backlog s <> []).

Lemma worker_rank a took s s' : stop s = true -> worker a took s = Some s' -> (S (rank s') <= rank s)%nat /\ stop s' = true.
Proof.
  destruct s as [st p bl pe sv fg]. unfold worker. simpl. intros -> Hw.
  destruct p; try destruct a; try destruct bl; try destruct pe; simplify_eq; unfold rank; simpl; lia || auto with lia.
Qed.

Lemma worker_woken a took s s' : woken s -> worker a took s = Some s' -> woken s'.
Proof.
  intros [Hs Hb] Hw. destruct (worker_rank _ _ _ _ Hs Hw) as [_ Hs']. split; [done|].
  destruct s as [st p bl pe sv fg]. unfold worker in Hw. simpl in *. subst st.
  destruct p; try destruct a; try destruct bl; try destruct pe; simplify_eq; simpl in *; naive_solver.
Qed.

(** Whatever happens outside, a woken thread stays woken and its steps are
    numbered. *)
Lemma runs_woken n s s' : runs n s s' -> woken s -> woken s' /\ (n + rank s' <= rank s)%nat.
Proof.
  induction 1 as [|a took n s s1 s2 Hw _ IH|n s s2 _ IH|o n s s2 _ IH|b n s s2 _ IH]; intros Hok.
  - by split; [|lia].
  - destruct (worker_rank a took s s1) as [Hr _]; [apply Hok|done|].
    destruct IH as [? ?]; [by eapply worker_woken|]. split; [done|lia].
  - apply IH. destruct Hok as [? Hb]. by split.
  - apply IH. destruct Hok as [? Hb]. split; [done|]. intros _. simpl. by destruct (backlog s).
  - replace (rank s) with (rank (drop_port b s)) by (by destruct b).
    apply IH. destruct Hok as [? Hb]. unfold drop_port. split; [by destruct b|].
    destruct b; simpl; [|done]. intros _. by destruct (backlog s).
Qed.

Lemma woken_blocked s :
  woken s -> worker Good false s = None -> at_point s = Exited \/ at_point s = Serving /\ peer s = true.
Proof.
  intros [Hs Hb]. destruct s as [st p bl pe sv fg]. unfold worker. simpl in *. subst st.
  destruct p, bl, pe; simpl; intros; try done; try (by left); try (by right); exfalso; by apply Hb; auto.
Qed.

(** C34: dropping a port whose path is still bound ends its thread. Wherever the
    thread is, and whatever fails or happens meanwhile, it takes at most four
    more steps, and it is never left waiting except for a frontend that is
    still connected. *)
Theorem drop_ends_session (n : nat) (s s' : Session) :
  runs n (drop_port true s) s' ->
  (n <= 4)%nat /\ (worker Good false s' = None -> at_point s' = Exited \/ at_point s' = Serving /\ peer s' = true).
Proof.
  intros Hr. assert (Hw : woken (drop_port true s)).
  { split; [done|]. intros _. simpl. by destruct (backlog s). }
  destruct (runs_woken _ _ _ Hr Hw) as [Hw' Hn]. split; [|by apply woken_blocked].
  assert (rank (drop_port true s) <= 4)%nat by (unfold rank; by destruct (at_point _); lia). lia.
Qed.

Lemma drop_unbound_blocks_run n s s' :
  at_point s = Accept -> backlog s = [] -> alone n (drop_port false s) s' ->
  n = 0%nat /\ stop s' = true /\ at_point s' = Accept /\ worker Good false s' = None.
Proof.
  intros Hp Hb Hr. assert (Hblocked : worker Good false (drop_port false s) = None).
  { unfold worker. simpl. by rewrite Hp, Hb. }
  inversion Hr as [|? ? s1 ? Hw]; subst; [by split_and!|]. by rewrite Hblocked in Hw.
Qed.

(** ** A thread that serves *)

Lemma alone_serving open l s :
  stop s = false -> backlog s = open :: l -> at_point s = Accept ->
  exists s', alone 2 s s' /\ at_point s' = Serving /\ peer s' = open /\ backlog s' = l.
Proof.
  intros Hs Hb Hp. eexists. split.
  - eapply alone_step; [unfold worker; by rewrite Hp, Hb|].
    eapply alone_step; [unfold worker; simpl; by rewrite Hs|]. apply alone_here.
  - done.
Qed.

Lemma alone_trans n m s1 s2 s3 : alone n s1 s2 -> alone m s2 s3 -> alone (n + m) s1 s3.
Proof. induction 1; [done|]. intros. simpl. eapply alone_step; eauto. Qed.

(** The way back to [accept]. *)
Lemma alone_to_accept s :
  stop s = false -> at_point s <> Exited -> at_point s <> Ending ->
  (at_point s = Started \/ at_point s = Serving -> peer s = false) ->
  exists k s', (k <= 5)%nat /\ alone k s s' /\ at_point s' = Accept /\ stop s' = false /\ backlog s' = backlog s.
Proof.
  destruct s as [st p bl pe sv fg]. simpl. intros -> He Hn Hpe.
  assert (Hstep : forall k s s1, worker Good false s = Some s1 -> stop s1 = false -> backlog s1 = backlog s ->
    (exists j s', (j <= k)%nat /\ alone j s1 s' /\ at_point s' = Accept /\ stop s' = false /\ backlog s' = backlog s1) ->
    exists j s', (j <= S k)%nat /\ alone j s s' /\ at_point s' = Accept /\ stop s' = false /\ backlog s' = backlog s).
  { intros k s s1 Hw _ Hb (j & s' & Hj & Ha & Hp & Hs & Hb'). exists (S j), s'. rewrite <- Hb.
    split_and!; [lia|by eapply alone_step|done..]. }
  destruct p; try done; try (rewrite Hpe by auto);
    do 6 (try (by eexists 0%nat, _; split_and!; [lia|apply alone_here|..]); try (eapply Hstep; [done|done|done|])).
Qed.

(** The port listens as long as it is not dropped: in every state the thread
    can get to before the stop flag is set, whatever failed so far, when a
    client is waiting and no frontend is connected, it gets to serve that
    client within seven steps. *)
Lemma listener_alive (n : nat) (s : Session) (open : bool) (l : list bool) :
  runs n fresh s -> stop s = false -> backlog s = open :: l ->
  (at_point s = Started \/ at_point s = Serving -> peer s = false) ->
  exists k s', (k <= 7)%nat /\ alone k s s' /\ at_point s' = Serving /\ peer s' = open /\ backlog s' = l.
Proof.
  intros Hr Hs Hb Hpe. destruct (runs_ok _ _ _ Hr fresh_ok) as [He _ _].
  destruct (alone_to_accept s Hs) as (k & s1 & Hk & Ha & Hp & Hs1 & Hb1);
    [intros Hx; rewrite He in Hs; auto; congruence|intros Hx; rewrite He in Hs; auto; congruence|done|].
  destruct (alone_serving open l s1 Hs1) as (s2 & Ha2 & Hx); [congruence|done|].
  exists (k + 2)%nat, s2. split_and!; [lia|by eapply alone_trans|apply Hx..].
Qed.

(** Every finished session but the last leaves its daemon behind. *)
Theorem sessions_are_forgotten (n : nat) (s : Session) :
  runs n fresh s -> at_point s = Accept \/ at_point s = Serving -> forgotten s = served s.
Proof.
  intros Hr Hp. destruct (runs_ok _ _ _ Hr fresh_ok) as [_ _ Hl].
  destruct Hp as [Hp|Hp]; rewrite Hp in Hl; specialize (Hl ltac:(done)); by case_decide.
Qed.
