(* ===== verification/Lifecycle.v ===== *)
(** * Ports over time (crates/k8netd/src/dataplane.rs, crates/k8netd-vhost/src/port.rs)

    Who holds a [VhostPort] and when it is dropped: the port table, the passt
    reader threads ([spawn_passt_reader]), the socket files and the session
    threads of [Session], across CreatePort and DeletePort.  A generation is
    one [VhostPort] instance; it is held by the port table and by its reader,
    and dropped with the last of them. Socket files are what paths name, so
    that two names may share one; the session thread owns the listener and
    drops it when it ends. *)
From S2P Require Import Prelude RustStd Session.

(** What the code around the ports does. [entry] is the file that the path
    [socket_dir/<name>.sock] names: two names without a slash name two files,
    while [./p] and [p] name one. [listener_unlinks] says whether the
    [Listener] of the vhost package removes its path when it is dropped. *)
Definition plain (name : string) : bool := no_char "/" name.

Class Host := {
  entry : string -> string;
  listener_unlinks : bool;
  entry_plain : forall n m, plain n = true -> plain m = true -> entry n = entry m -> n = m;
}.

(** The passt reader thread of one generation. *)
Inductive reader_at :=
  | Polling                    (* takes the mutex, looks for a live passt *)
  | Reading (stream : nat)     (* in [read_passt_frames] *)
  | Retiring                   (* left the loop, its captures not dropped yet *)
  | Gone.

#[export] Instance reader_at_eq_dec : EqDecision reader_at.
Proof. solve_decision. Defined.

Record Life := {
  table : gmap string nat;                   (* [Inner::ports]: name to generation *)
  sockets : gmap string nat;                 (* whose listener a socket file is *)
  streams : gmap string nat;                 (* the live passt stream of a slot *)
  readers : gmap nat (string * reader_at);
  sessions : gmap nat Session;
  next : nat;                                (* [next_port_id] *)
  next_stream : nat;
}.

Definition start : Life :=
  {| table := ∅; sockets := ∅; streams := ∅; readers := ∅; sessions := ∅; next := 1; next_stream := 0 |}.

Section Lifecycle.
Context `{Host}.

Definition set_reader (g : nat) (name : string) (r : reader_at) (l : Life) : Life :=
  {| table := table l; sockets := sockets l; streams := streams l; readers := <[g := (name, r)]> (readers l);
     sessions := sessions l; next := next l; next_stream := next_stream l |}.
Definition set_session (f : Session -> Session) (g : nat) (l : Life) : Life :=
  {| table := table l; sockets := sockets l; streams := streams l; readers := readers l;
     sessions := alter f g (sessions l); next := next l; next_stream := next_stream l |}.
Definition unlink (name : string) (l : Life) : Life :=
  {| table := table l; sockets := delete (entry name) (sockets l); streams := streams l; readers := readers l;
     sessions := sessions l; next := next l; next_stream := next_stream l |}.
Definition forget_port (name : string) (l : Life) : Life :=
  {| table := delete name (table l); sockets := sockets l; streams := streams l; readers := readers l;
     sessions := sessions l; next := next l; next_stream := next_stream l |}.
Definition stop_passt (name : string) (l : Life) : Life :=
  {| table := table l; sockets := sockets l; streams := delete name (streams l); readers := readers l;
     sessions := sessions l; next := next l; next_stream := next_stream l |}.

(** A passt process started for a port: a new stream in its slot. *)
Definition start_passt (name : string) (l : Life) : Life :=
  {| table := table l; sockets := sockets l; streams := <[name := next_stream l]> (streams l); readers := readers l;
     sessions := sessions l; next := next l; next_stream := S (next_stream l) |}.

(** [VhostPort::drop]: the flag of its own session, a connection to whatever
    listens at the path, and the path removed. *)
Definition vhost_drop (g : nat) (name : string) (l : Life) : Life :=
  let l := set_session set_stop g l in
  let l := match sockets l !! entry name with Some g' => set_session (connect false) g' l | None => l end in
  unlink name l.

(** [create_port] after its checks: the listener replaces whatever is at the
    path, the session and the reader start, the table gets the port. *)
Definition create (name : string) (l : Life) : Life :=
  match table l !! name with
  | Some _ => l
  | None =>
      {| table := <[name := next l]> (table l); sockets := <[entry name := next l]> (sockets l); streams := streams l;
         readers := <[next l := (name, Polling)]> (readers l); sessions := <[next l := fresh]> (sessions l);
         next := S (next l); next_stream := next_stream l |}
  end.

(** The reader has let go of its generation. *)
Definition is_gone (l : Life) (g : nat) : bool :=
  match readers l !! g with Some (_, Gone) | None => true | _ => false end.

(** The table's reference is dropped. *)
Definition release_port (g : nat) (name : string) (l : Life) : Life :=
  if is_gone l g then vhost_drop g name l else l.

(** [delete_port]: with the state saved, passt is stopped and the socket file
    removed before the port's record is dropped; when saving fails, neither. *)
Definition delete_port (saved : bool) (name : string) (l : Life) : Life :=
  match table l !! name with
  | None => l
  | Some g =>
      let l := forget_port name l in
      release_port g name (if saved then unlink name (stop_passt name l) else l)
  end.

(** One turn of a reader at the mutex. *)
Definition reader_poll (g : nat) (l : Life) : Life :=
  match readers l !! g with
  | Some (name, Polling) =>
      match streams l !! name with
      | Some st => set_reader g name (Reading st) l
      | None => match table l !! name with
                | Some _ => l
                | None => set_reader g name Retiring l
                end
      end
  | _ => l
  end.

(** [read_passt_frames] returns at the end of its stream. *)
Definition reader_eof (g : nat) (l : Life) : Life :=
  match readers l !! g with
  | Some (name, Reading _) => set_reader g name Polling l
  | _ => l
  end.

(** [read_passt_frames] panics. *)
Definition reader_panic (g : nat) (l : Life) : Life :=
  match readers l !! g with
  | Some (name, Reading _) => set_reader g name Retiring l
  | _ => l
  end.

(** The thread ends; its reference is dropped. *)
Definition reader_end (g : nat) (l : Life) : Life :=
  match readers l !! g with
  | Some (name, Retiring) =>
      let l := set_reader g name Gone l in
      if decide (table l !! name = Some g) then l else vhost_drop g name l
  | _ => l
  end.

(** One step of a session thread. A thread that ends drops its listener. *)
Definition session_step (g : nat) (s : Session) (l : Life) : Life :=
  let l := set_session (fun _ => s) g l in
  match readers l !! g with
  | Some (name, _) => if listener_unlinks && bool_decide (at_point s = Exited) then unlink name l else l
  | None => l
  end.

(** The thread of a dropped port that nobody can connect to any more. *)
Definition stranded (s : Session) : Prop := stop s = true /\ at_point s = Accept /\ backlog s = [].
Definition retired (s : Session) : Prop := at_point s = Exited \/ stranded s.

(** One event. [calm] asks that a name is created again only when the reader
    of its last port is gone. [apart] asks that names hold no slash and are
    created again only when the threads of their last ports have ended or are
    stranded, and that no accept fails that waits without a client. *)
Inductive life_step (calm apart : bool) : Life -> Life -> Prop :=
  | life_create name l :
      (calm = true -> forall g r, readers l !! g = Some (name, r) -> r = Gone) ->
      (apart = true -> plain name = true /\
         forall g r s, readers l !! g = Some (name, r) -> sessions l !! g = Some s -> retired s) ->
      life_step calm apart l (create name l)
  | life_delete saved name l : life_step calm apart l (delete_port saved name l)
  | life_start_passt name l : is_Some (table l !! name) -> life_step calm apart l (start_passt name l)
  | life_stop_passt name l : life_step calm apart l (stop_passt name l)
  | life_poll g l : life_step calm apart l (reader_poll g l)
  | life_eof g l : life_step calm apart l (reader_eof g l)
  | life_panic g l : life_step calm apart l (reader_panic g l)
  | life_end g l : life_step calm apart l (reader_end g l)
  | life_session a took g s s' l :
      sessions l !! g = Some s -> worker a took s = Some s' -> (apart = true -> stranded s -> a = Good) ->
      life_step calm apart l (session_step g s' l)
  | life_client g path l :
      sockets l !! path = Some g -> life_step calm apart l (set_session (connect true) g l)
  | life_leave g l : life_step calm apart l (set_session (set_peer false) g l).

Inductive lives (calm apart : bool) : Life -> Prop :=
  | lives_start : lives calm apart start
  | lives_step l l' : lives calm apart l -> life_step calm apart l l' -> lives calm apart l'.

(** ** Ports whose names are not reused too early *)

(** The thread of a port that was not dropped. *)
Definition serving (s : Session) : Prop := stop s = false /\ exists k, runs k fresh s.

Record life_ok (l : Life) : Prop := {
  lo_fresh : forall g, (next l <= g)%nat -> readers l !! g = None;
  lo_table : forall n g, table l !! n = Some g -> exists r, readers l !! g = Some (n, r);
  lo_reader : forall g n r, readers l !! g = Some (n, r) -> r <> Gone -> table l !! n = None \/ table l !! n = Some g;
  lo_unique : forall g g' n r r', readers l !! g = Some (n, r) -> readers l !! g' = Some (n, r') ->
    r <> Gone -> r' <> Gone -> g = g';
  lo_session : forall n g, table l !! n = Some g -> exists s, sessions l !! g = Some s /\ serving s;
}.

Lemma start_life : life_ok start.
Proof. by split. Qed.

(** The invariant does not look at streams, and at the sessions of ports only. *)
Lemma life_ok_same l l' :
  table l' = table l -> readers l' = readers l -> next l' = next l ->
  (forall n g s, table l !! n = Some g -> sessions l !! g = Some s -> serving s ->
     exists s', sessions l' !! g = Some s' /\ serving s') ->
  life_ok l -> life_ok l'.
Proof.
  intros Ht Hr Hn Hss [Hf Htb Hrd Hu Hse]. split; rewrite ?Ht, ?Hr, ?Hn; try done.
  intros n g Hg. destruct (Hse n g Hg) as (s & Hg' & Hok). by eapply Hss.
Qed.

(** A session that runs on. *)
Lemma set_session_ok f g l :
  (forall s, sessions l !! g = Some s -> serving s -> serving (f s)) -> life_ok l -> life_ok (set_session f g l).
Proof.
  intros Hf. apply life_ok_same; [done..|]. simpl. intros n g' s Hn Hs Hok.
  destruct (decide (g = g')) as [<-|Hne]; [|rewrite lookup_alter_ne by done; by eexists].
  rewrite lookup_alter_eq, Hs. eexists. split; [done|]. by apply Hf.
Qed.

Lemma serving_runs k s s' : runs k s s' -> stop s' = stop s -> serving s -> serving s'.
Proof. intros Hr Hs [Hst [j Hj]]. split; [congruence|]. exists (j + k)%nat. by eapply runs_trans. Qed.

Lemma set_reader_ok g n r r' l :
  readers l !! g = Some (n, r) -> r <> Gone -> life_ok l -> life_ok (set_reader g n r' l).
Proof.
  intros Hg Hr [Hf Htb Hrd Hu Hse]. split; simpl; [..|done].
  - intros g' Hg'. rewrite lookup_insert_ne; [by apply Hf|]. intros <-. by rewrite Hf in Hg.
  - intros m g' Hm. destruct (Htb m g' Hm) as [r1 Hr1].
    destruct (decide (g = g')) as [<-|Hne]; [|rewrite lookup_insert_ne by done; by exists r1].
    rewrite lookup_insert_eq. rewrite Hg in Hr1. injection Hr1 as <- <-. by eexists.
  - intros g' m r1 [[<- [= <- <-]]|[Hne Hg']]%lookup_insert_Some Hr1; [by eapply Hrd|by eapply Hrd].
  - intros g1 g2 m r1 r2 H1 H2 Hr1 Hr2.
    apply lookup_insert_Some in H1 as [[<- [= <- <-]]|[Hne1 H1]];
      apply lookup_insert_Some in H2 as [[<- H2]|[Hne2 H2]]; simplify_eq; eauto.
Qed.

Lemma unlink_ok n l : life_ok l -> life_ok (unlink n l).
Proof. intros [Hf Htb Hrd Hu Hse]. by split. Qed.

Lemma connect_serving open s : serving s -> serving (connect open s).
Proof. apply (serving_runs 0); [|done]. apply (runs_connect open), runs_here. Qed.

(** The port dropped is the one its reader was for, and not in the table. *)
Lemma vhost_drop_ok g n r l :
  readers l !! g = Some (n, r) -> table l !! n = None -> life_ok l -> life_ok (vhost_drop g n l).
Proof.
  intros Hg Hn Hok. unfold vhost_drop. apply unlink_ok.
  assert (Hstop : life_ok (set_session set_stop g l)).
  { eapply life_ok_same; [..|exact Hok]; try done. simpl. intros m g' s Hm Hs Hse.
    destruct (decide (g = g')) as [<-|Hne]; [|rewrite lookup_alter_ne by done; by eexists].
    exfalso. destruct (lo_table _ Hok m g Hm) as [r' Hr']. congruence. }
  case_match; [|done]. apply set_session_ok; [|done]. intros s _. apply connect_serving.
Qed.

Lemma forget_port_ok n l : life_ok l -> life_ok (forget_port n l).
Proof.
  intros [Hf Htb Hrd Hu Hse]. split; simpl; try done.
  - intros m g [Hne Hm]%lookup_delete_Some. by apply Htb.
  - intros g m r Hg Hr. destruct (decide (m = n)) as [->|Hne]; [left; apply lookup_delete_eq|].
    rewrite lookup_delete_ne by done. by eapply Hrd.
  - intros m g [Hne Hm]%lookup_delete_Some. by eapply Hse.
Qed.

Lemma delete_port_life saved n l : life_ok l -> life_ok (delete_port saved n l).
Proof.
  intros Hok. unfold delete_port. destruct (table l !! n) as [g|] eqn:Hg; [|done].
  destruct (lo_table _ Hok n g Hg) as [r Hr].
  assert (Hn : table (forget_port n l) !! n = None) by apply lookup_delete_eq.
  assert (Hok' : life_ok (if saved then unlink n (stop_passt n (forget_port n l)) else forget_port n l)).
  { destruct saved; [|by apply forget_port_ok]. apply unlink_ok.
    eapply life_ok_same; [..|by apply (forget_port_ok n l)]; try done. simpl. by eauto. }
  unfold release_port. destruct (is_gone _ _); [|done]. eapply (vhost_drop_ok _ _ r); [by destruct saved..|done].
Qed.

Lemma create_ok n l :
  (forall g r, readers l !! g = Some (n, r) -> r = Gone) -> life_ok l -> life_ok (create n l).
Proof.
  intros Hcalm [Hf Htb Hrd Hu Hse]. unfold create. destruct (table l !! n) as [?|] eqn:Hn; [by split|].
  assert (Hfree : readers l !! next l = None) by (apply Hf; lia).
  split; simpl.
  - intros g Hg. rewrite lookup_insert_ne by lia. apply Hf. lia.
  - intros m g [[<- <-]|[Hne Hm]]%lookup_insert_Some.
    + rewrite lookup_insert_eq. by eauto.
    + destruct (Htb m g Hm) as [r Hr]. rewrite lookup_insert_ne by (intros <-; congruence). by eauto.
  - intros g m r [[<- [= <- <-]]|[Hne Hg]]%lookup_insert_Some Hr.
    + rewrite lookup_insert_eq. by right.
    + rewrite lookup_insert_ne; [by eapply Hrd|]. intros <-. apply Hr. by eapply Hcalm.
  - intros g1 g2 m r1 r2 H1 H2 Hr1 Hr2.
    apply lookup_insert_Some in H1 as [[<- H1]|[Hne1 H1]];
      apply lookup_insert_Some in H2 as [[<- H2]|[Hne2 H2]]; simplify_eq; eauto;
      exfalso; eauto.
  - intros m g [[<- <-]|[Hne Hm]]%lookup_insert_Some.
    + rewrite lookup_insert_eq. eexists. split; [done|]. split; [done|]. exists 0%nat. apply runs_here.
    + destruct (Htb m g Hm) as [r Hr]. rewrite lookup_insert_ne by (intros <-; congruence). by eapply Hse.
Qed.

Lemma session_step_ok a took g s s' l :
  sessions l !! g = Some s -> worker a took s = Some s' -> life_ok l -> life_ok (session_step g s' l).
Proof.
  intros Hg Hw Hok. assert (Hset : life_ok (set_session (fun _ => s') g l)).
  { apply set_session_ok; [|done]. intros s0 Hs0 Hse. rewrite Hg in Hs0. injection Hs0 as <-.
    eapply (serving_runs 1); [eapply runs_thread; [exact Hw|apply runs_here]|by eapply worker_stop|done]. }
  unfold session_step. simpl. destruct (readers l !! g) as [[n r]|]; [|done].
  destruct (listener_unlinks && _); [by apply unlink_ok|done].
Qed.

Lemma life_step_ok apart l l' : life_step true apart l l' -> life_ok l -> life_ok l'.
Proof.
  intros Hs Hok. inversion Hs as [n l0 Hc _|saved n l0|n l0 Hn|n l0|g l0|g l0|g l0|g l0|a took g s s' l0 Hg Hw _|g n l0 Hn|g l0];
    subst; try (by eapply life_ok_same; [..|exact Hok]; try done; simpl; eauto).
  - apply create_ok; [by apply Hc|done].
  - by apply delete_port_life.
  - unfold reader_poll. destruct (readers l !! g) as [[n []]|] eqn:Hg; try done.
    repeat case_match; try done; by eapply set_reader_ok.
  - unfold reader_eof. destruct (readers l !! g) as [[n []]|] eqn:Hg; try done. by eapply set_reader_ok.
  - unfold reader_panic. destruct (readers l !! g) as [[n []]|] eqn:Hg; try done. by eapply set_reader_ok.
  - unfold reader_end. destruct (readers l !! g) as [[n []]|] eqn:Hg; try done.
    assert (Hok' : life_ok (set_reader g n Gone l)) by (by eapply set_reader_ok).
    case_decide as Ht; [done|]. apply (vhost_drop_ok _ _ Gone); [apply lookup_insert_eq| |done].
    destruct (lo_reader _ Hok g n Retiring Hg ltac:(done)) as [Hn|Hn]; [exact Hn|]. by exfalso; apply Ht.
  - by eapply session_step_ok.
  - apply set_session_ok; [|done]. intros s _. apply connect_serving.
  - apply set_session_ok; [|done]. intros s _. apply (serving_runs 0); [apply runs_leave, runs_here|done].
Qed.

Lemma lives_ok apart l : lives true apart l -> life_ok l.
Proof. induction 1; [apply start_life|by eapply life_step_ok]. Qed.

(** ** Ports whose names and files are kept apart *)

(** The port name a generation was made for. *)
Definition name_of (l : Life) (g : nat) : option string := fst <$> readers l !! g.

Record paths_ok (l : Life) : Prop := {
  po_plain : forall g n, name_of l g = Some n -> plain n = true;
  po_table : forall n g, table l !! n = Some g -> sockets l !! entry n = Some g;
  po_named : forall e g, sockets l !! e = Some g -> exists n, name_of l g = Some n /\ entry n = e;
  po_old : forall n g g' s, table l !! n = Some g -> name_of l g' = Some n -> g' <> g ->
    sessions l !! g' = Some s -> retired s;
}.

Lemma start_paths : paths_ok start.
Proof. by split. Qed.

Lemma name_of_reader l g n r : readers l !! g = Some (n, r) -> name_of l g = Some n.
Proof. unfold name_of. by intros ->. Qed.

Lemma table_named l n g : life_ok l -> table l !! n = Some g -> name_of l g = Some n.
Proof. intros Hok Hn. destruct (lo_table _ Hok n g Hn) as [r Hr]. by eapply name_of_reader. Qed.

Lemma paths_same l l' :
  table l' = table l -> sockets l' = sockets l -> (forall g, name_of l' g = name_of l g) ->
  (forall n g g' s', table l !! n = Some g -> name_of l g' = Some n -> g' <> g -> sessions l' !! g' = Some s' ->
     (forall s, sessions l !! g' = Some s -> retired s) -> retired s') ->
  paths_ok l -> paths_ok l'.
Proof.
  intros Ht Hs Hn Hss [Hp Htb Hnm Hold]. split; rewrite ?Ht, ?Hs; try done.
  - intros g n. rewrite Hn. by apply Hp.
  - intros e g He. destruct (Hnm e g He) as (n & Hg & He'). exists n. by rewrite Hn.
  - intros n g g' s' Hg Hg' Hne Hs'. rewrite Hn in Hg'. eapply Hss; [done..|]. intros s. by eapply Hold.
Qed.

Lemma set_reader_paths g n r r' l : readers l !! g = Some (n, r) -> paths_ok l -> paths_ok (set_reader g n r' l).
Proof.
  intros Hg. apply paths_same; try done; simpl; [|by eauto]. intros g'. unfold name_of. simpl.
  destruct (decide (g = g')) as [<-|Hne]; [by rewrite lookup_insert_eq, Hg|by rewrite lookup_insert_ne].
Qed.

(** Changes of a session that is not retired, or that stays retired. *)
Lemma set_session_paths f g l :
  (forall n g', table l !! n = Some g' -> name_of l g = Some n -> g <> g' ->
     forall s, sessions l !! g = Some s -> retired s -> retired (f s)) ->
  paths_ok l -> paths_ok (set_session f g l).
Proof.
  intros Hf. apply paths_same; try done. simpl. intros n g1 g2 s' H1 H2 Hne Hs' Hold.
  destruct (decide (g = g2)) as [<-|Hn]; [|rewrite lookup_alter_ne in Hs' by done; by apply Hold].
  rewrite lookup_alter_eq in Hs'. destruct (sessions l !! g) as [s|] eqn:Hs; [|done]. injection Hs' as <-. eauto.
Qed.

(** Nobody reaches an old port's thread by a socket file. *)
Lemma connect_paths open e g l : sockets l !! e = Some g -> paths_ok l -> paths_ok (set_session (connect open) g l).
Proof.
  intros He Hok. apply set_session_paths; [|done]. intros n g' Hn Hg Hne. exfalso.
  destruct (po_named _ Hok e g He) as (n' & Hg' & <-). assert (n' = n) as -> by congruence.
  pose proof (po_table _ Hok n g' Hn). congruence.
Qed.

Lemma stop_retired s : retired s -> retired (set_stop s).
Proof. intros [?|(? & ? & ?)]; [by left|by right]. Qed.

Lemma leave_retired s : retired s -> retired (set_peer false s).
Proof. intros [?|(? & ? & ?)]; [by left|by right]. Qed.

Lemma unlink_paths n l : life_ok l -> plain n = true -> table l !! n = None -> paths_ok l -> paths_ok (unlink n l).
Proof.
  intros Hl Hpl Hn [Hp Htb Hnm Hold]. split; simpl; try done.
  - intros m g Hm. rewrite lookup_delete_ne; [by apply Htb|]. intros He.
    assert (n = m) as ->; [|congruence]. apply entry_plain; [done| |done]. by eapply Hp, table_named.
  - intros e g [_ He]%lookup_delete_Some. by apply Hnm.
Qed.

Lemma forget_paths n l : paths_ok l -> paths_ok (forget_port n l).
Proof.
  intros [Hp Htb Hnm Hold]. split; simpl; try done.
  - intros m g [_ Hm]%lookup_delete_Some. by apply Htb.
  - intros m g g' s [_ Hm]%lookup_delete_Some. by apply Hold.
Qed.

Lemma vhost_drop_paths g n l :
  life_ok l -> name_of l g = Some n -> table l !! n = None -> paths_ok l -> paths_ok (vhost_drop g n l).
Proof.
  intros Hl Hg Hn Hok. assert (Hpl : plain n = true) by (by eapply po_plain).
  assert (Hstop : paths_ok (set_session set_stop g l)).
  { apply set_session_paths; [|done]. intros. by apply stop_retired. }
  assert (Hls : forall f g' l', life_ok l' -> (forall s, serving s -> g' <> g -> serving (f s)) ->
    table l' = table l -> readers l' = readers l -> life_ok (set_session f g' l')).
  { intros f g' l' Hl' Hf Ht Hr. eapply life_ok_same; [..|exact Hl']; try done. simpl. intros m g2 s Hm Hs Hse.
    destruct (decide (g' = g2)) as [<-|Hne]; [|rewrite lookup_alter_ne by done; by eexists].
    rewrite lookup_alter_eq, Hs. eexists. split; [done|]. apply Hf; [done|]. intros ->. rewrite Ht in Hm.
    pose proof (table_named l m g Hl Hm). congruence. }
  assert (Hl1 : life_ok (set_session set_stop g l)).
  { eapply life_ok_same; [..|exact Hl]; try done. simpl. intros m g2 s Hm Hs Hse.
    destruct (decide (g = g2)) as [<-|Hne]; [|rewrite lookup_alter_ne by done; by eexists].
    pose proof (table_named l m g Hl Hm). congruence. }
  unfold vhost_drop. simpl. destruct (sockets l !! entry n) as [g'|] eqn:He.
  - apply unlink_paths; [|done|done|].
    + apply set_session_ok; [|exact Hl1]. intros s _. apply connect_serving.
    + by apply (connect_paths false (entry n)).
  - by apply unlink_paths.
Qed.

Lemma delete_port_paths saved n l : life_ok l -> paths_ok l -> paths_ok (delete_port saved n l).
Proof.
  intros Hl Hok. unfold delete_port. destruct (table l !! n) as [g|] eqn:Hg; [|done].
  pose proof (table_named l n g Hl Hg) as Hn. pose proof (po_plain _ Hok g n Hn) as Hpl.
  pose proof (forget_port_ok n l Hl) as Hl1. pose proof (forget_paths n l Hok) as Hok1.
  assert (Hgone : table (forget_port n l) !! n = None) by apply lookup_delete_eq.
  assert (Hl2 : life_ok (if saved then unlink n (stop_passt n (forget_port n l)) else forget_port n l)).
  { destruct saved; [|done]. apply unlink_ok. eapply life_ok_same; [..|exact Hl1]; try done. simpl. by eauto. }
  assert (Hok2 : paths_ok (if saved then unlink n (stop_passt n (forget_port n l)) else forget_port n l)).
  { destruct saved; [|done]. apply unlink_paths; [|done|done|].
    - eapply life_ok_same; [..|exact Hl1]; try done. simpl. by eauto.
    - eapply paths_same; [..|exact Hok1]; try done. simpl. by eauto. }
  unfold release_port. destruct (is_gone _ _); [|done]. apply vhost_drop_paths; [done|by destruct saved..|done].
Qed.

Lemma create_paths n l :
  plain n = true -> (forall g r s, readers l !! g = Some (n, r) -> sessions l !! g = Some s -> retired s) ->
  life_ok l -> paths_ok l -> paths_ok (create n l).
Proof.
  intros Hpl Hret Hl [Hp Htb Hnm Hold]. unfold create. destruct (table l !! n) as [?|] eqn:Hn; [by split|].
  assert (Hfree : name_of l (next l) = None) by (unfold name_of; by rewrite (lo_fresh _ Hl)).
  assert (Hname : forall g m, name_of {| table := <[n:=next l]> (table l); sockets := <[entry n:=next l]> (sockets l);
      streams := streams l; readers := <[next l:=(n, Polling)]> (readers l); sessions := <[next l:=fresh]> (sessions l);
      next := S (next l); next_stream := next_stream l |} g = Some m <->
      g = next l /\ m = n \/ g <> next l /\ name_of l g = Some m).
  { intros g m. unfold name_of. simpl. destruct (decide (next l = g)) as [<-|Hne];
      [rewrite lookup_insert_eq; simpl; naive_solver|rewrite lookup_insert_ne by done; naive_solver]. }
  split.
  - intros g m [[-> ->]|[_ Hg]]%Hname; [done|by eapply Hp].
  - simpl. intros m g [[<- <-]|[Hne Hm]]%lookup_insert_Some; [apply lookup_insert_eq|].
    rewrite lookup_insert_ne; [by apply Htb|]. intros He. apply Hne, entry_plain; [done| |done]. by eapply Hp, table_named.
  - simpl. intros e g [[<- <-]|[_ He]]%lookup_insert_Some; [exists n; split; [apply Hname; auto|done]|].
    destruct (Hnm e g He) as (m & Hg & He'). exists m. split; [|done]. apply Hname. right. split; [|done]. congruence.
  - intros m g g' s Hm Hg' Hne Hs. simpl in Hm, Hs. apply Hname in Hg' as [[-> ->]|[Hg' Hg'n]].
    { rewrite lookup_insert_eq in Hm. by injection Hm. }
    rewrite lookup_insert_ne in Hs by done. apply lookup_insert_Some in Hm as [[<- <-]|[Hnm' Hm]]; [|by eapply Hold].
    unfold name_of in Hg'n. destruct (readers l !! g') as [[n' r]|] eqn:Hr; [|done]. injection Hg'n as ->. by eapply Hret.
Qed.

(** A retired thread does not move. *)
Lemma retired_still a took s s' : retired s -> worker a took s = Some s' -> (stranded s -> a = Good) -> False.
Proof.
  intros [He|Hst] Hw Ha; unfold worker in Hw; [by rewrite He in Hw|].
  pose proof (Ha Hst) as ->. destruct Hst as (_ & Hp & Hb). by rewrite Hp, Hb in Hw.
Qed.

Lemma serving_not_exited a took s s' : serving s -> worker a took s = Some s' -> at_point s' <> Exited.
Proof.
  intros [Hst [k Hr]] Hw He.
  pose proof (runs_trans _ _ _ _ _ Hr (runs_thread a took 0 s s' s' Hw (runs_here s'))) as Hr'.
  destruct (runs_ok _ _ _ Hr' fresh_ok) as [Hex _ _]. specialize (Hex (or_introl He)).
  rewrite (worker_stop _ _ _ _ Hw) in Hex. congruence.
Qed.

Lemma session_step_paths a took g s s' l :
  sessions l !! g = Some s -> worker a took s = Some s' -> (stranded s -> a = Good) ->
  life_ok l -> paths_ok l -> paths_ok (session_step g s' l).
Proof.
  intros Hg Hw Ha Hl Hok.
  assert (Hset : paths_ok (set_session (fun _ => s') g l)).
  { apply set_session_paths; [|done]. intros n g' _ _ _ s0 Hs0 Hr. rewrite Hg in Hs0. injection Hs0 as <-.
    exfalso. by eapply retired_still. }
  unfold session_step. simpl. destruct (readers l !! g) as [[n r]|] eqn:Hn; [|done]. apply name_of_reader in Hn.
  destruct (listener_unlinks && _) eqn:Hb; [|done]. apply andb_true_iff in Hb as [_ He%bool_decide_eq_true].
  apply unlink_paths; [| by eapply po_plain | |done].
  - apply set_session_ok; [|done]. intros s0 Hs0 Hse. rewrite Hg in Hs0. injection Hs0 as <-.
    exfalso. by eapply serving_not_exited.
  - simpl. destruct (table l !! n) as [g'|] eqn:Ht; [exfalso|done]. destruct (decide (g = g')) as [<-|Hne].
    + destruct (lo_session _ Hl n g Ht) as (s0 & Hs0 & Hse). rewrite Hg in Hs0. injection Hs0 as <-.
      by eapply serving_not_exited.
    + eapply retired_still; [|exact Hw|exact Ha]. by eapply (po_old _ Hok n g' g).
Qed.

Lemma life_step_paths l l' : life_step true true l l' -> life_ok l -> paths_ok l -> paths_ok l'.
Proof.
  intros Hs Hl Hok. inversion Hs as [n l0 Hc Hp|saved n l0|n l0 Hn|n l0|g l0|g l0|g l0|g l0|a took g s s' l0 Hg Hw Ha|g e l0 He|g l0];
    subst; try (by eapply paths_same; [..|exact Hok]; try done; simpl; eauto).
  - destruct (Hp eq_refl). by apply create_paths.
  - by apply delete_port_paths.
  - unfold reader_poll. destruct (readers l !! g) as [[n []]|] eqn:Hg; try done.
    repeat case_match; try done; by eapply set_reader_paths.
  - unfold reader_eof. destruct (readers l !! g) as [[n []]|] eqn:Hg; try done. by eapply set_reader_paths.
  - unfold reader_panic. destruct (readers l !! g) as [[n []]|] eqn:Hg; try done. by eapply set_reader_paths.
  - unfold reader_end. destruct (readers l !! g) as [[n []]|] eqn:Hg; try done.
    assert (Hl' : life_ok (set_reader g n Gone l)) by (by eapply set_reader_ok).
    case_decide as Ht; [by eapply set_reader_paths|]. apply vhost_drop_paths; [done| | |by eapply set_reader_paths].
    + eapply name_of_reader. apply lookup_insert_eq.
    + destruct (lo_reader _ Hl g n Retiring Hg ltac:(done)) as [Hn|Hn]; [exact Hn|]. by exfalso; apply Ht.
  - eapply session_step_paths; [done|done|by apply Ha|done|done].
  - by eapply connect_paths.
  - apply set_session_paths; [|done]. intros. by apply leave_retired.
Qed.

Lemma lives_paths l : lives true true l -> paths_ok l.
Proof. induction 1 as [|l l' Hl IH Hs]; [apply start_paths|]. eapply life_step_paths; [done|by eapply lives_ok|done]. Qed.

(** C18: ports, sockets and readers stay together. As long as port names hold
    no slash, and a name is created again only when its last port is gone (its
    reader has ended, its session thread has ended or is stranded), whatever
    is created, deleted, saved or not, started, read, cut off or panics, in
    any order, and whether or not a listener removes its path when dropped:
    the socket file of every port is its own listener, the port has a reader
    that started with it, and no other reader that still runs has its name. *)
Theorem ports_keep_their_sockets (l : Life) (n : string) (g : nat) :
  lives true true l -> table l !! n = Some g ->
  sockets l !! entry n = Some g /\ (exists r, readers l !! g = Some (n, r)) /\
  (forall g' r, readers l !! g' = Some (n, r) -> r <> Gone -> g' = g).
Proof.
  intros Hl Hn. pose proof (lives_paths l Hl) as Hp. apply lives_ok in Hl as [Hf Htb Hrd Hu _].
  split_and!; [by apply (po_table _ Hp)|by apply Htb|]. intros g' r Hg' Hne. destruct (Hrd g' n r Hg' Hne) as [Hx|Hx]; congruence.
Qed.

(** C19: a port stays reachable. As long as a name is created again only when
    the reader of its last port is gone, whatever failed before, a client that
    connected to a live port is served within seven steps of the port's thread
    once no other frontend is connected. When names and files are kept apart
    as well, clients also find it by its path. *)
Theorem live_port_serves (apart : bool) (l : Life) (n : string) (g : nat) :
  lives true apart l -> table l !! n = Some g ->
  (apart = true -> sockets l !! entry n = Some g) /\ exists s, sessions l !! g = Some s /\
    forall open tl, backlog s = open :: tl -> (at_point s = Started \/ at_point s = Serving -> peer s = false) ->
      exists k s', (k <= 7)%nat /\ alone k s s' /\ at_point s' = Serving /\ peer s' = open /\ backlog s' = tl.
Proof.
  intros Hl Hn. split; [intros ->; by apply (po_table _ (lives_paths l Hl))|].
  apply lives_ok in Hl as [_ Htb _ _ Hse].
  destruct (Hse n g Hn) as (s & Hs & Hst & k & Hr). exists s. split; [done|].
  intros open tl Hb Hp. by eapply listener_alive.
Qed.

(** ** Ports whose names are reused *)

(** A port whose reader still runs is deleted without dropping it. *)
Lemma delete_port_live saved n l g r :
  table l !! n = Some g -> readers l !! g = Some (n, r) -> r <> Gone ->
  delete_port saved n l = (if saved then unlink n (stop_passt n (forget_port n l)) else forget_port n l).
Proof.
  intros Hn Hg Hr. unfold delete_port. rewrite Hn. unfold release_port, is_gone.
  destruct saved; simpl; rewrite Hg; by destruct r.
Qed.

Lemma reader_poll_adopts g n st l :
  readers l !! g = Some (n, Polling) -> streams l !! n = Some st -> reader_poll g l = set_reader g n (Reading st) l.
Proof. intros Hg Hn. unfold reader_poll. by rewrite Hg, Hn. Qed.

(** A port deleted and created again before its old reader looks: the old
    reader takes itself for the new port's, and once passt runs, two threads
    read one stream. *)
Theorem recreated_port_has_two_readers (l : Life) (n : string) (g : nat) :
  table l !! n = Some g -> readers l !! g = Some (n, Polling) -> (g < next l)%nat ->
  let l' := reader_poll g (reader_poll (next l) (start_passt n (create n (delete_port true n l)))) in
  table l' !! n = Some (next l) /\
  readers l' !! g = Some (n, Reading (next_stream l)) /\ readers l' !! (next l) = Some (n, Reading (next_stream l)).
Proof.
  intros Hn Hg Hlt. pose proof (delete_port_live true n l g Polling Hn Hg ltac:(done)) as Hd.
  rewrite Hd. unfold create. simpl. rewrite lookup_delete_eq.
  erewrite (reader_poll_adopts (next l) n (next_stream l)); simpl; [|by rewrite lookup_insert_eq..].
  erewrite (reader_poll_adopts g n (next_stream l)); simpl; [| |by rewrite lookup_insert_eq].
  - rewrite !lookup_insert_eq, lookup_insert_ne, lookup_insert_eq by lia. done.
  - by rewrite !lookup_insert_ne by lia.
Qed.

(** A port created again while its old reader is on its way out: the old
    [VhostPort] is dropped last, and takes the new port's socket file with
    it. No frontend can reach the new port any more. *)
Theorem recreated_port_loses_socket (l : Life) (n : string) (g : nat) :
  table l !! n = None -> readers l !! g = Some (n, Retiring) -> (g < next l)%nat ->
  let l' := reader_end g (create n l) in
  table l' !! n = Some (next l) /\ sockets l' !! entry n = None.
Proof.
  intros Hn Hg Hlt. cbv zeta. unfold create. rewrite Hn. unfold reader_end. simpl. rewrite lookup_insert_ne by lia.
  rewrite Hg. rewrite lookup_insert_eq. rewrite decide_False by (intros [= ?]; lia).
  unfold vhost_drop. simpl. rewrite lookup_insert_eq. simpl. by rewrite lookup_insert_eq, lookup_delete_eq.
Qed.

(** The same by the old port's session thread: it serves a frontend while its
    port is deleted and created again, and when the frontend leaves, the thread
    ends and its listener, if it removes its path, removes the new one's. *)
Theorem recreated_port_loses_socket_to_thread (l : Life) (n : string) (g : nat) (r : reader_at) (s : Session) :
  listener_unlinks = true -> table l !! n = None -> readers l !! g = Some (n, r) -> (g < next l)%nat ->
  sessions l !! g = Some s -> at_point s = Closing -> stop s = true ->
  worker Good false s = Some (goto Exited s) /\
  let l' := session_step g (goto Exited s) (create n l) in
  table l' !! n = Some (next l) /\ sockets l' !! entry n = None.
Proof.
  intros Hu Hn Hg Hlt Hs Hp Hst. split; [unfold worker; by rewrite Hp, Hst|]. cbv zeta. unfold create. rewrite Hn.
  unfold session_step. simpl. rewrite lookup_insert_ne, Hg, Hu by lia. simpl.
  by rewrite lookup_insert_eq, lookup_delete_eq.
Qed.

(** Two names of one file: the port created last takes the socket file of the
    first, which stays in the table and can no longer be reached. Names are
    not checked, so [./p] does this to [p]. *)
Theorem aliased_port_takes_socket (l : Life) (n m : string) (g : nat) :
  table l !! n = Some g -> table l !! m = None -> entry m = entry n ->
  let l' := create m l in
  table l' !! n = Some g /\ table l' !! m = Some (next l) /\ sockets l' !! entry n = Some (next l).
Proof.
  intros Hn Hm He. cbv zeta. unfold create. rewrite Hm, He. simpl.
  assert (m <> n) by (intros ->; congruence).
  by rewrite !lookup_insert_eq, lookup_insert_ne.
Qed.

(** C40: a port deleted while its thread waits for a frontend: its reader retires
    at its next look and drops the [VhostPort], but the socket file went with
    the port, so nothing wakes the thread: it is told to stop and blocks in
    [accept] for ever. *)
Theorem deleted_port_leaks_thread (l : Life) (n : string) (g : nat) (s : Session) :
  table l !! n = Some g -> readers l !! g = Some (n, Polling) ->
  sessions l !! g = Some s -> at_point s = Accept -> backlog s = [] ->
  let l' := reader_end g (reader_poll g (delete_port true n l)) in
  readers l' !! g = Some (n, Gone) /\
  exists s', sessions l' !! g = Some s' /\ stop s' = true /\
    forall k s2, alone k s' s2 -> k = 0%nat /\ at_point s2 = Accept.
Proof.
  intros Hn Hg Hs Hp Hb. rewrite (delete_port_live true n l g Polling Hn Hg) by done.
  unfold reader_poll. simpl. rewrite Hg, !lookup_delete_eq.
  unfold reader_end. simpl. rewrite lookup_insert_eq. rewrite lookup_delete_eq, decide_False by done.
  unfold vhost_drop. simpl. rewrite lookup_delete_eq. simpl. rewrite lookup_insert_eq, lookup_alter_eq, Hs.
  split; [done|]. exists (set_stop s). split_and!; [done|done|].
  intros k s2 Ha. destruct (drop_unbound_blocks_run k s s2 Hp Hb Ha) as (-> & _ & ? & _). done.
Qed.
End Lifecycle.
