(* ===== verification/Dataplane.v ===== *)
(** * The dataplane's control operations (crates/k8netd/src/dataplane.rs)

    The state behind the mutex, the world it acts on, and the twelve
    control-plane operations with persistence and passt supervision. *)
From S2P Require Import Prelude RustStd Model Ipam Json Protocol StateStore Server.
From S2P Require Import Frame MacTable Engine Gateway Dns Passt Packet.

Module Dp.

Record LivePort := {
  lp_id : Z;
  lp_network : option string;
  lp_mac : option MacAddr;
  lp_nic : option MacAddr;      (* the MAC pinned in the device config space *)
}.

Record PasstSlot := {
  desired : PasstConfig;
  live_proc : option PasstProc;
  failures : Z;
  next_retry : option Z;         (* milliseconds *)
  uplink_mac : option (list Z);
}.

(** What the daemon does to the outside, in order. *)
Inductive event :=
  | Bound (socket : string)
  | Unlinked (socket : string)
  | PumpStarted (port : string) (id : Z)
  | ReaderStarted (port : string)
  | Spawned (argv : list string)
  | Stopped (pid : Z) (signals : list signal)
  | ToVm (port : string) (frame : list Z)
  | ToWan (pid : Z) (bytes : list Z).

(** What the system answers during one operation. *)
Record Env := {
  env_disk : environment;
  env_bind : bool;
  env_spawn : spawn_outcome;
  env_polls : list (wait_result * bool);
  env_now : Z;
}.

Section Inner.
Context {V : Type}.

Record NetworkEntry := { ne_ipam : Ipam; created_with : V }.

Record Inner := {
  networks : gmap string NetworkEntry;
  ports : gmap string LivePort;
  names : gmap Z string;
  next_port_id : Z;
  switch : Switch;
  gateway : Gateway;
  passts : gmap string PasstSlot;
  dns : DnsForwarder;
  publish_range : Z * Z;
  publish_table : PublishTable;
}.

(** [Dataplane] and what it touches; [poisoned] is the mutex. *)
Record World := {
  socket_dir : string;
  inner : Inner;
  poisoned : bool;
  disk : fs;
  trace : list event;
}.

(** Assignments to the fields. *)
Definition set_networks f (g : Inner) : Inner :=
  {| networks := f (networks g); ports := ports g; names := names g; next_port_id := next_port_id g;
     switch := switch g; gateway := gateway g; passts := passts g; dns := dns g;
     publish_range := publish_range g; publish_table := publish_table g |}.
Definition set_ports f (g : Inner) : Inner :=
  {| networks := networks g; ports := f (ports g); names := names g; next_port_id := next_port_id g;
     switch := switch g; gateway := gateway g; passts := passts g; dns := dns g;
     publish_range := publish_range g; publish_table := publish_table g |}.
Definition set_names f (g : Inner) : Inner :=
  {| networks := networks g; ports := ports g; names := f (names g); next_port_id := next_port_id g;
     switch := switch g; gateway := gateway g; passts := passts g; dns := dns g;
     publish_range := publish_range g; publish_table := publish_table g |}.
Definition set_next_port_id n (g : Inner) : Inner :=
  {| networks := networks g; ports := ports g; names := names g; next_port_id := n;
     switch := switch g; gateway := gateway g; passts := passts g; dns := dns g;
     publish_range := publish_range g; publish_table := publish_table g |}.
Definition set_switch f (g : Inner) : Inner :=
  {| networks := networks g; ports := ports g; names := names g; next_port_id := next_port_id g;
     switch := f (switch g); gateway := gateway g; passts := passts g; dns := dns g;
     publish_range := publish_range g; publish_table := publish_table g |}.
Definition set_gateway f (g : Inner) : Inner :=
  {| networks := networks g; ports := ports g; names := names g; next_port_id := next_port_id g;
     switch := switch g; gateway := f (gateway g); passts := passts g; dns := dns g;
     publish_range := publish_range g; publish_table := publish_table g |}.
Definition set_passts f (g : Inner) : Inner :=
  {| networks := networks g; ports := ports g; names := names g; next_port_id := next_port_id g;
     switch := switch g; gateway := gateway g; passts := f (passts g); dns := dns g;
     publish_range := publish_range g; publish_table := publish_table g |}.
Definition set_dns d (g : Inner) : Inner :=
  {| networks := networks g; ports := ports g; names := names g; next_port_id := next_port_id g;
     switch := switch g; gateway := gateway g; passts := passts g; dns := d;
     publish_range := publish_range g; publish_table := publish_table g |}.
Definition set_table t (g : Inner) : Inner :=
  {| networks := networks g; ports := ports g; names := names g; next_port_id := next_port_id g;
     switch := switch g; gateway := gateway g; passts := passts g; dns := dns g;
     publish_range := publish_range g; publish_table := t |}.

Definition upd (f : Inner -> Inner) (w : World) : World :=
  {| socket_dir := socket_dir w; inner := f (inner w); poisoned := poisoned w; disk := disk w;
     trace := trace w |}.
Definition set_disk (d : fs) (w : World) : World :=
  {| socket_dir := socket_dir w; inner := inner w; poisoned := poisoned w; disk := d; trace := trace w |}.
Definition log (e : event) (w : World) : World :=
  {| socket_dir := socket_dir w; inner := inner w; poisoned := poisoned w; disk := disk w;
     trace := trace w ++ [e] |}.

Definition op (A : Type) : Type := cmd World RpcError A.

(** [lock(&self.inner)]. *)
Definition lock : op Inner :=
  w ← get; if poisoned w then throw Internal else mret (inner w).

(** The state under the lock. *)
Definition locked : op Inner := w ← get; mret (inner w).
End Inner.
Arguments NetworkEntry : clear implicits.
Arguments Inner : clear implicits.
Arguments World : clear implicits.
Arguments op : clear implicits.

Definition ipam_err (e : IpamError) : RpcError :=
  match e with PoolExhausted => Conflict | UnknownMac => NotFound end.

Section Operations.
Context {V : Type} `{JsonValue V, SnapshotCodec V}.
Implicit Types (env : Env) (g : Inner V).

(** ** Construction and persistence *)

Definition from_parts (dir : string) (d : fs) (table : PublishTable) : World V :=
  {| socket_dir := dir;
     inner := {| networks := ∅; ports := ∅; names := ∅; next_port_id := 1; switch := Switch_new;
                 gateway := Gateway_new; passts := ∅; dns := DnsForwarder_new [];
                 publish_range := DEFAULT_PUBLISH_RANGE; publish_table := table |};
     poisoned := false; disk := d; trace := [] |}.

(** [None] is a machine that stopped while the state was loaded. *)
Definition new (env : environment) (dir : string) (d : fs) : option (World V) :=
  match load_from_disk (V := V) env dir d with
  | Returns d' (Ok store) => Some (from_parts dir d' (st_publish_table store))
  | Returns d' (Err _) => Some (from_parts dir d' pt_empty)
  | Panics _ => None
  end.

Definition try_new (env : environment) (dir : string) (d : fs) : option (result StateError (World V)) :=
  match load_from_disk (V := V) env dir d with
  | Returns d' (Ok store) => Some (Ok (from_parts dir d' (st_publish_table store)))
  | Returns _ (Err e) => Some (Err e)
  | Panics _ => None
  end.

Definition set_dns_upstreams (l : list UpstreamSender) (w : World V) : may_panic (World V) :=
  if poisoned w then Panic else Val (upd (set_dns (DnsForwarder_new l)) w).

Definition network_state (e : NetworkEntry V) : NetworkState V :=
  let network := ipam_network (ne_ipam e) in
  {| ns_cidr := show_cidr (net_cidr network); ns_gateway := show_ipv4_addr (net_gateway network);
     ns_dns := []; ns_mtu := 1500; ns_params := created_with e;
     ns_pool_start := Some (show_ipv4_addr (pool_start (net_pool network)));
     ns_pool_end := Some (show_ipv4_addr (pool_end (net_pool network))) |}.

Definition port_state g (p : LivePort) : PortState :=
  {| vm_ip := show_ipv4_addr <$> (mac ← lp_mac p; network ← lp_network p;
                                  e ← networks g !! network; lookup_mac (ne_ipam e) mac);
     ps_mac := show_mac <$> lp_mac p;
     ps_ipam := {| free_ranges := []; snap_allocations := ∅ |} |}.

(** The networks are visited in key order; a MAC bound in two of them keeps
    the last record. *)
Definition ipam_records_of g : gmap string string :=
  foldl (fun acc e => snapshot (ne_ipam e.2) ∪ acc) ∅ (btree_entries String.leb (networks g)).

Definition to_store g : StateStore V :=
  {| st_networks := network_state <$> networks g; st_ports := port_state g <$> ports g;
     ipam_records := ipam_records_of g; dhcp_leases := ∅; st_publish_table := publish_table g |}.

Definition persist env : op V unit := fun w =>
  match save_to_disk (env_disk env) (to_store (inner w)) (socket_dir w) (disk w) with
  | Returns d (Ok _) => Returns (set_disk d w) (Ok tt)
  | Returns d (Err _) => Returns (set_disk d w) (Err Internal)
  | Panics d => Panics (set_disk d w)
  end.

(** ** The passt slots *)

Definition signals_of env : list signal := (terminate (env_polls env)).1.

Definition stop_proc env (o : option PasstProc) : op V unit :=
  match o with
  | Some p => modify (log (Stopped (pp_pid p) (signals_of env)))
  | None => mret tt
  end.

(** Starts a process for the slot; the result is kept in it. *)
Definition spawn_slot env (slot : PasstSlot) : option (list string) * bool * PasstSlot :=
  let '(argv, _, r) := spawn (desired slot) (env_spawn env) in
  match r with
  | Ok p => (argv, true, {| desired := desired slot; live_proc := Some p; failures := 0;
                            next_retry := None; uplink_mac := uplink_mac slot |})
  | Err _ =>
      let n := sat_u32 (failures slot + 1) in
      (argv, false, {| desired := desired slot; live_proc := None; failures := n;
                       next_retry := Some (env_now env + restart_backoff n);
                       uplink_mac := uplink_mac slot |})
  end.

Definition log_spawn (argv : option (list string)) (w : World V) : World V :=
  match argv with Some a => log (Spawned a) w | None => w end.

Definition ensure_passt env (port vm_ip : string) (published : gmap Z Z) : op V unit :=
  g ← locked;
  net_name ← lift (ok_or (p ← ports g !! port; lp_network p) NotFound);
  net ← lift (ok_or (networks g !! net_name) NotFound);
  let model := ipam_network (ne_ipam net) in
  let config := passt_config_for vm_ip (show_ipv4_addr (netmask (net_cidr model)))
                  (show_ipv4_addr (net_gateway model)) published in
  let slot := default {| desired := config; live_proc := None; failures := 0; next_retry := None;
                         uplink_mac := None |} (passts g !! port) in
  if decide (is_Some (live_proc slot) /\ desired slot = config) then mret tt
  else
    _ ← stop_proc env (live_proc slot);
    let slot := {| desired := config; live_proc := None; failures := failures slot;
                   next_retry := next_retry slot; uplink_mac := uplink_mac slot |} in
    let '(argv, ok, slot') := spawn_slot env slot in
    _ ← modify (log_spawn argv);
    _ ← modify (upd (set_passts (insert port slot')));
    if ok : bool then mret tt else throw Internal.

Definition teardown_passt env (port : string) : op V unit :=
  g ← locked;
  match passts g !! port with
  | None => mret tt
  | Some slot =>
      _ ← modify (upd (set_passts (delete port)));
      stop_proc env (live_proc slot)
  end.

(** One tick of the supervisor; [w] is what [try_wait] says. *)
Definition supervise_passt env (w : wait_result) (port : string) : op V unit :=
  g ← locked;
  match passts g !! port with
  | None => mret tt
  | Some slot =>
      let crashed := match live_proc slot with Some _ => exited w | None => false end in
      let slot := if crashed then
          let n := sat_u32 (failures slot + 1) in
          {| desired := desired slot; live_proc := None; failures := n;
             next_retry := Some (env_now env + restart_backoff n); uplink_mac := uplink_mac slot |}
        else slot in
      let due := match next_retry slot with None => true | Some t => t <=? env_now env end in
      if (match live_proc slot with None => due | Some _ => false end) then
        let '(argv, _, slot') := spawn_slot env slot in
        _ ← modify (log_spawn argv);
        modify (upd (set_passts (insert port slot')))
      else modify (upd (set_passts (insert port slot)))
  end.

(** ** The control-plane operations *)

Definition method : Type := V -> op V V.

Definition create_network env : method := fun params =>
  name ← lift (str_param params "name");
  cidr ← lift (str_param params "cidr");
  gw ← lift (str_param params "gateway");
  pool_start ← lift (str_param params "poolStart");
  pool_end ← lift (str_param params "poolEnd");
  g ← lock;
  match networks g !! name with
  | Some e => if decide (created_with e = params) then mret Null else throw Conflict
  | None =>
      start ← lift (ok_or (parse_ipv4_addr pool_start) InvalidParams);
      end_ ← lift (ok_or (parse_ipv4_addr pool_end) InvalidParams);
      pool ← lift (map_err (fun _ => InvalidParams) (IpPool_new start end_));
      network ← lift (map_err (fun _ => InvalidParams) (Network_new name cidr gw pool));
      _ ← modify (upd (set_gateway (fun x => gw_add_network x network)));
      let entry := {| ne_ipam := Ipam_new network; created_with := params |} in
      _ ← modify (upd (set_networks (insert name entry)));
      _ ← persist env;
      mret Null
  end.

Definition delete_network env : method := fun params =>
  name ← lift (str_param params "name");
  g ← lock;
  _ ← modify (upd (set_gateway (fun x => (gw_remove_network x name).2)));
  _ ← modify (upd (set_networks (delete name)));
  match networks g !! name with
  | None => throw NotFound
  | Some _ => _ ← persist env; mret Null
  end.

Definition get_network env : method := fun params =>
  name ← lift (str_param params "name");
  g ← lock;
  e ← lift (ok_or (networks g !! name) NotFound);
  mret (Obj [("name", Str name);
             ("cidr", Str (show_cidr (net_cidr (ipam_network (ne_ipam e)))));
             ("gateway", Str (show_ipv4_addr (net_gateway (ipam_network (ne_ipam e)))))]).

(** [format!("{name}.sock")] in the socket directory. *)
Definition socket_path (w : World V) (name : string) : string := path_join (socket_dir w) (name +:+ ".sock").

(** The binding of the socket is an input; the threads it starts (session,
    pump, reader) are taken to start. *)
Definition create_port env : method := fun params =>
  name ← lift (str_param params "name");
  g ← lock;
  match ports g !! name with
  | Some _ => mret Null
  | None =>
      if negb (env_bind env) then throw Internal
      else
        _ ← modify (fun w => log (Bound (socket_path w name)) w);
        let id := next_port_id g in
        _ ← modify (upd (set_next_port_id (wrap_u32 (id + 1))));
        _ ← modify (log (PumpStarted name id));
        _ ← modify (upd (set_switch (fun s => add_port s id "")));
        _ ← modify (upd (set_names (insert id name)));
        let lp := {| lp_id := id; lp_network := None; lp_mac := None; lp_nic := None |} in
        _ ← modify (upd (set_ports (insert name lp)));
        _ ← modify (log (ReaderStarted name));
        _ ← persist env;
        mret Null
  end.

(** [entry.ipam] replaced in the entry of [net]. *)
Definition put_ipam (net : string) (e : NetworkEntry V) (i : Ipam) : World V -> World V :=
  upd (set_networks (insert net {| ne_ipam := i; created_with := created_with e |})).

Definition delete_port env : method := fun params =>
  name ← lift (str_param params "name");
  g ← lock;
  match ports g !! name with
  | None => throw NotFound
  | Some lp =>
      _ ← modify (upd (set_ports (delete name)));
      _ ← (match (network ← lp_network lp; mac ← lp_mac lp; e ← networks g !! network;
                  Some (network, mac, e)) with
           | Some (network, mac, e) => modify (put_ipam network e (release (ne_ipam e) mac).2)
           | None => mret tt
           end : op V unit);
      let id := lp_id lp in
      _ ← modify (upd (set_switch (fun s => (remove_port s id).2)));
      _ ← modify (upd (set_gateway (fun x => (gw_remove_port x id).2)));
      _ ← modify (upd (set_names (delete id)));
      _ ← modify (upd (set_table (pt_remove_port (publish_table g) name).2));
      _ ← persist env;
      _ ← teardown_passt env name;
      _ ← modify (fun w => log (Unlinked (socket_path w name)) w);
      mret Null
  end.

Definition get_port env : method := fun params =>
  name ← lift (str_param params "name");
  g ← lock;
  p ← lift (ok_or (ports g !! name) NotFound);
  mret (Obj [("name", Str name);
             ("network", of_option (Str <$> lp_network p));
             ("mac", of_option ((fun m => Str (show_mac m)) <$> lp_mac p))]).

Definition attach_port env : method := fun params =>
  port_name ← lift (str_param params "port");
  net_name ← lift (str_param params "network");
  mac_text ← lift (str_param params "mac");
  mac ← lift (map_err (fun _ => InvalidParams) (parse_mac mac_text));
  g ← lock;
  port ← lift (ok_or (ports g !! port_name) NotFound);
  if decide (lp_network port = Some net_name /\ lp_mac port = Some mac) then mret Null
  else if decide (is_Some (lp_network port)) then throw Conflict
  else
    e ← lift (ok_or (networks g !! net_name) NotFound);
    let '(r, i) := allocate (ne_ipam e) mac in
    _ ← modify (put_ipam net_name e i);
    _ ← lift (map_err ipam_err r);
    let id := lp_id port in
    let lp := {| lp_id := id; lp_network := Some net_name; lp_mac := Some mac; lp_nic := Some mac |} in
    _ ← modify (upd (set_ports (insert port_name lp)));
    _ ← modify (upd (set_switch (fun s => add_port s id net_name)));
    _ ← modify (upd (set_gateway (fun x => gw_add_port x id net_name)));
    vm_ip ← lift (ok_or (lookup_mac i mac) NotFound);
    _ ← ensure_passt env port_name (show_ipv4_addr vm_ip) ∅;
    _ ← persist env;
    mret Null.

Definition detach_port env : method := fun params =>
  name ← lift (str_param params "name");
  g ← lock;
  p ← lift (ok_or (ports g !! name) NotFound);
  let id := lp_id p in
  let lp := {| lp_id := id; lp_network := None; lp_mac := None; lp_nic := lp_nic p |} in
  _ ← modify (upd (set_ports (insert name lp)));
  _ ← modify (upd (set_gateway (fun x => (gw_remove_port x id).2)));
  _ ← modify (upd (set_switch (fun s => (remove_port s id).2)));
  _ ← (match lp_network p, lp_mac p with
       | Some network, Some mac =>
           e ← lift (ok_or (networks g !! network) NotFound);
           let '(r, i) := release (ne_ipam e) mac in
           _ ← modify (put_ipam network e i);
           lift (map_err ipam_err r)
       | _, _ => mret tt
       end : op V unit);
  _ ← modify (upd (set_table (pt_remove_port (publish_table g) name).2));
  _ ← persist env;
  _ ← teardown_passt env name;
  mret Null.

Definition allocate_ip env : method := fun params =>
  net ← lift (str_param params "network");
  mac_text ← lift (str_param params "mac");
  mac ← lift (map_err (fun _ => InvalidParams) (parse_mac mac_text));
  g ← lock;
  e ← lift (ok_or (networks g !! net) NotFound);
  let '(r, i) := allocate (ne_ipam e) mac in
  _ ← modify (put_ipam net e i);
  ip ← lift (map_err ipam_err r);
  mret (Str (show_ipv4_addr ip)).

Definition release_ip env : method := fun params =>
  net ← lift (str_param params "network");
  mac_text ← lift (str_param params "mac");
  mac ← lift (map_err (fun _ => InvalidParams) (parse_mac mac_text));
  g ← lock;
  e ← lift (ok_or (networks g !! net) NotFound);
  let '(r, i) := release (ne_ipam e) mac in
  _ ← modify (put_ipam net e i);
  _ ← lift (map_err (fun e => match e with UnknownMac => NotFound | other => ipam_err other end) r);
  _ ← persist env;
  mret Null.

(** The address reserved for an attached port. *)
Definition reserved_ip g (port : string) : result RpcError Ipv4Addr :=
  p ← ok_or (ports g !! port) NotFound;
  net_name ← ok_or (lp_network p) NotFound;
  mac ← ok_or (lp_mac p) Internal;
  net ← ok_or (networks g !! net_name) NotFound;
  ok_or (lookup_mac (ne_ipam net) mac) NotFound.

Definition published_of (t : PublishTable) (port : string) : gmap Z Z := default ∅ (entries t !! port).

Definition publish_port env : method := fun params =>
  port_name ← lift (str_param params "port");
  vm_port ← lift (u16_param params "vm_port");
  g ← lock;
  if decide (is_Some (p ← ports g !! port_name; lp_network p)) then
    host_port ←
      (match pt_get (publish_table g) port_name vm_port with
       | Some host => mret host
       | None =>
           let '(r, t) := pt_allocate (publish_table g) port_name vm_port (publish_range g) in
           _ ← modify (upd (set_table t));
           lift (ok_or r Conflict)
       end : op V Z);
    _ ← persist env;
    g ← locked;
    vm_ip ← lift (reserved_ip g port_name);
    _ ← ensure_passt env port_name (show_ipv4_addr vm_ip) (published_of (publish_table g) port_name);
    mret (Obj [("host_port", Num host_port)])
  else throw NotFound.

Definition unpublish_port env : method := fun params =>
  port_name ← lift (str_param params "port");
  vm_port ← lift (u16_param params "vm_port");
  g ← lock;
  let '(r, t) := pt_remove (publish_table g) port_name vm_port in
  _ ← modify (upd (set_table t));
  _ ← lift (ok_or r NotFound);
  _ ← persist env;
  let published := published_of t port_name in
  if decide (published = ∅) then _ ← teardown_passt env port_name; mret Null
  else
    g ← locked;
    vm_ip ← lift (reserved_ip g port_name);
    _ ← ensure_passt env port_name (show_ipv4_addr vm_ip) published;
    mret Null.

(** The daemon's control plane, for what the system answers meanwhile. *)
Definition dataplane env : ControlPlane (World V) V := {|
  cp_create_network := create_network env;
  cp_delete_network := delete_network env;
  cp_get_network := get_network env;
  cp_create_port := create_port env;
  cp_delete_port := delete_port env;
  cp_get_port := get_port env;
  cp_attach_port := attach_port env;
  cp_detach_port := detach_port env;
  cp_allocate_ip := allocate_ip env;
  cp_release_ip := release_ip env;
  cp_publish_port := publish_port env;
  cp_unpublish_port := unpublish_port env;
|}.
End Operations.
End Dp.

(** ** The invariant of the state behind the mutex *)
Import Dp.

Section Invariant.
Context {V : Type} `{JsonValue V, SnapshotCodec V}.
Implicit Types (env : Env) (g : Inner V) (w : World V).

(** The networks are valid and mirrored in the gateway; ports and ids are in
    bijection; the switch and the gateway know exactly the live ports, on the
    network they are attached to; host ports are not shared. *)
Record dp_ok g : Prop := {
  dp_networks : forall name e, networks g !! name = Some e ->
    net_name (ipam_network (ne_ipam e)) = name /\ ipam_ok (ne_ipam e);
  dp_mirror : forall name, Gateway.networks (gateway g) !! name =
    (fun e => ipam_network (ne_ipam e)) <$> networks g !! name;
  dp_names : forall id name, names g !! id = Some name <->
    exists lp, ports g !! name = Some lp /\ lp_id lp = id;
  dp_fresh : forall id name, names g !! id = Some name -> id < next_port_id g;
  dp_joined : forall name lp, ports g !! name = Some lp ->
    gw_ports (gateway g) !! lp_id lp = lp_network lp /\
    match lp_network lp with
    | Some net => Engine.ports (switch g) !! lp_id lp = Some net /\ net <> EmptyString
    | None => forall net, Engine.ports (switch g) !! lp_id lp = Some net -> net = EmptyString
    end;
  dp_dead : forall id, names g !! id = None ->
    Engine.ports (switch g) !! id = None /\ gw_ports (gateway g) !! id = None;
  dp_unique : pt_unique (publish_table g);
}.

Definition world_ok w : Prop := dp_ok (inner w).

(** An operation on the passt processes. *)
Definition is_process (e : event) : Prop :=
  match e with Spawned _ | Stopped _ _ => True | _ => False end.

(** Only the passt slots differ, and processes were started or stopped. *)
Definition same_core w w' : Prop :=
  socket_dir w' = socket_dir w /\ poisoned w' = poisoned w /\ disk w' = disk w /\
  (exists l, trace w' = trace w ++ l /\ Forall is_process l) /\
  exists f, inner w' = set_passts f (inner w).

Lemma set_passts_ok f g : dp_ok g -> dp_ok (set_passts f g).
Proof. intros [H1 H2 H3 H4 H5 H6 H7]. split; done. Qed.

Lemma same_core_ok w w' : same_core w w' -> world_ok w -> world_ok w'.
Proof. intros (_ & _ & _ & _ & f & Hf) Hw. unfold world_ok. rewrite Hf. by apply set_passts_ok. Qed.

Lemma same_core_refl w : same_core w w.
Proof.
  split_and!; [done..|exists []; by rewrite app_nil_r|]. exists id. by destruct (inner w).
Qed.

Lemma same_core_trans w1 w2 w3 : same_core w1 w2 -> same_core w2 w3 -> same_core w1 w3.
Proof.
  intros (Hs & Hp & Hd & (l & Ht & Hl) & f & Hf) (Hs' & Hp' & Hd' & (l' & Ht' & Hl') & f' & Hf').
  split_and!; [congruence..| |].
  - exists (l ++ l'). rewrite Ht', Ht, app_assoc. split; [done|by apply Forall_app].
  - exists (fun x => f' (f x)). by rewrite Hf', Hf.
Qed.

Lemma same_core_log w e : is_process e -> same_core w (log e w).
Proof.
  intros He. split_and!; [done..|by exists [e]; split; [|constructor]|]. exists id. simpl. by destruct (inner w).
Qed.

Lemma same_core_slots w f : same_core w (upd (set_passts f) w).
Proof. split_and!; [done..|exists []; by rewrite app_nil_r|by exists f]. Qed.

(** The machine does not stop during the operation. *)
Definition running env : Prop := forall c t, env_disk env c <> Stops t.

Lemma save_runs (e : environment) (store : StateStore V) path d :
  (forall c t, e c <> Stops t) -> exists d' r, save_to_disk e store path d = Returns d' r.
Proof.
  intros He. unfold save_to_disk, perform. run_cmd.
  repeat (match goal with |- context [e ?c] => pose proof (He c); destruct (e c) end;
    [|by eexists _, _|naive_solver]). by eexists _, _.
Qed.

Lemma wp_persist env w (Q : unit -> World V -> Prop) R :
  running env -> (forall d, Q tt (set_disk d w)) -> (forall d, R Internal (set_disk d w)) ->
  wp (persist env) w Q R.
Proof.
  intros He HQ HR. unfold wp, persist.
  destruct (save_runs (env_disk env) (to_store (inner w)) (socket_dir w) (disk w) He) as (d & r & ->).
  destruct r as [[]|e]; auto.
Qed.

Lemma wp_stop_proc env o w (Q : unit -> World V -> Prop) R :
  (forall w', same_core w w' -> Q tt w') -> wp (stop_proc env o) w Q R.
Proof.
  intros HQ. destruct o as [p|]; apply HQ; [by apply same_core_log|apply same_core_refl].
Qed.

Lemma same_core_spawn w argv f : same_core w (upd (set_passts f) (log_spawn argv w)).
Proof.
  destruct argv as [a|]; [|apply same_core_slots].
  eapply same_core_trans; [by apply (same_core_log w (Spawned a))|apply same_core_slots].
Qed.

Lemma wp_ensure_passt env port ip published w (Q : unit -> World V -> Prop) (R : RpcError -> World V -> Prop) :
  (forall w', same_core w w' -> Q tt w') -> (forall e w', same_core w w' -> R e w') ->
  wp (ensure_passt env port ip published) w Q R.
Proof.
  intros HQ HR. unfold ensure_passt, locked. wp_steps; auto using same_core_refl.
  apply wp_stop_proc. intros w1 Hw1. destruct (spawn_slot _ _) as [[argv []] slot'].
  all: wp_steps; eauto using same_core_trans, same_core_spawn.
Qed.

Lemma wp_teardown_passt env port w (Q : unit -> World V -> Prop) R :
  (forall w', same_core w w' -> Q tt w') -> wp (teardown_passt env port) w Q R.
Proof.
  intros HQ. unfold teardown_passt, locked. wp_steps; auto using same_core_refl.
  apply wp_stop_proc. intros w1 Hw1. apply HQ. eapply same_core_trans; [apply same_core_slots|exact Hw1].
Qed.

Lemma wp_supervise_passt env wait port w (Q : unit -> World V -> Prop) R :
  (forall w', same_core w w' -> Q tt w') -> wp (supervise_passt env wait port) w Q R.
Proof.
  intros HQ. unfold supervise_passt, locked. apply wp_bind, wp_bind, wp_get, wp_ret.
  destruct (passts (inner w) !! port) as [slot|]; [|apply wp_ret, HQ, same_core_refl].
  cbv zeta. set (slot1 := if match live_proc slot with Some _ => exited wait | None => false end then _ else slot).
  destruct (match live_proc slot1 with None => _ | Some _ => false end).
  - destruct (spawn_slot env slot1) as [[argv up] slot']. wp_steps. apply HQ, same_core_spawn.
  - apply wp_modify, HQ, same_core_slots.
Qed.

Lemma set_disk_ok d w : world_ok w -> world_ok (set_disk d w).
Proof. done. Qed.
End Invariant.

#[export] Hint Resolve same_core_ok set_disk_ok : core.

Section Preserved.
Context {V : Type} `{JsonValue V, SnapshotCodec V}.
Implicit Types (env : Env) (g : Inner V) (w : World V).

Lemma set_table_ok t g : dp_ok g -> pt_unique t -> dp_ok (set_table t g).
Proof. intros [Hn Hm Hb Hf Hj Hd Hu] Ht. by split. Qed.

Lemma put_network_ok name e i c g :
  dp_ok g -> networks g !! name = Some e -> ipam_network i = ipam_network (ne_ipam e) -> ipam_ok i ->
  dp_ok (set_networks (insert name {| ne_ipam := i; created_with := c |}) g).
Proof.
  intros [Hn Hm Hb Hf Hj Hd Hu] He Hi Hok. split; simpl; try done.
  - intros name' e' [[<- <-]|[_ Hl]]%lookup_insert_Some; [|by apply Hn].
    simpl. rewrite Hi. split; [by apply (Hn name e)|done].
  - intros name'. rewrite Hm. destruct (decide (name' = name)) as [->|Hne].
    + rewrite lookup_insert_eq, He. simpl. by rewrite Hi.
    + by rewrite lookup_insert_ne.
Qed.

Lemma add_network_ok name n c g :
  dp_ok g -> net_name n = name -> ipam_ok (Ipam_new n) ->
  dp_ok (set_networks (insert name {| ne_ipam := Ipam_new n; created_with := c |})
    (set_gateway (fun x => gw_add_network x n) g)).
Proof.
  intros [Hn Hm Hb Hf Hj Hd Hu] <- Hok. split; simpl; try done.
  - intros name' e' [[<- <-]|[_ Hl]]%lookup_insert_Some; [done|by apply Hn].
  - intros name'. destruct (decide (name' = net_name n)) as [->|Hne].
    + by rewrite !lookup_insert_eq.
    + by rewrite !lookup_insert_ne.
Qed.

Lemma delete_network_ok' name g :
  dp_ok g ->
  dp_ok (set_networks (delete name) (set_gateway (fun x => (gw_remove_network x name).2) g)).
Proof.
  intros [Hn Hm Hb Hf Hj Hd Hu]. split; simpl; try done.
  - intros name' e' [_ Hl]%lookup_delete_Some. by apply Hn.
  - intros name'. destruct (decide (name' = name)) as [->|Hne].
    + by rewrite !lookup_delete_eq.
    + by rewrite !lookup_delete_ne.
Qed.

(** Two live ports have different ids. *)
Lemma ids_differ g a b la lb :
  dp_ok g -> ports g !! a = Some la -> ports g !! b = Some lb -> a <> b -> lp_id la <> lp_id lb.
Proof.
  intros Hg Ha Hb Hne Hid.
  assert (names g !! lp_id la = Some a) as Hna by (apply (dp_names g Hg); eauto).
  assert (names g !! lp_id lb = Some b) as Hnb by (apply (dp_names g Hg); eauto).
  rewrite Hid in Hna. congruence.
Qed.

Lemma names_lookup g name lp : dp_ok g -> ports g !! name = Some lp -> names g !! lp_id lp = Some name.
Proof. intros Hg Hp. apply (dp_names g Hg). eauto. Qed.

Lemma new_port_ok name g :
  dp_ok g -> ports g !! name = None -> 0 <= next_port_id g < u32_max ->
  let id := next_port_id g in
  dp_ok (set_ports (insert name {| lp_id := id; lp_network := None; lp_mac := None; lp_nic := None |})
    (set_names (insert id name) (set_switch (fun s => add_port s id "")
      (set_next_port_id (wrap_u32 (id + 1)) g)))).
Proof.
  intros Hg Hp Hid id. pose proof Hg as [Hn Hm Hb Hf Hj Hd Hu].
  assert (Hfree : names g !! id = None).
  { destruct (names g !! id) eqn:Hx; [|done]. apply Hf in Hx. unfold id in Hx. lia. }
  destruct (Hd id Hfree) as [Hsw Hgw].
  assert (Hw : wrap_u32 (id + 1) = id + 1).
  { unfold wrap_u32. apply Z.mod_small. unfold u32_max, id in *. lia. }
  assert (Hold : forall n lp, ports g !! n = Some lp -> lp_id lp <> id).
  { intros n lp Hl Heq. pose proof (names_lookup g n lp Hg Hl) as Hx. rewrite Heq in Hx. congruence. }
  split; simpl; try done.
  - intros id' name'. rewrite lookup_insert_Some, Hb. split.
    + intros [[<- <-]|[Hne (lp & Hl & <-)]].
      * eexists. by rewrite lookup_insert_eq.
      * exists lp. rewrite lookup_insert_ne by (intros <-; congruence). done.
    + intros (lp & [[<- <-]|[Hne Hl]]%lookup_insert_Some & <-); [by left|].
      right. split; [apply not_eq_sym; by eapply Hold|eauto].
  - rewrite Hw. intros id' name' [[<- _]|[_ Hl]]%lookup_insert_Some; [lia|]. apply Hf in Hl. unfold id. lia.
  - intros name' lp [[<- <-]|[Hne Hl]]%lookup_insert_Some; simpl.
    + rewrite Hgw. split; [done|]. intros net. rewrite lookup_insert_eq. by intros [= <-].
    + pose proof (Hold _ _ Hl). destruct (Hj _ _ Hl) as [Hg1 Hg2]. split; [done|].
      destruct (lp_network lp); by rewrite lookup_insert_ne by done.
  - intros id' [Hl Hne]%lookup_insert_None. rewrite lookup_insert_ne by done. by apply Hd.
Qed.

Lemma delete_port_ok' name lp g :
  dp_ok g -> ports g !! name = Some lp ->
  dp_ok (set_names (delete (lp_id lp)) (set_gateway (fun x => (gw_remove_port x (lp_id lp)).2)
    (set_switch (fun s => (remove_port s (lp_id lp)).2) (set_ports (delete name) g)))).
Proof.
  intros Hg Hp. pose proof Hg as [Hn Hm Hb Hf Hj Hd Hu]. split; simpl; try done.
  - intros id' name'. rewrite lookup_delete_Some, Hb. split.
    + intros [Hne (lp' & Hl & <-)]. exists lp'. rewrite lookup_delete_ne; [done|].
      intros <-. congruence.
    + intros (lp' & [Hne Hl]%lookup_delete_Some & <-). split; [by eapply (ids_differ g name name')|eauto].
  - intros id' name' [_ Hl]%lookup_delete_Some. by eapply Hf.
  - intros name' lp' [Hne Hl]%lookup_delete_Some.
    pose proof (ids_differ g _ _ _ _ Hg Hp Hl Hne). destruct (Hj _ _ Hl) as [Hg1 Hg2].
    rewrite lookup_delete_ne by done. split; [done|].
    destruct (lp_network lp'); by rewrite lookup_delete_ne by done.
  - intros id' [Heq|Hl]%lookup_delete_None; [subst; by rewrite !lookup_delete_eq|].
    destruct (Hd _ Hl) as [Hd1 Hd2].
    destruct (decide (id' = lp_id lp)) as [->|Hne]; [by rewrite !lookup_delete_eq|].
    by rewrite !lookup_delete_ne.
Qed.

Lemma attach_ok name lp net lp' g :
  dp_ok g -> ports g !! name = Some lp -> lp_id lp' = lp_id lp -> lp_network lp' = Some net ->
  net <> EmptyString ->
  dp_ok (set_gateway (fun x => gw_add_port x (lp_id lp) net)
    (set_switch (fun s => add_port s (lp_id lp) net) (set_ports (insert name lp') g))).
Proof.
  intros Hg Hp Hid Hnet Hname. pose proof Hg as [Hn Hm Hb Hf Hj Hd Hu]. split; simpl; try done.
  - intros id' name'. rewrite Hb. split.
    + intros (lp1 & Hl & <-). destruct (decide (name' = name)) as [->|Hne].
      * exists lp'. rewrite lookup_insert_eq. split; [done|congruence].
      * exists lp1. by rewrite lookup_insert_ne.
    + intros (lp1 & [[<- <-]|[Hne Hl]]%lookup_insert_Some & <-); eauto.
  - intros name' lp1 [[<- <-]|[Hne Hl]]%lookup_insert_Some.
    + rewrite Hid, Hnet, !lookup_insert_eq. done.
    + pose proof (ids_differ g _ _ _ _ Hg Hp Hl Hne). destruct (Hj _ _ Hl) as [Hg1 Hg2].
      rewrite lookup_insert_ne by done. split; [done|].
      destruct (lp_network lp1); by rewrite lookup_insert_ne by done.
  - intros id' Hl. assert (lp_id lp <> id').
    { intros <-. rewrite (names_lookup g name lp Hg Hp) in Hl. done. }
    rewrite !lookup_insert_ne by done. by apply Hd.
Qed.

Lemma detach_ok name lp lp' g :
  dp_ok g -> ports g !! name = Some lp -> lp_id lp' = lp_id lp -> lp_network lp' = None ->
  dp_ok (set_switch (fun s => (remove_port s (lp_id lp)).2)
    (set_gateway (fun x => (gw_remove_port x (lp_id lp)).2) (set_ports (insert name lp') g))).
Proof.
  intros Hg Hp Hid Hnet. pose proof Hg as [Hn Hm Hb Hf Hj Hd Hu]. split; simpl; try done.
  - intros id' name'. rewrite Hb. split.
    + intros (lp1 & Hl & <-). destruct (decide (name' = name)) as [->|Hne].
      * exists lp'. rewrite lookup_insert_eq. split; [done|congruence].
      * exists lp1. by rewrite lookup_insert_ne.
    + intros (lp1 & [[<- <-]|[Hne Hl]]%lookup_insert_Some & <-); eauto.
  - intros name' lp1 [[<- <-]|[Hne Hl]]%lookup_insert_Some.
    + rewrite Hid, Hnet, !lookup_delete_eq. done.
    + pose proof (ids_differ g _ _ _ _ Hg Hp Hl Hne). destruct (Hj _ _ Hl) as [Hg1 Hg2].
      rewrite lookup_delete_ne by done. split; [done|].
      destruct (lp_network lp1); by rewrite lookup_delete_ne by done.
  - intros id' Hl. assert (lp_id lp <> id').
    { intros <-. rewrite (names_lookup g name lp Hg Hp) in Hl. done. }
    rewrite !lookup_delete_ne by done. by apply Hd.
Qed.
End Preserved.

(** ** Every operation keeps the invariant, on every path *)
Section Handlers.
Context {V : Type} `{JsonValue V, SnapshotCodec V}.
Implicit Types (env : Env) (g : Inner V) (w : World V).

(** A handler is safe from [w]: it does not panic, and the invariant holds
    when it returns, whatever it returns. *)
Definition safe {A} (m : op V A) w : Prop := wp m w (fun _ => world_ok) (fun _ => world_ok).

Lemma safe_persist env w :
  running env -> world_ok w -> forall v : V, safe (_ ← persist env; mret v) w.
Proof.
  intros He Hw v. apply wp_bind, wp_persist; [done|..]; intros d; [|by apply set_disk_ok].
  apply wp_ret. by apply set_disk_ok.
Qed.

Lemma create_network_keeps env params w : running env -> world_ok w -> safe (create_network env params) w.
Proof.
  intros He Hw. unfold safe, create_network, lock. wp_steps; try done.
  apply wp_persist; [done|..]; intros d; wp_steps; apply set_disk_ok; simp_results.
  all: match goal with Hn : Network_new ?a _ _ _ = Ok ?n |- _ =>
    assert (net_name n = a /\ ipam_ok (Ipam_new n)) as [Hname Hok] by (eapply network_params_ok; eassumption)
  end.
  all: by apply add_network_ok.
Qed.

Lemma delete_network_keeps env params w : running env -> world_ok w -> safe (delete_network env params) w.
Proof.
  intros He Hw. unfold safe, delete_network, lock. wp_steps; try done.
  2: by apply delete_network_ok'.
  apply wp_persist; [done|..]; intros d; wp_steps; apply set_disk_ok; by apply delete_network_ok'.
Qed.

Lemma get_network_keeps env params w : world_ok w -> safe (get_network env params) w.
Proof. intros Hw. unfold safe, get_network, lock. wp_steps; done. Qed.

Lemma get_port_keeps env params w : world_ok w -> safe (get_port env params) w.
Proof. intros Hw. unfold safe, get_port, lock. wp_steps; done. Qed.

Lemma create_port_keeps env params w :
  running env -> world_ok w -> 0 <= next_port_id (inner w) < u32_max -> safe (create_port env params) w.
Proof.
  intros He Hw Hid. unfold safe, create_port, lock. wp_steps; try done.
  apply wp_persist; [done|..]; intros d; wp_steps; apply set_disk_ok; by apply new_port_ok.
Qed.

Lemma unique_shrink t t' :
  (forall p v h, pt_get t' p v = Some h -> pt_get t p v = Some h) -> pt_unique t -> pt_unique t'.
Proof. unfold pt_unique. naive_solver. Qed.

Lemma unpublish_all_unique t name : pt_unique t -> pt_unique (pt_remove_port t name).2.
Proof. apply unique_shrink. intros p v h. apply remove_port_shrinks. Qed.

Lemma release_put_ok net e mac g :
  dp_ok g -> networks g !! net = Some e ->
  dp_ok (set_networks (insert net {| ne_ipam := (release (ne_ipam e) mac).2; created_with := created_with e |}) g).
Proof.
  intros Hg He. eapply put_network_ok; [done|done|apply release_network|].
  apply release_ok. by apply (dp_networks g Hg net e).
Qed.

Lemma allocate_put_ok net e mac g :
  dp_ok g -> networks g !! net = Some e -> wf_mac mac ->
  dp_ok (set_networks (insert net {| ne_ipam := (allocate (ne_ipam e) mac).2; created_with := created_with e |}) g).
Proof.
  intros Hg He Hmac. eapply put_network_ok; [done|done|apply allocate_network|].
  apply allocate_ok; [done|]. by apply (dp_networks g Hg net e).
Qed.

Lemma delete_port_world name lp t w :
  world_ok w -> ports (inner w) !! name = Some lp -> pt_unique t ->
  world_ok (upd (set_table t) (upd (set_names (delete (lp_id lp)))
    (upd (set_gateway (fun x => (gw_remove_port x (lp_id lp)).2))
      (upd (set_switch (fun s => (remove_port s (lp_id lp)).2)) (upd (set_ports (delete name)) w))))).
Proof. intros Hw Hp Ht. apply set_table_ok; [|done]. by apply delete_port_ok'. Qed.

Lemma bind_release_Some g l s m n :
  (network ← lp_network l; mac ← lp_mac l; e ← networks g !! network; Some (network, mac, e)) = Some (s, m, n) ->
  networks (V := V) g !! s = Some n.
Proof.
  destruct (lp_network l) as [net|]; simpl; [|done]. destruct (lp_mac l); simpl; [|done].
  destruct (networks g !! net) eqn:Hn; simpl; [|done]. by intros [= <- <- <-].
Qed.

Lemma delete_port_keeps env params w : running env -> world_ok w -> safe (delete_port env params) w.
Proof.
  intros He Hw. unfold safe, delete_port, lock. wp_steps; try done.
  all: apply wp_persist; [done|..]; intros d; wp_steps; try apply wp_teardown_passt; try intros w' Hc; wp_steps.
  all: try (change (world_ok w'); eapply same_core_ok; [exact Hc|]).
  all: apply set_disk_ok.
  1,2: match goal with Hb : _ = Some (?s, ?m, ?n) |- world_ok (upd _ (upd _ (upd _ (upd _ (put_ipam _ _ ?i (upd _ ?w)))))) =>
    apply bind_release_Some in Hb;
    apply (delete_port_world _ _ _ (put_ipam s n i w));
      [by apply release_put_ok|done|apply unpublish_all_unique, (dp_unique _ Hw)]
  end.
  all: apply delete_port_world; [done|done|apply unpublish_all_unique, (dp_unique _ Hw)].
Qed.

Lemma allocate_world net e mac r i w :
  world_ok w -> networks (inner w) !! net = Some e -> allocate (ne_ipam e) mac = (r, i) -> wf_mac mac ->
  world_ok (put_ipam net e i w).
Proof.
  intros Hw Hn Ha Hmac. pose proof (allocate_put_ok net e mac (inner w) Hw Hn Hmac) as Hx. by rewrite Ha in Hx.
Qed.

Lemma release_world net e mac r i w :
  world_ok w -> networks (inner w) !! net = Some e -> release (ne_ipam e) mac = (r, i) ->
  world_ok (put_ipam net e i w).
Proof.
  intros Hw Hn Ha. pose proof (release_put_ok net e mac (inner w) Hw Hn) as Hx. by rewrite Ha in Hx.
Qed.

Lemma network_key_nonempty w name e : world_ok w -> networks (inner w) !! name = Some e -> name <> EmptyString.
Proof.
  intros Hw He ->. destruct (dp_networks _ Hw _ _ He) as [Hn Hok].
  pose proof (wfn_name _ (ok_network _ Hok)) as Hwf. by rewrite Hn in Hwf.
Qed.

Lemma attach_world name net lp lp' w :
  world_ok w -> ports (inner w) !! name = Some lp -> lp_id lp' = lp_id lp -> lp_network lp' = Some net ->
  net <> EmptyString ->
  world_ok (upd (set_gateway (fun x => gw_add_port x (lp_id lp) net))
    (upd (set_switch (fun s => add_port s (lp_id lp) net)) (upd (set_ports (insert name lp')) w))).
Proof. intros Hw Hp Hid Hn Hne. by apply attach_ok. Qed.

Lemma attach_port_keeps env params w : running env -> world_ok w -> safe (attach_port env params) w.
Proof.
  intros He Hw. unfold safe, attach_port, lock. wp_steps; try done. all: simp_results.
  all: match goal with Hn : networks (inner ?w) !! ?net = Some ?e, Ha : allocate (ne_ipam ?e) ?mac = (_, ?i),
      Hok : world_ok ?w |- _ =>
    assert (Hput : world_ok (put_ipam net e i w)) by (eapply allocate_world; [exact Hok|exact Hn|exact Ha|by eapply parse_mac_wf]);
    pose proof (network_key_nonempty _ _ _ Hok Hn)
  end; try done.
  2: by apply (attach_world _ _ _ _ (put_ipam _ _ _ w)).
  apply wp_ensure_passt; [|intros e]; intros w' Hc; wp_steps.
  2: eapply same_core_ok; [exact Hc|]; by apply (attach_world _ _ _ _ (put_ipam _ _ _ w)).
  apply wp_persist; [done|..]; intros d; wp_steps; apply set_disk_ok;
    (eapply same_core_ok; [exact Hc|]); by apply (attach_world _ _ _ _ (put_ipam _ _ _ w)).
Qed.

Lemma detach_world name lp lp' w :
  world_ok w -> ports (inner w) !! name = Some lp -> lp_id lp' = lp_id lp -> lp_network lp' = None ->
  world_ok (upd (set_switch (fun s => (remove_port s (lp_id lp)).2))
    (upd (set_gateway (fun x => (gw_remove_port x (lp_id lp)).2)) (upd (set_ports (insert name lp')) w))).
Proof. intros Hw Hp Hid Hn. by apply detach_ok. Qed.

Lemma unpublished_world w :
  world_ok w -> forall t, pt_unique t -> world_ok (upd (set_table t) w).
Proof. intros Hw t Ht. by apply set_table_ok. Qed.

(** Both tails of a detach: save, then stop the process. *)
Lemma persist_teardown_keeps env name w :
  running env -> world_ok w ->
  wp (persist env) w (fun _ s => wp (teardown_passt env name ≫= fun _ => mret (Null : V)) s
    (fun _ => world_ok) (fun _ => world_ok)) (fun _ => world_ok).
Proof.
  intros He Hw. apply wp_persist; [done|..]; intros d; wp_steps; [|by apply set_disk_ok].
  apply wp_teardown_passt. intros w' Hc. wp_steps. by eapply same_core_ok.
Qed.

Lemma detach_port_keeps env params w : running env -> world_ok w -> safe (detach_port env params) w.
Proof.
  intros He Hw. unfold safe, detach_port, lock. wp_steps; try done.
  all: simp_results; match goal with Hp : ports (inner ?w) !! ?name = Some ?p, Hok : world_ok ?w |- _ =>
    pose proof (detach_world name p {| lp_id := lp_id p; lp_network := None; lp_mac := None; lp_nic := lp_nic p |}
      w Hok Hp eq_refl eq_refl) as Hdet
  end.
  all: try exact Hdet.
  all: try (apply persist_teardown_keeps; [done|]; apply unpublished_world;
    [|apply unpublish_all_unique, (dp_unique _ Hw)]).
  all: try exact Hdet.
  all: by eapply release_world; [exact Hdet|eassumption..].
Qed.

Lemma allocate_ip_keeps env params w : world_ok w -> safe (allocate_ip env params) w.
Proof.
  intros Hw. unfold safe, allocate_ip, lock. wp_steps; try done.
  all: simp_results; by eapply allocate_world; [exact Hw|eassumption..|by eapply parse_mac_wf].
Qed.

Lemma release_ip_keeps env params w : running env -> world_ok w -> safe (release_ip env params) w.
Proof.
  intros He Hw. unfold safe, release_ip, lock. wp_steps; try done.
  all: simp_results. 2: by eapply release_world.
  apply wp_persist; [done|..]; intros d; wp_steps; apply set_disk_ok; by eapply release_world.
Qed.

(** The end of a publication change: save, then bring the process in line. *)
Lemma persist_ensure_keeps {A} env name (f : Inner V -> gmap Z Z) (a : A) w :
  running env -> world_ok w ->
  wp (persist env) w (fun _ s => wp (g ← locked; ip ← lift (reserved_ip g name);
        _ ← ensure_passt env name (show_ipv4_addr ip) (f g); mret a) s (fun _ => world_ok) (fun _ => world_ok))
    (fun _ => world_ok).
Proof.
  intros He Hw. apply wp_persist; [done|..]; intros d; [|by apply set_disk_ok].
  unfold locked. wp_steps; try by apply set_disk_ok.
  apply wp_ensure_passt; [|intros e]; intros w' Hc; wp_steps; (eapply same_core_ok; [exact Hc|]);
    by apply set_disk_ok.
Qed.

Lemma publish_port_keeps env params w : running env -> world_ok w -> safe (publish_port env params) w.
Proof.
  intros He Hw. unfold safe, publish_port, lock. wp_steps; try done.
  - by apply (persist_ensure_keeps env _ (fun g => published_of (publish_table g) _)).
  - match goal with Ha : pt_allocate _ ?n ?vm ?r = (_, ?t) |- _ =>
      assert (pt_unique t) by
        (pose proof (pt_allocate_unique (publish_table (inner w)) n vm r (dp_unique _ Hw)) as Hx; by rewrite Ha in Hx)
    end.
    apply (persist_ensure_keeps env _ (fun g => published_of (publish_table g) _)); [done|].
    by apply unpublished_world.
  - match goal with Ha : pt_allocate _ ?n ?vm ?r = (_, ?t) |- _ =>
      assert (pt_unique t) by
        (pose proof (pt_allocate_unique (publish_table (inner w)) n vm r (dp_unique _ Hw)) as Hx; by rewrite Ha in Hx)
    end. by apply unpublished_world.
Qed.

Lemma unpublish_port_keeps env params w : running env -> world_ok w -> safe (unpublish_port env params) w.
Proof.
  intros He Hw. unfold safe, unpublish_port, lock. wp_steps; try done.
  all: match goal with Ha : pt_remove ?t ?n ?vm = (_, ?t'), Hok : world_ok ?w |- _ =>
    assert (pt_unique t') by (apply (unique_shrink t); [|exact (dp_unique _ Hok)];
      intros p' v h Hg; apply (remove_shrinks t n vm); by rewrite Ha);
    pose proof (unpublished_world w Hok t' ltac:(assumption)) as Hok'
  end; try exact Hok'.
  all: apply wp_persist; [done|..]; intros d; [|by apply set_disk_ok].
  all: case_decide; unfold locked; wp_steps; try by apply set_disk_ok.
  all: try (apply wp_teardown_passt; intros w' Hc; wp_steps; eapply same_core_ok; [exact Hc|]; by apply set_disk_ok).
  all: apply wp_ensure_passt; [|intros e]; intros w' Hc; wp_steps; (eapply same_core_ok; [exact Hc|]);
    by apply set_disk_ok.
Qed.
End Handlers.

Section Theorems.
Context {V : Type} `{JsonValue V, SnapshotCodec V}.
Implicit Types (env : Env) (w : World V).

Lemma str_param_err (params : V) k e : str_param params k = Err e -> e = InvalidParams.
Proof. unfold str_param, ok_or. case_match; congruence. Qed.

Lemma u16_param_err (params : V) k e : u16_param params k = Err e -> e = InvalidParams.
Proof. unfold u16_param, ok_or. case_match; congruence. Qed.

Lemma handler_safe (env : Env) (name : string) (h : V -> op V V) (params : V) (w : World V) :
  running env -> world_ok w -> 0 <= next_port_id (inner w) < u32_max ->
  @handler (World V) V (dataplane env) name = Some h -> safe (h params) w.
Proof.
  intros He Hw Hid Hh.
  refine (@handler_cases (World V) V (dataplane env) (fun h => safe (h params) w) name h Hh
    _ _ _ _ _ _ _ _ _ _ _ _);
    simpl; auto using create_network_keeps, delete_network_keeps, get_network_keeps, create_port_keeps,
      delete_port_keeps, get_port_keeps, attach_port_keeps, detach_port_keeps, allocate_ip_keeps,
      release_ip_keeps, publish_port_keeps, unpublish_port_keeps.
Qed.

(** Every control-plane request keeps the state behind the mutex
    consistent: on success and on every error path, whatever the disk, the
    sockets and the processes do meanwhile, the handler does not panic and
    networks, gateway, ports, ids, switch and publish table still agree. *)
Theorem requests_keep_invariant (env : Env) (name : string) (h : V -> op V V) (params : V) (w : World V) :
  running env -> world_ok w -> 0 <= next_port_id (inner w) < u32_max ->
  @handler (World V) V (dataplane env) name = Some h ->
  exists w' r, h params w = Returns w' r /\ world_ok w'.
Proof.
  intros He Hw Hid Hh. destruct (wp_returns _ _ _ _ (handler_safe env name h params w He Hw Hid Hh)) as
    (w' & r & -> & Hr). exists w', r. split; [done|by destruct r].
Qed.

Lemma from_parts_ok dir d table : pt_unique table -> world_ok (from_parts (V := V) dir d table).
Proof.
  intros Ht. split; simpl; intros *; rewrite ?lookup_empty; try done.
  by split; [|intros (lp & Hl & _)].
Qed.

(** An attach that conflicts with the port's present attachment changes
    nothing at all, so no address is reserved. *)
Theorem attach_conflict_no_effect (env : Env) (w : World V) (params : V) (name net mac_text : string)
    (mac : MacAddr) (lp : LivePort) :
  poisoned w = false -> str_param params "port" = Ok name -> str_param params "network" = Ok net ->
  str_param params "mac" = Ok mac_text -> parse_mac mac_text = Ok mac ->
  ports (inner w) !! name = Some lp -> is_Some (lp_network lp) ->
  attach_port env params w =
    Returns w (if decide (lp_network lp = Some net /\ lp_mac lp = Some mac) then Ok Null else Err Conflict).
Proof.
  intros Hp Hn Hnet Ht Hmac Hl Ha. unfold attach_port, lock. run_cmd. unfold map_err.
  rewrite Hn, Hnet, Ht, Hmac, Hp, Hl. simpl.
  case_decide; [done|]. by rewrite decide_True.
Qed.

(** A poisoned mutex answers every well-formed request with an internal
    error and changes nothing. *)
Theorem poisoned_refuses (env : Env) (w : World V) (name : string) (h : V -> op V V) (params : V) :
  poisoned w = true -> @handler (World V) V (dataplane env) name = Some h ->
  exists e, h params w = Returns w (Err e) /\ (e = Internal \/ e = InvalidParams).
Proof.
  intros Hp Hh.
  refine (@handler_cases (World V) V (dataplane env)
    (fun h => exists e, h params w = Returns w (Err e) /\ (e = Internal \/ e = InvalidParams)) name h Hh
    _ _ _ _ _ _ _ _ _ _ _ _); simpl;
    unfold create_network, delete_network, get_network, create_port, delete_port, get_port, attach_port,
      detach_port, allocate_ip, release_ip, publish_port, unpublish_port, lock, map_err; run_cmd; rewrite Hp;
    repeat match goal with
    | |- context [str_param params ?k] =>
        let Hr := fresh "Hr" in destruct (str_param params k) eqn:Hr;
        [|apply str_param_err in Hr as ->; by eauto]
    | |- context [u16_param params ?k] =>
        let Hr := fresh "Hr" in destruct (u16_param params k) eqn:Hr;
        [|apply u16_param_err in Hr as ->; by eauto]
    | |- context [parse_mac ?t] => destruct (parse_mac t)
    end; eauto.
Qed.
End Theorems.
