(* ===== verification/Control.v ===== *)
(** * What the control operations achieve (crates/k8netd/src/dataplane.rs)

    Theorems about the twelve operations of [Dataplane]: durability of what
    they report, and the state and processes they leave behind. *)
From S2P Require Import Prelude RustStd Model Ipam Json Protocol StateStore Server.
From S2P Require Import Frame MacTable Engine Gateway Dns Passt Packet Dataplane.
Import Dp.

(** ** Durability *)
Section Durable.
Context {V : Type} `{JsonLaws V, !SnapshotCodec V, !SnapshotLaws V}.
Implicit Types (env : Env) (g : Inner V) (w : World V).

(** The state file holds the present state. *)
Definition saved w : Prop := exists b,
  live (disk w) !! path_join (socket_dir w) STATE_FILE_NAME =
    Some {| contents := snapshot_to_string (from_store (to_store (inner w))); synced := b |}.

Lemma saved_loads env w :
  saved w -> env_disk env (Read (path_join (socket_dir w) STATE_FILE_NAME)) = Done ->
  load_from_disk (env_disk env) (socket_dir w) (disk w) = Returns (disk w) (Ok (to_store (inner w))).
Proof. intros [b Hb] He. by eapply load_saved. Qed.

(** Processes and their slots are not part of the saved state. *)
Lemma saved_core w w' : same_core w w' -> saved w -> saved w'.
Proof. intros (Hs & _ & Hd & _ & f & Hf) Hw. unfold saved. rewrite Hs, Hd, Hf. exact Hw. Qed.

Lemma saved_log e w : saved w -> saved (log e w).
Proof. done. Qed.

Lemma wp_persist_saved env w (Q : unit -> World V -> Prop) R :
  running env -> (forall d, saved (set_disk d w) -> Q tt (set_disk d w)) ->
  (forall d, R Internal (set_disk d w)) -> wp (persist env) w Q R.
Proof.
  intros He HQ HR. unfold wp, persist.
  destruct (save_runs (env_disk env) (to_store (inner w)) (socket_dir w) (disk w) He) as (d & r & Hs).
  rewrite Hs. destruct r as [[]|e]; [|apply HR]. apply HQ. exists true. by eapply save_ok_live.
Qed.

(** A handler that reports success leaves the state saved. *)
Definition ends_saved {A} (m : op V A) w : Prop := wp m w (fun _ => saved) (fun _ _ => True).

Ltac saved_tails :=
  repeat first
    [ done
    | apply saved_log
    | apply wp_persist_saved; [done| |done]; intros ? ?
    | apply wp_ensure_passt; [|done]; intros ? ?
    | apply wp_teardown_passt; intros ? ?
    | progress wp_steps
    | eapply saved_core; [eassumption|] ].

Lemma create_network_saved env params w : running env -> saved w -> ends_saved (create_network env params) w.
Proof. intros He Hw. unfold ends_saved, create_network, lock. saved_tails. Qed.

Lemma delete_network_saved env params w : running env -> saved w -> ends_saved (delete_network env params) w.
Proof. intros He Hw. unfold ends_saved, delete_network, lock. saved_tails. Qed.

Lemma get_network_saved env params w : saved w -> ends_saved (get_network env params) w.
Proof. intros Hw. unfold ends_saved, get_network, lock. saved_tails. Qed.

Lemma create_port_saved env params w : running env -> saved w -> ends_saved (create_port env params) w.
Proof. intros He Hw. unfold ends_saved, create_port, lock. saved_tails. Qed.

Lemma delete_port_saved env params w : running env -> saved w -> ends_saved (delete_port env params) w.
Proof. intros He Hw. unfold ends_saved, delete_port, lock. saved_tails. Qed.

Lemma get_port_saved env params w : saved w -> ends_saved (get_port env params) w.
Proof. intros Hw. unfold ends_saved, get_port, lock. saved_tails. Qed.

Lemma attach_port_saved env params w : running env -> saved w -> ends_saved (attach_port env params) w.
Proof. intros He Hw. unfold ends_saved, attach_port, lock. saved_tails. Qed.

Lemma detach_port_saved env params w : running env -> saved w -> ends_saved (detach_port env params) w.
Proof. intros He Hw. unfold ends_saved, detach_port, lock. saved_tails. Qed.

Lemma release_ip_saved env params w : running env -> saved w -> ends_saved (release_ip env params) w.
Proof. intros He Hw. unfold ends_saved, release_ip, lock. saved_tails. Qed.

Lemma publish_port_saved env params w : running env -> saved w -> ends_saved (publish_port env params) w.
Proof. intros He Hw. unfold ends_saved, publish_port, lock, locked. saved_tails. Qed.

Lemma unpublish_port_saved env params w : running env -> saved w -> ends_saved (unpublish_port env params) w.
Proof. intros He Hw. unfold ends_saved, unpublish_port, lock, locked. saved_tails. Qed.

Lemma handler_saved env name h params w :
  running env -> saved w -> @handler (World V) V (dataplane env) name = Some h -> name <> "AllocateIP" ->
  ends_saved (h params) w.
Proof.
  intros He Hw Hh Hne. unfold handler in Hh.
  repeat (case_decide; [subst; injection Hh as <-; simpl;
    first [done | auto using create_network_saved, delete_network_saved, get_network_saved, create_port_saved,
      delete_port_saved, get_port_saved, attach_port_saved, detach_port_saved, release_ip_saved,
      publish_port_saved, unpublish_port_saved]|]). done.
Qed.

(** C7: durability of success. From a saved state, every request but the
    allocation of an address that reports success leaves a state file from
    which the next start reads back exactly the state in force: networks,
    ports, reservations and the publish table. *)
Theorem success_is_durable (env env' : Env) (name : string) (h : V -> op V V) (params v : V) (w w' : World V) :
  running env -> saved w -> @handler (World V) V (dataplane env) name = Some h -> name <> "AllocateIP" ->
  h params w = Returns w' (Ok v) ->
  env_disk env' (Read (path_join (socket_dir w') STATE_FILE_NAME)) = Done ->
  saved w' /\
  load_from_disk (env_disk env') (socket_dir w') (disk w') = Returns (disk w') (Ok (to_store (inner w'))).
Proof.
  intros He Hw Hh Hne Hr Hread. assert (Hs : saved w').
  { pose proof (handler_saved env name h params w He Hw Hh Hne) as Hx. unfold ends_saved, wp in Hx. by rewrite Hr in Hx. }
  split; [done|by apply saved_loads].
Qed.

(** What a restart brings back from a saved state: the publish table and
    nothing else. Networks, ports and reservations are in the file but are
    not restored. *)
Theorem restart_restores_table_only (env : Env) (w : World V) :
  saved w -> env_disk env (Read (path_join (socket_dir w) STATE_FILE_NAME)) = Done ->
  try_new (env_disk env) (socket_dir w) (disk w) =
    Some (Ok (from_parts (socket_dir w) (disk w) (publish_table (inner w)))) /\
  Dp.new (env_disk env) (socket_dir w) (disk w) =
    Some (from_parts (socket_dir w) (disk w) (publish_table (inner w))) /\
  networks (inner (from_parts (V := V) (socket_dir w) (disk w) (publish_table (inner w)))) = ∅.
Proof.
  intros Hs He. unfold try_new, Dp.new. by rewrite !(saved_loads env w Hs He).
Qed.

(** An address allocated by the control plane is never written to the
    state file by the request itself: the reservation is in force, and the
    disk is as it was. *)
Theorem allocate_ip_unsaved (env : Env) (w : World V) (params : V) (net mac_text : string) (mac : MacAddr)
    (e : NetworkEntry V) (ip : Ipv4Addr) (i : Ipam) :
  poisoned w = false -> str_param params "network" = Ok net -> str_param params "mac" = Ok mac_text ->
  parse_mac mac_text = Ok mac -> networks (inner w) !! net = Some e -> allocate (ne_ipam e) mac = (Ok ip, i) ->
  exists w', allocate_ip env params w = Returns w' (Ok (Str (show_ipv4_addr ip))) /\
    disk w' = disk w /\ trace w' = trace w /\
    networks (inner w') !! net = Some {| ne_ipam := i; created_with := created_with e |}.
Proof.
  intros Hp Hn Ht Hm He Ha. eexists. unfold allocate_ip, lock, map_err. run_cmd.
  rewrite Hn, Ht, Hm, Hp, He. simpl. rewrite Ha. simpl. split_and!; [done..|].
  unfold put_ipam. simpl. by rewrite lookup_insert_eq.
Qed.
End Durable.

(** ** What the operations leave behind *)
Section Effects.
Context {V : Type} `{JsonValue V, SnapshotCodec V}.
Implicit Types (env : Env) (g : Inner V) (w : World V).

Lemma core_proj {A} (f : Inner V -> A) w w' :
  (forall h g, f (set_passts h g) = f g) -> same_core w w' -> f (inner w') = f (inner w).
Proof. intros Hf (_ & _ & _ & _ & h & ->). apply Hf. Qed.

(** The configuration of the process of an attached port. *)
Definition config_of (e : NetworkEntry V) (vm_ip : Ipv4Addr) (published : gmap Z Z) : PasstConfig :=
  let n := ipam_network (ne_ipam e) in
  passt_config_for (show_ipv4_addr vm_ip) (show_ipv4_addr (netmask (net_cidr n))) (show_ipv4_addr (net_gateway n)) published.

Lemma config_of_network e e' ip t :
  ipam_network (ne_ipam e) = ipam_network (ne_ipam e') -> config_of e ip t = config_of e' ip t.
Proof. unfold config_of. by intros ->. Qed.

(** The slot of [port] wants [config]; [up] says whether its process runs. *)
Definition slot_is w (port : string) (config : PasstConfig) (up : bool) : Prop :=
  exists slot, passts (inner w) !! port = Some slot /\ desired slot = config /\
    (if up then is_Some (live_proc slot) else live_proc slot = None).

Lemma wp_ensure_passt_slot env port ip published w p n e (Q : unit -> World V -> Prop) (R : RpcError -> World V -> Prop) :
  ports (inner w) !! port = Some p -> lp_network p = Some n -> networks (inner w) !! n = Some e ->
  (forall w', same_core w w' -> slot_is w' port (config_of e ip published) true -> Q tt w') ->
  (forall w', same_core w w' -> slot_is w' port (config_of e ip published) false -> R Internal w') ->
  wp (ensure_passt env port (show_ipv4_addr ip) published) w Q R.
Proof.
  intros Hp Hn He HQ HR. unfold ensure_passt, locked. apply wp_bind, wp_bind, wp_get, wp_ret.
  rewrite Hp. cbn [mbind option_bind]. rewrite Hn. apply wp_bind, wp_lift; [|done]. intros ? [= <-].
  rewrite He. apply wp_bind, wp_lift; [|done]. intros ? [= <-]. cbv zeta. fold (config_of e ip published).
  set (slot := default _ (passts (inner w) !! port)).
  case_decide as Hsame.
  - apply wp_ret, HQ; [apply same_core_refl|]. destruct Hsame as [Hlive Hd].
    destruct (passts (inner w) !! port) as [s|] eqn:Hs; simpl in *; [by exists s|by destruct Hlive].
  - apply wp_bind, wp_stop_proc. intros w1 Hw1. unfold spawn_slot. cbn [desired failures uplink_mac].
    destruct (spawn (config_of e ip published) (env_spawn env)) as [[argv fds] [p'|err]]; wp_steps;
      [apply HQ|apply HR]; try (eapply same_core_trans; [exact Hw1|apply same_core_spawn]).
    all: eexists; split; [simpl; by rewrite lookup_insert_eq|done].
Qed.

(** [port] is attached to [net] as [mac]: in the port table, on the switch and
    at the gateway. *)
Definition joined g (port : string) (id : Z) (net : string) (mac : MacAddr) : Prop :=
  ports g !! port = Some {| lp_id := id; lp_network := Some net; lp_mac := Some mac; lp_nic := Some mac |} /\
  Engine.ports (switch g) !! id = Some net /\ gw_ports (gateway g) !! id = Some net.

Lemma joined_core w w' port id net mac :
  same_core w w' -> joined (inner w) port id net mac -> joined (inner w') port id net mac.
Proof. intros (_ & _ & _ & _ & f & ->). done. Qed.

Lemma slot_disk w d port c up : slot_is w port c up -> slot_is (set_disk d w) port c up.
Proof. done. Qed.

(** What an attachment leaves. *)
Lemma attach_spec (env : Env) (w : World V) (params : V) (name net mac_text : string) (mac : MacAddr)
    (lp : LivePort) (e : NetworkEntry V) (ip : Ipv4Addr) (i : Ipam) :
  running env -> world_ok w -> poisoned w = false ->
  str_param params "port" = Ok name -> str_param params "network" = Ok net ->
  str_param params "mac" = Ok mac_text -> parse_mac mac_text = Ok mac ->
  ports (inner w) !! name = Some lp -> lp_network lp = None ->
  networks (inner w) !! net = Some e -> allocate (ne_ipam e) mac = (Ok ip, i) ->
  exists w' r, attach_port env params w = Returns w' r /\ (r = Ok Null \/ r = Err Internal) /\
    joined (inner w') name (lp_id lp) net mac /\
    networks (inner w') !! net = Some {| ne_ipam := i; created_with := created_with e |} /\
    lookup_mac i mac = Some ip /\ in_pool (net_pool (ipam_network (ne_ipam e))) ip /\
    exists up, slot_is w' name (config_of e ip ∅) up /\ (r = Ok Null -> up = true).
Proof.
  intros He Hw Hp H1 H2 H3 H4 Hport Hnone Hnet Ha.
  assert (Hl : lookup_mac i mac = Some ip) by (pose proof (allocate_lookup (ne_ipam e) mac ip) as Hx; rewrite Ha in Hx; auto).
  assert (Hsame : ipam_network i = ipam_network (ne_ipam e))
    by (pose proof (allocate_network (ne_ipam e) mac) as Hx; by rewrite Ha in Hx).
  assert (Hcfg : config_of {| ne_ipam := i; created_with := created_with e |} ip ∅ = config_of e ip ∅)
    by (by apply config_of_network).
  assert (Hpool : in_pool (net_pool (ipam_network (ne_ipam e))) ip).
  { destruct (dp_networks _ Hw net e Hnet) as [_ Hok].
    pose proof (allocate_ok (ne_ipam e) mac (parse_mac_wf _ _ H4) Hok) as Hi. rewrite Ha in Hi.
    pose proof (ok_pool _ Hi mac ip Hl) as Hx. by rewrite <- Hsame. }
  pose (post := fun up w' => joined (inner w') name (lp_id lp) net mac /\
    networks (inner w') !! net = Some {| ne_ipam := i; created_with := created_with e |} /\
    slot_is w' name (config_of e ip ∅) up).
  assert (Hwp : wp (attach_port env params) w (fun v w' => v = Null /\ post true w')
    (fun err w' => err = Internal /\ exists up, post up w')).
  { unfold attach_port, lock. wp_steps; simp_results; determine.
    match goal with |- wp _ ?w0 _ _ => set (w1 := w0) end.
    assert (Hj : joined (inner w1) name (lp_id lp) net mac) by (unfold joined; simpl; by rewrite !lookup_insert_eq).
    assert (Hn : networks (inner w1) !! net = Some {| ne_ipam := i; created_with := created_with e |})
      by (simpl; by rewrite lookup_insert_eq).
    eapply wp_ensure_passt_slot; [apply Hj|done|exact Hn|..]; intros w' Hc Hslot; rewrite Hcfg in Hslot;
      (assert (Hpost : forall b, slot_is w' name (config_of e ip ∅) b -> post b w')
         by (intros b Hb; split_and!; [by eapply joined_core|by rewrite (core_proj networks w1 w' ltac:(done) Hc)|done])).
    - apply wp_bind, wp_persist; [done|..]; intros d; [split; [done|by apply (Hpost true)]|].
      split; [done|]. exists true. by apply (Hpost true).
    - split; [done|]. exists false. by apply Hpost. }
  apply wp_returns in Hwp as (w' & [v|err] & -> & Hpost).
  - destruct Hpost as (-> & Hj & Hn & Hs). eexists w', _. split_and!; eauto.
  - destruct Hpost as (-> & up & Hj & Hn & Hs). eexists w', _. split_and!; eauto. exists up. by split.
Qed.

(** C21: attaching a free port to a network with a free or reserved address.
    Whatever the disk and the process do, the port, the switch and the gateway
    agree on the attachment, the address of the MAC is reserved, in the pool,
    and the port's passt process is configured for it without forwards; the
    request succeeds only with the process running, and the one error is an
    internal one. *)
Theorem attach_effect (env : Env) (w : World V) (params : V) (name net mac_text : string) (mac : MacAddr)
    (lp : LivePort) (e : NetworkEntry V) (ip : Ipv4Addr) (i : Ipam) :
  running env -> world_ok w -> poisoned w = false ->
  str_param params "port" = Ok name -> str_param params "network" = Ok net ->
  str_param params "mac" = Ok mac_text -> parse_mac mac_text = Ok mac ->
  ports (inner w) !! name = Some lp -> lp_network lp = None ->
  networks (inner w) !! net = Some e -> allocate (ne_ipam e) mac = (Ok ip, i) ->
  exists w' r, attach_port env params w = Returns w' r /\ (r = Ok Null \/ r = Err Internal) /\
    joined (inner w') name (lp_id lp) net mac /\
    networks (inner w') !! net = Some {| ne_ipam := i; created_with := created_with e |} /\
    lookup_mac i mac = Some ip /\ in_pool (net_pool (ipam_network (ne_ipam e))) ip /\
    exists up, slot_is w' name (config_of e ip ∅) up /\ (r = Ok Null -> up = true).
Proof. by apply attach_spec. Qed.

(** [name] is attached to [net], where [ip] is reserved for its MAC. *)
Definition attached_at g (name net : string) (lp : LivePort) (mac : MacAddr) (e : NetworkEntry V) (ip : Ipv4Addr) : Prop :=
  ports g !! name = Some lp /\ lp_network lp = Some net /\ lp_mac lp = Some mac /\
  networks g !! net = Some e /\ lookup_mac (ne_ipam e) mac = Some ip.

Lemma reserved_ip_attached g name net lp mac e ip :
  attached_at g name net lp mac e ip -> reserved_ip g name = Ok ip.
Proof.
  intros (Hp & Hn & Hm & He & Hi). unfold reserved_ip. rewrite Hp. simpl. rewrite Hn. simpl. rewrite Hm. simpl.
  rewrite He. simpl. by rewrite Hi.
Qed.

(** The end of a publication change on an attached port. *)
Lemma wp_persist_ensure {A} env name net lp mac e ip (pub : Inner V -> gmap Z Z) (a : A) w Q R :
  running env -> attached_at (inner w) name net lp mac e ip ->
  (forall w', same_core (set_disk (disk w') w) w' ->
    slot_is w' name (config_of e ip (pub (inner w))) true -> Q a w') ->
  (forall w', same_core (set_disk (disk w') w) w' -> R Internal w') ->
  wp (persist env) w (fun _ s => wp (g ← locked; ip ← lift (reserved_ip g name);
        _ ← ensure_passt env name (show_ipv4_addr ip) (pub g); mret a) s Q R) R.
Proof.
  intros He Ha HQ HR. apply wp_persist; [done|..]; intros d; [|apply HR; apply same_core_refl].
  unfold locked. apply wp_bind, wp_bind, wp_get, wp_ret. apply wp_bind, wp_lift;
    change (inner (set_disk d w)) with (inner w); rewrite (reserved_ip_attached _ _ _ _ _ _ _ Ha); [|done].
  intros ? [= <-]. apply wp_bind. destruct Ha as (Hp & Hn & Hm & Hnet & Hi).
  eapply wp_ensure_passt_slot; [exact Hp|exact Hn|exact Hnet|..]; intros w' Hc Hs;
    pose proof Hc as (_ & _ & Hd & _); simpl in Hd; rewrite <- Hd in Hc; [by apply HQ|by apply HR].
Qed.

Lemma published_forward t name vm h e ip :
  pt_get t name vm = Some h ->
  {| pf_host := h; pf_vm := vm |} ∈ forwards (config_of e ip (published_of t name)).
Proof.
  unfold pt_get, published_of, config_of. intros Hg. simpl. apply list_elem_of_fmap. exists (vm, h). split; [done|].
  apply elem_of_btree_entries. destruct (entries t !! name); [done|by simpl in Hg].
Qed.

(** C22: publishing a VM port of an attached port. The host port is the one the
    publish table allocates, in its range; when the range is used up the
    answer is a conflict and the table is untouched. Success means that the
    port's passt process runs with that forward; the only other error is
    internal. *)
Theorem publish_effect (env : Env) (w : World V) (params : V) (name net : string) (vm : Z) (lp : LivePort)
    (mac : MacAddr) (e : NetworkEntry V) (ip : Ipv4Addr) :
  running env -> poisoned w = false -> str_param params "port" = Ok name -> u16_param params "vm_port" = Ok vm ->
  attached_at (inner w) name net lp mac e ip ->
  let '(a, t) := pt_allocate (publish_table (inner w)) name vm (publish_range (inner w)) in
  exists w' r, publish_port env params w = Returns w' r /\ publish_table (inner w') = t /\
    match a with
    | None => r = Err Conflict /\ t = publish_table (inner w)
    | Some h =>
        pt_get t name vm = Some h /\ (r = Ok (Obj [("host_port", Num h)]) \/ r = Err Internal) /\
        (is_ok r = true -> exists config, slot_is w' name config true /\ config = config_of e ip (published_of t name) /\
          {| pf_host := h; pf_vm := vm |} ∈ forwards config)
    end.
Proof.
  intros He Hp H1 H2 Ha. pose proof (pt_allocate_cases (publish_table (inner w)) name vm (publish_range (inner w))) as Hspec.
  destruct (pt_allocate (publish_table (inner w)) name vm (publish_range (inner w))) as [a t] eqn:Halloc.
  assert (Hatt : is_Some (p ← ports (inner w) !! name; lp_network p)).
  { destruct Ha as (Hx & Hn & _). rewrite Hx. simpl. rewrite Hn. by eexists. }
  assert (Hwp : wp (publish_port env params) w
    (fun v w' => exists h, a = Some h /\ v = Obj [("host_port", Num h)] /\ publish_table (inner w') = t /\
      slot_is w' name (config_of e ip (published_of t name)) true)
    (fun err w' => publish_table (inner w') = t /\ err = (match a with Some _ => Internal | None => Conflict end))).
  { unfold publish_port, lock. wp_steps; simp_results; determine; try done.
    - match goal with Hg : pt_get _ _ _ = Some ?z |- _ =>
        assert (a = Some z /\ t = publish_table (inner w)) as [-> ->]
          by (unfold pt_allocate in Halloc; rewrite Hg in Halloc; by injection Halloc as <- <-);
        eapply (wp_persist_ensure _ _ _ _ _ _ _ (fun g => published_of (publish_table g) name)); [done|exact Ha|..];
        [intros w' (_ & _ & _ & _ & f & Hf) Hs; exists z; rewrite Hf; by split_and!
        |intros w' (_ & _ & _ & _ & f & Hf); by rewrite Hf]
      end.
    - match goal with |- context [Num ?z] =>
        assert (a = Some z) as -> by done;
        eapply (wp_persist_ensure _ _ _ _ _ _ _ (fun g => published_of (publish_table g) name)); [done|exact Ha|..];
        [intros w' (_ & _ & _ & _ & f & Hf) Hs; exists z; rewrite Hf; by split_and!
        |intros w' (_ & _ & _ & _ & f & Hf); by rewrite Hf]
      end.
    - split; [done|]. destruct a; [done|]. by match goal with Hx : ok_or None _ = Err _ |- _ => injection Hx as <- end. }
  apply wp_returns in Hwp as (w' & r & -> & Hpost). exists w', r. split; [done|].
  destruct r as [v|err].
  - destruct Hpost as (h & -> & -> & -> & Hs). destruct Hspec as (Hg & _ & Hrange). split_and!; [done..|by left|].
    intros _. eexists. split_and!; [exact Hs|done|by apply published_forward].
  - destruct Hpost as [-> ->]. split; [done|]. destruct a as [h|]; [|by destruct Hspec].
    destruct Hspec as (Hg & _). split_and!; [done..|by right|done].
Qed.

Lemma wp_teardown_slot env port w (Q : unit -> World V -> Prop) R :
  (forall w', same_core w w' -> passts (inner w') = delete port (passts (inner w)) -> Q tt w') ->
  wp (teardown_passt env port) w Q R.
Proof.
  intros HQ. unfold teardown_passt, locked. apply wp_bind, wp_bind, wp_get, wp_ret.
  destruct (passts (inner w) !! port) as [slot|] eqn:Hs.
  2: { apply wp_ret, HQ; [apply same_core_refl|]. by rewrite delete_id. }
  apply wp_bind, wp_modify. unfold stop_proc. destruct (live_proc slot); [apply wp_modify|apply wp_ret];
    apply HQ; first [done | apply same_core_slots |
      eapply same_core_trans; [apply same_core_slots|by apply same_core_log]].
Qed.

(** Save, then stop the process of a port. *)
Lemma wp_persist_teardown {A} env port (k : op V A) w (Q : A -> World V -> Prop) R :
  running env ->
  (forall w', same_core (set_disk (disk w') w) w' -> passts (inner w') = delete port (passts (inner w)) -> wp k w' Q R) ->
  (forall d, R Internal (set_disk d w)) ->
  wp (persist env) w (fun _ s => wp (teardown_passt env port ≫= fun _ => k) s Q R) R.
Proof.
  intros He HQ HR. apply wp_persist; [done|intros d|exact HR]. apply wp_bind, wp_teardown_slot. intros w' Hc Hp.
  pose proof Hc as (_ & _ & Hd & _). simpl in Hd. rewrite <- Hd in Hc. by apply HQ.
Qed.

Lemma release_bind_None g (lp : LivePort) net mac e :
  (network ← lp_network lp; mac ← lp_mac lp; e ← networks g !! network; Some (network, mac, e)) = None ->
  lp_network lp = Some net -> lp_mac lp = Some mac -> networks (V := V) g !! net <> Some e.
Proof. intros Hb Hn Hm He. rewrite Hn in Hb. simpl in Hb. rewrite Hm in Hb. simpl in Hb. by rewrite He in Hb. Qed.

(** No trace of a port is left: not the port, its id, its place on the switch
    and at the gateway, its published ports, nor its reservation. *)
Definition erased (name : string) (lp : LivePort) (g g' : Inner V) : Prop :=
  ports g' = delete name (ports g) /\ names g' = delete (lp_id lp) (names g) /\
  Engine.ports (switch g') !! lp_id lp = None /\ gw_ports (gateway g') !! lp_id lp = None /\
  (forall vm, pt_get (publish_table g') name vm = None) /\
  (forall net mac e, lp_network lp = Some net -> lp_mac lp = Some mac -> networks g !! net = Some e ->
    exists e', networks g' !! net = Some e' /\ lookup_mac (ne_ipam e') mac = None).

(** A port's record without its attachment. *)
Definition unattached (lp : LivePort) : LivePort :=
  {| lp_id := lp_id lp; lp_network := None; lp_mac := None; lp_nic := lp_nic lp |}.

(** Stopping the passt process and removing the socket leaves the port erased. *)
Lemma erased_unlinked name lp g (w0 w' : World V) :
  erased name lp g (inner w0) -> same_core w0 w' -> passts (inner w') = delete name (passts (inner w0)) ->
  let w1 := log (Unlinked (socket_path w' name)) w' in
  erased name lp g (inner w1) /\ Null (V := V) = Null /\ passts (inner w1) = delete name (passts (inner w0)) /\
  last (trace w1) = Some (Unlinked (socket_path w0 name)).
Proof.
  intros Hgone (Hs & _ & _ & _ & f & Hf) Hpt. simpl. split_and!; [|done|exact Hpt|].
  - rewrite Hf. exact Hgone.
  - rewrite last_snoc. unfold socket_path. by rewrite Hs.
Qed.

(** C23: deleting a port removes every trace of it, whether or not the state
    can be saved: the port, its id, its place on the switch and at the
    gateway, its published ports and its reservation. Only when the save
    succeeds are its socket and its passt process removed too. *)
Theorem delete_port_clears (env : Env) (w : World V) (params : V) (name : string) (lp : LivePort) :
  running env -> poisoned w = false -> str_param params "name" = Ok name -> ports (inner w) !! name = Some lp ->
  exists w' r, delete_port env params w = Returns w' r /\ erased name lp (inner w) (inner w') /\
    match r with
    | Ok v => v = Null /\ passts (inner w') = delete name (passts (inner w)) /\
        last (trace w') = Some (Unlinked (socket_path w name))
    | Err err => err = Internal /\ passts (inner w') = passts (inner w) /\ trace w' = trace w
    end.
Proof.
  intros He Hp H1 Hport.
  assert (Hwp : wp (delete_port env params) w
    (fun v w' => erased name lp (inner w) (inner w') /\ v = Null /\ passts (inner w') = delete name (passts (inner w)) /\
       last (trace w') = Some (Unlinked (socket_path w name)))
    (fun err w' => erased name lp (inner w) (inner w') /\ err = Internal /\ passts (inner w') = passts (inner w) /\ trace w' = trace w)).
  { unfold delete_port, lock. wp_steps; simp_results; determine.
    all: match goal with |- wp _ ?w0 _ _ => assert (Hgone : erased name lp (inner w) (inner w0)) end.
    all: try (unfold erased; simpl; split_and!; try done; try (by rewrite lookup_delete_eq);
      try (intros vm; exact (pt_remove_port_None (publish_table (inner w)) name vm))).
    all: try (eapply wp_persist_teardown; [done| |intros d; by split_and!]; intros w' Hc Hpt; wp_steps;
      exact ((fun H => erased_unlinked _ _ _ _ _ H Hc Hpt) Hgone)).
    - intros net mac e Hn Hm Hnet. simplify_eq.
      match goal with Hb : (_ ≫= _) = Some _ |- _ => rewrite Hn in Hb; simpl in Hb; rewrite Hm in Hb; simpl in Hb;
        rewrite Hnet in Hb; injection Hb as <- <- <- end.
      eexists. rewrite lookup_insert_eq. split; [done|]. apply release_lookup.
    - intros net mac e Hn Hm Hnet.
      match goal with Hb : (_ ≫= _) = None |- _ => by destruct (release_bind_None _ _ _ _ e Hb Hn Hm) end. }
  apply wp_returns in Hwp as (w' & r & -> & Hpost). exists w', r. split; [done|]. destruct r; tauto.
Qed.

(** Withdrawing the last published port of an attached port stops its
    passt process although the port stays attached: with the process goes the
    port's way to the WAN, which attaching had opened. *)
Theorem unpublish_last_stops_passt (env : Env) (w : World V) (params : V) (name net : string) (vm h : Z)
    (lp : LivePort) (mac : MacAddr) (e : NetworkEntry V) (ip : Ipv4Addr) (t : PublishTable) :
  running env -> poisoned w = false -> str_param params "port" = Ok name -> u16_param params "vm_port" = Ok vm ->
  attached_at (inner w) name net lp mac e ip ->
  pt_remove (publish_table (inner w)) name vm = (Some h, t) -> published_of t name = ∅ ->
  exists w' r, unpublish_port env params w = Returns w' r /\
    publish_table (inner w') = t /\ attached_at (inner w') name net lp mac e ip /\
    match r with
    | Ok v => v = Null /\ passts (inner w') !! name = None
    | Err err => err = Internal /\ passts (inner w') = passts (inner w)
    end.
Proof.
  intros He Hp H1 H2 Ha Hrm Hempty.
  assert (Hwp : wp (unpublish_port env params) w
    (fun v w' => (publish_table (inner w') = t /\ attached_at (inner w') name net lp mac e ip) /\
       v = Null /\ passts (inner w') !! name = None)
    (fun err w' => (publish_table (inner w') = t /\ attached_at (inner w') name net lp mac e ip) /\
       err = Internal /\ passts (inner w') = passts (inner w))).
  { unfold unpublish_port, lock. wp_steps; simp_results; determine.
    rewrite decide_True by done. eapply wp_persist_teardown; [done| |done].
    intros w' (_ & _ & _ & _ & f & Hf) Hpt. apply wp_ret. rewrite Hpt, lookup_delete_eq, Hf. done. }
  apply wp_returns in Hwp as (w' & r & -> & Hpost). exists w', r. split; [done|]. destruct r; tauto.
Qed.

(** Detaching a port whose network has been deleted fails half way: the
    attachment is gone from the port, the switch and the gateway, but the
    published ports and the passt process stay, and nothing is saved. *)
Theorem detach_deleted_network (env : Env) (w : World V) (params : V) (name net : string) (mac : MacAddr) (lp : LivePort) :
  poisoned w = false -> str_param params "name" = Ok name ->
  ports (inner w) !! name = Some lp -> lp_network lp = Some net -> lp_mac lp = Some mac ->
  networks (inner w) !! net = None ->
  exists w', detach_port env params w = Returns w' (Err NotFound) /\
    ports (inner w') !! name = Some (unattached lp) /\
    Engine.ports (switch (inner w')) !! lp_id lp = None /\ gw_ports (gateway (inner w')) !! lp_id lp = None /\
    publish_table (inner w') = publish_table (inner w) /\ passts (inner w') = passts (inner w) /\
    disk w' = disk w /\ trace w' = trace w.
Proof.
  intros Hp H1 Hport Hn Hm Hnet.
  assert (Hwp : wp (detach_port env params) w (fun _ _ => False) (fun err w' => err = NotFound /\
    ports (inner w') !! name = Some (unattached lp) /\
    Engine.ports (switch (inner w')) !! lp_id lp = None /\ gw_ports (gateway (inner w')) !! lp_id lp = None /\
    publish_table (inner w') = publish_table (inner w) /\ passts (inner w') = passts (inner w) /\
    disk w' = disk w /\ trace w' = trace w)).
  { unfold detach_port, lock. wp_steps; simp_results; determine.
    all: try match goal with Hx : ok_or _ _ = Err _ |- _ => rewrite Hnet in Hx; injection Hx as <- end.
    all: simpl; rewrite ?lookup_insert_eq, ?lookup_delete_eq; split_and!; done. }
  apply wp_returns in Hwp as (w' & [v|err] & -> & Hpost); [done|]. destruct Hpost as (-> & Hpost). by exists w'.
Qed.
End Effects.
