(* ===== verification/Crash.v ===== *)
(** * Power losses and restarts

    What the published ports survive: the save of the state file
    ([StateStore]), the requests that call it ([Dataplane]) and the start that
    reads it back ([Dataplane.Dp.try_new]), composed; and what the file may
    hold once a save has failed. *)
From S2P Require Import Prelude RustStd Model Ipam Frame MacTable Engine Gateway Json StateStore Protocol Server.
From S2P Require Import Dns Dhcp Passt Packet Dataplane Control.
Import Dp.

(** ** A request that the machine does not survive

    The machine stops inside a system call. What it leaves on the disk is what
    the same call leaves when it fails. *)
Section Stops.
Context {V : Type} `{JsonValue V, SnapshotCodec V}.
Implicit Types (env : Env) (w : World V).

(** The same environment, in which calls fail instead. *)
Definition unstop (e : environment) : environment := fun c =>
  match e c with Stops torn => Fails EmptyString torn | o => o end.

Definition enduring env : Env := {|
  env_disk := unstop (env_disk env); env_bind := env_bind env; env_spawn := env_spawn env;
  env_polls := env_polls env; env_now := env_now env |}.

Lemma enduring_runs env : running (enduring env).
Proof. intros c t. simpl. unfold unstop. by destruct (env_disk env c). Qed.

(** [m'] does what [m] does, but ends with an error where [m] stops. *)
Definition stops_as {S A} (m m' : cmd S RpcError A) : Prop := forall s,
  m s = m' s \/ exists s', m s = Panics s' /\ m' s = Returns s' (Err Internal).

Lemma stops_refl {S A} (m : cmd S RpcError A) : stops_as m m.
Proof. intros s. by left. Qed.

Lemma stops_bind {S A B} (m m' : cmd S RpcError A) (f f' : A -> cmd S RpcError B) :
  stops_as m m' -> (forall a, stops_as (f a) (f' a)) -> stops_as (m ≫= f) (m' ≫= f').
Proof.
  intros Hm Hf s. unfold mbind, cmd_bind. destruct (Hm s) as [->|(s' & -> & ->)]; [|by right; exists s'].
  destruct (m' s) as [s' [a|e]|s']; [apply Hf|by left..].
Qed.

Lemma perform_stops e c path (d : fs) :
  perform e c path d = perform (unstop e) c path d \/
  exists d' err, perform e c path d = Panics d' /\ perform (unstop e) c path d = Returns d' (Err err).
Proof. unfold perform, unstop. destruct (e c); [by left|by left|right; by eexists _, _]. Qed.

Lemma save_stops e (store : StateStore V) path (d : fs) :
  save_to_disk e store path d = save_to_disk (unstop e) store path d \/
  exists d' err, save_to_disk e store path d = Panics d' /\ save_to_disk (unstop e) store path d = Returns d' (Err err).
Proof.
  assert (Hbind : forall (c : syscall) p (f f' : unit -> cmd fs StateError unit),
    (forall d, f tt d = f' tt d \/ exists d' err, f tt d = Panics d' /\ f' tt d = Returns d' (Err err)) ->
    forall d, (perform e c p ≫= f) d = (perform (unstop e) c p ≫= f') d \/
    exists d' err, (perform e c p ≫= f) d = Panics d' /\ (perform (unstop e) c p ≫= f') d = Returns d' (Err err)).
  { intros c p f f' Hf d0. unfold mbind, cmd_bind.
    destruct (perform_stops e c p d0) as [->|(d' & err & -> & ->)]; [|right; by eexists _, _].
    destruct (perform (unstop e) c p d0) as [d' [[]|err]|d']; [apply Hf|by left..]. }
  unfold save_to_disk. cbv zeta. do 3 (apply Hbind; intros ?). apply perform_stops.
Qed.

Lemma persist_stops env : stops_as (persist (V := V) env) (persist (enduring env)).
Proof.
  intros w. unfold persist. simpl.
  destruct (save_stops (env_disk env) (to_store (inner w)) (socket_dir w) (disk w)) as [->|(d' & err & -> & ->)];
    [by left|right; by eexists].
Qed.

Ltac stops_tac :=
  repeat first
    [ match goal with
      | |- stops_as (_ ≫= _) _ => apply stops_bind; [|intros ?]
      | |- stops_as (persist _) _ => apply persist_stops
      | |- stops_as (match ?x with _ => _ end) _ => destruct x
      | |- stops_as (let _ := _ in _) _ => cbv zeta
      end
    | apply stops_refl ].

(** Every request, wherever the machine stops. *)
Lemma handler_stops env name (h : V -> op V V) params :
  @handler (World V) V (dataplane env) name = Some h ->
  exists h', @handler (World V) V (dataplane (enduring env)) name = Some h' /\ stops_as (h params) (h' params).
Proof.
  unfold handler. intros Hh.
  repeat (case_decide; [injection Hh as <-; eexists; split; [done|]; clear;
    unfold dataplane, cp_create_network, cp_delete_network, cp_get_network, cp_create_port, cp_delete_port, cp_get_port,
      cp_attach_port, cp_detach_port, cp_allocate_ip, cp_release_ip, cp_publish_port, cp_unpublish_port,
      create_network, delete_network, get_network, create_port, delete_port, get_port, attach_port, detach_port,
      allocate_ip, release_ip, publish_port, unpublish_port;
    change (env_bind (enduring env)) with (env_bind env); stops_tac|]).
  done.
Qed.
End Stops.

(** ** What the state file can read as *)
Section Crash.
Context {V : Type} `{JsonLaws V, !SnapshotCodec V, !SnapshotLaws V}.
Implicit Types (env : Env) (g : Inner V) (w : World V) (t : PublishTable).

(** The state file: none, for the empty table, or a saved document. *)
Definition records (o : option string) t : Prop :=
  (o = None /\ t = pt_empty) \/
  exists s : StateStore V, o = Some (snapshot_to_string (from_store s)) /\ st_publish_table s = t.

Definition state_file (dir : string) : string := path_join dir STATE_FILE_NAME.

(** Whatever a power loss leaves, the file holds one of the tables [T]. *)
Definition holds (T : PublishTable -> Prop) (dir : string) (d : fs) : Prop :=
  clean d (state_file dir) /\ forall o, may_read d (state_file dir) o -> exists t, records o t /\ T t.

(** It holds the published ports in force. *)
Definition durable w : Prop := holds (eq (publish_table (inner w))) (socket_dir w) (disk w).

Lemma holds_mono (T T' : PublishTable -> Prop) dir d : (forall t, T t -> T' t) -> holds T dir d -> holds T' dir d.
Proof. intros HT [Hc Hr]. split; [done|]. intros o Ho. destruct (Hr o Ho) as (t & ? & ?). eauto. Qed.

Lemma durable_core w w' : same_core w w' -> durable w -> durable w'.
Proof.
  intros (Hs & _ & Hd & _ & f & Hf) Hw. unfold durable. by rewrite Hs, Hd, Hf.
Qed.

Lemma durable_log e w : durable w -> durable (log e w).
Proof. done. Qed.

Definition disk_works env : Prop := forall c, env_disk env c = Done.

Lemma save_works e (store : StateStore V) path (d : fs) :
  (forall c, e c = Done) -> exists d', save_to_disk e store path d = Returns d' (Ok tt).
Proof. intros He. unfold save_to_disk, perform. run_cmd. rewrite !He. by eexists. Qed.

(** Saving leaves the table in force, or it fails and the file holds what it
    held or the table in force. *)
Definition held (T : PublishTable -> Prop) w : Prop :=
  holds (fun t => T t \/ t = publish_table (inner w)) (socket_dir w) (disk w).

Lemma wp_persist_held env w T (Q : unit -> World V -> Prop) (R : RpcError -> World V -> Prop) :
  running env -> holds T (socket_dir w) (disk w) ->
  (forall d, durable (set_disk d w) -> Q tt (set_disk d w)) ->
  (forall d, ~ disk_works env -> held T (set_disk d w) -> R Internal (set_disk d w)) ->
  wp (persist env) w Q R.
Proof.
  intros He [Hc Hr] HQ HR. unfold wp, persist.
  pose proof (save_steps (env_disk env) (to_store (inner w)) (socket_dir w) (disk w)) as Hs.
  destruct (saved_clean _ _ _ _ _ Hs Hc) as [Hc' Hread].
  destruct (save_runs (env_disk env) (to_store (inner w)) (socket_dir w) (disk w) He) as (d & r & Hsave).
  rewrite Hsave in *. simpl in Hc', Hread.
  assert (Hnew : records (Some (snapshot_to_string (from_store (to_store (inner w))))) (publish_table (inner w))).
  { right. by exists (to_store (inner w)). }
  destruct r as [[]|e].
  - apply HQ. split; [exact Hc'|]. simpl. intros o Ho. exists (publish_table (inner w)). split; [|done].
    inversion Hs as [? ? ? [?|[? ?]]|? ? ? ? [?|[? ?]]|d' Hl Hst]; try done. subst.
    unfold state_file in Ho. rewrite (may_read_clean _ _ _ Hc'), Hst, Hl in Ho. simpl in Ho. by destruct Ho as [-> | ->].
  - apply HR.
    + intros Hw. destruct (save_works (env_disk env) (to_store (inner w)) (socket_dir w) (disk w) Hw) as [d' Hx]. congruence.
    + split; [exact Hc'|]. simpl. intros o Ho. destruct (Hread o Ho) as [Hold| ->]; [|by eauto].
      destruct (Hr o Hold) as (t' & Ht & HT). eauto.
Qed.

(** Saving moves the file from the table [t] to the one in force. *)
Lemma wp_persist_holds env w t (Q : unit -> World V -> Prop) (R : RpcError -> World V -> Prop) :
  running env -> holds (eq t) (socket_dir w) (disk w) ->
  (forall d, durable (set_disk d w) -> Q tt (set_disk d w)) ->
  (forall d, ~ disk_works env -> holds (fun t' => t' = t \/ t' = publish_table (inner w)) (socket_dir w) d ->
     R Internal (set_disk d w)) ->
  wp (persist env) w Q R.
Proof.
  intros He Hh HQ HR. eapply wp_persist_held; [done|exact Hh|done|]. intros d Hn Hd. apply HR; [done|].
  eapply holds_mono; [|exact Hd]. simpl. naive_solver.
Qed.

(** How a request that reports an error leaves the file: durable while the
    disk works, and else at the table before or the one in force. *)
Definition settled env t w : Prop :=
  (disk_works env -> durable w) /\ holds (fun t' => t' = t \/ t' = publish_table (inner w)) (socket_dir w) (disk w).

Lemma durable_settled env t w : durable w -> settled env t w.
Proof. intros Hw. split; [done|]. eapply holds_mono; [|exact Hw]. simpl. auto. Qed.

Lemma broken_settled env t w :
  ~ disk_works env -> holds (fun t' => t' = t \/ t' = publish_table (inner w)) (socket_dir w) (disk w) -> settled env t w.
Proof. by split. Qed.

Lemma wp_persist_core env w0 w (Q : unit -> World V -> Prop) (R : RpcError -> World V -> Prop) :
  running env -> same_core w0 w -> durable w0 ->
  (forall d, durable (set_disk d w) -> Q tt (set_disk d w)) ->
  (forall d, settled env (publish_table (inner w0)) (set_disk d w) -> R Internal (set_disk d w)) ->
  wp (persist env) w Q R.
Proof.
  intros He Hcore Hw HQ HR. eapply wp_persist_holds; [done|by eapply durable_core|done|].
  intros d Hn Hh. apply HR. destruct Hcore as (_ & _ & _ & _ & f & Hf). rewrite Hf in Hh. apply broken_settled; [done|].
  simpl. by rewrite Hf.
Qed.

Definition ends_durable {A} env (m : op V A) w : Prop :=
  wp m w (fun _ => durable) (fun _ => settled env (publish_table (inner w))).

(** Steps of a handler: [durable] does not depend on the rest of the state. *)
Ltac durable_tails Hw :=
  repeat first
    [ done
    | exact Hw
    | apply durable_log
    | apply durable_settled
    | eapply wp_persist_holds; [done|exact Hw|intros ? ?|intros ? ? ?; by apply broken_settled]
    | eapply wp_persist_core; [done|eassumption|exact Hw|intros ? ?|intros ? ?]
    | apply wp_ensure_passt; intros
    | apply wp_teardown_passt; intros ? ?
    | progress wp_steps
    | eapply durable_core; [eassumption|] ].

Lemma create_network_durable env params w : running env -> durable w -> ends_durable env (create_network env params) w.
Proof. intros He Hw. unfold ends_durable, create_network, lock. durable_tails Hw. Qed.

Lemma delete_network_durable env params w : running env -> durable w -> ends_durable env (delete_network env params) w.
Proof. intros He Hw. unfold ends_durable, delete_network, lock. durable_tails Hw. Qed.

Lemma get_network_durable env params w : durable w -> ends_durable env (get_network env params) w.
Proof. intros Hw. unfold ends_durable, get_network, lock. durable_tails Hw. Qed.

Lemma create_port_durable env params w : running env -> durable w -> ends_durable env (create_port env params) w.
Proof. intros He Hw. unfold ends_durable, create_port, lock. durable_tails Hw. Qed.

Lemma delete_port_durable env params w : running env -> durable w -> ends_durable env (delete_port env params) w.
Proof. intros He Hw. unfold ends_durable, delete_port, lock. durable_tails Hw. Qed.

Lemma get_port_durable env params w : durable w -> ends_durable env (get_port env params) w.
Proof. intros Hw. unfold ends_durable, get_port, lock. durable_tails Hw. Qed.

Lemma attach_port_durable env params w : running env -> durable w -> ends_durable env (attach_port env params) w.
Proof. intros He Hw. unfold ends_durable, attach_port, lock. durable_tails Hw. Qed.

Lemma detach_port_durable env params w : running env -> durable w -> ends_durable env (detach_port env params) w.
Proof. intros He Hw. unfold ends_durable, detach_port, lock. durable_tails Hw. Qed.

Lemma allocate_ip_durable env params w : durable w -> ends_durable env (allocate_ip env params) w.
Proof. intros Hw. unfold ends_durable, allocate_ip, lock. durable_tails Hw. Qed.

Lemma release_ip_durable env params w : running env -> durable w -> ends_durable env (release_ip env params) w.
Proof. intros He Hw. unfold ends_durable, release_ip, lock. durable_tails Hw. Qed.

Lemma pt_allocate_None t port vm range t' : pt_allocate t port vm range = (None, t') -> t' = t.
Proof. unfold pt_allocate. repeat case_match; congruence. Qed.

Lemma pt_remove_None t port vm t' : pt_remove t port vm = (None, t') -> t' = t.
Proof. unfold pt_remove. repeat case_match; congruence. Qed.

Lemma set_same_table w t : t = publish_table (inner w) -> durable w -> durable (upd (set_table t) w).
Proof. by intros ->. Qed.

Lemma publish_port_durable env params w : running env -> durable w -> ends_durable env (publish_port env params) w.
Proof.
  intros He Hw. unfold ends_durable, publish_port, lock, locked. durable_tails Hw.
  apply set_same_table; [|done]. match goal with Ho : ok_or ?o _ = Err _ |- _ => destruct o; [done|] end. by eapply pt_allocate_None.
Qed.

Lemma unpublish_port_durable env params w : running env -> durable w -> ends_durable env (unpublish_port env params) w.
Proof.
  intros He Hw. unfold ends_durable, unpublish_port, lock, locked. durable_tails Hw.
  apply set_same_table; [|done]. match goal with Ho : ok_or ?o _ = Err _ |- _ => destruct o; [done|] end. by eapply pt_remove_None.
Qed.

Lemma handler_durable env name (h : V -> op V V) params w :
  running env -> durable w -> @handler (World V) V (dataplane env) name = Some h -> ends_durable env (h params) w.
Proof.
  intros He Hw Hh. unfold handler in Hh.
  repeat (case_decide; [subst; injection Hh as <-; simpl;
    auto using create_network_durable, delete_network_durable, get_network_durable, create_port_durable,
      delete_port_durable, get_port_durable, attach_port_durable, detach_port_durable, allocate_ip_durable,
      release_ip_durable, publish_port_durable, unpublish_port_durable|]). done.
Qed.

(** ** Saves that fail *)

(** A request whose save fails leaves a published port in memory that is not
    in the file, and the next one starts from there: the file holds one of the
    tables [T], and after a request one of [T] or the table in force. *)
Section Failing.
Context (T : PublishTable -> Prop).

Lemma held_weak w : holds T (socket_dir w) (disk w) -> held T w.
Proof. apply holds_mono. auto. Qed.

Lemma durable_held w : durable w -> held T w.
Proof. apply holds_mono. auto. Qed.

Lemma held_core w w' : same_core w w' -> held T w -> held T w'.
Proof. intros (Hs & _ & Hd & _ & f & Hf) Hw. unfold held. by rewrite Hs, Hd, Hf. Qed.

Lemma holds_core w w' : same_core w w' -> holds T (socket_dir w) (disk w) -> holds T (socket_dir w') (disk w').
Proof. intros (Hs & _ & Hd & _) Hw. by rewrite Hs, Hd. Qed.

(** [saved]: a success has written the file. *)
Definition ends_held {A} (saved : bool) (m : op V A) w : Prop :=
  wp m w (fun _ w' => if saved then durable w' else held T w') (fun _ => held T).

Ltac held_tails Hw :=
  repeat first
    [ done
    | exact Hw
    | apply held_weak; exact Hw
    | apply durable_log
    | eapply wp_persist_held; [done|first [exact Hw|eapply holds_core; [eassumption|exact Hw]]|intros ? ?|intros ? _ ?]
    | apply wp_ensure_passt; intros
    | apply wp_teardown_passt; intros ? ?
    | progress wp_steps
    | eapply durable_core; [eassumption|]
    | eapply held_core; [eassumption|]
    | by apply durable_held ].

Lemma create_network_held env params w :
  running env -> holds T (socket_dir w) (disk w) -> ends_held false (create_network env params) w.
Proof. intros He Hw. unfold ends_held, create_network, lock. held_tails Hw. Qed.

Lemma delete_network_held env params w :
  running env -> holds T (socket_dir w) (disk w) -> ends_held false (delete_network env params) w.
Proof. intros He Hw. unfold ends_held, delete_network, lock. held_tails Hw. Qed.

Lemma get_network_held env params w : holds T (socket_dir w) (disk w) -> ends_held false (get_network env params) w.
Proof. intros Hw. unfold ends_held, get_network, lock. held_tails Hw. Qed.

Lemma create_port_held env params w :
  running env -> holds T (socket_dir w) (disk w) -> ends_held false (create_port env params) w.
Proof. intros He Hw. unfold ends_held, create_port, lock. held_tails Hw. Qed.

Lemma delete_port_held env params w :
  running env -> holds T (socket_dir w) (disk w) -> ends_held true (delete_port env params) w.
Proof. intros He Hw. unfold ends_held, delete_port, lock. held_tails Hw. Qed.

Lemma get_port_held env params w : holds T (socket_dir w) (disk w) -> ends_held false (get_port env params) w.
Proof. intros Hw. unfold ends_held, get_port, lock. held_tails Hw. Qed.

Lemma attach_port_held env params w :
  running env -> holds T (socket_dir w) (disk w) -> ends_held false (attach_port env params) w.
Proof. intros He Hw. unfold ends_held, attach_port, lock. held_tails Hw. Qed.

Lemma detach_port_held env params w :
  running env -> holds T (socket_dir w) (disk w) -> ends_held true (detach_port env params) w.
Proof. intros He Hw. unfold ends_held, detach_port, lock. held_tails Hw. Qed.

Lemma allocate_ip_held env params w : holds T (socket_dir w) (disk w) -> ends_held false (allocate_ip env params) w.
Proof. intros Hw. unfold ends_held, allocate_ip, lock. held_tails Hw. Qed.

Lemma release_ip_held env params w :
  running env -> holds T (socket_dir w) (disk w) -> ends_held true (release_ip env params) w.
Proof. intros He Hw. unfold ends_held, release_ip, lock. held_tails Hw. Qed.

Lemma publish_port_held env params w :
  running env -> holds T (socket_dir w) (disk w) -> ends_held true (publish_port env params) w.
Proof. intros He Hw. unfold ends_held, publish_port, lock, locked. held_tails Hw. Qed.

Lemma unpublish_port_held env params w :
  running env -> holds T (socket_dir w) (disk w) -> ends_held true (unpublish_port env params) w.
Proof. intros He Hw. unfold ends_held, unpublish_port, lock, locked. held_tails Hw. Qed.

(** The requests whose success has always written the file. *)
Definition always_saves (name : string) : bool :=
  bool_decide (name ∈ ["DeletePort"; "DetachPort"; "ReleaseIP"; "PublishPort"; "UnpublishPort"]%string).

Lemma handler_held env name (h : V -> op V V) params w :
  running env -> holds T (socket_dir w) (disk w) -> @handler (World V) V (dataplane env) name = Some h ->
  ends_held (always_saves name) (h params) w.
Proof.
  intros He Hw Hh. unfold handler in Hh.
  repeat (case_decide; [subst; injection Hh as <-; simpl;
    auto using create_network_held, delete_network_held, get_network_held, create_port_held,
      delete_port_held, get_port_held, attach_port_held, detach_port_held, allocate_ip_held,
      release_ip_held, publish_port_held, unpublish_port_held|]). done.
Qed.

(** A request, cut off or not. *)
Lemma request_held env name (h : V -> op V V) params w :
  holds T (socket_dir w) (disk w) -> @handler (World V) V (dataplane env) name = Some h ->
  held T (run_state (h params w)) /\
  forall v w', h params w = Returns w' (Ok v) -> always_saves name = true -> durable w'.
Proof.
  intros Hw Hh. destruct (handler_stops env name h params Hh) as (h' & Hh' & Hst).
  pose proof (handler_held (enduring env) name h' params w (enduring_runs env) Hw Hh') as Hends.
  unfold ends_held, wp in Hends. destruct (Hst w) as [Heq|(s & Heq & Heq')].
  - rewrite Heq. destruct (h' params w) as [s [a|e]|s]; [|by split|done]. split.
    + destruct (always_saves name); [by apply durable_held|done].
    + intros v w' [= <- <-] Hs. by rewrite Hs in Hends.
  - rewrite Heq' in Hends. rewrite Heq. by split.
Qed.
End Failing.

(** ** After the power loss *)

(** What the next start finds: of every file one of the versions that the
    power loss could leave. *)
Definition survives (d d' : fs) : Prop := forall p,
  exists o, may_read d p o /\ live d' !! p = (fun c => {| contents := c; synced := true |}) <$> o /\
    stable d' !! p = live d' !! p.

(** A start over a file that holds one of the tables [T]. *)
Lemma restart_holds env T dir d d' :
  holds T dir d -> survives d d' -> disk_works env ->
  exists t w, try_new (env_disk env) dir d' = Some (Ok w) /\ T t /\
    w = from_parts dir d' t /\ durable w.
Proof.
  intros [Hc Hr] Hsv He. destruct (Hsv (state_file dir)) as (o & Hread & Hl & Hst).
  destruct (Hr o Hread) as (t & Hrec & Ht). exists t, (from_parts dir d' t).
  assert (Hdur : durable (from_parts (V := V) dir d' t)).
  { assert (Hcl : clean d' (state_file dir)).
    { intros f. rewrite Hst, Hl. destruct o; naive_solver. }
    split; [exact Hcl|]. simpl. intros o' Ho'. exists t. split; [|done].
    rewrite (may_read_clean _ _ _ Hcl), Hst, Hl in Ho'. by destruct o; destruct Ho' as [-> | ->]. }
  split_and!; [|done|done|exact Hdur]. unfold try_new.
  destruct Hrec as [[-> ->]|(s & -> & Htab)].
  - simpl in Hl. unfold load_from_disk. run_cmd. unfold state_file in Hl. by rewrite Hl.
  - simpl in Hl. rewrite (load_saved (env_disk env) s dir d' true Hl (He _)). by rewrite Htab.
Qed.

(** What a request leaves, cut off or not. *)
Lemma request_settles env name (h : V -> op V V) params w :
  durable w -> @handler (World V) V (dataplane env) name = Some h ->
  settled (enduring env) (publish_table (inner w)) (run_state (h params w)) /\
  forall v w', h params w = Returns w' (Ok v) -> durable w'.
Proof.
  intros Hw Hh. destruct (handler_stops env name h params Hh) as (h' & Hh' & Hst).
  pose proof (handler_durable (enduring env) name h' params w (enduring_runs env) Hw Hh') as Hends.
  unfold ends_durable, wp in Hends. destruct (Hst w) as [Heq|(s & Heq & Heq')].
  - rewrite Heq. destruct (h' params w) as [s [a|e]|s]; [|by split|done].
    split; [by apply durable_settled|]. by intros v w' [= <- <-].
  - rewrite Heq' in Hends. rewrite Heq. by split.
Qed.

Lemma enduring_works env : disk_works env -> disk_works (enduring env).
Proof. intros Hd c. simpl. unfold unstop. by rewrite Hd. Qed.

Lemma request_survives (env env' : Env) (name : string) (h : V -> op V V) (params : V) (w : World V) (d : fs) :
  durable w -> @handler (World V) V (dataplane env) name = Some h ->
  let r := h params w in
  let w' := run_state r in
  survives (disk w') d -> disk_works env' ->
  exists t w2, try_new (env_disk env') (socket_dir w') d = Some (Ok w2) /\
    w2 = from_parts (socket_dir w') d t /\ durable w2 /\
    (t = publish_table (inner w) \/ t = publish_table (inner w')) /\
    (forall v, r = Returns w' (Ok v) -> durable w' /\ t = publish_table (inner w')) /\
    (disk_works env -> durable w').
Proof.
  intros Hw Hh r w' Hsv He'. destruct (request_settles env name h params w Hw Hh) as [[Hwork Hholds] Hok].
  fold r in Hwork, Hholds, Hok. fold w' in Hwork, Hholds.
  destruct (restart_holds env' _ _ _ _ Hholds Hsv He') as (t & w2 & Htry & Ht & -> & Hdur).
  exists t, (from_parts (socket_dir w') d t). split_and!; [done|done|done|done| |].
  - intros v Hv. pose proof (Hok v w' Hv) as Hd. split; [done|].
    destruct (restart_holds env' _ _ _ _ Hd Hsv He') as (t2 & w3 & Htry2 & <- & -> & _). rewrite Htry in Htry2. by injection Htry2.
  - intros Hdw. by apply Hwork, enduring_works.
Qed.

(** C8: published ports survive power losses. Let the state file hold the
    published ports in force, and let the machine lose power during a request
    or any time after it, whatever the disk does meanwhile. Then the next
    start comes up, with the published ports from before the request or those
    after it and never anything else, and in the state it started from: the
    file again holds the published ports in force. A request that reported
    success is never undone, and as long as the disk works no request, refused
    ones included, loses the guarantee. *)
Theorem published_ports_survive (env env' : Env) (name : string) (h : V -> op V V) (params : V) (w : World V) (d : fs) :
  durable w -> @handler (World V) V (dataplane env) name = Some h ->
  let r := h params w in
  let w' := run_state r in
  survives (disk w') d -> disk_works env' ->
  exists t w2, try_new (env_disk env') (socket_dir w') d = Some (Ok w2) /\
    w2 = from_parts (socket_dir w') d t /\ durable w2 /\
    (t = publish_table (inner w) \/ t = publish_table (inner w')) /\
    (forall v, r = Returns w' (Ok v) -> durable w' /\ t = publish_table (inner w')) /\
    (disk_works env -> durable w').
Proof. exact (request_survives env env' name h params w d). Qed.
End Crash.
