(* ===== verification/ControlLoop.v ===== *)
(** * The control loop and its clients over time

    [Server.serve_loop] takes what each client sends as given.  Here the
    clients are there at once (crates/k8netd-rpc/src/server.rs, [serve]): they
    connect, write and leave in any order, while the one thread of the loop
    accepts, reads a line and answers. [read_line] has no timeout. *)
From S2P Require Import Prelude RustStd Json Protocol Server.
#[local] Open Scope string_scope.

(** A client as the kernel keeps it: the bytes it has written and, once it has
    gone, how reading ends after them. *)
Record Client := { written : string; gone : option (result string unit) }.

(** What [read_line] appends to a [String] must be UTF-8. *)
Definition INVALID_UTF8 : string := "stream did not contain valid UTF-8".
Definition decoded (bytes : string) : result string string :=
  if utf8 bytes then Ok bytes else Err INVALID_UTF8.

(** [read_line]: up to the first newline, or what there is at the end of the
    stream; [None] while it would block. *)
Definition read_line (c : Client) : option (result string string) :=
  match split_once "010" (written c) with
  | Some (line, _) => Some (decoded (line +:+ String "010" EmptyString))
  | None => match gone c with
            | None => None
            | Some (Ok _) => Some (decoded (written c))
            | Some (Err e) => Some (Err e)
            end
  end.

Section ControlLoop.
Context {C V : Type} `{JsonValue V, ProtocolCodec V, ControlPlane C V}.

(** The loop: its control plane, the accepted client, the backlog in order,
    the clients, and what was answered to whom. *)
Record Loop := {
  plane : C;
  reading : option nat;
  backlog : list nat;
  clients : gmap nat Client;
  answered : list (nat * result string (nat * string));
}.
Implicit Types (l : Loop) (i : nat).

(** The turn of the thread: it accepts, or answers the accepted client once
    its line is there; [None] while it is blocked. The outcome of the write is
    an argument, and a panic ends the thread. *)
Definition turn (write : result string unit) l : option (run Loop unit) :=
  match reading l with
  | None =>
      match backlog l with
      | [] => None
      | i :: q => Some (Returns {| plane := plane l; reading := Some i; backlog := q; clients := clients l;
                                   answered := answered l |} tt)
      end
  | Some i =>
      line ← (c ← clients l !! i; read_line c);
      let with_plane cp r := {| plane := cp; reading := None; backlog := backlog l; clients := clients l;
                                answered := answered l ++ r |} in
      Some (match handle_connection {| line_in := line; write_ok := write |} (plane l) with
            | Returns cp r => Returns (with_plane cp [(i, r)]) tt
            | Panics cp => Panics (with_plane cp [])
            end)
  end.

(** What a client does: it connects, writes, or leaves. *)
Inductive act := Connects | Writes (text : string) | Leaves (how : result string unit).

Definition acts (i : nat) (a : act) l : Loop :=
  let set cs q := {| plane := plane l; reading := reading l; backlog := q; clients := cs; answered := answered l |} in
  match a, clients l !! i with
  | Connects, None => set (<[i := {| written := EmptyString; gone := None |}]> (clients l)) (backlog l ++ [i])%list
  | Writes text, Some {| written := w; gone := None |} =>
      set (<[i := {| written := w +:+ text; gone := None |}]> (clients l)) (backlog l)
  | Leaves how, Some {| written := w; gone := None |} =>
      set (<[i := {| written := w; gone := Some how |}]> (clients l)) (backlog l)
  | _, _ => l
  end.

(** The loop and its clients, in any interleaving. *)
Inductive step : option (nat * act) -> Loop -> Loop -> Prop :=
  | step_client i a l : step (Some (i, a)) l (acts i a l)
  | step_turn write l l' : turn write l = Some (Returns l' tt) -> step None l l'.

Inductive steps : list (option (nat * act)) -> Loop -> Loop -> Prop :=
  | steps_nil l : steps [] l l
  | steps_cons a al l l1 l2 : step a l l1 -> steps al l1 l2 -> steps (a :: al) l l2.

(** ** A silent client *)
Definition stuck_on i l : Prop :=
  reading l = Some i /\ exists c, clients l !! i = Some c /\ read_line c = None.

Lemma stuck_turn write i l : stuck_on i l -> turn write l = None.
Proof. intros (Hr & c & Hc & Hl). unfold turn. rewrite Hr. simpl. rewrite Hc. simpl. by rewrite Hl. Qed.

Lemma acts_elsewhere i j a l :
  i <> j -> plane (acts j a l) = plane l /\ reading (acts j a l) = reading l /\
  clients (acts j a l) !! i = clients l !! i /\ answered (acts j a l) = answered l.
Proof.
  intros Hne. unfold acts. destruct a; repeat case_match; simpl; rewrite ?lookup_insert_ne by done; done.
Qed.

(** While the accepted client has neither sent its line nor left, nobody is
    answered and nothing is changed, whatever the other clients do. *)
Theorem silent_client_blocks i al l l' :
  stuck_on i l -> Forall (fun a => forall x, a <> Some (i, x)) al -> steps al l l' ->
  stuck_on i l' /\ plane l' = plane l /\ answered l' = answered l.
Proof.
  intros Hs Hal Hsteps. induction Hsteps as [|a al l l1 l2 Hstep Hsteps IH]; [done|].
  apply Forall_cons in Hal as [Ha Hal]. inversion Hstep as [j x l0|write l0 l0' Hturn]; subst.
  - assert (Hne : i <> j) by (intros ->; by apply (Ha x)).
    destruct (acts_elsewhere i j x l Hne) as (Hp & Hr & Hc & Hans).
    rewrite <- Hp, <- Hans. apply IH; [|done]. destruct Hs as (Hr' & c & Hc' & Hl). split; [congruence|]. exists c.
    split; [congruence|done].
  - by rewrite (stuck_turn write i l Hs) in Hturn.
Qed.

(** A client whose line is not UTF-8 is dropped: nothing is carried out and
    nothing is answered, and the loop goes on to the next client. *)
Theorem undecodable_line_dropped write i c line rest l :
  reading l = Some i -> clients l !! i = Some c -> split_once "010" (written c) = Some (line, rest) ->
  utf8 (line +:+ String "010" EmptyString) = false ->
  turn write l = Some (Returns {| plane := plane l; reading := None; backlog := backlog l; clients := clients l;
                                  answered := (answered l ++ [(i, Err INVALID_UTF8)])%list |} tt).
Proof.
  intros Hr Hc Hs Hu. unfold turn. rewrite Hr. simpl. rewrite Hc. simpl. unfold read_line, decoded.
  by rewrite Hs, Hu.
Qed.

(** ** Clients that send their line *)
Definition ready l i (line : result string string) : Prop :=
  exists c, clients l !! i = Some c /\ read_line c = Some line.

Lemma split_once_more ch s a b t : split_once ch s = Some (a, b) -> split_once ch (s +:+ t) = Some (a, b +:+ t).
Proof.
  revert a b. induction s as [|x s IH]; intros a b; simpl; [done|]. case_match; [by intros [= <- <-]|].
  destruct (split_once ch s) as [[a' b']|]; [|done]. intros [= <- <-]. by rewrite (IH a' b').
Qed.

(** What a client does later does not change the line it has sent. *)
Lemma ready_stays l j a i line : ready l i line -> ready (acts j a l) i line.
Proof.
  intros (c & Hc & Hl). destruct (decide (i = j)) as [<-|Hne].
  2: { destruct (acts_elsewhere i j a l Hne) as (_ & _ & Hx & _). exists c. by rewrite Hx. }
  destruct c as [w g]. unfold ready, acts. rewrite Hc. destruct a as [|t|how], g as [how'|]; try (by exists {| written := w; gone := Some how' |});
    try (by exists {| written := w; gone := None |}); simpl; rewrite lookup_insert_eq; eexists; (split; [done|]);
    unfold read_line in *; simpl in *; destruct (split_once _ w) as [[a b]|] eqn:Hs; try done.
  by rewrite (split_once_more _ _ _ _ t Hs).
Qed.

(** The clients that the loop has to answer, first the accepted one. *)
Definition pending l : list nat := (match reading l with Some i => [i] | None => [] end ++ backlog l)%list.

Lemma acts_loop j a l :
  plane (acts j a l) = plane l /\ reading (acts j a l) = reading l /\ answered (acts j a l) = answered l /\
  exists more, backlog (acts j a l) = (backlog l ++ more)%list.
Proof.
  unfold acts. destruct a; repeat case_match; split_and!; try done;
    first [by exists []; rewrite app_nil_r | by exists [j]].
Qed.

Lemma acts_pending j a l : exists more, pending (acts j a l) = (pending l ++ more)%list.
Proof.
  destruct (acts_loop j a l) as (_ & Hr & _ & more & Hb). exists more. unfold pending. by rewrite Hr, Hb, app_assoc.
Qed.

(** How often the thread moves. *)
Definition turns_in (al : list (option (nat * act))) : nat := length (filter (fun a => a = None) al).

Definition accepted l : nat := match reading l with Some _ => 1%nat | None => 0%nat end.

Lemma steps_serve al l l' q more lines :
  steps al l l' -> pending l = (q ++ more)%list -> Forall2 (ready l) q lines ->
  (turns_in al + accepted l = 2 * length q)%nat ->
  exists conns log, line_in <$> conns = lines /\
    serve_loop (Ok <$> conns) (plane l) = Returns (plane l') (Ok tt, log) /\
    answered l' = (answered l ++ zip q log)%list /\ reading l' = None.
Proof.
  intros Hsteps. revert q more lines. induction Hsteps as [l|a al l l1 l2 Hstep Hsteps IH]; intros q more lines Hp Hr Hn.
  { unfold turns_in, accepted in Hn. simpl in Hn. destruct (reading l) eqn:Hl; [lia|]. destruct q; [|simpl in Hn; lia].
    inversion Hr; subst. exists [], []. by rewrite app_nil_r. }
  inversion Hstep as [j x l0|write l0 l0' Hturn]; subst.
  - destruct (acts_pending j x l) as [more' Hp']. destruct (acts_loop j x l) as (Hpl & Hrd & Hans & _).
    rewrite <- Hpl, <- Hans. apply (IH q (more ++ more')%list lines).
    + by rewrite Hp', Hp, app_assoc.
    + eapply Forall2_impl; [exact Hr|]. intros. by apply ready_stays.
    + unfold accepted. by rewrite Hrd.
  - unfold turns_in in *. rewrite filter_cons_True in Hn by done. simpl in Hn. unfold turn in Hturn.
    unfold pending in Hp. destruct (reading l) as [i|] eqn:Hrd.
    + unfold accepted in Hn. rewrite Hrd in Hn. destruct q as [|i' q]; simpl in Hp, Hn; [lia|]. injection Hp as <- Hp.
      inversion Hr as [|? line ? lines' (c & Hc & Hl) Hr']; subst. simpl in Hturn. rewrite Hc in Hturn. simpl in Hturn.
      rewrite Hl in Hturn. simpl in Hturn.
      destruct (handle_connection {| line_in := line; write_ok := write |} (plane l)) as [cp r|cp] eqn:Hh; [|done].
      injection Hturn as <-.
      destruct (IH q more lines' Hp Hr') as (conns & log & Hlines & Hserve & Hans & Hnone); [unfold accepted; simpl; lia|].
      exists ({| line_in := line; write_ok := write |} :: conns), (r :: log). split_and!; [by rewrite fmap_cons, Hlines| | |done].
      * simpl in Hserve. rewrite fmap_cons. cbn [serve_loop]. by rewrite Hh, Hserve.
      * rewrite Hans. simpl. by rewrite <- app_assoc.
    + unfold accepted in Hn. rewrite Hrd in Hn. destruct (backlog l) as [|i b] eqn:Hb; [done|]. injection Hturn as <-.
      destruct (IH q more lines) as (conns & log & Hx); [done|exact Hr|unfold accepted; simpl; lia|].
      by exists conns, log.
Qed.
End ControlLoop.

Section Answered.
Context {C V : Type} `{ControlPlaneLaws C V, !JsonValue V, !ProtocolCodec V, !ProtocolLaws V}.
Implicit Types (l : Loop (C := C)).

(** The thread is never blocked while a client waits whose line is there. *)
Lemma turns_run l q more lines :
  cp_valid (plane l) -> reading l = None -> backlog l = (q ++ more)%list -> Forall2 (ready l) q lines ->
  exists l', steps (replicate (2 * length q) None) l l'.
Proof.
  intros Hv Hrd Hb Hr. revert l Hv Hrd Hb Hr. revert lines. induction q as [|i q IH]; intros lines l Hv Hrd Hb Hr.
  { exists l. constructor. }
  inversion Hr as [|? line ? lines' (c & Hc & Hl) Hr']; subst.
  destruct (handle_connection_safe {| line_in := line; write_ok := Ok tt |} (plane l) Hv) as (cp & r & Hh & Hv').
  set (l1 := {| plane := plane l; reading := Some i; backlog := (q ++ more)%list; clients := clients l; answered := answered l |}).
  set (l2 := {| plane := cp; reading := None; backlog := (q ++ more)%list; clients := clients l; answered := (answered l ++ [(i, r)])%list |}).
  destruct (IH lines' l2 Hv' eq_refl eq_refl Hr') as (l' & Hs). exists l'.
  replace (2 * length (i :: q))%nat with (S (S (2 * length q))) by (simpl; lia). simpl replicate.
  econstructor; [apply (step_turn (Ok tt) l l1)|econstructor; [apply (step_turn (Ok tt) l1 l2)|exact Hs]].
  - unfold turn. by rewrite Hrd, Hb.
  - unfold turn. simpl. rewrite Hc. simpl. rewrite Hl. simpl. by rewrite Hh.
Qed.

Lemma read_line_decoded c text : read_line c = Some (Ok text) -> utf8 text = true.
Proof.
  unfold read_line, decoded. intros Hx. repeat case_match; simplify_eq; done.
Qed.

Lemma ready_decoded l q lines :
  Forall2 (ready l) q lines -> Forall (fun line => forall text, line = Ok text -> utf8 text = true) lines.
Proof.
  induction 1 as [|i line q lines (c & _ & Hx) _ IH]; constructor; [|exact IH].
  intros text ->. by eapply read_line_decoded.
Qed.

(** A connection that brings no line gets no answer. *)
Lemma serve_loop_drops conns (cp cp' : C) res log :
  serve_loop (Ok <$> conns) cp = Returns cp' (res, log) ->
  Forall (fun line => forall text, line = Ok text -> utf8 text = true) (line_in <$> conns) ->
  Forall2 (fun line r => match line with Ok text => utf8 text = true | Err e => r = Err e end) (line_in <$> conns) log.
Proof.
  revert cp log. induction conns as [|c conns IH]; intros cp log; rewrite ?fmap_nil, ?fmap_cons; cbn [serve_loop].
  { intros [= _ _ <-] _. constructor. }
  intros Hs [Hc Hcs]%Forall_cons. destruct (handle_connection c cp) as [cp1 r|cp1] eqn:Hh; [|done].
  destruct (serve_loop (Ok <$> conns) cp1) as [cp2 [res2 log2]|cp2] eqn:Hsl; [|done]. injection Hs as -> -> <-.
  constructor; [|by eapply IH]. destruct (line_in c) as [text|e] eqn:Hl; [by apply Hc|].
  unfold handle_connection in Hh. rewrite Hl in Hh. by injection Hh as _ <-.
Qed.

(** C36: clients that have sent their line, or left, are dealt with in the order
    in which they connected, each in two moves of the control thread. The
    thread can make these moves, and whatever they and others do meanwhile the
    outcome is that of [serve_loop] on their lines: a line of UTF-8 text is
    answered, and a client whose line is not, or whose stream broke off, is
    dropped without an answer and without an effect. *)
Theorem backlog_answered l q more lines :
  cp_valid (plane l) -> reading l = None -> backlog l = (q ++ more)%list -> Forall2 (ready l) q lines ->
  (exists l', steps (replicate (2 * length q) None) l l') /\
  forall al l', steps al l l' -> turns_in al = (2 * length q)%nat ->
    exists conns log, line_in <$> conns = lines /\
      serve_loop (Ok <$> conns) (plane l) = Returns (plane l') (Ok tt, log) /\
      answered l' = (answered l ++ zip q log)%list /\ reading l' = None /\
      Forall2 (fun line r => match line with
                             | Ok text => utf8 text = true
                             | Err e => r = Err e
                             end) lines log.
Proof.
  intros Hv Hrd Hb Hr. split; [by eapply turns_run|]. intros al l' Hs Hn.
  destruct (steps_serve al l l' q more lines Hs) as (conns & log & Hl & Hsv & Ha & Hnone).
  - unfold pending. by rewrite Hrd.
  - exact Hr.
  - unfold accepted. rewrite Hrd. lia.
  - exists conns, log. split_and!; [done..|]. subst lines. eapply serve_loop_drops; [exact Hsv|].
    by eapply ready_decoded.
Qed.
End Answered.
