(* ===== verification/Registry.v ===== *)
(** * What a control plane is to its clients

    The repository has two implementations of the [ControlPlane] trait, the
    in-memory one (crates/k8netd-rpc/src/server.rs, "the reference
    implementation") and the dataplane's (crates/k8netd/src/dataplane.rs).
    [Registry] is the state a client can know about, [outcome] what each
    request may do to it, and the class [Registered] says that a control plane
    keeps to it.  Both do; what a client may rely on is proved once, against
    the class. *)
From S2P Require Import Prelude RustStd Model Ipam Json Protocol StateStore Server.
From S2P Require Import Frame MacTable Engine Gateway Dns Passt Packet Dataplane.
#[local] Open Scope string_scope.
#[local] Open Scope Z_scope.

Section Contract.
Context {V : Type} `{JsonValue V}.

(** ** The abstract state *)

(** Networks with the parameters they were created with, ports with network
    and MAC once attached, and the host port of every published VM port. The
    addresses reserved in a network are not part of it: the two planes differ
    on when they make and release them. *)
Record Registry := {
  reg_networks : gmap string (V * Network);
  reg_ports : gmap string (option string * option MacAddr);
  reg_published : gmap (string * Z) Z;
  reg_range : Z * Z;
}.
Implicit Types (r : Registry) (params v : V).

Definition with_networks n r : Registry :=
  {| reg_networks := n; reg_ports := reg_ports r; reg_published := reg_published r; reg_range := reg_range r |}.
Definition with_ports p r : Registry :=
  {| reg_networks := reg_networks r; reg_ports := p; reg_published := reg_published r; reg_range := reg_range r |}.
Definition with_published t r : Registry :=
  {| reg_networks := reg_networks r; reg_ports := reg_ports r; reg_published := t; reg_range := reg_range r |}.

(** The publications of the other ports. *)
Definition others (port : string) (t : gmap (string * Z) Z) : gmap (string * Z) Z :=
  filter (fun e => e.1.1 <> port) t.

Definition free_host_port r (h : Z) : Prop :=
  (reg_range r).1 <= h <= (reg_range r).2 /\ forall k, reg_published r !! k <> Some h.

(** ** The parameters of a request *)

(** The network that the parameters of a creation describe. *)
Definition network_of params : result RpcError Network :=
  name ← str_param params "name";
  cidr ← str_param params "cidr";
  gateway ← str_param params "gateway";
  pool_start ← str_param params "poolStart";
  pool_end ← str_param params "poolEnd";
  start ← ok_or (parse_ipv4_addr pool_start) InvalidParams;
  end_ ← ok_or (parse_ipv4_addr pool_end) InvalidParams;
  pool ← map_err (fun _ => InvalidParams) (IpPool_new start end_);
  map_err (fun _ => InvalidParams) (Network_new name cidr gateway pool).

Definition mac_of params : result RpcError MacAddr :=
  text ← str_param params "mac"; map_err (fun _ => InvalidParams) (parse_mac text).

(** ** Success *)
Inductive succeeds r : string -> V -> V -> Registry -> Prop :=
  | create_network_new params name n :
      str_param params "name" = Ok name -> reg_networks r !! name = None -> network_of params = Ok n ->
      succeeds r "CreateNetwork" params Null (with_networks (<[name := (params, n)]> (reg_networks r)) r)
  | create_network_again params name n :
      str_param params "name" = Ok name -> reg_networks r !! name = Some (params, n) ->
      succeeds r "CreateNetwork" params Null r
  | delete_network_there params name :
      str_param params "name" = Ok name -> is_Some (reg_networks r !! name) ->
      succeeds r "DeleteNetwork" params Null (with_networks (delete name (reg_networks r)) r)
  | get_network_there params name p n v :
      str_param params "name" = Ok name -> reg_networks r !! name = Some (p, n) ->
      v = Obj [("name", Str name); ("cidr", Str (show_cidr (net_cidr n)));
               ("gateway", Str (show_ipv4_addr (net_gateway n)))] ->
      succeeds r "GetNetwork" params v r
  | create_port_new params name :
      str_param params "name" = Ok name -> reg_ports r !! name = None ->
      succeeds r "CreatePort" params Null (with_ports (<[name := (None, None)]> (reg_ports r)) r)
  | create_port_again params name :
      str_param params "name" = Ok name -> is_Some (reg_ports r !! name) ->
      succeeds r "CreatePort" params Null r
  | delete_port_there params name :
      str_param params "name" = Ok name -> is_Some (reg_ports r !! name) ->
      succeeds r "DeletePort" params Null
        (with_published (others name (reg_published r)) (with_ports (delete name (reg_ports r)) r))
  | get_port_there params name network mac rest v :
      str_param params "name" = Ok name -> reg_ports r !! name = Some (network, mac) ->
      v = Obj (("name", Str name) :: ("network", of_option (Str <$> network))
               :: ("mac", of_option ((fun m => Str (show_mac m)) <$> mac)) :: rest) ->
      succeeds r "GetPort" params v r
  | attach_port_free params port network mac old :
      str_param params "port" = Ok port -> str_param params "network" = Ok network -> mac_of params = Ok mac ->
      reg_ports r !! port = Some (None, old) -> is_Some (reg_networks r !! network) ->
      succeeds r "AttachPort" params Null (with_ports (<[port := (Some network, Some mac)]> (reg_ports r)) r)
  | attach_port_again params port network mac :
      str_param params "port" = Ok port -> str_param params "network" = Ok network -> mac_of params = Ok mac ->
      reg_ports r !! port = Some (Some network, Some mac) ->
      succeeds r "AttachPort" params Null r
  | detach_port_there params name :
      str_param params "name" = Ok name -> is_Some (reg_ports r !! name) ->
      succeeds r "DetachPort" params Null
        (with_published (others name (reg_published r)) (with_ports (<[name := (None, None)]> (reg_ports r)) r))
  | allocate_ip_there params network mac ip v :
      str_param params "network" = Ok network -> mac_of params = Ok mac -> is_Some (reg_networks r !! network) ->
      v = Str (show_ipv4_addr ip) ->
      succeeds r "AllocateIP" params v r
  | release_ip_there params network mac :
      str_param params "network" = Ok network -> mac_of params = Ok mac -> is_Some (reg_networks r !! network) ->
      succeeds r "ReleaseIP" params Null r
  | publish_port_again params port vm network mac h :
      str_param params "port" = Ok port -> u16_param params "vm_port" = Ok vm ->
      reg_ports r !! port = Some (Some network, mac) -> reg_published r !! (port, vm) = Some h ->
      succeeds r "PublishPort" params (Obj [("host_port", Num h)]) r
  | publish_port_new params port vm network mac h :
      str_param params "port" = Ok port -> u16_param params "vm_port" = Ok vm ->
      reg_ports r !! port = Some (Some network, mac) -> reg_published r !! (port, vm) = None ->
      free_host_port r h ->
      succeeds r "PublishPort" params (Obj [("host_port", Num h)])
        (with_published (<[(port, vm) := h]> (reg_published r)) r)
  | unpublish_port_there params port vm :
      str_param params "port" = Ok port -> u16_param params "vm_port" = Ok vm ->
      is_Some (reg_published r !! (port, vm)) ->
      succeeds r "UnpublishPort" params Null (with_published (delete (port, vm) (reg_published r)) r).

(** ** Refusal: nothing changes *)

(** The parameters that must be strings, and the ones that name a network or
    a port that must exist. *)
Definition string_keys (method : string) : list string :=
  if bool_decide (method = "CreateNetwork") then ["name"; "cidr"; "gateway"; "poolStart"; "poolEnd"]
  else if bool_decide (method = "AttachPort") then ["port"; "network"; "mac"]
  else if bool_decide (method ∈ ["AllocateIP"; "ReleaseIP"]) then ["network"; "mac"]
  else if bool_decide (method ∈ ["PublishPort"; "UnpublishPort"]) then ["port"]
  else ["name"].
Definition network_key (method : string) : option string :=
  if bool_decide (method ∈ ["DeleteNetwork"; "GetNetwork"]) then Some "name"
  else if bool_decide (method ∈ ["AttachPort"; "AllocateIP"; "ReleaseIP"]) then Some "network"
  else None.
Definition port_key (method : string) : option string :=
  if bool_decide (method ∈ ["DeletePort"; "GetPort"; "DetachPort"]) then Some "name"
  else if bool_decide (method ∈ ["AttachPort"; "PublishPort"]) then Some "port"
  else None.

Inductive refused r (method : string) params : RpcError -> Prop :=
  | missing_string key :
      key ∈ string_keys method -> str_param params key = Err InvalidParams -> refused r method params InvalidParams
  | bad_network name :
      method = "CreateNetwork" -> str_param params "name" = Ok name -> reg_networks r !! name = None ->
      network_of params = Err InvalidParams -> refused r method params InvalidParams
  | bad_mac :
      method ∈ ["AttachPort"; "AllocateIP"; "ReleaseIP"] -> mac_of params = Err InvalidParams ->
      refused r method params InvalidParams
  | bad_vm_port :
      method ∈ ["PublishPort"; "UnpublishPort"] -> u16_param params "vm_port" = Err InvalidParams ->
      refused r method params InvalidParams
  | blank_name name :
      method = "CreatePort" -> str_param params "name" = Ok name -> is_empty (trim name) = true ->
      refused r method params InvalidParams
  | no_network key name :
      network_key method = Some key -> str_param params key = Ok name -> reg_networks r !! name = None ->
      refused r method params NotFound
  | no_port key name :
      port_key method = Some key -> str_param params key = Ok name -> reg_ports r !! name = None ->
      refused r method params NotFound
  | not_attached port mac :
      method = "PublishPort" -> str_param params "port" = Ok port -> reg_ports r !! port = Some (None, mac) ->
      refused r method params NotFound
  | not_published port vm :
      method = "UnpublishPort" -> str_param params "port" = Ok port -> u16_param params "vm_port" = Ok vm ->
      reg_published r !! (port, vm) = None -> refused r method params NotFound
  | no_binding : method = "ReleaseIP" -> refused r method params NotFound
  | other_network name p n :
      method = "CreateNetwork" -> str_param params "name" = Ok name -> reg_networks r !! name = Some (p, n) ->
      p <> params -> refused r method params Conflict
  | other_attachment port network mac network' mac' :
      method = "AttachPort" -> str_param params "port" = Ok port -> str_param params "network" = Ok network ->
      mac_of params = Ok mac -> reg_ports r !! port = Some (Some network', mac') ->
      (Some network', mac') <> (Some network, Some mac) -> refused r method params Conflict
  | pool_used_up network :
      method ∈ ["AttachPort"; "AllocateIP"] -> str_param params "network" = Ok network ->
      is_Some (reg_networks r !! network) -> refused r method params Conflict
  | range_used_up port network mac :
      method = "PublishPort" -> str_param params "port" = Ok port -> reg_ports r !! port = Some (Some network, mac) ->
      (forall h, ~ free_host_port r h) -> refused r method params Conflict.

(** ** Half-way failures

    What the dataplane leaves when a step after the change fails: the disk, a
    socket or a process (internal error), or an address that was released or
    whose network was deleted under an attached port (not found). *)
Inductive half_done r (method : string) params : RpcError -> Registry -> Prop :=
  | change_kept e v r' :
      succeeds r method params v r' ->
      e = Internal \/ e = NotFound /\ method ∈ ["PublishPort"; "UnpublishPort"] ->
      half_done r method params e r'
  | no_socket : method = "CreatePort" -> half_done r method params Internal r
  | address_gone name :
      method = "DetachPort" -> str_param params "name" = Ok name -> is_Some (reg_ports r !! name) ->
      half_done r method params NotFound (with_ports (<[name := (None, None)]> (reg_ports r)) r).

Definition methods : list string :=
  ["CreateNetwork"; "DeleteNetwork"; "GetNetwork"; "CreatePort"; "DeletePort"; "GetPort";
   "AttachPort"; "DetachPort"; "AllocateIP"; "ReleaseIP"; "PublishPort"; "UnpublishPort"].

(** What a request may do; [half] says whether it may fail half-way. *)
Definition outcome (half : Prop) r (method : string) params (res : result RpcError V) r' : Prop :=
  match res with
  | Ok v => succeeds r method params v r'
  | Err e => refused r method params e /\ r' = r \/ half /\ half_done r method params e r'
             \/ (method ∉ methods) /\ e = MethodNotFound /\ r' = r
  end.
End Contract.
Arguments Registry : clear implicits.

(** ** Conversations *)
Section Conversation.
Context {V : Type} `{JsonValue V}.

Definition respond (id : V) (res : result RpcError V) : Response V :=
  match res with Ok v => Response_ok id v | Err e => Response_err id e end.

(** The requests and responses of a conversation, as the registry sees it. *)
Inductive trace (half : Prop) : Registry V -> list (Request V * Response V) -> Registry V -> Prop :=
  | trace_nil r : trace half r [] r
  | trace_cons r req res r1 l r2 :
      outcome half r (rq_method req) (default Null (rq_params req)) res r1 -> trace half r1 l r2 ->
      trace half r ((req, respond (rq_id req) res) :: l) r2.

(** The requests are dispatched in order; the control plane may be another
    one each time (what the system answers to it is). *)
Fixpoint converse {C} (l : list (ControlPlane C V * Request V)) (s : C) : run C (list (Response V)) :=
  match l with
  | [] => Returns s []
  | (plane, req) :: l' =>
      match @dispatch C V _ plane req s with
      | Panics s1 => Panics s1
      | Returns s1 resp =>
          match converse l' s1 with
          | Panics s2 => Panics s2
          | Returns s2 rs => Returns s2 (resp :: rs)
          end
      end
  end.
End Conversation.

(** A control plane that keeps to the contract. *)
Class Registered (C V : Type) `{JsonValue V} := {
  registry : C -> Registry V;
  rg_valid : C -> Prop;
  rg_plane : ControlPlane C V -> Prop;
  rg_half : Prop;
  rg_step : forall (plane : ControlPlane C V) name h params s,
    rg_plane plane -> @handler C V plane name = Some h -> rg_valid s ->
    wp (h params) s
      (fun v s' => rg_valid s' /\ outcome rg_half (registry s) name params (Ok v) (registry s'))
      (fun e s' => rg_valid s' /\ outcome rg_half (registry s) name params (Err e) (registry s'));
}.

Section Clients.
Context {C V : Type} `{Registered C V}.
Implicit Types (s : C) (l : list (ControlPlane C V * Request V)).

Lemma handler_known (plane : ControlPlane C V) m : @handler C V plane m = None -> m ∉ methods.
Proof. unfold handler, methods. repeat case_decide; try done. set_solver. Qed.

Lemma dispatch_outcome (plane : ControlPlane C V) (req : Request V) s :
  rg_plane plane -> rg_valid s ->
  exists s' res, @dispatch C V _ plane req s = Returns s' (respond (rq_id req) res) /\ rg_valid s' /\
    outcome rg_half (registry s) (rq_method req) (default Null (rq_params req)) res (registry s').
Proof.
  intros Hp Hs. unfold dispatch. destruct (handler (rq_method req)) as [h|] eqn:Hh.
  - pose proof (rg_step plane _ h (default Null (rq_params req)) s Hp Hh Hs) as Hwp. unfold wp in Hwp.
    destruct (h _ s) as [s' [v|e]|]; [..|done]; destruct Hwp as [Hv Ho]; [exists s', (Ok v)|exists s', (Err e)]; done.
  - exists s, (Err MethodNotFound). split_and!; [done..|]. right. right. eauto using handler_known.
Qed.

Lemma converse_trace l s :
  Forall (fun e => rg_plane e.1) l -> rg_valid s ->
  exists s' rs, converse l s = Returns s' rs /\ rg_valid s' /\ length rs = length l /\
    trace rg_half (registry s) (zip l.*2 rs) (registry s').
Proof.
  revert s. induction l as [|[plane req] l IH]; intros s Hl Hs.
  { exists s, []. split_and!; [done..|constructor]. }
  apply Forall_cons in Hl as [Hp Hl]. cbn [converse].
  destruct (dispatch_outcome plane req s Hp Hs) as (s1 & res & -> & Hs1 & Ho).
  destruct (IH s1 Hl Hs1) as (s2 & rs & -> & Hs2 & Hlen & Ht).
  eexists s2, _. split_and!; [done..|by simpl; rewrite Hlen|]. simpl. by econstructor.
Qed.
End Clients.

(** ** What a client may rely on: publications *)
Section Publications.
Context {V : Type} `{JsonValue V}.
Implicit Types (r : Registry V) (req : Request V) (port : string) (vm : Z).

Definition params_of req : V := default Null (rq_params req).

Definition asks_publish port vm req : Prop :=
  rq_method req = "PublishPort" /\ str_param (params_of req) "port" = Ok port /\
  u16_param (params_of req) "vm_port" = Ok vm.

(** The requests that take a publication back. *)
Definition withdraws port vm req : Prop :=
  rq_method req = "UnpublishPort" /\ str_param (params_of req) "port" = Ok port /\
    u16_param (params_of req) "vm_port" = Ok vm \/
  rq_method req ∈ ["DetachPort"; "DeletePort"] /\ str_param (params_of req) "name" = Ok port.

(** No host port is given twice. *)
Definition published_once r : Prop :=
  forall k k' h, reg_published r !! k = Some h -> reg_published r !! k' = Some h -> k = k'.

(** What a request may do to the publications. *)
Inductive publication_step (m : string) (params : V) (t : gmap (string * Z) Z) : gmap (string * Z) Z -> Prop :=
  | pub_same : publication_step m params t t
  | pub_new k h : t !! k = None -> (forall k', t !! k' <> Some h) -> publication_step m params t (<[k := h]> t)
  | pub_less port vm :
      m = "UnpublishPort" -> str_param params "port" = Ok port -> u16_param params "vm_port" = Ok vm ->
      publication_step m params t (delete (port, vm) t)
  | pub_others port :
      m ∈ ["DetachPort"; "DeletePort"] -> str_param params "name" = Ok port ->
      publication_step m params t (others port t).

Lemma succeeds_publications r m params v r' :
  succeeds r m params v r' -> publication_step m params (reg_published r) (reg_published r').
Proof.
  destruct 1; simpl; eauto using pub_same, pub_less.
  - apply pub_others; [set_solver|done].
  - apply pub_others; [set_solver|done].
  - match goal with Hf : free_host_port _ _ |- _ => destruct Hf as [_ Hf] end. by apply pub_new.
Qed.

Lemma outcome_publications half r m params res r' :
  outcome half r m params res r' -> publication_step m params (reg_published r) (reg_published r').
Proof.
  destruct res as [v|e]; [by apply succeeds_publications|].
  intros [[_ ->]|[[_ Hh]|(_ & _ & ->)]]; [apply pub_same| |apply pub_same].
  destruct Hh; [by eapply succeeds_publications|apply pub_same|apply pub_same].
Qed.

Lemma lookup_others port t p vm h : others port t !! (p, vm) = Some h <-> t !! (p, vm) = Some h /\ p <> port.
Proof. unfold others. by rewrite map_lookup_filter_Some. Qed.

Lemma publication_kept req port vm t t' h :
  publication_step (rq_method req) (params_of req) t t' -> ~ withdraws port vm req ->
  t !! (port, vm) = Some h -> t' !! (port, vm) = Some h.
Proof.
  unfold withdraws. intros Hstep Hnot Ht. destruct Hstep as [|k h' Hk|p v|p]; [done|..].
  - rewrite lookup_insert_ne; [done|congruence].
  - rewrite lookup_delete_ne; [done|]. naive_solver.
  - apply lookup_others. naive_solver.
Qed.

Lemma publication_unique m params t t' :
  publication_step m params t t' -> (forall k k' h, t !! k = Some h -> t !! k' = Some h -> k = k') ->
  forall k k' h, t' !! k = Some h -> t' !! k' = Some h -> k = k'.
Proof.
  intros Hstep Hu k k' h. destruct Hstep as [|k0 h' Hk Hfree|p v|p]; [apply Hu|..].
  - rewrite !lookup_insert_Some. naive_solver.
  - rewrite !lookup_delete_Some. naive_solver.
  - destruct k, k'. rewrite !lookup_others. naive_solver.
Qed.

Lemma trace_app half r l1 l2 r' :
  trace half r (l1 ++ l2) r' -> exists r1, trace half r l1 r1 /\ trace half r1 l2 r'.
Proof.
  revert r. induction l1 as [|[req resp] l1 IH]; simpl; intros r Ht; [by exists r; split; [constructor|]|].
  inversion Ht; subst. match goal with T : trace _ _ (_ ++ _) _ |- _ => apply IH in T as (r2 & ? & ?) end.
  exists r2. split; [by econstructor|done].
Qed.

Lemma trace_publication_kept half r l r' port vm h :
  trace half r l r' -> Forall (fun e => ~ withdraws port vm e.1) l ->
  reg_published r !! (port, vm) = Some h -> reg_published r' !! (port, vm) = Some h.
Proof.
  induction 1; [done|]. intros [Hw Hl]%Forall_cons Hp. apply IHtrace; [done|].
  eapply publication_kept; [by eapply outcome_publications|done|done].
Qed.

Lemma trace_published_once half r l r' : trace half r l r' -> published_once r -> published_once r'.
Proof.
  induction 1; [done|]. intros Hu. apply IHtrace. refine (publication_unique _ _ _ _ _ Hu). by eapply outcome_publications.
Qed.

(** A publication that succeeded is in the registry under the answer. *)
Lemma publish_answered half r req resp r' port vm v :
  trace half r [(req, resp)] r' -> asks_publish port vm req -> rs_result resp = Some v ->
  exists h, v = Obj [("host_port", Num h)] /\ reg_published r' !! (port, vm) = Some h /\
    forall h', reg_published r !! (port, vm) = Some h' -> h' = h.
Proof.
  intros Ht (Hm & Hp & Hv) Hres. inversion Ht as [|? ? res r1 ? ? Ho Hnil]; subst. inversion Hnil; subst.
  unfold params_of in *. rewrite Hm in Ho. destruct res as [v'|e]; [|done]. simplify_eq/=.
  inversion Ho; simplify_eq/=;
    match goal with
    | Hp' : str_param _ "port" = Ok ?p, Hv' : u16_param _ "vm_port" = Ok ?v |- _ =>
        assert (p = port) as -> by congruence; assert (v = vm) as -> by congruence
    end; eexists; (split; [done|]).
  - split; [done|congruence].
  - split; [by rewrite lookup_insert_eq|congruence].
Qed.
End Publications.

(** What every operation of a conversation keeps, the conversation keeps. *)
Lemma converse_keeps {C V} `{JsonValue V} (P : C -> Prop) (l : list (ControlPlane C V * Request V)) s s' rs :
  Forall (fun e => forall h s, @handler C V e.1 (rq_method e.2) = Some h -> P s ->
    wp (h (params_of e.2)) s (fun _ => P) (fun _ => P)) l ->
  P s -> converse l s = Returns s' rs -> P s'.
Proof.
  intros Hl. revert s rs. induction Hl as [|[plane req] l Hstep Hl IH]; intros s rs Hs Hc; [by injection Hc as <-|].
  cbn [converse] in Hc. unfold dispatch in Hc. simpl in Hstep.
  destruct (handler (rq_method req)) as [h|] eqn:Hh.
  - specialize (Hstep h s eq_refl Hs). unfold wp, params_of in Hstep.
    destruct (h (default Null (rq_params req)) s) as [s1 [v|e]|]; [..|done].
    all: cbn beta iota in Hc; destruct (converse l s1) as [s2 rs2|] eqn:Hc2; [|done]; injection Hc as <- _; exact (IH _ _ Hstep Hc2).
  - cbn beta iota in Hc. destruct (converse l s) as [s2 rs2|] eqn:Hc2; [|done]. injection Hc as <- _. exact (IH _ _ Hs Hc2).
Qed.
