(* ===== verification/Planes.v ===== *)
(** * The two control planes as registries

    The in-memory control plane (crates/k8netd-rpc/src/server.rs) and the
    dataplane's (crates/k8netd/src/dataplane.rs) keep to the contract of
    [Registry]; only the dataplane may fail half-way. *)
From S2P Require Import Prelude RustStd Model Ipam Json Protocol StateStore Server.
From S2P Require Import Frame MacTable Engine Gateway Dns Passt Packet Dataplane Registry.
#[local] Open Scope string_scope.
#[local] Open Scope Z_scope.

(** ** The publish table as a map *)
Definition published_of_table (t : PublishTable) : gmap (string * Z) Z :=
  map_uncurry (M1 := gmap string) (M2 := gmap Z) (M12 := gmap (string * Z)) (entries t).

Lemma lookup_published t p v : published_of_table t !! (p, v) = pt_get t p v.
Proof. unfold published_of_table, pt_get. by rewrite lookup_map_uncurry. Qed.

Lemma published_remove_port t p : published_of_table (pt_remove_port t p).2 = others p (published_of_table t).
Proof.
  apply map_eq. intros [q v]. rewrite lookup_published, pt_remove_port_get. unfold others.
  rewrite map_lookup_filter, lookup_published.
  destruct (pt_get t q v); simpl; [|by case_decide]. repeat (case_guard || case_decide); simpl in *; done.
Qed.

(** As above, with the removal evaluated. *)
Lemma published_without t p : published_of_table {| entries := delete p (entries t) |} = others p (published_of_table t).
Proof. exact (published_remove_port t p). Qed.

Lemma published_remove t p vm : published_of_table (pt_remove t p vm).2 = delete (p, vm) (published_of_table t).
Proof.
  apply map_eq. intros [q v]. rewrite lookup_published, pt_remove_get. case_decide as Hq.
  - destruct Hq as [-> ->]. by rewrite lookup_delete_eq.
  - rewrite lookup_delete_ne by naive_solver. by rewrite lookup_published.
Qed.

Lemma pt_remove_spec t p vm r t' :
  pt_remove t p vm = (r, t') -> pt_get t p vm = r /\ published_of_table t' = delete (p, vm) (published_of_table t).
Proof.
  intros E. pose proof (pt_remove_result t p vm) as Hr. pose proof (published_remove t p vm) as Ht.
  by rewrite E in Hr, Ht.
Qed.

Lemma published_allocate t p vm range h t' :
  pt_allocate t p vm range = (Some h, t') -> pt_get t p vm = None ->
  published_of_table t' = <[(p, vm) := h]> (published_of_table t) /\ range.1 <= h <= range.2 /\
  forall k, published_of_table t !! k <> Some h.
Proof.
  intros Ha Hn. pose proof (pt_allocate_cases t p vm range) as Hx. rewrite Ha in Hx.
  destruct Hx as (Hg & Hother & [[? _]|(_ & Hr & Hfree & _)]); [congruence|]. split_and!; [|lia..|].
  - apply map_eq. intros [q v]. rewrite lookup_published. destruct (decide (q = p /\ v = vm)) as [[-> ->]|Hne].
    + by rewrite lookup_insert_eq.
    + rewrite lookup_insert_ne, lookup_published by naive_solver. auto.
  - intros [q v] Hq. rewrite lookup_published in Hq. apply Hfree, elem_of_pt_used. eauto.
Qed.

Lemma published_full t p vm range t' :
  pt_allocate t p vm range = (None, t') ->
  t' = t /\ forall h, range.1 <= h <= range.2 -> exists k, published_of_table t !! k = Some h.
Proof.
  intros Ha. pose proof (pt_allocate_cases t p vm range) as Hx. rewrite Ha in Hx.
  destruct Hx as (-> & _ & Hall). split; [done|]. intros h Hh.
  apply Hall, elem_of_pt_used in Hh as (q & v & Hq). exists (q, v). by rewrite lookup_published.
Qed.

(** Parameter reading fails in one way. *)
Lemma str_param_Err {V} `{JsonValue V} (params : V) k e : str_param params k = Err e -> e = InvalidParams.
Proof. unfold str_param. destruct (_ ≫= _); simpl; congruence. Qed.

Lemma u16_param_Err {V} `{JsonValue V} (params : V) k e : u16_param params k = Err e -> e = InvalidParams.
Proof. unfold u16_param. destruct (_ ≫= _); simpl; congruence. Qed.

Lemma ok_or_Err {E A} (o : option A) (e e' : E) : ok_or o e = Err e' -> e' = e /\ o = None.
Proof. destruct o; simpl; split; congruence. Qed.

Lemma map_err_Err {E F A} (f : E -> F) (r : result E A) e : map_err f r = Err e -> exists e', r = Err e' /\ e = f e'.
Proof. destruct r; simpl; [done|]. intros [= <-]. eauto. Qed.

(** What is known of a conversion that failed. *)
Ltac simp_errors :=
  repeat match goal with
  | E : ok_or _ _ = Err _ |- _ => apply ok_or_Err in E as [-> E]
  | E : map_err _ _ = Err _ |- _ => apply map_err_Err in E as (? & E & ->)
  end.

(** [network_of] on parameters that were read. *)
Ltac network_params :=
  unfold network_of; repeat (match goal with E : ?x = _ |- context [?x] => rewrite E end; simpl).

Section Outcomes.
Context {V : Type} `{JsonValue V}.
Implicit Types (r : Registry V) (params v : V).

Lemma succeeds_as r m params v r1 r2 : succeeds r m params v r1 -> r1 = r2 -> succeeds r m params v r2.
Proof. by intros ? <-. Qed.

Lemma outcome_missing half r m params key e :
  str_param params key = Err e -> key ∈ string_keys m -> outcome half r m params (Err e) r.
Proof. intros Hk Hin. pose proof (str_param_Err _ _ _ Hk) as ->. left. split; [by eapply missing_string|done]. Qed.

Lemma outcome_refused half r m params e : refused r m params e -> outcome half r m params (Err e) r.
Proof. by left. Qed.

Lemma mac_of_Ok params text mac :
  str_param params "mac" = Ok text -> parse_mac text = Ok mac -> mac_of params = Ok mac.
Proof. intros Ht Hm. unfold mac_of. rewrite Ht. simpl. by rewrite Hm. Qed.

Lemma outcome_bad_mac half r m params text e :
  str_param params "mac" = Ok text -> map_err (fun _ => InvalidParams) (parse_mac text) = Err e ->
  m ∈ ["AttachPort"; "AllocateIP"; "ReleaseIP"] -> outcome half r m params (Err e) r.
Proof.
  intros Ht He Hm. assert (Hmac : mac_of params = Err e) by (unfold mac_of; rewrite Ht; exact He).
  apply map_err_Err in He as (e' & _ & ->). by apply outcome_refused, bad_mac.
Qed.

Lemma outcome_bad_vm_port half r m params e :
  u16_param params "vm_port" = Err e -> m ∈ ["PublishPort"; "UnpublishPort"] -> outcome half r m params (Err e) r.
Proof. intros He Hm. pose proof (u16_param_Err _ _ _ He) as ->. apply outcome_refused. by apply bad_vm_port. Qed.
End Outcomes.

(** ** What the implementations know *)
Section Abstractions.
Context {V : Type} `{JsonValue V}.

Definition memory_registry (s : Memory.MemoryControlPlane V) : Registry V := {|
  reg_networks := (fun e => (Memory.created_with e, Memory.ne_network e)) <$> Memory.networks s;
  reg_ports := (fun p => (port_network p, port_mac p)) <$> Memory.ports s;
  reg_published := published_of_table (Memory.publish_table s);
  reg_range := Memory.publish_range s;
|}.

Definition dp_registry (g : Dp.Inner V) : Registry V := {|
  reg_networks := (fun e => (Dp.created_with e, ipam_network (Dp.ne_ipam e))) <$> Dp.networks g;
  reg_ports := (fun p => (Dp.lp_network p, Dp.lp_mac p)) <$> Dp.ports g;
  reg_published := published_of_table (Dp.publish_table g);
  reg_range := Dp.publish_range g;
|}.

Lemma memory_networks s name : reg_networks (memory_registry s) !! name =
  (fun e => (Memory.created_with e, Memory.ne_network e)) <$> Memory.networks s !! name.
Proof. apply lookup_fmap. Qed.
Lemma memory_ports s name : reg_ports (memory_registry s) !! name =
  (fun p => (port_network p, port_mac p)) <$> Memory.ports s !! name.
Proof. apply lookup_fmap. Qed.
Lemma memory_published s p vm : reg_published (memory_registry s) !! (p, vm) = pt_get (Memory.publish_table s) p vm.
Proof. apply lookup_published. Qed.

Lemma dp_reg_networks g name : reg_networks (dp_registry g) !! name =
  (fun e => (Dp.created_with e, ipam_network (Dp.ne_ipam e))) <$> Dp.networks g !! name.
Proof. apply lookup_fmap. Qed.
Lemma dp_reg_ports g name : reg_ports (dp_registry g) !! name =
  (fun p => (Dp.lp_network p, Dp.lp_mac p)) <$> Dp.ports g !! name.
Proof. apply lookup_fmap. Qed.
Lemma dp_reg_published g p vm : reg_published (dp_registry g) !! (p, vm) = pt_get (Dp.publish_table g) p vm.
Proof. apply lookup_published. Qed.
End Abstractions.

Create Rewrite HintDb registry.
#[export] Hint Rewrite @memory_networks @memory_ports @memory_published
  @dp_reg_networks @dp_reg_ports @dp_reg_published : registry.

(** The error of a parameter. *)
Ltac bad_param :=
  first [ eapply outcome_missing; [eassumption|unfold string_keys; simpl; set_solver]
        | eapply outcome_bad_mac; [eassumption|eassumption|set_solver]
        | eapply outcome_bad_vm_port; [eassumption|set_solver] ].

(** The registry's fields, with what is known of the state. *)
Ltac known :=
  autorewrite with registry;
  repeat (match goal with E : ?x = _ |- context [?x] => rewrite E end; simpl); eauto.

(** The MAC of the parameters, once read. *)
Ltac read_mac :=
  match goal with Ht : str_param _ "mac" = Ok _, Hm : parse_mac _ = Ok _ |- _ => pose proof (mac_of_Ok _ _ _ Ht Hm) end.

(** A change of the registry. *)
Ltac changed :=
  unfold with_networks, with_ports, with_published, memory_registry, dp_registry; simpl;
  rewrite ?fmap_insert, ?fmap_delete, ?published_without; done.

(** ** The in-memory control plane *)
Section MemoryPlane.
Context {V : Type} `{JsonValue V}.
Import Memory.
Implicit Types (s : MemoryControlPlane V) (params v : V).

(** The operation keeps the invariant and follows the registry. *)
Definition follows (m : string) params s (op : cmd (MemoryControlPlane V) RpcError V) : Prop :=
  wp op s (fun v s' => outcome False (memory_registry s) m params (Ok v) (memory_registry s'))
          (fun e s' => outcome False (memory_registry s) m params (Err e) (memory_registry s')).

Lemma create_network_follows params s : follows "CreateNetwork" params s (create_network params).
Proof.
  unfold follows, create_network. wp_steps; try bad_param; simp_errors; simp_results; subst.
  - eapply (create_network_again _ _ a); known.
  - apply outcome_refused. eapply (other_network _ _ _ a); known.
  - eapply succeeds_as; [eapply (create_network_new _ _ a); known; by network_params|changed].
  - apply outcome_refused. eapply (bad_network _ _ _ a); known; by network_params.
  - apply outcome_refused. eapply (bad_network _ _ _ a); known; by network_params.
  - apply outcome_refused. eapply (bad_network _ _ _ a); known; by network_params.
  - apply outcome_refused. eapply (bad_network _ _ _ a); known; by network_params.
Qed.

Lemma delete_network_follows params s : follows "DeleteNetwork" params s (delete_network params).
Proof.
  unfold follows, delete_network. wp_steps; try bad_param.
  - eapply succeeds_as; [eapply (delete_network_there _ _ a); known|changed].
  - replace (memory_registry (set_networks _ s)) with (memory_registry s).
    + apply outcome_refused. by eapply (no_network _ _ _ "name" a); known.
    + unfold memory_registry. simpl. by rewrite delete_id.
Qed.

Lemma get_network_follows params s : memory_ok s -> follows "GetNetwork" params s (get_network params).
Proof.
  intros Hs. unfold follows, get_network. wp_steps; try bad_param; simp_errors; simp_results.
  - match goal with Hn : networks s !! _ = Some _ |- _ => pose proof (mem_networks s Hs _ _ Hn) as (_ & -> & _) end.
    eapply (get_network_there _ _ a); known.
  - apply outcome_refused. by eapply (no_network _ _ _ "name" a); known.
Qed.

Lemma create_port_follows params s : follows "CreatePort" params s (create_port params).
Proof.
  unfold follows, create_port. wp_steps; try bad_param; simp_errors; simp_results.
  - eapply (create_port_again _ _ a); known.
  - unfold Port_new in *. case_match; simplify_eq.
    eapply succeeds_as; [eapply (create_port_new _ _ a); known|changed].
  - apply outcome_refused. eapply (blank_name _ _ _ a); known. unfold Port_new in *. by case_match.
Qed.

Lemma no_publications s name :
  memory_ok s -> ports s !! name = None -> others name (published_of_table (publish_table s)) = published_of_table (publish_table s).
Proof.
  intros Hs Hp. apply map_filter_id. intros [q vm] h Hq. rewrite lookup_published in Hq. simpl. intros ->.
  by rewrite (no_port_unpublished s name vm Hs Hp) in Hq.
Qed.

Lemma delete_port_follows params s : memory_ok s -> follows "DeletePort" params s (delete_port params).
Proof.
  intros Hs. unfold follows, delete_port. wp_steps; try bad_param.
  - eapply succeeds_as; [eapply (delete_port_there _ _ a); known|changed].
  - match goal with |- outcome _ _ _ _ _ ?r => replace r with (memory_registry s) end.
    + apply outcome_refused. by eapply (no_port _ _ _ "name" a); known.
    + unfold memory_registry. simpl. by rewrite delete_id, published_without, no_publications.
Qed.

Lemma get_port_follows params s :
  (forall name p, ports s !! name = Some p -> port_name p = name) -> follows "GetPort" params s (get_port params).
Proof.
  intros Hs. unfold follows, get_port. wp_steps; try bad_param; simp_errors; simp_results.
  - rewrite (Hs a) by done. eapply (get_port_there _ _ a); known.
  - apply outcome_refused. by eapply (no_port _ _ _ "name" a); known.
Qed.

(** Reservations are invisible in the registry. *)
Lemma memory_readdress s net e i :
  networks s !! net = Some e ->
  memory_registry (set_networks (insert net {| ne_network := ne_network e; ne_ipam := i; created_with := created_with e |}) s)
    = memory_registry s.
Proof.
  intros He. unfold memory_registry. simpl. f_equal. rewrite fmap_insert. apply insert_id. by rewrite lookup_fmap, He.
Qed.

Lemma wp_allocate_in net mac s (Q : Ipv4Addr -> MemoryControlPlane V -> Prop) (R : RpcError -> MemoryControlPlane V -> Prop) :
  (forall ip s', memory_registry s' = memory_registry s -> ports s' = ports s -> is_Some (networks s !! net) -> Q ip s') ->
  (networks s !! net = None -> R NotFound s) ->
  (forall s', memory_registry s' = memory_registry s -> ports s' = ports s -> is_Some (networks s !! net) -> R Conflict s') ->
  wp (allocate_in net mac) s Q R.
Proof.
  intros HQ Hn Hc.
  unfold allocate_in. wp_steps; simp_errors; simp_results; subst; [apply HQ|..|apply Hn]; eauto using memory_readdress.
  match goal with E : allocate _ _ = (Err ?e, _) |- _ => pose proof (allocate_error _ _ _ _ E) as -> end.
  apply Hc; eauto using memory_readdress.
Qed.

Lemma attach_port_follows params s : follows "AttachPort" params s (attach_port params).
Proof.
  unfold follows, attach_port. wp_steps; try bad_param; simp_errors; simp_results.
  2: apply outcome_refused; by eapply (no_port _ _ _ "port" a); known.
  read_mac.
  apply wp_allocate_in.
  - intros ip s' Hreg Hports Hn. wp_steps. eapply wp_unwrap; [by rewrite Hports|]. wp_steps; rewrite ?Hreg.
    + destruct_and?. eapply (attach_port_again _ _ a a0); known; congruence.
    + apply outcome_refused. match goal with i : is_Some (port_network p) |- _ => pose proof i as [net' Hnet] end.
      eapply (other_attachment _ _ _ a a0 _ net' (port_mac p)); known; try congruence. intros [= -> ?]. naive_solver.
    + assert (Hnet : port_network p = None) by (by apply eq_None_not_Some). destruct Hn as [e He].
      eapply succeeds_as; [eapply (attach_port_free _ _ a a0 _ (port_mac p)); known|].
      unfold with_ports. rewrite <- Hreg. unfold memory_registry. simpl. by rewrite fmap_insert.
  - intros Hn. apply outcome_refused. by eapply (no_network _ _ _ "network" a0); known.
  - intros s' -> _ [e He]. apply outcome_refused. by eapply (pool_used_up _ _ _ a0); known; set_solver.
Qed.

Lemma detach_port_follows params s : follows "DetachPort" params s (detach_port params).
Proof.
  unfold follows, detach_port. wp_steps; try bad_param; simp_errors; simp_results.
  - eapply succeeds_as; [eapply (detach_port_there _ _ a); known|changed].
  - apply outcome_refused. by eapply (no_port _ _ _ "name" a); known.
Qed.

Lemma allocate_ip_follows params s : follows "AllocateIP" params s (allocate_ip params).
Proof.
  unfold follows, allocate_ip. wp_steps; try bad_param; simp_results.
  read_mac.
  apply wp_allocate_in.
  - intros ip s' Hreg _ [e He]. wp_steps. rewrite Hreg. eapply (allocate_ip_there _ _ a _ ip); known.
  - intros Hn. apply outcome_refused. by eapply (no_network _ _ _ "network" a); known.
  - intros s' -> _ [e He]. apply outcome_refused. by eapply (pool_used_up _ _ _ a); known; set_solver.
Qed.

Lemma release_ip_follows params s : follows "ReleaseIP" params s (release_ip params).
Proof.
  unfold follows, release_ip. wp_steps; try bad_param; simp_errors; simp_results; subst.
  3: apply outcome_refused; by eapply (no_network _ _ _ "network" a); known.
  all: rewrite memory_readdress by done.
  - read_mac.
    by eapply (release_ip_there _ _ a); known.
  - match goal with E : release _ _ = (Err ?x, _) |- _ => pose proof (release_error _ _ _ _ E) as -> end.
    apply outcome_refused. by apply no_binding.
Qed.

Lemma publish_port_follows params s : follows "PublishPort" params s (publish_port params).
Proof.
  unfold follows, publish_port. wp_steps; try bad_param; simp_errors; simp_results; subst.
  - eapply (publish_port_again _ _ a a0); known.
  - match goal with E : pt_allocate _ _ _ _ = _ |- _ => apply published_allocate in E as (Ht & Hr & Hf); [|done] end.
    eapply succeeds_as; [eapply (publish_port_new _ _ a a0); known; by split|].
    unfold with_published, memory_registry. simpl. by rewrite Ht.
  - match goal with E : pt_allocate _ _ _ _ = _ |- _ => apply published_full in E as (-> & Hall) end.
    match goal with |- outcome _ _ _ _ _ ?r => change r with (memory_registry s) end.
    apply outcome_refused. eapply (range_used_up _ _ _ a); known.
    intros h [Hr Hf]. destruct (Hall h Hr) as [k Hk]. by apply (Hf k).
  - apply outcome_refused. eapply (not_attached _ _ _ a); known.
  - apply outcome_refused. by eapply (no_port _ _ _ "port" a); known.
Qed.

Lemma unpublish_port_follows params s : follows "UnpublishPort" params s (unpublish_port params).
Proof.
  unfold follows, unpublish_port. wp_steps; try bad_param; simp_errors; simp_results; subst.
  all: match goal with E : pt_remove _ _ _ = _ |- _ => apply pt_remove_spec in E as [Hg Ht] end.
  - eapply succeeds_as; [eapply (unpublish_port_there _ _ a a0); known|].
    unfold with_published, memory_registry. simpl. by rewrite Ht.
  - replace (memory_registry (set_table p s)) with (memory_registry s)
      by (unfold memory_registry; simpl; rewrite Ht, delete_id; [done|by rewrite lookup_published]).
    apply outcome_refused. eapply (not_published _ _ _ a); known.
Qed.

(** A port is kept under its name. *)
Definition named s : Prop := forall name p, ports s !! name = Some p -> port_name p = name.

Lemma named_insert s name p : named s -> port_name p = name -> named (set_ports (insert name p) s).
Proof. intros Hs Hp n q. simpl. intros [[<- <-]|[_ Hq]]%lookup_insert_Some; auto. Qed.

Lemma named_delete s name : named s -> named (set_ports (delete name) s).
Proof. intros Hs n q. simpl. intros [_ Hq]%lookup_delete_Some. auto. Qed.

Lemma handlers_named name h params s :
  handler (C := MemoryControlPlane V) (V := V) name = Some h -> named s ->
  wp (h params) s (fun _ => named) (fun _ => named).
Proof.
  intros Hh Hs. refine (handler_cases (fun h => wp (h params) s (fun _ => named) (fun _ => named)) name h Hh
    _ _ _ _ _ _ _ _ _ _ _ _); simpl.
  all: unfold create_network, delete_network, get_network, create_port, delete_port, get_port, attach_port,
    detach_port, allocate_ip, release_ip, publish_port, unpublish_port.
  all: wp_steps; try done; simp_results.
  - unfold Port_new in *. case_match; simplify_eq. by apply named_insert.
  - by apply named_delete.
  - by apply named_delete.
  - apply wp_allocate_in.
    + intros ip s' _ Hports _. assert (Hs' : named s') by (intros n q; rewrite Hports; apply Hs).
      wp_steps. eapply wp_unwrap; [by rewrite Hports|]. wp_steps; try done. apply named_insert; simpl; auto.
    + done.
    + intros s' _ Hports _ n q. rewrite Hports. apply Hs.
  - apply (named_insert s); simpl; auto.
  - apply wp_allocate_in.
    + intros ip s' _ Hports _. wp_steps. intros n q. rewrite Hports. apply Hs.
    + done.
    + intros s' _ Hports _ n q. rewrite Hports. apply Hs.
Qed.

Lemma memory_follows name h params s :
  handler (C := MemoryControlPlane V) (V := V) name = Some h -> memory_ok s -> named s -> follows name params s (h params).
Proof.
  intros Hh Hs Hn. unfold handler in Hh. repeat (case_decide; [simplify_eq; simpl|]); [..|done].
  all: eauto using create_network_follows, delete_network_follows, get_network_follows, create_port_follows,
    delete_port_follows, get_port_follows, attach_port_follows, detach_port_follows, allocate_ip_follows,
    release_ip_follows, publish_port_follows, unpublish_port_follows.
Qed.
End MemoryPlane.

#[export, refine] Instance memory_registered {V} `{JsonValue V} : Registered (Memory.MemoryControlPlane V) V := {|
  registry := memory_registry;
  rg_valid := fun s => memory_ok s /\ named s;
  rg_plane := fun plane => plane = Memory.memory_plane;
  rg_half := False;
|}.
Proof.
  intros plane name h params s -> Hh [Hs Hn].
  pose proof (memory_follows name h params s Hh Hs Hn) as Hf. unfold follows in Hf.
  pose proof (memory_handlers_safe name h params s Hh Hs) as Hv. pose proof (handlers_named name h params s Hh Hn) as Hd.
  eapply wp_mono; [exact (wp_and _ _ _ _ _ _ (wp_and _ _ _ _ _ _ Hv Hd) Hf)|..]; simpl; tauto.
Defined.

(** ** The dataplane *)
Section DataPlane.
Context {V : Type} `{JsonValue V, SnapshotCodec V}.
Import Dp.
Implicit Types (env : Env) (w : World V) (params v : V).

(** The operation leaves the mutex usable and follows the registry. *)
Definition serves (m : string) params w (op : op V V) : Prop :=
  wp op w
    (fun v w' => poisoned w' = false /\ outcome True (dp_registry (inner w)) m params (Ok v) (dp_registry (inner w')))
    (fun e w' => poisoned w' = false /\ outcome True (dp_registry (inner w)) m params (Err e) (dp_registry (inner w'))).

Lemma same_core_registry w w' :
  same_core w w' -> dp_registry (inner w') = dp_registry (inner w) /\ poisoned w' = poisoned w.
Proof. intros (_ & Hp & _ & _ & f & Hf). by rewrite Hf. Qed.

(** Bringing a process in line fails when it cannot be started, or when the
    port or its network is not there. *)
Lemma wp_ensure_errors env port ip published w (Q : unit -> World V -> Prop) (R : RpcError -> World V -> Prop) :
  (forall w', same_core w w' -> Q tt w') ->
  (forall e w', same_core w w' ->
    e = Internal \/ e = NotFound /\ ((p ← ports (inner w) !! port; lp_network p) ≫= fun n => networks (inner w) !! n) = None ->
    R e w') ->
  wp (ensure_passt env port ip published) w Q R.
Proof.
  intros HQ HR. unfold ensure_passt, locked. wp_steps; auto using same_core_refl; simp_errors; simp_results.
  - apply wp_stop_proc. intros w1 Hw1. destruct (spawn_slot _ _) as [[argv []] slot'].
    all: wp_steps; eauto using same_core_trans, same_core_spawn.
  - apply HR; [apply same_core_refl|]. right. split; [done|].
    match goal with Hp : ports _ !! _ ≫= _ = Some _ |- _ => rewrite Hp end. done.
  - apply HR; [apply same_core_refl|]. right. split; [done|].
    match goal with Hp : ports _ !! _ ≫= _ = None |- _ => rewrite Hp end. done.
Qed.

(** Steps through an operation, saves and process changes included; what is
    left are its outcomes. *)
Ltac op_steps :=
  wp_steps; try congruence;
  repeat (first [ apply wp_persist; [done|intros ?|intros ?]
                | apply wp_ensure_errors; [intros ? ?|intros ? ? ? ?]
                | apply wp_teardown_passt; intros ? ? ]; wp_steps);
  cbn [log set_disk inner poisoned];
  (split; [first [done | by match goal with Hc : same_core _ _ |- _ => apply same_core_registry in Hc as [_ ->] end]|]);
  try match goal with Hc : same_core _ _ |- _ => apply same_core_registry in Hc as [-> _] end;
  try bad_param; simp_errors; simp_results; subst.

Lemma outcome_kept r m params v e r' :
  succeeds r m params v r' -> e = Internal \/ e = NotFound /\ m ∈ ["PublishPort"; "UnpublishPort"] ->
  outcome True r m params (Err e) r'.
Proof. intros Hs He. right. left. split; [done|]. by eapply change_kept. Qed.

(** A change that is made whether or not the rest succeeds. *)
Ltac kept := match goal with |- outcome _ _ _ _ (Err Internal) _ => eapply outcome_kept; [|by left] | _ => idtac end.

Lemma dp_create_network env params w :
  running env -> poisoned w = false -> serves "CreateNetwork" params w (create_network env params).
Proof.
  intros He Hw. unfold serves, create_network, lock. op_steps.
  - eapply (create_network_again _ _ a); known.
  - apply outcome_refused. eapply (other_network _ _ _ a); known.
  - eapply succeeds_as; [eapply (create_network_new _ _ a); known; by network_params|changed].
  - kept. eapply succeeds_as; [eapply (create_network_new _ _ a); known; by network_params|changed].
  - apply outcome_refused. eapply (bad_network _ _ _ a); known; by network_params.
  - apply outcome_refused. eapply (bad_network _ _ _ a); known; by network_params.
  - apply outcome_refused. eapply (bad_network _ _ _ a); known; by network_params.
  - apply outcome_refused. eapply (bad_network _ _ _ a); known; by network_params.
Qed.

Lemma dp_delete_network env params w :
  running env -> poisoned w = false -> serves "DeleteNetwork" params w (delete_network env params).
Proof.
  intros He Hw. unfold serves, delete_network, lock. op_steps.
  3: { match goal with |- outcome _ _ _ _ _ ?r => replace r with (dp_registry (inner w)) end.
       2: by unfold dp_registry; simpl; rewrite delete_id.
       apply outcome_refused. by eapply (no_network _ _ _ "name" a); known. }
  all: kept; (eapply succeeds_as; [eapply (delete_network_there _ _ a); known|changed]).
Qed.

Lemma dp_get_network env params w : poisoned w = false -> serves "GetNetwork" params w (get_network env params).
Proof.
  intros Hw. unfold serves, get_network, lock. op_steps.
  - eapply (get_network_there _ _ a); known.
  - apply outcome_refused. by eapply (no_network _ _ _ "name" a); known.
Qed.

Lemma dp_create_port env params w :
  running env -> poisoned w = false -> serves "CreatePort" params w (create_port env params).
Proof.
  intros He Hw. unfold serves, create_port, lock. op_steps.
  - eapply (create_port_again _ _ a); known.
  - right. left. split; [done|]. by apply no_socket.
  - eapply succeeds_as; [eapply (create_port_new _ _ a); known|changed].
  - kept. eapply succeeds_as; [eapply (create_port_new _ _ a); known|changed].
Qed.

Lemma dp_get_port env params w : poisoned w = false -> serves "GetPort" params w (get_port env params).
Proof.
  intros Hw. unfold serves, get_port, lock. op_steps.
  - eapply (get_port_there _ _ a _ _ []); known.
  - apply outcome_refused. by eapply (no_port _ _ _ "name" a); known.
Qed.

Lemma released_network i mac r i' : release i mac = (r, i') -> ipam_network i' = ipam_network i.
Proof. intros E. pose proof (release_network i mac) as Hn. by rewrite E in Hn. Qed.

Lemma allocated_network i mac r i' : allocate i mac = (r, i') -> ipam_network i' = ipam_network i.
Proof. intros E. pose proof (allocate_network i mac) as Hn. by rewrite E in Hn. Qed.

(** Reservations are invisible in the registry. *)
Lemma readdressed (m : gmap string (NetworkEntry V)) net e i :
  m !! net = Some e -> ipam_network i = ipam_network (ne_ipam e) ->
  (fun e => (created_with e, ipam_network (ne_ipam e))) <$> <[net := {| ne_ipam := i; created_with := created_with e |}]> m
    = (fun e => (created_with e, ipam_network (ne_ipam e))) <$> m.
Proof.
  intros He Hi. rewrite fmap_insert. apply insert_id. by rewrite lookup_fmap, He; simpl; rewrite Hi.
Qed.

Lemma dp_readdress net e i w :
  networks (inner w) !! net = Some e -> ipam_network i = ipam_network (ne_ipam e) ->
  dp_registry (inner (put_ipam net e i w)) = dp_registry (inner w).
Proof.
  intros He Hi. unfold dp_registry. simpl. by rewrite (readdressed _ _ e).
Qed.

Lemma dp_allocated net e mac r i w :
  networks (inner w) !! net = Some e -> allocate (ne_ipam e) mac = (r, i) ->
  dp_registry (inner (put_ipam net e i w)) = dp_registry (inner w).
Proof.
  intros He Ha. apply dp_readdress; [done|by eapply allocated_network].
Qed.

Lemma dp_released net e mac r i w :
  networks (inner w) !! net = Some e -> release (ne_ipam e) mac = (r, i) ->
  dp_registry (inner (put_ipam net e i w)) = dp_registry (inner w).
Proof.
  intros He Ha. apply dp_readdress; [done|by eapply released_network].
Qed.

Lemma dp_allocate_ip env params w : poisoned w = false -> serves "AllocateIP" params w (allocate_ip env params).
Proof.
  intros Hw. unfold serves, allocate_ip, lock. op_steps.
  3: apply outcome_refused; by eapply (no_network _ _ _ "network" a); known.
  all: erewrite dp_allocated by eassumption.
  - read_mac.
    eapply (allocate_ip_there _ _ a); known.
  - match goal with E : allocate _ _ = (Err _, _) |- _ => pose proof (allocate_error _ _ _ _ E) as -> end.
    apply outcome_refused. eapply (pool_used_up _ _ _ a); known. set_solver.
Qed.

Lemma dp_release_ip env params w :
  running env -> poisoned w = false -> serves "ReleaseIP" params w (release_ip env params).
Proof.
  intros He Hw. unfold serves, release_ip, lock. op_steps.
  4: apply outcome_refused; by eapply (no_network _ _ _ "network" a); known.
  all: cbn [set_disk inner]; erewrite dp_released by eassumption.
  3: match goal with E : release _ _ = (Err _, _) |- _ => pose proof (release_error _ _ _ _ E) as -> end.
  3: apply outcome_refused; by apply no_binding.
  all: read_mac.
  all: kept; eapply (release_ip_there _ _ a); known.
Qed.

(** Equal registries, whatever was reserved or released. *)
Ltac same_registry :=
  unfold with_ports, with_published, dp_registry; simpl;
  rewrite ?fmap_insert, ?fmap_delete, ?published_without; try done;
  f_equal; first [apply insert_id | symmetry; apply insert_id]; rewrite lookup_fmap;
  match goal with E : networks _ !! _ = Some _ |- _ => rewrite E end; simpl;
  first [ match goal with R : release _ _ = _ |- _ => by rewrite (released_network _ _ _ _ R) end
        | match goal with R : allocate _ _ = _ |- _ => by rewrite (allocated_network _ _ _ _ R) end
        | by rewrite release_network ].

Lemma dp_delete_port env params w :
  running env -> poisoned w = false -> serves "DeletePort" params w (delete_port env params).
Proof.
  intros He Hw. unfold serves, delete_port, lock. op_steps.
  5: apply outcome_refused; by eapply (no_port _ _ _ "name" a); known.
  all: kept; (eapply succeeds_as; [eapply (delete_port_there _ _ a); known|]).
  all: try match goal with Hb : _ = Some (_, _, _) |- _ => apply bind_release_Some in Hb end.
  all: same_registry.
Qed.

Lemma dp_detach_port env params w :
  running env -> poisoned w = false -> serves "DetachPort" params w (detach_port env params).
Proof.
  intros He Hw. unfold serves, detach_port, lock. op_steps.
  9: apply outcome_refused; by eapply (no_port _ _ _ "name" a); known.
  3,4: right; left; split; [done|].
  3: match goal with E : release _ _ = (Err _, _) |- _ => pose proof (release_error _ _ _ _ E) as -> end.
  3,4: match goal with |- half_done ?r _ _ _ ?r' => replace r' with (with_ports (<[a := (None, None)]> (reg_ports r)) r) end.
  3,5: eapply (address_gone _ _ _ a); known.
  3,4: same_registry.
  all: kept; (eapply succeeds_as; [eapply (detach_port_there _ _ a); known|same_registry]).
Qed.

Lemma attach_port_free_as r r' params port network mac old :
  str_param params "port" = Ok port -> str_param params "network" = Ok network -> mac_of params = Ok mac ->
  reg_ports r !! port = Some (None, old) -> is_Some (reg_networks r !! network) ->
  r' = with_ports (<[port := (Some network, Some mac)]> (reg_ports r)) r ->
  succeeds r "AttachPort" params Null r'.
Proof. intros. subst r'. by eapply (attach_port_free r params port network mac old). Qed.

Lemma dp_attach_port env params w :
  running env -> poisoned w = false -> serves "AttachPort" params w (attach_port env params).
Proof.
  intros He Hw. unfold serves, attach_port, lock. op_steps.
  all: try (apply outcome_refused; first [by eapply (no_port _ _ _ "port" a); known | by eapply (no_network _ _ _ "network" a0); known]).
  all: read_mac.
  all: try match goal with Hn : ~ is_Some (lp_network _) |- _ => pose proof (proj2 (eq_None_not_Some _) Hn) end.
  - destruct_and?. eapply (attach_port_again _ _ a a0); known; congruence.
  - apply outcome_refused. match goal with Hn : is_Some (lp_network ?p) |- _ => destruct Hn as [net Hnet];
      eapply (other_attachment _ _ _ a a0 _ net (lp_mac p)); known end. naive_solver.
  - eapply (attach_port_free_as _ _ _ a a0); known; same_registry.
  - kept. eapply (attach_port_free_as _ _ _ a a0); known; same_registry.
  - match goal with Hor : _ \/ _ /\ _ |- _ => destruct Hor as [->|[-> Hgone]] end.
    + kept. eapply (attach_port_free_as _ _ _ a a0); known; same_registry.
    + simpl in Hgone. rewrite lookup_insert_eq in Hgone. simpl in Hgone. by rewrite lookup_insert_eq in Hgone.
  - match goal with Ha : allocate (ne_ipam ?e) ?m = _ |- _ => pose proof (allocate_lookup (ne_ipam e) m) as Hl; rewrite Ha in Hl end.
    simpl in Hl. specialize (Hl _ eq_refl). congruence.
  - match goal with E : allocate _ _ = (Err _, _) |- _ => pose proof (allocate_error _ _ _ _ E) as -> end.
    erewrite dp_allocated by eassumption. apply outcome_refused. eapply (pool_used_up _ _ _ a0); known. set_solver.
Qed.

Lemma attached_port (m : gmap string LivePort) name :
  is_Some (p ← m !! name; lp_network p) -> exists p net, m !! name = Some p /\ lp_network p = Some net.
Proof. destruct (m !! name) as [p|]; simpl; intros [net Hn]; [by exists p, net|done]. Qed.

Lemma reserved_ip_errors (g : Inner V) port e : reserved_ip g port = Err e -> e = Internal \/ e = NotFound.
Proof.
  unfold reserved_ip. intros Hr.
  repeat (match goal with E : context [ok_or ?o _] |- _ => destruct o; simpl in E end; simplify_eq); auto.
Qed.

(** A publication that was changed, whatever follows. *)
Ltac changed_anyway :=
  match goal with
  | |- outcome _ _ _ _ (Ok _) _ => idtac
  | |- outcome _ _ _ _ (Err _) _ =>
      repeat match goal with
      | E : reserved_ip _ _ = Err _ |- _ => apply reserved_ip_errors in E
      | E : _ \/ _ |- _ => destruct E as [->|E]
      | E : _ = NotFound /\ _ |- _ => destruct E as [-> _]
      end; subst;
      (eapply outcome_kept; [|first [by left | right; split; [done|set_solver]]])
  end.

Lemma dp_publish_port env params w :
  running env -> poisoned w = false -> serves "PublishPort" params w (publish_port env params).
Proof.
  intros He Hw. unfold serves, publish_port, lock, locked. op_steps.
  all: try match goal with Hi : is_Some (_ ≫= _) |- _ => pose proof (attached_port _ _ Hi) as (lp & net & Hlp & Hnet) end.
  1-4: changed_anyway; (eapply (publish_port_again _ _ a a0); known).
  1-4: match goal with E : pt_allocate _ _ _ _ = _ |- _ => apply published_allocate in E as (Ht & Hr & Hf); [|done] end;
    changed_anyway; (eapply succeeds_as; [eapply (publish_port_new _ _ a a0); known; by split|];
    unfold with_published, dp_registry; simpl; by rewrite Ht).
  - match goal with E : pt_allocate _ _ _ _ = _ |- _ => apply published_full in E as (-> & Hall) end.
    match goal with |- outcome _ _ _ _ _ ?r => change r with (dp_registry (inner w)) end.
    apply outcome_refused. eapply (range_used_up _ _ _ a); known.
    intros h [Hr Hf]. destruct (Hall h Hr) as [k Hk]. by apply (Hf k).
  - apply outcome_refused. destruct (ports (inner w) !! a) as [lp|] eqn:Hlp.
    + eapply (not_attached _ _ _ a _); known. rewrite (proj2 (eq_None_not_Some (lp_network lp))); [done|naive_solver].
    + by eapply (no_port _ _ _ "port" a); known.
Qed.

Lemma dp_unpublish_port env params w :
  running env -> poisoned w = false -> serves "UnpublishPort" params w (unpublish_port env params).
Proof.
  intros He Hw. unfold serves, unpublish_port, lock, locked. op_steps.
  all: match goal with E : pt_remove _ _ _ = _ |- _ => apply pt_remove_spec in E as [Hg Ht] end.
  1-5: changed_anyway; (eapply succeeds_as; [eapply (unpublish_port_there _ _ a a0); known|];
    unfold with_published, dp_registry; simpl; by rewrite Ht).
  replace (dp_registry (inner (upd (set_table p) w))) with (dp_registry (inner w))
    by (unfold dp_registry; simpl; rewrite Ht, delete_id; [done|by rewrite lookup_published]).
  apply outcome_refused. eapply (not_published _ _ _ a); known.
Qed.

Lemma dp_serves env name h params w :
  @handler (World V) V (dataplane env) name = Some h -> running env -> poisoned w = false -> serves name params w (h params).
Proof.
  intros Hh He Hw. unfold handler in Hh. repeat (case_decide; [simplify_eq; simpl|]); [..|done].
  all: eauto using dp_create_network, dp_delete_network, dp_get_network, dp_create_port, dp_delete_port,
    dp_get_port, dp_attach_port, dp_detach_port, dp_allocate_ip, dp_release_ip, dp_publish_port, dp_unpublish_port.
Qed.
End DataPlane.

#[export, refine] Instance dataplane_registered {V} `{JsonValue V, SnapshotCodec V} : Registered (Dp.World V) V := {|
  registry := fun w => dp_registry (Dp.inner w);
  rg_valid := fun w => Dp.poisoned w = false;
  rg_plane := fun plane => exists env, running env /\ plane = Dp.dataplane env;
  rg_half := True;
|}.
Proof.
  intros plane name h params w (env & He & ->) Hh Hw. exact (dp_serves env name h params w Hh He Hw).
Defined.

(** ** Both planes, and what the daemon's clients may rely on *)
Section Clients.
Context {V : Type} `{JsonValue V, SnapshotCodec V}.
Implicit Types (reqs : list (Request V)) (w : Dp.World V).

(** A conversation with the daemon; what the system answers may change from
    one request to the next. *)
Definition daemon_talks (l : list (Dp.Env * Request V)) w : run (Dp.World V) (list (Response V)) :=
  converse ((fun e => (Dp.dataplane e.1, e.2)) <$> l) w.

Lemma daemon_traced l w :
  Forall (fun e => running e.1) l -> Dp.poisoned w = false ->
  exists w' rs, daemon_talks l w = Returns w' rs /\ Dp.poisoned w' = false /\ length rs = length l /\
    trace True (dp_registry (Dp.inner w)) (zip l.*2 rs) (dp_registry (Dp.inner w')).
Proof.
  intros Hl Hw.
  destruct (converse_trace (H0 := dataplane_registered) ((fun e => (Dp.dataplane e.1, e.2)) <$> l) w)
    as (w' & rs & Hc & Hw' & Hlen & Ht).
  - apply Forall_fmap. eapply Forall_impl; [exact Hl|]. intros [env req] He. by exists env.
  - done.
  - exists w', rs. rewrite length_fmap in Hlen. rewrite <- list_fmap_compose in Ht. by split_and!.
Qed.

(** C10: both control planes refine the registry. Whatever clients ask, in any
    order, the in-memory plane and the daemon's answer every request, and
    answers and state follow one abstract registry: a success has exactly its
    effect, a refusal its reason and no effect. The daemon may besides fail
    half-way, in the ways the registry lists, when the disk, a socket, a
    process or a reserved address fails it. *)
Theorem planes_refine_registry reqs (s : Memory.MemoryControlPlane V) envs w :
  memory_ok s -> named s -> Forall running envs -> length envs = length reqs -> Dp.poisoned w = false ->
  (exists s' rs, converse (pair Memory.memory_plane <$> reqs) s = Returns s' rs /\
     trace False (memory_registry s) (zip reqs rs) (memory_registry s')) /\
  (exists w' rs, daemon_talks (zip envs reqs) w = Returns w' rs /\
     trace True (dp_registry (Dp.inner w)) (zip reqs rs) (dp_registry (Dp.inner w'))).
Proof.
  intros Hs Hn Hr Hlen Hw. split.
  - destruct (converse_trace (H0 := memory_registered) (pair Memory.memory_plane <$> reqs) s)
      as (s' & rs & Hc & _ & _ & Ht).
    + apply Forall_fmap, Forall_true. done.
    + done.
    + rewrite <- list_fmap_compose, list_fmap_id in Ht. by exists s', rs.
  - destruct (daemon_traced (zip envs reqs) w) as (w' & rs & Hc & _ & _ & Ht); [|done|].
    + eapply Forall_zip_with_fst; [exact Hr|]. by apply Forall_true.
    + rewrite snd_zip in Ht by lia. by exists w', rs.
Qed.

(** C24: a published port stays where clients were told. Between two
    successes of PublishPort for one VM port, whatever else is asked of the
    daemon and however it fails, as long as nobody unpublishes it or detaches
    or deletes its port, both answer the same host port, the publish table
    holds it, and no other VM port has it. *)
Theorem host_port_stable l env1 req1 env2 req2 w w' resp1 rs resp2 port vm v1 v2 :
  daemon_talks ((env1, req1) :: l ++ [(env2, req2)]) w = Returns w' (resp1 :: rs ++ [resp2]) ->
  length rs = length l -> Forall (fun e => running e.1) ((env1, req1) :: l ++ [(env2, req2)]) ->
  Dp.poisoned w = false -> pt_unique (Dp.publish_table (Dp.inner w)) ->
  asks_publish port vm req1 -> asks_publish port vm req2 -> Forall (fun e => ~ withdraws port vm e.2) l ->
  rs_result resp1 = Some v1 -> rs_result resp2 = Some v2 ->
  exists h, v1 = Obj [("host_port", Num h)] /\ v2 = Obj [("host_port", Num h)] /\
    pt_get (Dp.publish_table (Dp.inner w')) port vm = Some h /\
    forall port' vm', pt_get (Dp.publish_table (Dp.inner w')) port' vm' = Some h -> port' = port /\ vm' = vm.
Proof.
  intros Htalk Hlen Hr Hw Hu Hq1 Hq2 Hl Hv1 Hv2.
  destruct (daemon_traced _ _ Hr Hw) as (w1 & rs1 & Htalk1 & _ & _ & Ht).
  rewrite Htalk1 in Htalk. injection Htalk as -> ->.
  rewrite fmap_cons, fmap_app in Ht. simpl in Ht. rewrite zip_with_app in Ht by by rewrite length_fmap.
  apply (trace_app _ _ [(req1, resp1)]) in Ht as (r1 & Ht1 & Ht). apply trace_app in Ht as (r2 & Ht2 & Ht3).
  destruct (publish_answered _ _ _ _ _ _ _ _ Ht1 Hq1 Hv1) as (h & -> & Hh & _).
  assert (Hl' : Forall (fun e => ~ withdraws port vm e.1) (zip l.*2 rs)).
  { eapply (Forall_zip_with_fst _ (fun req => ~ withdraws port vm req)); [by apply Forall_fmap|]. by apply Forall_true. }
  pose proof (trace_publication_kept _ _ _ _ _ _ _ Ht2 Hl' Hh) as Hkept.
  destruct (publish_answered _ _ _ _ _ _ _ _ Ht3 Hq2 Hv2) as (h' & -> & Hh' & Hsame).
  rewrite <- (Hsame _ Hkept) in *. exists h. split_and!; [done..|by rewrite <- lookup_published|].
  intros port' vm' Hp.
  assert (Hone : published_once (dp_registry (Dp.inner w'))).
  { refine (trace_published_once _ _ _ _ Ht3 (trace_published_once _ _ _ _ Ht2 (trace_published_once _ _ _ _ Ht1 _))).
    intros [p v] [p' v'] h0. simpl. rewrite !lookup_published. intros Ha Hb. by destruct (Hu _ _ _ _ _ Ha Hb) as [-> ->]. }
  rewrite <- lookup_published in Hp. specialize (Hone _ _ _ Hp Hh'). by simplify_eq.
Qed.
End Clients.
