(* ===== verification/Addresses.v ===== *)
(** * How long a guest keeps its address

    The reservation made when a port is attached, over everything that is
    asked of the daemon afterwards. *)
From S2P Require Import Prelude RustStd Model Ipam Json Protocol StateStore Server.
From S2P Require Import Frame MacTable Engine Gateway Dns Passt Packet Dataplane Control Registry Planes.
#[local] Open Scope string_scope.
#[local] Open Scope Z_scope.
Import Dp.

Section Addresses.
Context {V : Type} `{JsonValue V, SnapshotCodec V}.
Implicit Types (env : Env) (w : World V) (params : V) (ps : gmap string LivePort) (ns : gmap string (NetworkEntry V)).

Section Holds.
Context (name net : string) (mac : MacAddr) (ip : Ipv4Addr).

(** [name] is attached to [net] as [mac], which no other port there has, and
    [ip] is reserved for it. *)
Definition holds ps ns : Prop :=
  (exists lp, ps !! name = Some lp /\ lp_network lp = Some net /\ lp_mac lp = Some mac) /\
  (exists e, ns !! net = Some e /\ lookup_mac (ne_ipam e) mac = Some ip) /\
  forall other lp, ps !! other = Some lp -> lp_network lp = Some net -> lp_mac lp = Some mac -> other = name.

Lemma holds_new_network ps ns k e : ns !! k = None -> holds ps ns -> holds ps (<[k := e]> ns).
Proof.
  intros Hk (Hp & (e0 & He & Hl) & Hu). split_and!; [done| |done]. exists e0. split; [|done].
  rewrite lookup_insert_ne; [done|congruence].
Qed.

Lemma holds_less_network ps ns k : k <> net -> holds ps ns -> holds ps (delete k ns).
Proof.
  intros Hk (Hp & (e0 & He & Hl) & Hu). split_and!; [done| |done]. exists e0. by rewrite lookup_delete_ne.
Qed.

Lemma holds_readdressed ps ns k e i c :
  ns !! k = Some e -> (k = net -> lookup_mac (ne_ipam e) mac = Some ip -> lookup_mac i mac = Some ip) -> holds ps ns ->
  holds ps (<[k := {| ne_ipam := i; created_with := c |}]> ns).
Proof.
  intros Hk Hi (Hp & (e0 & He & Hl) & Hu). split_and!; [done| |done]. destruct (decide (k = net)) as [->|Hne].
  - rewrite lookup_insert_eq. eexists. split; [done|]. simplify_eq. by apply Hi.
  - rewrite lookup_insert_ne by done. by exists e0.
Qed.

Lemma holds_allocated ps ns k e mac' r i c :
  ns !! k = Some e -> allocate (ne_ipam e) mac' = (r, i) -> holds ps ns ->
  holds ps (<[k := {| ne_ipam := i; created_with := c |}]> ns).
Proof.
  intros Hk Ha. eapply holds_readdressed; [done|]. intros _ Hl.
  unfold allocate, lookup_mac in *. repeat case_match; simplify_eq/=; try done.
  rewrite lookup_insert_ne; [done|congruence].
Qed.

Lemma holds_released ps ns k e mac' i c :
  ns !! k = Some e -> (release (ne_ipam e) mac').2 = i -> (k, mac') <> (net, mac) -> holds ps ns ->
  holds ps (<[k := {| ne_ipam := i; created_with := c |}]> ns).
Proof.
  intros Hk <- Hne. eapply holds_readdressed; [done|]. intros -> Hl.
  unfold release, lookup_mac in *. repeat case_match; simplify_eq/=; [|done].
  rewrite lookup_delete_ne; [done|congruence].
Qed.

Lemma holds_other_port ps ns k lp :
  k <> name -> (lp_network lp, lp_mac lp) <> (Some net, Some mac) -> holds ps ns -> holds (<[k := lp]> ps) ns.
Proof.
  intros Hk Hlp ((lp0 & Hp & Hx) & Hn & Hu). split_and!; [|done|].
  - exists lp0. by rewrite lookup_insert_ne.
  - intros other lp' [[<- <-]|[_ Hl]]%lookup_insert_Some ? ?; [congruence|by eapply Hu].
Qed.

Lemma holds_new_port ps ns k lp : ps !! k = None -> lp_network lp = None -> holds ps ns -> holds (<[k := lp]> ps) ns.
Proof.
  intros Hk Hlp Hh. apply holds_other_port; [|congruence|done].
  destruct Hh as ((lp0 & Hp & _) & _). congruence.
Qed.

Lemma holds_less_port ps ns k : k <> name -> holds ps ns -> holds (delete k ps) ns.
Proof.
  intros Hk ((lp0 & Hp & Hx) & Hn & Hu). split_and!; [|done|].
  - exists lp0. by rewrite lookup_delete_ne.
  - intros other lp' [_ Hl]%lookup_delete_Some ? ?. by eapply Hu.
Qed.

(** What would take the address away. *)
Definition disturbs (req : Request V) : Prop :=
  let m := rq_method req in
  let params := params_of req in
  m ∈ ["DetachPort"; "DeletePort"] /\ str_param params "name" = Ok name \/
  m = "DeleteNetwork" /\ str_param params "name" = Ok net \/
  m = "ReleaseIP" /\ str_param params "network" = Ok net /\ mac_of params = Ok mac \/
  m = "AttachPort" /\ str_param params "network" = Ok net /\ mac_of params = Ok mac /\
    str_param params "port" <> Ok name.

Definition keeps_address (w : World V) : Prop := holds (ports (inner w)) (networks (inner w)).

Definition stays (o : op V V) w : Prop := wp o w (fun _ => keeps_address) (fun _ => keeps_address).

Ltac stay_steps :=
  wp_steps;
  repeat (first [ apply wp_persist; [done|intros ?|intros ?]
                | apply wp_ensure_passt; [intros ? ?|intros ? ? ?]
                | apply wp_teardown_passt; intros ? ? ]; wp_steps);
  unfold keeps_address in *; cbn [log set_disk inner];
  try match goal with Hc : same_core _ _ |- _ => destruct Hc as (_ & _ & _ & _ & ? & ->) end;
  cbn; try done; simp_errors; simp_results; subst.

Lemma create_network_stays env params w :
  running env -> keeps_address w -> stays (create_network env params) w.
Proof. intros He Hw. unfold stays, create_network, lock. stay_steps; by apply holds_new_network. Qed.

Lemma delete_network_stays env params w :
  running env -> str_param params "name" <> Ok net -> keeps_address w -> stays (delete_network env params) w.
Proof. intros He Hn Hw. unfold stays, delete_network, lock. stay_steps; (apply holds_less_network; [congruence|done]). Qed.

Lemma get_network_stays env params w : keeps_address w -> stays (get_network env params) w.
Proof. intros Hw. unfold stays, get_network, lock. stay_steps. Qed.

Lemma create_port_stays env params w :
  running env -> keeps_address w -> stays (create_port env params) w.
Proof. intros He Hw. unfold stays, create_port, lock. stay_steps; by apply holds_new_port. Qed.

Lemma get_port_stays env params w : keeps_address w -> stays (get_port env params) w.
Proof. intros Hw. unfold stays, get_port, lock. stay_steps. Qed.

(** Another port of the network has another MAC. *)
Lemma other_mac ps ns k lp k' mac' :
  holds ps ns -> ps !! k = Some lp -> k <> name -> lp_network lp = Some k' -> lp_mac lp = Some mac' -> (k', mac') <> (net, mac).
Proof. intros (_ & _ & Hu) Hk Hne Hn Hm [= -> ->]. by apply Hne, (Hu _ lp). Qed.

Lemma bound_port (g : Inner V) l s m n :
  (network ← lp_network l; mac ← lp_mac l; e ← networks g !! network; Some (network, mac, e)) = Some (s, m, n) ->
  lp_network l = Some s /\ lp_mac l = Some m /\ networks g !! s = Some n.
Proof. intros. repeat (match goal with E : _ ≫= _ = Some _ |- _ => apply bind_Some in E as (? & ? & E) end; simplify_eq). done. Qed.

Lemma delete_port_stays env params w :
  running env -> str_param params "name" <> Ok name -> keeps_address w -> stays (delete_port env params) w.
Proof.
  intros He Hn Hw. unfold stays, delete_port, lock. stay_steps.
  all: match goal with Hl : ports _ !! ?k = Some _ |- _ => assert (Hk : k <> name) by congruence end.
  3,4: by apply holds_less_port.
  all: match goal with Hb : _ = Some (_, _, _) |- _ => apply bound_port in Hb as (Hln & Hlm & Hns) end.
  all: (eapply holds_released; [done|done|by eapply (other_mac (ports (inner w)))|by apply holds_less_port]).
Qed.

(** The address that was released is another one. *)
Ltac released :=
  match goal with E : release (ne_ipam ?e) ?m = (_, ?i) |- _ =>
    eapply (holds_released _ _ _ e m i); [eassumption|by rewrite E|..]
  end.

Lemma detach_port_stays env params w :
  running env -> str_param params "name" <> Ok name -> keeps_address w -> stays (detach_port env params) w.
Proof.
  intros He Hn Hw. unfold stays, detach_port, lock. stay_steps.
  all: match goal with Hl : ports _ !! ?k = Some _ |- _ => assert (Hk : k <> name) by congruence end.
  all: try (by apply holds_other_port).
  all: released; [by eapply (other_mac (ports (inner w)))|by apply holds_other_port].
Qed.

Lemma allocate_ip_stays env params w : keeps_address w -> stays (allocate_ip env params) w.
Proof. intros Hw. unfold stays, allocate_ip, lock. stay_steps; by eapply holds_allocated. Qed.

Lemma release_ip_stays env params w :
  running env -> ~ (str_param params "network" = Ok net /\ mac_of params = Ok mac) -> keeps_address w ->
  stays (release_ip env params) w.
Proof.
  intros He Hn Hw. unfold stays, release_ip, lock. stay_steps.
  all: read_mac.
  all: released; [intros [= -> ->]; by apply Hn|done].
Qed.

Lemma publish_port_stays env params w : running env -> keeps_address w -> stays (publish_port env params) w.
Proof. intros He Hw. unfold stays, publish_port, lock, locked. stay_steps. Qed.

Lemma unpublish_port_stays env params w : running env -> keeps_address w -> stays (unpublish_port env params) w.
Proof. intros He Hw. unfold stays, unpublish_port, lock, locked. stay_steps. Qed.

Lemma attach_port_stays env params w :
  running env ->
  ~ (str_param params "network" = Ok net /\ mac_of params = Ok mac /\ str_param params "port" <> Ok name) ->
  keeps_address w -> stays (attach_port env params) w.
Proof.
  intros He Hn Hw. unfold stays, attach_port, lock. stay_steps.
  all: read_mac; eapply holds_allocated; [eassumption..|]; try done.
  all: assert (Hk : a <> name) by (intros ->; destruct Hw as ((lp & Hp & Hn' & _) & _); simplify_eq;
    match goal with Hx : ~ is_Some _ |- _ => by apply Hx; eexists end).
  all: apply holds_other_port; [done| |done]; simpl; intros [= -> ->]; apply Hn; split_and!; congruence.
Qed.

(** No request but those that say so takes the address away. *)
Lemma request_stays env (req : Request V) w h :
  running env -> @handler (World V) V (dataplane env) (rq_method req) = Some h -> ~ disturbs req ->
  keeps_address w -> stays (h (params_of req)) w.
Proof.
  intros He Hh Hd Hw. unfold disturbs in Hd. unfold handler in Hh.
  repeat (case_decide as Hm; [rewrite Hm in Hd; simplify_eq; simpl|clear Hm]); [..|done].
  - by apply create_network_stays.
  - apply delete_network_stays; naive_solver.
  - by apply get_network_stays.
  - by apply create_port_stays.
  - apply delete_port_stays; [done| |done]. intros Hn. apply Hd. left. split; [set_solver|done].
  - by apply get_port_stays.
  - apply attach_port_stays; naive_solver.
  - apply detach_port_stays; [done| |done]. intros Hn. apply Hd. left. split; [set_solver|done].
  - by apply allocate_ip_stays.
  - apply release_ip_stays; naive_solver.
  - by apply publish_port_stays.
  - by apply unpublish_port_stays.
Qed.
End Holds.

(** C14: a guest keeps its address. An attached port whose MAC no other port of
    its network has keeps its attachment and the address reserved for it
    whatever else is asked of the daemon and however it fails, until someone
    detaches or deletes the port, deletes the network, releases the address,
    or attaches another port to the network with the same MAC. *)
Theorem address_kept name net mac ip (l : list (Env * Request V)) w w' rs :
  holds name net mac ip (ports (inner w)) (networks (inner w)) ->
  Forall (fun e => running e.1) l -> Forall (fun e => ~ disturbs name net mac e.2) l ->
  daemon_talks l w = Returns w' rs ->
  holds name net mac ip (ports (inner w')) (networks (inner w')).
Proof.
  intros Hw Hr Hd. unfold daemon_talks. apply (converse_keeps (keeps_address name net mac ip)); [|done].
  apply Forall_fmap. eapply Forall_impl; [exact (proj2 (Forall_and _ _) (conj Hr Hd))|].
  intros [env req] [He Hn] h s Hh Hs. by apply (request_stays name net mac ip env req s h).
Qed.

(** Why the MAC matters: nothing refuses a second port with the MAC of an
    attached one ([attach_spec] needs only the reservation), and deleting
    either takes the address of the other, which stays attached. *)
Theorem shared_mac_loses_address env w params name other net lp lp' mac e ip :
  running env -> poisoned w = false -> str_param params "name" = Ok other -> other <> name ->
  attached_at (inner w) name net lp mac e ip ->
  ports (inner w) !! other = Some lp' -> lp_network lp' = Some net -> lp_mac lp' = Some mac ->
  exists w' r, delete_port env params w = Returns w' r /\ ports (inner w') !! name = Some lp /\
    lp_network lp = Some net /\ reserved_ip (inner w') name = Err NotFound.
Proof.
  intros He Hp Hq Hne (Hlp & Hn & Hm & Hnet & _) Hlp' Hn' Hm'.
  assert (Hgone : let g := set_networks (insert net {| ne_ipam := (release (ne_ipam e) mac).2; created_with := created_with e |})
               (set_ports (delete other) (inner w)) in
    forall g', ports g' = ports g -> networks g' = networks g ->
    ports g' !! name = Some lp /\ reserved_ip g' name = Err NotFound).
  { intros g g' Hps Hns. unfold reserved_ip. rewrite Hps, Hns. simpl. rewrite lookup_delete_ne, Hlp by done.
    simpl. rewrite Hn. simpl. rewrite Hm. simpl. rewrite lookup_insert_eq. simpl. by rewrite release_lookup. }
  assert (Hwp : wp (delete_port env params) w
    (fun _ w' => ports (inner w') !! name = Some lp /\ reserved_ip (inner w') name = Err NotFound)
    (fun _ w' => ports (inner w') !! name = Some lp /\ reserved_ip (inner w') name = Err NotFound)).
  { unfold delete_port, lock. wp_steps; simp_results; determine.
    all: match goal with Hb : _ = Some (_, _, _) |- _ => apply bound_port in Hb as (? & ? & ?); simplify_eq | Hb : _ = None |- _ =>
      by destruct (release_bind_None _ _ _ _ e Hb Hn' Hm') end.
    apply wp_persist; [done|intros d|intros d]; wp_steps; [|by eapply Hgone].
    apply wp_teardown_passt. intros w' (_ & _ & _ & _ & f & Hf). wp_steps. simpl. rewrite Hf. by eapply Hgone. }
  apply wp_returns in Hwp as (w' & r & -> & Hpost). exists w', r. destruct r; tauto.
Qed.
End Addresses.
