(* ===== verification/Config.v ===== *)
(** * Configuration and start-up (crates/k8netd/src/config.rs, main.rs, build.rs)

    Flags, the environment and defaults, in that order of precedence; the
    start of the daemon up to its accept loop; the version baked in by the
    build script. *)
From S2P Require Import Prelude RustStd Model Ipam Json Protocol StateStore Server.
From S2P Require Import Frame MacTable Engine Gateway Dns Passt Packet Dataplane.

Record Config := {
  cfg_socket_dir : string;
  passt_binary : string;
  upstream_dns : list Ipv4Addr;
  mtu : Z;
  port_forwards : list Z;
  cfg_publish_range : Z * Z;
}.

Inductive ConfigError :=
  | InvalidValue (key value : string)
  | EmptyListEntry (key : string).

#[export] Instance ConfigError_eq_dec : EqDecision ConfigError.
Proof. solve_decision. Defined.

Definition DEFAULT_SOCKET_DIR : string := "/run/user/1000/k8snet".
Definition DEFAULT_PASST_BINARY : string := "passt".
Definition DEFAULT_UPSTREAM_DNS : string := "1.1.1.1,8.8.8.8".
Definition DEFAULT_MTU : Z := 1500.

Record Flags := {
  f_socket_dir : option string;
  f_passt_binary : option string;
  f_upstream_dns : option string;
  f_mtu : option Z;
}.
Definition Flags_default : Flags :=
  {| f_socket_dir := None; f_passt_binary := None; f_upstream_dns := None; f_mtu := None |}.

(** [Option::or_else]. *)
Definition or_else {A} (o o' : option A) : option A := match o with Some a => Some a | None => o' end.

(** ** Lists and ranges *)

Fixpoint parse_ip_parts (key raw : string) (parts : list string) : result ConfigError (list Ipv4Addr) :=
  match parts with
  | [] => Ok []
  | part :: parts' =>
      if is_empty (trim part) then Err (EmptyListEntry key)
      else
        ip ← ok_or (parse_ipv4_addr (trim part)) (InvalidValue key raw);
        rest ← parse_ip_parts key raw parts';
        Ok (ip :: rest)
  end.

Definition parse_ip_list (key raw : string) : result ConfigError (list Ipv4Addr) :=
  parse_ip_parts key raw (split_on ","%char raw).

Definition parse_publish_range (raw : string) : result ConfigError (Z * Z) :=
  let invalid := InvalidValue "K8NETD_PUBLISH_RANGE" raw in
  '(start_raw, end_raw) ← ok_or (split_once "-"%char raw) invalid;
  start ← ok_or (parse_u16 start_raw) invalid;
  end_ ← ok_or (parse_u16 end_raw) invalid;
  if end_ <? start then Err invalid else Ok (start, end_).

(** ** Resolution *)

Definition resolve (flags : Flags) (getenv : string -> option string) : result ConfigError Config :=
  let socket_dir := default DEFAULT_SOCKET_DIR (or_else (f_socket_dir flags) (getenv "K8NETD_SOCKET_DIR")) in
  let binary := default DEFAULT_PASST_BINARY (or_else (f_passt_binary flags) (getenv "K8NETD_PASST_BINARY")) in
  let dns_raw := default DEFAULT_UPSTREAM_DNS (or_else (f_upstream_dns flags) (getenv "K8NETD_UPSTREAM_DNS")) in
  dns ← parse_ip_list "K8NETD_UPSTREAM_DNS" dns_raw;
  mtu ← match f_mtu flags with
        | Some m => Ok m
        | None => match getenv "K8NETD_MTU" with
                  | Some raw => ok_or (parse_u16 raw) (InvalidValue "K8NETD_MTU" raw)
                  | None => Ok DEFAULT_MTU
                  end
        end;
  range ← match getenv "K8NETD_PUBLISH_RANGE" with
          | Some raw => parse_publish_range raw
          | None => Ok DEFAULT_PUBLISH_RANGE
          end;
  Ok {| cfg_socket_dir := socket_dir; passt_binary := binary; upstream_dns := dns; mtu := mtu;
        port_forwards := []; cfg_publish_range := range |}.

(** ** Flags *)

Definition wants_version (args : list string) : bool :=
  existsb (fun a => bool_decide (a = "--version" \/ a = "-V")) args.

(** One turn of the loop per flag; every flag takes the next argument. *)
Fixpoint parse_flags_from (f : Flags) (args : list string) : result ConfigError Flags :=
  match args with
  | [] => Ok f
  | arg :: rest =>
      if bool_decide (arg ∈ ["--socket-dir"; "--passt-binary"; "--upstream-dns"; "--mtu"]) then
        match rest with
        | [] => Err (InvalidValue arg "<missing>")
        | v :: rest' =>
            f ← (if decide (arg = "--socket-dir") then
                   Ok {| f_socket_dir := Some v; f_passt_binary := f_passt_binary f;
                         f_upstream_dns := f_upstream_dns f; f_mtu := f_mtu f |}
                 else if decide (arg = "--passt-binary") then
                   Ok {| f_socket_dir := f_socket_dir f; f_passt_binary := Some v;
                         f_upstream_dns := f_upstream_dns f; f_mtu := f_mtu f |}
                 else if decide (arg = "--upstream-dns") then
                   Ok {| f_socket_dir := f_socket_dir f; f_passt_binary := f_passt_binary f;
                         f_upstream_dns := Some v; f_mtu := f_mtu f |}
                 else
                   m ← ok_or (parse_u16 v) (InvalidValue "--mtu" v);
                   Ok {| f_socket_dir := f_socket_dir f; f_passt_binary := f_passt_binary f;
                         f_upstream_dns := f_upstream_dns f; f_mtu := Some m |});
            parse_flags_from f rest'
        end
      else Err (InvalidValue "--flags" arg)
  end.

Definition parse_flags (args : list string) : result ConfigError Flags := parse_flags_from Flags_default args.

(** ** The publish range and the ephemeral ports *)

(** The two numbers of [ip_local_port_range], or the Linux default. *)
Definition ephemeral_range (words : option (list string)) : Z * Z :=
  default (32768, 60999)
    (w ← words;
     match w with
     | start :: end_ :: _ => s ← parse_u16 start; e ← parse_u16 end_; Some (s, e)
     | _ => None
     end).

(** Whether the start-up warning is logged. *)
Definition warns_ephemeral (range : Z * Z) (words : option (list string)) : bool :=
  let ephemeral := ephemeral_range words in
  (range.1 <=? ephemeral.2) && (ephemeral.1 <=? range.2).

(** ** The build's version string *)

Definition is_ascii_digit (a : ascii) : bool := (48 <=? code a) && (code a <=? 57).

Definition normalize_version (raw : string) : string :=
  match raw with
  | String v (String d rest) => if decide (v = "v"%char /\ is_ascii_digit d = true) then String d rest else raw
  | _ => raw
  end.

Definition build_version (version pkg_version : option string) : string :=
  match version with
  | Some v => if is_empty v then default EmptyString pkg_version else normalize_version v
  | None => default EmptyString pkg_version
  end.

Definition build_revision (revision : option string) : string :=
  match revision with Some r => if is_empty r then "unknown" else r | None => "unknown" end.

(** ** [main] up to the accept loop *)
Section Main.
Context {V : Type} `{JsonValue V, SnapshotCodec V}.

Inductive started :=
  | Banner (text : string)           (* printed on standard output *)
  | Exited (status : Z)
  | Serving (control_sock : string) (w : Dp.World V).

(** [udp_upstream] is [UdpUpstream::new] over the host's sockets; [None] is a
    machine that stopped while the state was loaded. *)
Definition start (version revision : string) (argv : list string) (getenv : string -> option string)
    (udp_upstream : Ipv4Addr -> UpstreamSender) (env : environment) (d : fs) : option started :=
  if wants_version argv then
    Some (Banner ("k8netd " +:+ version +:+ " (" +:+ revision +:+ ")"))
  else
    match parse_flags argv with
    | Err _ => Some (Exited 2)
    | Ok flags =>
        match resolve flags getenv with
        | Err _ => Some (Exited 2)
        | Ok cfg =>
            match Dp.try_new (V := V) env (cfg_socket_dir cfg) d with
            | None => None
            | Some (Err _) => Some (Exited 1)
            | Some (Ok w) =>
                match Dp.set_dns_upstreams (udp_upstream <$> upstream_dns cfg) w with
                | Panic => Some (Exited 101)
                | Val w => Some (Serving (path_join (cfg_socket_dir cfg) "control.sock") w)
                end
            end
        end
    end.
End Main.
Arguments started : clear implicits.

(** ** Lemmas *)

Lemma split_on_cons c s : exists w l, split_on c s = w :: l.
Proof. induction s as [|a s (w & l & IH)]; simpl; [by eexists _, _|]. rewrite IH. case_decide; by eexists _, _. Qed.

(** Every entry parsed, in order, and none was blank. *)
Lemma parse_ip_parts_ok key raw parts ips :
  parse_ip_parts key raw parts = Ok ips ->
  Forall2 (fun part ip => parse_ipv4_addr (trim part) = Some ip) parts ips.
Proof.
  revert ips. induction parts as [|part parts IH]; simpl; intros ips H; [injection H as <-; constructor|].
  destruct (is_empty (trim part)); [done|].
  destruct (parse_ipv4_addr (trim part)) as [ip|] eqn:Hip; [|done]. simpl in H.
  destruct (parse_ip_parts key raw parts) as [rest|]; [|done]. simpl in H. injection H as <-.
  constructor; [done|by apply IH].
Qed.

Lemma parse_publish_range_ok raw range :
  parse_publish_range raw = Ok range -> is_u16 range.1 /\ is_u16 range.2 /\ range.1 <= range.2.
Proof.
  unfold parse_publish_range. destruct (split_once "-"%char raw) as [[a b]|]; [|done]. simpl.
  destruct (parse_u16 a) as [s|] eqn:Hs; [|done]. simpl. destruct (parse_u16 b) as [e|] eqn:He; [|done]. simpl.
  apply parse_uint_range in Hs, He; [|unfold u16_max; lia..].
  destruct (Z.ltb_spec e s); [done|]. intros [= <-]. simpl. unfold is_u16. lia.
Qed.

(** The arguments that spell a set of flags. *)
Definition flag_args (f : Flags) : list string :=
  match f_socket_dir f with Some v => ["--socket-dir"; v] | None => [] end ++
  match f_passt_binary f with Some v => ["--passt-binary"; v] | None => [] end ++
  match f_upstream_dns f with Some v => ["--upstream-dns"; v] | None => [] end ++
  match f_mtu f with Some m => ["--mtu"; show_uint m] | None => [] end.

(** ** Theorems *)

(** Precedence and validity of the configuration: each setting is the
    flag, else the environment, else the default; what is accepted is a
    non-empty list of resolvers in the order written, a 16-bit MTU and an
    ordered 16-bit publish range; static forwards are always empty. *)
Theorem resolve_sound (flags : Flags) (getenv : string -> option string) (cfg : Config) :
  (forall m, f_mtu flags = Some m -> is_u16 m) ->
  resolve flags getenv = Ok cfg ->
  let pick flag key dflt := default dflt (or_else flag (getenv key)) in
  cfg_socket_dir cfg = pick (f_socket_dir flags) "K8NETD_SOCKET_DIR" DEFAULT_SOCKET_DIR /\
  passt_binary cfg = pick (f_passt_binary flags) "K8NETD_PASST_BINARY" DEFAULT_PASST_BINARY /\
  Forall2 (fun part ip => parse_ipv4_addr (trim part) = Some ip)
    (split_on ","%char (pick (f_upstream_dns flags) "K8NETD_UPSTREAM_DNS" DEFAULT_UPSTREAM_DNS)) (upstream_dns cfg) /\
  upstream_dns cfg <> [] /\
  Some (mtu cfg) = or_else (f_mtu flags) (default (Some DEFAULT_MTU) (parse_u16 <$> getenv "K8NETD_MTU")) /\
  is_u16 (mtu cfg) /\ port_forwards cfg = [] /\
  is_u16 (cfg_publish_range cfg).1 /\ is_u16 (cfg_publish_range cfg).2 /\
  (cfg_publish_range cfg).1 <= (cfg_publish_range cfg).2.
Proof.
  intros Hm. unfold resolve, parse_ip_list. cbv zeta.
  set (raw := default DEFAULT_UPSTREAM_DNS _).
  destruct (parse_ip_parts _ raw (split_on _ raw)) as [ips|] eqn:Hips; [|done].
  apply parse_ip_parts_ok in Hips. cbn [mbind result_bind].
  assert (Hne : ips <> []) by (destruct (split_on_cons ","%char raw) as (x & l & Hx); rewrite Hx in Hips; by inversion Hips).
  destruct (match f_mtu flags with Some m => Ok m | None => _ end) as [m|] eqn:Hmtu; [|done]. cbn [mbind result_bind].
  destruct (match getenv "K8NETD_PUBLISH_RANGE" with Some r => parse_publish_range r | None => _ end) as [range|] eqn:Hr;
    [|done]. cbn [mbind result_bind]. intros [= <-]. cbn.
  assert (Hmu : Some m = or_else (f_mtu flags) (default (Some DEFAULT_MTU) (parse_u16 <$> getenv "K8NETD_MTU")) /\ is_u16 m).
  { destruct (f_mtu flags) as [m'|] eqn:Hf; [injection Hmtu as <-; auto|]. simpl.
    destruct (getenv "K8NETD_MTU") as [raw'|]; simpl in *; [|by injection Hmtu as <-].
    destruct (parse_u16 raw') as [v|] eqn:Hv; [|done]. injection Hmtu as <-. split; [done|].
    apply parse_uint_range in Hv; unfold is_u16, u16_max in *; lia. }
  assert (is_u16 range.1 /\ is_u16 range.2 /\ range.1 <= range.2) as (? & ? & ?).
  { destruct (getenv "K8NETD_PUBLISH_RANGE") as [r|]; [by eapply parse_publish_range_ok|]. by injection Hr as <-. }
  by destruct Hmu.
Qed.

(** Flags read back: the arguments that spell a set of flags parse to
    exactly those flags, after which any argument that is not a flag is
    refused by name. *)
Theorem flags_roundtrip (f : Flags) (junk : list string) :
  (forall m, f_mtu f = Some m -> is_u16 m) ->
  match junk with
  | [] => True
  | a :: _ => a ∉ ["--socket-dir"; "--passt-binary"; "--upstream-dns"; "--mtu"]
  end ->
  parse_flags (flag_args f ++ junk) =
    match junk with [] => Ok f | a :: _ => Err (InvalidValue "--flags" a) end.
Proof.
  intros Hm Hj. unfold parse_flags, flag_args. destruct f as [[d|] [b|] [u|] [m|]]; simpl in *;
    rewrite ?parse_show_u16 by auto; simpl;
    (destruct junk as [|a junk]; [done|]; cbn [parse_flags_from]; by rewrite bool_decide_eq_false_2).
Qed.

Section Started.
Context {V : Type} `{JsonValue V, SnapshotCodec V}.

(** What the daemon starts from. It serves only when the flags and the
    environment resolve and the saved state loads; the restored state is the
    saved publish table and nothing else, and the configured publish range,
    MTU and passt binary play no part: ports are published from the built-in
    range whatever is configured. *)
Theorem start_state (version revision : string) (argv : list string) (getenv : string -> option string)
    (udp_upstream : Ipv4Addr -> UpstreamSender) (env : environment) (d : fs) (sock : string) (w : Dp.World V) :
  start version revision argv getenv udp_upstream env d = Some (Serving sock w) ->
  exists flags cfg d' store,
    wants_version argv = false /\ parse_flags argv = Ok flags /\ resolve flags getenv = Ok cfg /\
    load_from_disk env (cfg_socket_dir cfg) d = Returns d' (Ok store) /\
    sock = path_join (cfg_socket_dir cfg) "control.sock" /\
    w = Dp.upd (Dp.set_dns (DnsForwarder_new (udp_upstream <$> upstream_dns cfg)))
          (Dp.from_parts (cfg_socket_dir cfg) d' (st_publish_table store)) /\
    Dp.publish_range (Dp.inner w) = DEFAULT_PUBLISH_RANGE /\
    Dp.networks (Dp.inner w) = ∅ /\ Dp.ports (Dp.inner w) = ∅.
Proof.
  unfold start. destruct (wants_version argv); [done|].
  destruct (parse_flags argv) as [flags|]; [|done]. destruct (resolve flags getenv) as [cfg|] eqn:Hcfg; [|done].
  unfold Dp.try_new. destruct (load_from_disk env (cfg_socket_dir cfg) d) as [d' [store|e]|d'] eqn:Hl; try done.
  intros [= <- <-]. by exists flags, cfg, d', store.
Qed.
End Started.

(** A new port binds the socket of its name. *)
Lemma create_port_binds {V : Type} `{JsonValue V, SnapshotCodec V} (env : Dp.Env) (params : V) (name : string) (w : Dp.World V) :
  running env -> Dp.env_bind env = true -> str_param params "name" = Ok name ->
  Dp.poisoned w = false -> Dp.ports (Dp.inner w) !! name = None ->
  exists w' r, Dp.create_port env params w = Returns w' r /\
    Dp.Bound (Dp.socket_path w name) ∈ Dp.trace w' /\ is_Some (Dp.ports (Dp.inner w') !! name).
Proof.
  intros He Hb Hname Hp Hport.
  assert (Hwp : wp (Dp.create_port env params) w
    (fun _ w' => Dp.Bound (Dp.socket_path w name) ∈ Dp.trace w' /\ is_Some (Dp.ports (Dp.inner w') !! name))
    (fun _ w' => Dp.Bound (Dp.socket_path w name) ∈ Dp.trace w' /\ is_Some (Dp.ports (Dp.inner w') !! name))).
  { unfold Dp.create_port, Dp.lock. wp_steps; simp_results; determine; [by rewrite Hb in *|].
    apply wp_persist; [done|..]; intros d; wp_steps; simpl; (split; [set_solver|by rewrite lookup_insert_eq]). }
  apply wp_returns in Hwp as (w' & r & Hr & Hpost). exists w', r. split; [done|]. by destruct r.
Qed.

(** The daemon's own control socket is a name like any other: a port called
    [control] gets the path the daemon serves its clients on, so creating it
    replaces the control socket by the port's. *)
Theorem control_port_takes_control_socket {V : Type} `{JsonValue V, SnapshotCodec V} (version revision : string)
    (argv : list string) (getenv : string -> option string) (udp_upstream : Ipv4Addr -> UpstreamSender)
    (env0 : environment) (d : fs) (sock : string) (w : Dp.World V) (env : Dp.Env) (params : V) :
  start version revision argv getenv udp_upstream env0 d = Some (Serving sock w) ->
  running env -> Dp.env_bind env = true -> str_param params "name" = Ok "control" ->
  exists w' r, Dp.create_port env params w = Returns w' r /\
    Dp.Bound sock ∈ Dp.trace w' /\ is_Some (Dp.ports (Dp.inner w') !! "control").
Proof.
  unfold start. destruct (wants_version argv); [done|]. destruct (parse_flags argv) as [flags|]; [|done].
  destruct (resolve flags getenv) as [cfg|]; [|done]. unfold Dp.try_new.
  destruct (load_from_disk env0 (cfg_socket_dir cfg) d) as [d' [store|]|]; [|done..].
  intros [= <- <-] He Hb Hname. by eapply (create_port_binds env params "control").
Qed.
