(* ===== verification/Pump.v ===== *)
(** * Frames through the dataplane (crates/k8netd/src/dataplane.rs)

    The per-port pump with its service, gateway and WAN seams, and the reader
    of the passt socket. *)
From S2P Require Import Prelude RustStd Model Ipam Json Protocol StateStore Server.
From S2P Require Import Frame MacTable Engine Gateway Dhcp Dns Passt Packet Dataplane.
Import Dp.

Definition MAX_PASST_PENDING : nat := N.to_nat 1048576.

Section Pump.
Context {V : Type} `{JsonValue V, SnapshotCodec V}.
Context {M : Type} `{DhcpCodec M, DnsCodec}.
Implicit Types (g : Inner V) (w : World V).

(** A pure computation inside a command; its panic is the command's. *)
Definition lift_panic {A} (m : may_panic A) : op V A := fun w =>
  match m with Val a => Returns w (Ok a) | Panic => Panics w end.

(** The attachment of a port: its network's entry and its pinned MAC. *)
Definition attachment g (port : string) : option (NetworkEntry V * MacAddr) :=
  lp ← ports g !! port;
  net_name ← lp_network lp;
  entry ← networks g !! net_name;
  vm_mac ← lp_mac lp;
  Some (entry, vm_mac).

(** The answer to a DHCP packet in a UDP payload: a fresh server over the
    network's bindings. *)
Definition dhcp_answer (entry : NetworkEntry V) (vm_mac : MacAddr) (frame udp : list Z)
    : may_panic (option (list Z)) :=
  res ← Dhcp.handle (M := M) (DhcpServer_new (ne_ipam entry)) udp;
  match res.1 with
  | None => Val None
  | Some reply =>
      yiaddr ← match get_range reply 16 20 with Some o => ip_of_bytes o | None => Val ip_unspecified end;
      let sender := default vm_mac (m ← get_range frame 6 12; mac_from_bytes m) in
      let gateway_ip := net_gateway (ipam_network (ne_ipam entry)) in
      Val (Some (wrap_udp_reply reply sender gateway_ip yiaddr DHCP_SERVER_PORT DHCP_CLIENT_PORT))
  end.

Definition service_reply g (port : string) (frame : list Z) : may_panic (option (list Z)) :=
  match attachment g port with
  | None => Val None
  | Some (entry, vm_mac) =>
      let gateway_ip := net_gateway (ipam_network (ne_ipam entry)) in
      parsed ← parse_ipv4 frame;
      match parsed with
      | None => Val None
      | Some ip =>
          let p := ip_payload ip in
          if negb (ip_proto ip =? IPPROTO_UDP) || Nat.ltb (length p) 8 then Val None
          else
            sport ← be16_at p 0;
            dport ← be16_at p 2;
            declared ← be16_at p 4;
            let ulen := Nat.max (Z.to_nat declared) 8 in
            udp ← slice p 8 (Nat.min ulen (length p));
            if (dport =? DHCP_SERVER_PORT) && (sport =? DHCP_CLIENT_PORT) then
              dhcp_answer entry vm_mac frame udp
            else if (dport =? DNS_PORT) && (ip_dst ip =? gateway_ip) then
              match (Dns.handle (dns g) udp).1 with
              | None => Val None
              | Some answer => Val (Some (wrap_udp_reply answer vm_mac gateway_ip (ip_src ip) DNS_PORT sport))
              end
            else Val None
      end
  end.

Definition gateway_icmp_reply g (port : string) (frame : list Z) : may_panic (option (list Z)) :=
  match attachment g port with
  | None => Val None
  | Some (entry, vm_mac) => icmp_echo_reply (net_gateway (ipam_network (ne_ipam entry))) vm_mac frame
  end.

(** A frame queued for the virtqueue of a live port. *)
Definition inject_to (port : string) (frame : list Z) : op V unit :=
  g ← locked;
  match ports g !! port with
  | Some _ => modify (log (ToVm port frame))
  | None => mret tt
  end.

Definition passt_egress (port : string) (frame : list Z) : op V unit :=
  g ← locked;
  match slot ← passts g !! port; live_proc slot with
  | Some p => modify (log (ToWan (pp_pid p) (encode_frame frame)))
  | None => mret tt
  end.

Fixpoint inject_all (l : list (string * list Z)) : op V unit :=
  match l with
  | [] => mret tt
  | (peer, f) :: l' => _ ← inject_to peer f; inject_all l'
  end.

(** The last seam: the switch fabric. *)
Definition fabric (me : Z) (frame : list Z) : op V unit :=
  g ← locked;
  res ← lift_panic (Engine.forward (switch g) me frame);
  let '(out, s) := res in
  _ ← modify (upd (set_switch (fun _ => s)));
  let out := filter (fun e : Z * list Z => e.1 <> me) out in
  inject_all (omap (fun e : Z * list Z => (fun n => (n, e.2)) <$> names g !! e.1) out).

(** [matches!(g.passts.get(name).mac, Some(m) if frame[..6] == m)]. *)
Definition to_uplink g (name : string) (frame : list Z) : bool :=
  match slot ← passts g !! name; uplink_mac slot with
  | Some m => Nat.leb 6 (length frame) && bool_decide (take 6 frame = m)
  | None => false
  end.

Definition pump_frame (name : string) (me : Z) (frame : list Z) : op V unit :=
  w ← get;
  if poisoned w then mret tt
  else
    let g := inner w in
    service ← lift_panic (service_reply g name frame);
    match service with
    | Some reply => inject_to name reply
    | None =>
        et ← lift_panic (frame_ethertype frame);
        action ← lift_panic (Gateway.handle_frame (gateway g) me frame);
        match (if decide (et = Some ETHERTYPE_ARP) then
                 match action with ArpReply reply => Some reply | _ => None end else None) with
        | Some reply => inject_to name reply
        | None =>
            icmp ← (if decide (et = Some ETHERTYPE_IPV4) then lift_panic (gateway_icmp_reply g name frame)
                    else mret None : op V (option (list Z)));
            match icmp with
            | Some reply => inject_to name reply
            | None =>
                match (if decide (et = Some ETHERTYPE_IPV4) then
                         match action with Wan f => Some f | _ => None end else None) with
                | Some wan => passt_egress name wan
                | None => if to_uplink g name frame then passt_egress name frame else fabric me frame
                end
            end
        end
    end.

(** ** The passt reader *)

Definition next_frame (buf : list Z) : may_panic (option (nat * list Z)) :=
  r ← decode_frame buf;
  match r with
  | Ok payload => Val (Some ((FRAME_HEADER_LEN + length payload)%nat, payload))
  | Err _ => Val None
  end.

(** [if payload.len() >= 6 { payload[6..12] }]. *)
Definition uplink_of (payload : list Z) : may_panic (option (list Z)) :=
  if Nat.leb 6 (length payload) then m ← slice payload 6 12; Val (Some m) else Val None.

(** The inner loop: the payloads delivered, and what is left, or [None] when
    the thread panicked. *)
Fixpoint drain (fuel : nat) (pending : list Z) : list (list Z) * option (list Z) :=
  match fuel with
  | O => ([], Some pending)
  | S fuel =>
      match next_frame pending with
      | Panic => ([], None)
      | Val None => ([], Some pending)
      | Val (Some (consumed, payload)) =>
          match uplink_of payload with
          | Panic => ([], None)
          | Val _ => let '(out, rest) := drain fuel (drop consumed pending) in (payload :: out, rest)
          end
      end
  end.

(** One [read]: [chunk] is what it returned. *)
Definition feed (pending chunk : list Z) : list (list Z) * option (list Z) :=
  let buf := pending ++ chunk in
  let '(out, rest) := drain (S (length buf)) buf in
  (out, rest' ← rest; Some (if Nat.ltb MAX_PASST_PENDING (length rest') then [] else rest')).

(** What the reader does with one payload: learn the uplink's address when
    the mutex can be had, and queue the frame for the port without it. The
    channel is the one captured when the reader started; here it is that of
    the port that has the name, which differs only when a name is created
    again while its old reader still runs ([Lifecycle]). *)
Definition deliver_wan (name : string) (mac : option (list Z)) (payload : list Z) : op V unit :=
  w ← get;
  _ ← (match mac, passts (inner w) !! name with
       | Some m, Some slot =>
           if poisoned w || bool_decide (uplink_mac slot = Some m) then mret tt
           else modify (upd (set_passts (insert name
                  {| desired := desired slot; live_proc := live_proc slot; failures := failures slot;
                     next_retry := next_retry slot; uplink_mac := Some m |})))
       | _, _ => mret tt
       end : op V unit);
  match ports (inner w) !! name with
  | Some _ => modify (log (ToVm name payload))
  | None => mret tt
  end.

Fixpoint read_passt_frames (pending : list Z) (chunks : list (list Z)) : list (list Z) * option (list Z) :=
  match chunks with
  | [] => ([], Some pending)
  | c :: chunks' =>
      let '(out, rest) := feed pending c in
      match rest with
      | None => (out, None)
      | Some p => let '(out', rest') := read_passt_frames p chunks' in (out ++ out', rest')
      end
  end.
End Pump.

(** ** Reassembly of the passt stream *)

Lemma next_frame_encoded p rest :
  zlen p <= u32_max -> next_frame (encode_frame p ++ rest) = Val (Some ((4 + length p)%nat, p)).
Proof. intros Hp. unfold next_frame. by rewrite decode_encode_app. Qed.

Lemma next_frame_short p k :
  zlen p <= u32_max -> (k < 4 + length p)%nat -> next_frame (take k (encode_frame p)) = Val None.
Proof.
  intros Hp Hk. unfold next_frame, encode_frame, u32_to_be. rewrite zlen_wrap by done.
  destruct (decide (k < 4)%nat) as [H4|H4].
  { rewrite decode_short; [done|]. rewrite length_take. cbn [app length]. lia. }
  do 4 (destruct k as [|k]; [lia|]). cbn [app take]. rewrite decode_at.
  rewrite u32_from_to_be by (unfold is_u32, zlen in *; lia). cbv zeta. unfold zlen. rewrite Nat2Z.id, length_take.
  by destruct (Nat.ltb_spec (Nat.min k (length p)) (length p)); [|lia].
Qed.

(** A payload the reader can take the uplink's address from, or that is too
    short for one, and that fits the buffer. *)
Definition readable (p : list Z) : Prop :=
  (length p < 6 \/ 12 <= length p)%nat /\ (length p + 4 <= MAX_PASST_PENDING)%nat.

Lemma readable_zlen p : readable p -> zlen p <= u32_max.
Proof. unfold readable, MAX_PASST_PENDING, zlen, u32_max. intros [_ Hp]. lia. Qed.

Lemma readable_uplink p : readable p -> exists m, uplink_of p = Val m.
Proof.
  intros [Hl _]. unfold uplink_of. destruct (Nat.leb_spec 6 (length p)); [|by eexists].
  unfold slice. rewrite decide_True by lia. by eexists.
Qed.

Lemma length_encode p : length (encode_frame p) = (4 + length p)%nat.
Proof. unfold encode_frame, u32_to_be. by rewrite length_app. Qed.

(** What is left of a stream of frames when no whole frame is buffered. *)
Definition partial (rest : list Z) (ps : list (list Z)) : Prop :=
  match ps with
  | [] => rest = []
  | p :: _ => exists k, (k < 4 + length p)%nat /\ rest = take k (encode_frame p)
  end.

Lemma partial_length rest ps : partial rest ps -> Forall readable ps -> (length rest <= MAX_PASST_PENDING)%nat.
Proof.
  destruct ps as [|p ps]; simpl; [by intros -> _; simpl; lia|].
  intros (k & Hk & ->) [[_ Hp] _]%Forall_cons. rewrite length_take. lia.
Qed.

Lemma concat_encode_cons p ps :
  concat (encode_frame <$> p :: ps) = encode_frame p ++ concat (encode_frame <$> ps).
Proof. done. Qed.

(** Draining the front of a stream delivers its whole frames, in order. *)
Lemma drain_stream ps fuel buf tail :
  Forall readable ps -> (length buf < fuel)%nat -> buf ++ tail = concat (encode_frame <$> ps) ->
  exists ps1 ps2 rest, ps = ps1 ++ ps2 /\ drain fuel buf = (ps1, Some rest) /\
    rest ++ tail = concat (encode_frame <$> ps2) /\ partial rest ps2.
Proof.
  revert fuel buf. induction ps as [|p ps IH]; intros fuel buf Hr Hf Heq.
  { simpl in Heq. apply app_nil in Heq as [-> ->]. destruct fuel; [simpl in Hf; lia|].
    exists [], [], []. by split_and!. }
  apply Forall_cons in Hr as [Hp Hr]. pose proof (readable_zlen p Hp) as Hz.
  destruct fuel as [|fuel]; [lia|]. rewrite concat_encode_cons in Heq.
  destruct (decide (length buf < 4 + length p)%nat) as [Hs|Hs].
  - assert (Hbuf : buf = take (length buf) (encode_frame p)).
    { apply (f_equal (take (length buf))) in Heq. rewrite take_app_length in Heq.
      by rewrite take_app_le in Heq by (rewrite length_encode; lia). }
    exists [], (p :: ps), buf. split_and!; [done| |by rewrite concat_encode_cons|by eexists].
    cbn [drain]. rewrite Hbuf, next_frame_short by done. done.
  - assert (Hbuf : exists buf', buf = encode_frame p ++ buf' /\ buf' ++ tail = concat (encode_frame <$> ps)).
    { exists (drop (4 + length p) buf). rewrite <- length_encode.
      assert (Htake : take (length (encode_frame p)) buf = encode_frame p).
      { rewrite <- (take_app_le buf tail) by (rewrite length_encode; lia). by rewrite Heq, take_app_length. }
      split.
      - rewrite <- Htake at 1. by rewrite take_drop.
      - rewrite <- (drop_app_le buf tail) by (rewrite length_encode; lia). by rewrite Heq, drop_app_length. }
    destruct Hbuf as (buf' & -> & Heq'). rewrite length_app, length_encode in Hf.
    destruct (IH fuel buf' Hr) as (ps1 & ps2 & rest & -> & Hd & Hrest & Hpart); [lia|done|].
    exists (p :: ps1), ps2, rest. split_and!; [done| |done|done].
    cbn [drain]. rewrite next_frame_encoded by done. destruct (readable_uplink p Hp) as [m ->].
    rewrite <- length_encode, drop_app_length, Hd. done.
Qed.

Lemma read_stream (ps : list (list Z)) (chunks : list (list Z)) :
  Forall readable ps -> concat chunks = concat (encode_frame <$> ps) ->
  read_passt_frames [] chunks = (ps, Some []).
Proof.
  assert (Hgen : forall chunks ps pending, Forall readable ps -> partial pending ps ->
    pending ++ concat chunks = concat (encode_frame <$> ps) -> read_passt_frames pending chunks = (ps, Some [])).
  { clear. induction chunks as [|c chunks IH]; intros ps pending Hr Hpart Heq.
    - destruct ps as [|p ps]; [by simpl in Hpart; subst|]. destruct Hpart as (k & Hk & ->).
      apply (f_equal length) in Heq. rewrite concat_encode_cons in Heq.
      rewrite !length_app, length_take, length_encode in Heq. simpl in Heq. lia.
    - simpl in Heq. rewrite app_assoc in Heq.
      destruct (drain_stream ps (S (length (pending ++ c))) (pending ++ c) (concat chunks)) as
        (ps1 & ps2 & rest & -> & Hd & Hrest & Hp2); [done|lia|done|].
      apply Forall_app in Hr as [_ Hr]. cbn [read_passt_frames]. unfold feed. rewrite Hd.
      cbn [mbind option_bind]. pose proof (partial_length _ _ Hp2 Hr).
      destruct (Nat.ltb_spec MAX_PASST_PENDING (length rest)); [lia|].
      by rewrite (IH ps2 rest Hr Hp2 Hrest). }
  intros Hr Heq. apply Hgen; [done| |done].
  destruct ps as [|p ps]; [done|]. exists 0%nat. split; [lia|done].
Qed.

(** The reader reassembles the passt stream whatever sizes it is read in:
    every cut of the encoded frames into reads delivers exactly those frames,
    in order, and leaves nothing behind. *)
Theorem reader_reassembles (ps : list (list Z)) (chunks : list (list Z)) :
  Forall readable ps -> concat chunks = concat (encode_frame <$> ps) ->
  read_passt_frames [] chunks = (ps, Some []).
Proof. exact (read_stream ps chunks). Qed.

(** A frame of 6 to 11 bytes from passt kills the reader thread: the
    code reads the source address of any frame of at least six bytes. *)
Theorem reader_dies_on_runt (p rest : list Z) :
  (6 <= length p < 12)%nat -> read_passt_frames [] [encode_frame p ++ rest] = ([], None).
Proof.
  intros Hl. cbn [read_passt_frames]. unfold feed. rewrite app_nil_l. cbn [drain].
  rewrite next_frame_encoded by (unfold zlen, u32_max; lia). unfold uplink_of, slice.
  destruct (Nat.leb_spec 6 (length p)); [|lia]. by rewrite decide_False by lia.
Qed.

(** ** One frame through the pump *)
Section Frames.
Context {V : Type} `{JsonValue V, SnapshotCodec V}.
Context {M : Type} `{DhcpLaws M, !DnsCodec}.
Implicit Types (g : Inner V) (w : World V).

Lemma attachment_Some g port e m :
  attachment g port = Some (e, m) ->
  exists lp net, ports g !! port = Some lp /\ lp_network lp = Some net /\ networks g !! net = Some e /\
    lp_mac lp = Some m.
Proof.
  unfold attachment. destruct (ports g !! port) as [lp|]; simpl; [|done].
  destruct (lp_network lp) as [net|] eqn:Hn; simpl; [|done].
  destruct (networks g !! net) as [e'|] eqn:He; simpl; [|done].
  destruct (lp_mac lp) as [m'|] eqn:Hm; simpl; [|done]. intros [= -> ->]. eauto 10.
Qed.

Lemma attachment_ok w port e m : world_ok w -> attachment (inner w) port = Some (e, m) -> ipam_ok (ne_ipam e).
Proof.
  intros Hw Ha. apply attachment_Some in Ha as (lp & net & _ & _ & He & _). by apply (dp_networks _ Hw) in He as [_ Hi].
Qed.

(** [parse_ipv4] on bytes gives bytes. *)
Lemma slice_bytes l i j r : slice l i j = Val r -> bytes_ok l -> bytes_ok r.
Proof.
  unfold slice. case_decide; [|done]. intros [= <-] Hb. by apply Forall_take, Forall_drop.
Qed.

Lemma parse_ipv4_bytes frame ip : parse_ipv4 frame = Val (Some ip) -> bytes_ok frame -> bytes_ok (ip_payload ip).
Proof.
  unfold parse_ipv4. intros Hp Hb.
  destruct (frame_ethertype frame) as [[et|]|]; cbn [mbind may_panic_bind] in Hp; try done.
  destruct (negb _); [done|]. destruct (index frame 14) as [first|]; cbn [mbind may_panic_bind] in Hp; [|done].
  destruct (negb _ || _); [done|].
  destruct (header_end frame _) as [[e|]|]; cbn [mbind may_panic_bind] in Hp; try done.
  destruct (get_range frame (e - 8) (e - 4)); [|done]. destruct (get_range frame (e - 4) e); [|done].
  destruct (ip_of_bytes l); cbn [mbind may_panic_bind] in Hp; [|done].
  destruct (ip_of_bytes l0); cbn [mbind may_panic_bind] in Hp; [|done].
  destruct (index frame (e - 11)); cbn [mbind may_panic_bind] in Hp; [|done].
  destruct (slice frame e (length frame)) eqn:Hs; cbn [mbind may_panic_bind] in Hp; [|done].
  injection Hp as <-. by eapply slice_bytes.
Qed.

Lemma be16_total l i : (i + 1 < length l)%nat -> exists v, be16_at l i = Val v.
Proof.
  intros Hl. unfold be16_at. destruct (index_Some l i) as [a ->]; [lia|]. cbn [mbind may_panic_bind].
  destruct (index_Some l (i + 1)) as [b ->]; [lia|]. by eexists.
Qed.

Lemma dhcp_answer_total (e : NetworkEntry V) mac frame udp :
  ipam_ok (ne_ipam e) -> bytes_ok udp -> exists r, dhcp_answer (M := M) e mac frame udp = Val r.
Proof.
  intros Hi Hb. unfold dhcp_answer.
  destruct (handle_total (M := M) (DhcpServer_new (ne_ipam e)) udp Hi Hb) as (r & s' & ->).
  cbn [mbind may_panic_bind fst]. destruct r as [reply|]; [|by eexists].
  destruct (get_range reply 16 20) as [o|] eqn:Ho; [|by eexists].
  destruct (ip_of_bytes_total o) as [ip ->]; [|by eexists].
  unfold get_range in Ho. case_decide; [|done]. injection Ho as <-. rewrite length_take, length_drop. lia.
Qed.

(** The service seam panics only where the IPv4 reader does. *)
Lemma service_reply_total w port frame :
  world_ok w -> bytes_ok frame ->
  (exists r, service_reply (M := M) (inner w) port frame = Val r) \/
  (is_Some (attachment (inner w) port) /\ parse_ipv4 frame = Panic /\
   service_reply (M := M) (inner w) port frame = Panic).
Proof.
  intros Hw Hb. unfold service_reply. destruct (attachment (inner w) port) as [[e m]|] eqn:Ha; [|left; by eexists].
  pose proof (attachment_ok _ _ _ _ Hw Ha) as Hi.
  destruct (parse_ipv4 frame) as [[ip|]|] eqn:Hp; cbn [mbind may_panic_bind]; [|left; by eexists|right; eauto].
  left. destruct (negb _); cbn [orb]; [by eexists|].
  destruct (Nat.ltb_spec (length (ip_payload ip)) 8); [by eexists|].
  destruct (be16_total (ip_payload ip) 0) as [sport ->]; [lia|]. cbn [mbind may_panic_bind].
  destruct (be16_total (ip_payload ip) 2) as [dport ->]; [lia|]. cbn [mbind may_panic_bind].
  destruct (be16_total (ip_payload ip) 4) as [ulen ->]; [lia|]. cbn [mbind may_panic_bind].
  destruct (slice (ip_payload ip) 8 _) as [udp|] eqn:Hs.
  2: { unfold slice in Hs. rewrite decide_True in Hs by lia. done. }
  cbn [mbind may_panic_bind]. case_match.
  - apply dhcp_answer_total; [done|]. eapply slice_bytes; [done|]. by eapply parse_ipv4_bytes.
  - case_match; [case_match; by eexists|by eexists].
Qed.

Lemma icmp_total g port frame : parse_ipv4 frame <> Panic -> exists r, gateway_icmp_reply g port frame = Val r.
Proof.
  intros Hp. unfold gateway_icmp_reply. destruct (attachment g port) as [[e m]|]; [|by eexists].
  by apply icmp_echo_reply_total.
Qed.

Lemma icmp_total' w port frame r :
  service_reply (M := M) (inner w) port frame = Val r -> exists r', gateway_icmp_reply (inner w) port frame = Val r'.
Proof.
  unfold service_reply. intros Hs. destruct (attachment (inner w) port) as [[e m]|] eqn:Ha.
  - apply icmp_total. intros Hp. rewrite Hp in Hs. done.
  - unfold gateway_icmp_reply. rewrite Ha. by eexists.
Qed.

(** What a frame at the pump of [name] may do outside: answer the port
    itself, reach another port of the same attachment unchanged, or leave,
    unchanged, by the port's own passt process. *)
Inductive pump_event g (name : string) (frame : list Z) : event -> Prop :=
  | pe_self reply : is_Some (ports g !! name) -> pump_event g name frame (ToVm name reply)
  | pe_peer peer lp lq :
      peer <> name -> ports g !! name = Some lp -> ports g !! peer = Some lq ->
      lp_network lp = lp_network lq -> pump_event g name frame (ToVm peer frame)
  | pe_wan slot p :
      passts g !! name = Some slot -> live_proc slot = Some p ->
      pump_event g name frame (ToWan (pp_pid p) (encode_frame frame)).

(** From [w] to [w']: events of [P] happened, and the switch learned. *)
Definition pumped (P : event -> Prop) w w' : Prop :=
  exists evs f, Forall P evs /\ Engine.ports (f (switch (inner w))) = Engine.ports (switch (inner w)) /\
    w' = {| socket_dir := socket_dir w; inner := set_switch f (inner w); poisoned := poisoned w;
            disk := disk w; trace := trace w ++ evs |}.

Lemma pumped_refl P w : pumped P w w.
Proof. exists [], id. rewrite app_nil_r. split_and!; [done..|]. by destruct w as [? []]. Qed.

Lemma pumped_trans P w1 w2 w3 : pumped P w1 w2 -> pumped P w2 w3 -> pumped P w1 w3.
Proof.
  intros (l & f & Hl & Hf & ->) (l' & f' & Hl' & Hf' & ->). exists (l ++ l'), (fun s => f' (f s)).
  rewrite app_assoc. split_and!; [by apply Forall_app|by etrans|done].
Qed.

Lemma pumped_event (P : event -> Prop) w e : P e -> pumped P w (log e w).
Proof.
  intros He. exists [e], id. split_and!; [by apply Forall_singleton|done|]. destruct w as [? []]. done.
Qed.

Lemma pumped_switch (P : event -> Prop) w s :
  Engine.ports s = Engine.ports (switch (inner w)) -> pumped P w (upd (set_switch (fun _ => s)) w).
Proof. intros Hs. exists [], (fun _ => s). rewrite app_nil_r. by split_and!. Qed.

Lemma pumped_ok P w w' : pumped P w w' -> world_ok w -> world_ok w'.
Proof.
  intros (l & f & _ & Hf & ->) [Hn Hm Hb Hx Hj Hd Hu]. split; simpl; try done; by rewrite Hf.
Qed.

(** A command that always succeeds, with events of [P]. *)
Definition pumps (P : event -> Prop) (m : op V unit) w : Prop :=
  wp m w (fun _ w' => pumped P w w') (fun _ _ => False).

Lemma inject_pumps (P : event -> Prop) peer f w :
  (is_Some (ports (inner w) !! peer) -> P (ToVm peer f)) -> pumps P (inject_to peer f) w.
Proof.
  intros HP. unfold pumps, inject_to, locked. wp_steps; [|apply pumped_refl].
  apply pumped_event, HP. by eexists.
Qed.

Lemma passt_egress_pumps (P : event -> Prop) port f w :
  (forall slot p, passts (inner w) !! port = Some slot -> live_proc slot = Some p ->
    P (ToWan (pp_pid p) (encode_frame f))) -> pumps P (passt_egress port f) w.
Proof.
  intros HP. unfold pumps, passt_egress, locked. wp_steps; [|apply pumped_refl].
  destruct (passts (inner w) !! port) as [slot|] eqn:Hs; simpl in *; [|done]. apply pumped_event. eauto.
Qed.

Lemma inject_all_pumps (P : event -> Prop) l w :
  Forall (fun e => is_Some (ports (inner w) !! e.1) -> P (ToVm e.1 e.2)) l -> pumps P (inject_all l) w.
Proof.
  revert w. induction l as [|[peer f] l IH]; intros w Hl; [apply wp_ret, pumped_refl|].
  apply Forall_cons in Hl as [Hp Hl]. cbn [inject_all]. apply wp_bind.
  eapply wp_mono; [by apply inject_pumps|..]; [|done]. simpl. intros _ w' Hw'.
  assert (ports (inner w') = ports (inner w)) as Heq by (by destruct Hw' as (? & ? & _ & _ & ->)).
  eapply wp_mono; [apply (IH w'); by rewrite Heq|..]; [|done]. simpl. intros _ w'' Hw''. by eapply pumped_trans.
Qed.

(** [me] is the id of [name], or the id of a port that is gone. *)
Definition owns g (name : string) (me : Z) : Prop := names g !! me = Some name \/ names g !! me = None.

(** Ports on one segment of the switch are attached to one network, or to
    none. *)
Lemma same_segment g a b la lb net :
  dp_ok g -> ports g !! a = Some la -> ports g !! b = Some lb ->
  Engine.ports (switch g) !! lp_id la = Some net -> Engine.ports (switch g) !! lp_id lb = Some net ->
  lp_network la = lp_network lb.
Proof.
  intros Hg Ha Hb Hsa Hsb. destruct (dp_joined g Hg a la Ha) as [_ Hja]. destruct (dp_joined g Hg b lb Hb) as [_ Hjb].
  destruct (lp_network la) as [na|], (lp_network lb) as [nb|]; [| | |done].
  - destruct Hja as [Hja _], Hjb as [Hjb _]. congruence.
  - destruct Hja as [Hja Hne]. pose proof (Hjb net Hsb). congruence.
  - destruct Hjb as [Hjb Hne]. pose proof (Hja net Hsa). congruence.
Qed.

(** Whom the switch delivers to, by name. *)
Lemma delivered_peer g name me frame egress s' id peer :
  dp_ok g -> owns g name me -> Engine.forward (switch g) me frame = Val ((fun port => (port, frame)) <$> egress, s') ->
  id ∈ egress -> id <> me -> names g !! id = Some peer -> pump_event g name frame (ToVm peer frame).
Proof.
  intros Hg Hown Hf Hin Hne Hpeer.
  destruct (forward_spec (switch g) me frame) as (egress' & s2 & Hf' & Hports & _ & Hm). rewrite Hf' in Hf.
  injection Hf as Heg <-. assert (egress' = egress) as -> by (by eapply (inj (fmap (fun port => (port, frame)))); eauto).
  assert (Hd : exists net, Engine.ports (switch g) !! me = Some net /\ Engine.ports (switch g) !! id = Some net).
  { destruct (Engine.ports (switch g) !! me) as [net|] eqn:Hme; [|destruct Hm as [-> _]; by apply elem_of_nil in Hin].
    destruct (parse frame) as [[p|]|]; [|destruct Hm as [-> _]; by apply elem_of_nil in Hin..].
    destruct Hm as [_ Hm]. apply Hm in Hin as (net' & Hi & Hq & _). rewrite Hports in Hi, Hq.
    exists net. split; [done|congruence]. }
  destruct Hd as (net & Hsme & Hsid).
  destruct Hown as [Hme|Hme]; [|by rewrite (proj1 (dp_dead g Hg me Hme)) in Hsme].
  apply (dp_names g Hg) in Hme as (lp & Hlp & <-). pose proof Hpeer as Hq.
  apply (dp_names g Hg) in Hq as (lq & Hlq & <-).
  apply (pe_peer g name frame peer lp lq); [|done|done|by eapply same_segment].
  intros ->. congruence.
Qed.

Lemma fabric_pumps name me frame w :
  world_ok w -> owns (inner w) name me -> pumps (pump_event (inner w) name frame) (fabric me frame) w.
Proof.
  intros Hw Hown. unfold pumps, fabric, locked. apply wp_bind, wp_bind, wp_get, wp_ret, wp_bind.
  destruct (forward_spec (switch (inner w)) me frame) as (egress & s' & Hf & Hports & _).
  unfold lift_panic at 1. rewrite Hf. unfold wp at 1. apply wp_bind, wp_modify.
  set (w1 := upd (set_switch (fun _ => s')) w).
  assert (Hp1 : pumped (pump_event (inner w) name frame) w w1) by (by apply pumped_switch).
  eapply wp_mono; [eapply (inject_all_pumps (pump_event (inner w) name frame) _ w1)|..];
    [|simpl; intros _ w2 Hw2; by eapply pumped_trans|done].
  apply Forall_forall. intros [peer f] Hin _. cbn [fst snd].
  apply list_elem_of_omap in Hin as ([id f'] & [Hne Hin]%list_elem_of_filter & Hn). cbn [fst snd] in *.
  apply list_elem_of_fmap in Hin as (id' & [= -> ->] & Hin).
  destruct (names (inner w) !! id') as [peer'|] eqn:Hpeer; [|done]. injection Hn as -> ->.
  by eapply delivered_peer.
Qed.

Lemma world_gateway_ok w : world_ok w -> gateway_ok (gateway (inner w)).
Proof.
  intros Hw name n Hn. rewrite (dp_mirror _ Hw) in Hn.
  destruct (networks (inner w) !! name) as [e|] eqn:He; [|done]. injection Hn as <-.
  apply (dp_networks _ Hw) in He as [_ Hi]. apply wfn_gateway_u32, ok_network, Hi.
Qed.

(** The code of the pump after the service seam, when it did not answer. *)
Lemma pump_after_service name me frame w r :
  world_ok w -> bytes_ok frame -> owns (inner w) name me -> poisoned w = false ->
  service_reply (M := M) (inner w) name frame = Val r ->
  pumps (pump_event (inner w) name frame) (pump_frame (M := M) name me frame) w.
Proof.
  intros Hw Hb Hown Hp Hs. unfold pumps, pump_frame. apply wp_bind, wp_get. rewrite Hp. cbn zeta.
  assert (Hself : forall reply, wp (inject_to name reply) w (fun _ w' => pumped (pump_event (inner w) name frame) w w')
    (fun _ _ => False)) by (intros reply; apply inject_pumps; by constructor).
  assert (Hwan : forall f, f = frame -> wp (passt_egress name f) w
    (fun _ w' => pumped (pump_event (inner w) name frame) w w') (fun _ _ => False)).
  { intros f ->. apply passt_egress_pumps. intros slot p. apply pe_wan. }
  apply wp_bind. unfold lift_panic at 1. rewrite Hs. unfold wp at 1.
  destruct r as [reply|]; [apply Hself|].
  apply wp_bind. destruct (frame_ethertype_total frame) as [et Het]. unfold lift_panic at 1. rewrite Het. unfold wp at 1.
  apply wp_bind. destruct (handle_frame_sound (gateway (inner w)) me frame Hb (world_gateway_ok w Hw)) as
    [Ha|(a & Ha & Hacts)]; unfold lift_panic at 1; rewrite Ha; unfold wp at 1.
  all: destruct (icmp_total' _ _ _ _ Hs) as [ic Hic].
  2: destruct Hacts.
  all: repeat (case_decide; cbn beta iota; [|idtac]); try apply Hself; apply wp_bind;
    (apply wp_ret || (unfold lift_panic at 1; rewrite Hic; unfold wp at 1));
    try (destruct ic; [apply Hself|]); try (by apply Hwan); try (case_match; [by apply Hwan|by apply fabric_pumps]).
Qed.

(** A frame either panics the pump, and nothing changes, or runs through. *)
Lemma pump_runs name me frame w :
  world_ok w -> bytes_ok frame -> owns (inner w) name me -> poisoned w = false ->
  (is_Some (attachment (inner w) name) /\ parse_ipv4 frame = Panic /\
   pump_frame (M := M) name me frame w = Panics w) \/
  (~ (is_Some (attachment (inner w) name) /\ parse_ipv4 frame = Panic) /\
   exists w', pump_frame (M := M) name me frame w = Returns w' (Ok tt) /\
     pumped (pump_event (inner w) name frame) w w').
Proof.
  intros Hw Hb Hown Hp. destruct (service_reply_total w name frame Hw Hb) as [[r Hr]|(Ha & Hpanic & Hs)].
  - right. split.
    + intros [[[e m] Ha] Hpanic]. unfold service_reply in Hr. rewrite Ha, Hpanic in Hr. done.
    + pose proof (pump_after_service _ _ _ _ _ Hw Hb Hown Hp Hr) as Hx. unfold pumps, wp in Hx.
      destruct (pump_frame _ _ _ _) as [w' [[]|]|]; [by eexists|done..].
  - left. split_and!; [done..|]. unfold pump_frame. run_cmd. rewrite Hp. unfold lift_panic. by rewrite Hs.
Qed.

(** Isolation of the dataplane. A frame from a port is delivered,
    unchanged, only to ports attached to the same network; whatever else it
    causes is a reply to the port itself or the same frame on the port's own
    passt socket. Nothing else changes but what the switch learned, and the
    state stays consistent. *)
Theorem pump_isolated (w w' : World V) (name : string) (me : Z) (frame : list Z) (r : result RpcError unit) :
  world_ok w -> bytes_ok frame -> owns (inner w) name me ->
  pump_frame (M := M) name me frame w = Returns w' r ->
  r = Ok tt /\ world_ok w' /\
  exists evs f, trace w' = trace w ++ evs /\ Forall (pump_event (inner w) name frame) evs /\
    inner w' = set_switch f (inner w) /\
    Engine.ports (f (switch (inner w))) = Engine.ports (switch (inner w)) /\
    disk w' = disk w /\ poisoned w' = poisoned w.
Proof.
  intros Hw Hb Hown Hr. assert (Hx : r = Ok tt /\ pumped (pump_event (inner w) name frame) w w').
  { destruct (poisoned w) eqn:Hp.
    - unfold pump_frame in Hr. run_cmd in Hr. rewrite Hp in Hr. injection Hr as <- <-.
      split; [done|apply pumped_refl].
    - destruct (pump_runs name me frame w Hw Hb Hown Hp) as [(_ & _ & Hx)|(_ & w2 & Hx & Hpu)];
        rewrite Hx in Hr; [done|]. by injection Hr as <- <-. }
  destruct Hx as [-> Hpu]. pose proof (pumped_ok _ _ _ Hpu Hw). destruct Hpu as (evs & f & Hevs & Hf & ->).
  split_and!; [done..|]. by exists evs, f.
Qed.

(** C38: on the wire a lease is acknowledged only for the address reserved
    for the client over the control plane: each exchange gets a fresh server,
    so an address offered to an unreserved client is refused when the client
    requests it. *)
Theorem dhcp_acks_reserved_only (e : NetworkEntry V) (vm_mac : MacAddr) (frame udp : list Z) (msg : M) (mac : MacAddr) :
  ipam_ok (ne_ipam e) -> bytes_ok udp -> client_message udp msg mac DhcpRequest ->
  exists out b sender ip,
    dhcp_answer (M := M) e vm_mac frame udp =
      Val (Some (wrap_udp_reply b sender (net_gateway (ipam_network (ne_ipam e))) ip DHCP_SERVER_PORT DHCP_CLIENT_PORT)) /\
    to_vec out = Some b /\
    if decide (lookup_mac (ne_ipam e) mac = Some (requested_ip msg))
    then is_lease (ipam_network (ne_ipam e)) msg out (requested_ip msg) Ack else is_nak msg out.
Proof.
  intros Hi Hb Hc. destruct (handle_request (DhcpServer_new (ne_ipam e)) udp msg mac Hi Hc) as
    (b & s' & out & Hh & _ & Ho & Hcase).
  destruct (dhcp_answer_total e vm_mac frame udp Hi Hb) as [r Hr]. pose proof Hr as Hr'.
  unfold dhcp_answer in Hr'. rewrite Hh in Hr'. cbn [mbind may_panic_bind fst] in Hr'.
  destruct (match get_range b 16 20 with Some o => ip_of_bytes o | None => Val ip_unspecified end) as [ip|];
    cbn [mbind may_panic_bind] in Hr'; [|done]. injection Hr' as <-.
  eexists out, b, _, ip. by split_and!.
Qed.

(** The one way a frame can stop the daemon: on an attached port, a bare
    14-byte Ethernet header of type IPv4 panics the pump while it holds the
    mutex; every other frame is handled. *)
Theorem pump_panics_iff (w : World V) (name : string) (me : Z) (frame : list Z) :
  world_ok w -> bytes_ok frame -> owns (inner w) name me -> poisoned w = false ->
  (exists w', pump_frame (M := M) name me frame w = Panics w') <->
  is_Some (attachment (inner w) name) /\ length frame = 14%nat /\
  frame_ethertype frame = Val (Some ETHERTYPE_IPV4).
Proof.
  intros Hw Hb Hown Hp. rewrite <- parse_ipv4_panics.
  destruct (pump_runs name me frame w Hw Hb Hown Hp) as [(Ha & Hpanic & ->)|(Hn & w' & -> & _)].
  - split; [done|]. by eexists.
  - split; [by intros [? ?]|]. by intros Hx.
Qed.
End Frames.
