(* ===== verification/Daemon.v ===== *)
(** * The running daemon (crates/k8netd/src/dataplane.rs, main.rs)

    The threads that share the mutex, as a labelled step relation: the control
    loop, one pump and one reader per port. A step is one critical section; a
    panic inside it poisons the mutex. *)
From S2P Require Import Prelude RustStd Model Ipam Json Protocol StateStore Server.
From S2P Require Import Frame MacTable Engine Gateway Dhcp Dns Passt Packet Dataplane Pump.
Import Dp.

Section Daemon.
Context {V : Type} `{JsonValue V, SnapshotCodec V}.
Context {M : Type} `{DhcpLaws M, !DnsCodec}.
Implicit Types (env : Env) (g : Inner V) (w : World V).

Definition poison w : World V :=
  {| socket_dir := socket_dir w; inner := inner w; poisoned := true; disk := disk w; trace := trace w |}.

(** The state a critical section leaves. *)
Definition settle {A} (r : run (World V) A) : World V :=
  match r with Returns w _ => w | Panics w => poison w end.

(** The supervision at the end of a pump's turn. *)
Definition tick env (wait : wait_result) (name : string) : op V unit :=
  w ← get; if poisoned w then mret tt else supervise_passt env wait name.

Inductive label :=
  | LRequest (req : Request V)
  | LFrame (port : string) (id : Z) (frame : list Z)
  | LTick (port : string)
  | LWan (port : string) (payload : list Z).

Inductive step : label -> World V -> World V -> Prop :=
  | step_request env req w :
      running env ->
      step (LRequest req) w (settle (@dispatch (World V) V _ (dataplane env) req w))
  | step_frame name me frame w :
      PumpStarted name me ∈ trace w -> bytes_ok frame ->
      step (LFrame name me frame) w (settle (pump_frame (M := M) name me frame w))
  | step_tick env wait name w : step (LTick name) w (settle (tick env wait name w))
  | step_wan name mac payload w :
      ReaderStarted name ∈ trace w -> uplink_of payload = Val mac ->
      step (LWan name payload) w (settle (deliver_wan name mac payload w)).

(** [n] steps from a start with nothing attached. *)
Inductive reachable : nat -> World V -> Prop :=
  | reach_start dir d table : pt_unique table -> reachable 0 (from_parts dir d table)
  | reach_step n l w w' : reachable n w -> step l w w' -> reachable (S n) w'.

(** ** Quiet operations *)

Definition is_housekeeping (e : event) : Prop :=
  match e with Spawned _ | Stopped _ _ | Unlinked _ => True | _ => False end.

(** From [w] to [w']: no port was created, and only processes and socket files
    were touched outside. *)
Definition quiet w w' : Prop :=
  next_port_id (inner w') = next_port_id (inner w) /\ poisoned w' = poisoned w /\
  (forall id x, names (inner w') !! id = Some x -> names (inner w) !! id = Some x) /\
  exists l, trace w' = trace w ++ l /\ Forall is_housekeeping l.

Lemma quiet_refl w : quiet w w.
Proof. split_and!; [done..|]. exists []. by rewrite app_nil_r. Qed.

Lemma quiet_trans w1 w2 w3 : quiet w1 w2 -> quiet w2 w3 -> quiet w1 w3.
Proof.
  intros (Hi & Hp & Hn & l & Ht & Hl) (Hi' & Hp' & Hn' & l' & Ht' & Hl'). split_and!; [congruence..|naive_solver|].
  exists (l ++ l'). rewrite Ht', Ht, app_assoc. split; [done|by apply Forall_app].
Qed.

Lemma quiet_core w w' : same_core w w' -> quiet w w'.
Proof.
  intros (_ & Hp & _ & (l & Ht & Hl) & f & Hf). unfold quiet. rewrite Hf, Hp, Ht. split_and!; [done..|].
  exists l. split; [done|]. eapply Forall_impl; [exact Hl|]. by intros [].
Qed.

Lemma quiet_log w e : is_housekeeping e -> quiet w (log e w).
Proof. intros He. split_and!; [done..|]. exists [e]. by split; [|constructor]. Qed.

Lemma quiet_disk w d : quiet w (set_disk d w).
Proof. split_and!; [done..|]. exists []. by rewrite app_nil_r. Qed.

(** A handler that creates no port. *)
Definition keeps_quiet {A} (m : op V A) w : Prop := wp m w (fun _ => quiet w) (fun _ => quiet w).

Ltac quiet_here :=
  solve [ apply quiet_refl
        | split_and!; [done|done|simpl; intros ??; first [done | by intros [_ ?]%lookup_delete_Some]
                      |exists []; by rewrite app_nil_r] ].

Ltac quiet_tails :=
  repeat first
    [ quiet_here
    | apply wp_persist; [done|intros ?..]
    | apply wp_ensure_passt; [intros ? ?|intros ? ? ?]
    | apply wp_teardown_passt; intros ? ?
    | progress wp_steps
    | match goal with
      | |- quiet _ (log _ _) => eapply quiet_trans; [|by apply quiet_log]
      | |- quiet _ (set_disk _ _) => eapply quiet_trans; [|apply quiet_disk]
      end
    | eapply quiet_trans; [|apply quiet_core; eassumption] ].

Lemma create_network_quiet env params w : running env -> keeps_quiet (create_network env params) w.
Proof. intros He. unfold keeps_quiet, create_network, lock. quiet_tails. Qed.

Lemma delete_network_quiet env params w : running env -> keeps_quiet (delete_network env params) w.
Proof. intros He. unfold keeps_quiet, delete_network, lock. quiet_tails. Qed.

Lemma get_network_quiet env params w : keeps_quiet (get_network env params) w.
Proof. unfold keeps_quiet, get_network, lock. quiet_tails. Qed.

Lemma delete_port_quiet env params w : running env -> keeps_quiet (delete_port env params) w.
Proof. intros He. unfold keeps_quiet, delete_port, lock. quiet_tails. Qed.

Lemma get_port_quiet env params w : keeps_quiet (get_port env params) w.
Proof. unfold keeps_quiet, get_port, lock. quiet_tails. Qed.

Lemma attach_port_quiet env params w : running env -> keeps_quiet (attach_port env params) w.
Proof. intros He. unfold keeps_quiet, attach_port, lock. quiet_tails. Qed.

Lemma detach_port_quiet env params w : running env -> keeps_quiet (detach_port env params) w.
Proof. intros He. unfold keeps_quiet, detach_port, lock. quiet_tails. Qed.

Lemma allocate_ip_quiet env params w : keeps_quiet (allocate_ip env params) w.
Proof. unfold keeps_quiet, allocate_ip, lock. quiet_tails. Qed.

Lemma release_ip_quiet env params w : running env -> keeps_quiet (release_ip env params) w.
Proof. intros He. unfold keeps_quiet, release_ip, lock. quiet_tails. Qed.

Lemma publish_port_quiet env params w : running env -> keeps_quiet (publish_port env params) w.
Proof. intros He. unfold keeps_quiet, publish_port, lock, locked. quiet_tails. Qed.

Lemma unpublish_port_quiet env params w : running env -> keeps_quiet (unpublish_port env params) w.
Proof. intros He. unfold keeps_quiet, unpublish_port, lock, locked. quiet_tails. Qed.

(** ** The invariant of the running daemon *)

(** A pump belongs to its port, or to a port that is gone. *)
Definition pumps_ok w : Prop := forall name id,
  PumpStarted name id ∈ trace w -> owns (inner w) name id /\ id < next_port_id (inner w).

(** Not a frame. *)
Definition is_control (e : event) : Prop := match e with ToVm _ _ | ToWan _ _ => False | _ => True end.

Definition evolves w w' : Prop :=
  poisoned w' = poisoned w /\ pumps_ok w' /\
  next_port_id (inner w) <= next_port_id (inner w') <= next_port_id (inner w) + 1 /\
  exists l, trace w' = trace w ++ l /\ Forall is_control l.

Lemma quiet_evolves w w' : pumps_ok w -> quiet w w' -> evolves w w'.
Proof.
  intros Hok (Hi & Hp & Hn & l & Ht & Hl). split_and!; [done| |lia|lia|].
  - intros name id Hin. rewrite Ht in Hin. apply elem_of_app in Hin as [Hin|Hin].
    2: { rewrite Forall_forall in Hl. by apply Hl in Hin. }
    destruct (Hok name id Hin) as [Ho Hlt]. rewrite Hi. split; [|done].
    destruct (names (inner w') !! id) as [x|] eqn:Hx; [|by right].
    left. apply Hn in Hx as Hx'. destruct Ho as [Ho|Ho]; congruence.
  - exists l. split; [done|]. eapply Forall_impl; [exact Hl|]. by intros [].
Qed.

(** The events of a new port. *)
Lemma new_port_evolves w name lp d :
  pumps_ok w -> 0 <= next_port_id (inner w) < u32_max ->
  let id := next_port_id (inner w) in
  forall w', next_port_id (inner w') = wrap_u32 (id + 1) -> poisoned w' = poisoned w ->
    names (inner w') = <[id := name]> (names (inner w)) ->
    trace w' = ((trace w ++ [Bound lp]) ++ [PumpStarted name id]) ++ [ReaderStarted name] ->
    evolves w (set_disk d w').
Proof.
  intros Hok Hid id w' Hi Hp Hn Ht. assert (Hw : wrap_u32 (id + 1) = id + 1).
  { unfold wrap_u32. apply Z.mod_small. unfold u32_max, id in *. lia. }
  split_and!; [done| |simpl; unfold id in *; lia..|].
  - intros n i Hin. simpl in *. unfold owns. simpl. rewrite Hn, Hi, Hw. rewrite Ht in Hin. rewrite !elem_of_app in Hin.
    rewrite !list_elem_of_singleton in Hin. destruct Hin as [[[Hin|?]|Heq]|?]; [|done| |done].
    + destruct (Hok n i Hin) as [Ho Hlt]. unfold id in *. rewrite lookup_insert_ne by lia. split; [done|lia].
    + injection Heq as -> ->. rewrite lookup_insert_eq. split; [by left|lia].
  - exists [Bound lp; PumpStarted name id; ReaderStarted name]. simpl. rewrite Ht, <- !app_assoc.
    split; [done|]. by repeat constructor.
Qed.

Lemma create_port_evolves env params w :
  running env -> pumps_ok w -> 0 <= next_port_id (inner w) < u32_max ->
  wp (create_port env params) w (fun _ => evolves w) (fun _ => evolves w).
Proof.
  intros He Hok Hid. assert (Hself : evolves w w) by (apply quiet_evolves; [done|apply quiet_refl]).
  unfold create_port, lock. wp_steps; try done.
  apply wp_persist; [done|..]; intros d; wp_steps; by eapply new_port_evolves.
Qed.

Lemma handler_evolves env name h params w :
  running env -> pumps_ok w -> 0 <= next_port_id (inner w) < u32_max ->
  @handler (World V) V (dataplane env) name = Some h ->
  wp (h params) w (fun _ => evolves w) (fun _ => evolves w).
Proof.
  intros He Hok Hid Hh.
  assert (Hq : forall h : V -> op V V, keeps_quiet (h params) w ->
    wp (h params) w (fun _ => evolves w) (fun _ => evolves w)).
  { intros h' Hq. eapply wp_mono; [exact Hq|..]; intros; by apply quiet_evolves. }
  refine (@handler_cases (World V) V (dataplane env)
    (fun h => wp (h params) w (fun _ => evolves w) (fun _ => evolves w)) name h Hh _ _ _ _ _ _ _ _ _ _ _ _); simpl;
    first [by apply create_port_evolves | apply Hq];
    auto using create_network_quiet, delete_network_quiet, get_network_quiet, delete_port_quiet, get_port_quiet,
      attach_port_quiet, detach_port_quiet, allocate_ip_quiet, release_ip_quiet, publish_port_quiet, unpublish_port_quiet.
Qed.

Record daemon_ok (n : nat) w : Prop := {
  d_world : world_ok w;
  d_pumps : pumps_ok w;
  d_ids : 1 <= next_port_id (inner w) <= 1 + Z.of_nat n;
}.

(** The outside events a step may have. *)
Definition allowed g (l : label) (e : event) : Prop :=
  match l with
  | LRequest _ => is_control e
  | LFrame name _ frame => pump_event g name frame e
  | LTick _ => is_process e
  | LWan name payload => e = ToVm name payload
  end.

(** The frame that stops the daemon: a bare IPv4 Ethernet header on an
    attached port. *)
Definition deadly g (l : label) : Prop :=
  match l with
  | LFrame name _ frame =>
      is_Some (attachment g name) /\ length frame = 14%nat /\ frame_ethertype frame = Val (Some ETHERTYPE_IPV4)
  | _ => False
  end.

(** What a step does. *)
Definition step_result (n : nat) (l : label) w w' : Prop :=
  daemon_ok (S n) w' /\ (exists evs, trace w' = trace w ++ evs /\ Forall (allowed (inner w) l) evs) /\
  (poisoned w' = poisoned w /\ (poisoned w = true \/ ~ deadly (inner w) l) \/
   poisoned w = false /\ poisoned w' = true /\ deadly (inner w) l).

Lemma dispatch_result n env req w :
  running env -> daemon_ok n w -> Z.of_nat n < u32_max - 1 ->
  step_result n (LRequest req) w (settle (@dispatch (World V) V _ (dataplane env) req w)).
Proof.
  intros He [Hw Hp Hid] Hn. unfold dispatch.
  destruct (@handler (World V) V (dataplane env) (rq_method req)) as [h|] eqn:Hh.
  - pose proof (wp_and _ _ _ _ _ _ (handler_safe env _ h (default Null (rq_params req)) w He Hw ltac:(lia) Hh)
      (handler_evolves env _ h (default Null (rq_params req)) w He Hp ltac:(lia) Hh)) as Hwp.
    apply wp_returns in Hwp as (w' & r & -> & Hr).
    assert (world_ok w' /\ evolves w w') as [Hw' (Hpo & Hp' & Hid' & Htr)] by (by destruct r).
    assert (settle (match r with Ok v => Returns w' (Response_ok (rq_id req) v) | Err e => Returns w' (Response_err (rq_id req) e) end) = w')
      as Hs by (by destruct r).
    assert (Hres : step_result n (LRequest req) w w').
    { split_and!; [split; [done|done|lia]|exact Htr|]. left. split; [done|]. right. by intros []. }
    by destruct r.
  - simpl. split_and!; [split; [done|done|lia]|exists []; by rewrite app_nil_r|]. left. split; [done|]. right. by intros [].
Qed.

Lemma quiet_result n l w w' :
  daemon_ok n w -> world_ok w' -> quiet w w' -> ~ deadly (inner w) l ->
  (exists evs, trace w' = trace w ++ evs /\ Forall (allowed (inner w) l) evs) -> step_result n l w w'.
Proof.
  intros [Hw Hp Hid] Hw' Hq Hd Htr. pose proof Hq as (Hi & Hpo & _). apply quiet_evolves in Hq as (_ & Hp' & _); [|done].
  split_and!; [split; [done|done|lia]|done|]. left. auto.
Qed.

Lemma tick_result n env wait name w :
  daemon_ok n w -> step_result n (LTick name) w (settle (tick env wait name w)).
Proof.
  intros Hok. assert (Hwp : wp (tick env wait name) w (fun _ w' => same_core w w') (fun _ w' => same_core w w')).
  { unfold tick. apply wp_bind, wp_get. destruct (poisoned w); [apply wp_ret, same_core_refl|].
    apply wp_supervise_passt. auto. }
  apply wp_returns in Hwp as (w' & r & -> & Hr). assert (Hc : same_core w w') by (by destruct r). simpl.
  apply quiet_result; [done|eapply same_core_ok; [exact Hc|apply Hok]|by apply quiet_core|by intros []|].
  by destruct Hc as (_ & _ & _ & Ht & _).
Qed.

Lemma deliver_result n name mac payload w :
  daemon_ok n w -> step_result n (LWan name payload) w (settle (deliver_wan name mac payload w)).
Proof.
  intros Hok.
  assert (Hwp : wp (deliver_wan name mac payload) w
    (fun _ w' => exists w1, same_core w w1 /\ trace w1 = trace w /\ (w' = w1 \/ w' = log (ToVm name payload) w1))
    (fun _ _ => False)).
  { unfold deliver_wan. apply wp_bind, wp_get, wp_bind.
    eapply (wp_mono _ _ (fun _ w1 => same_core w w1 /\ trace w1 = trace w) _ (fun _ _ => False)).
    - wp_steps; (split; [apply same_core_refl || apply same_core_slots|done]).
    - simpl. intros _ w1 [Hc Ht]. wp_steps; exists w1; auto.
    - done. }
  apply wp_returns in Hwp as (w' & r & -> & Hr). destruct r; [|done]. simpl.
  destruct Hr as (w1 & Hc & Ht & Hw'). destruct Hok as [Hw Hp Hid].
  pose proof (same_core_ok _ _ Hc Hw) as Hw1. pose proof (quiet_core _ _ Hc) as Hq.
  pose proof Hq as (Hi & Hpo & _). apply quiet_evolves in Hq as (_ & Hp1 & _); [|done].
  destruct Hw' as [-> | ->].
  - split_and!; [split; [done|done|lia]|exists []; by rewrite app_nil_r|]. left. split; [done|]. right. by intros [].
  - split_and!; [split; [done| |simpl; lia]|exists [ToVm name payload]; simpl; rewrite Ht; split; [done|by constructor]|].
    + intros n' id [Hin|Hin]%elem_of_app; [by apply Hp1|]. by apply list_elem_of_singleton in Hin.
    + left. split; [done|]. right. by intros [].
Qed.

Lemma frame_result n name me frame w :
  daemon_ok n w -> PumpStarted name me ∈ trace w -> bytes_ok frame ->
  step_result n (LFrame name me frame) w (settle (pump_frame (M := M) name me frame w)).
Proof.
  intros Hok Hin Hb. pose proof Hok as [Hw Hp Hid]. destruct (Hp name me Hin) as [Hown _].
  destruct (poisoned w) eqn:Hpo.
  { unfold pump_frame. run_cmd. rewrite Hpo. simpl.
    split_and!; [split; [done|done|lia]|exists []; by rewrite app_nil_r|]. left. auto. }
  destruct (pump_runs (M := M) name me frame w Hw Hb Hown Hpo) as [(Ha & Hpanic & ->)|(Hn & w' & -> & Hpu)].
  - rewrite parse_ipv4_panics in Hpanic. simpl.
    split_and!; [split; [done|done|simpl; lia]|exists []; by rewrite app_nil_r|]. right. by split_and!.
  - rewrite parse_ipv4_panics in Hn. simpl. pose proof (pumped_ok _ _ _ Hpu Hw) as Hw'.
    destruct Hpu as (evs & f & Hevs & Hf & ->).
    split_and!; [split; [done| |simpl; lia]|by exists evs|left; simpl; auto].
    intros n' id [Hin'|Hin']%elem_of_app; [by apply Hp|]. rewrite Forall_forall in Hevs. apply Hevs in Hin'. inversion Hin'.
Qed.

Lemma step_ok n l w w' : daemon_ok n w -> Z.of_nat n < u32_max - 1 -> step l w w' -> step_result n l w w'.
Proof.
  intros Hok Hn Hs. destruct Hs; [by apply dispatch_result|by apply frame_result|by apply tick_result|by apply deliver_result].
Qed.

Lemma reachable_ok n w : reachable n w -> Z.of_nat n < u32_max -> daemon_ok n w.
Proof.
  induction 1 as [dir d table Ht|n l w w' _ IH Hs]; intros Hn.
  - split; [by apply from_parts_ok|by intros ?? Hin%elem_of_nil|simpl; lia].
  - apply (step_ok n l w w'); [apply IH; lia|lia|done].
Qed.

(** C5: consistency of the running daemon. Over any run of fewer than
    [2^32 - 1] critical sections (requests, frames, supervision, WAN input, in any
    order, whatever the disk and the processes do) networks, ports, switch,
    gateway, ids and publish table agree in every state, every pump serves its
    own port, and port ids are never reused. *)
Theorem daemon_consistent (n : nat) (w : World V) :
  reachable n w -> Z.of_nat n < u32_max -> world_ok w /\ pumps_ok w /\ 1 <= next_port_id (inner w) <= 1 + Z.of_nat n.
Proof. intros Hr Hn. by destruct (reachable_ok n w Hr Hn). Qed.

(** C1: isolation of the running daemon. A frame leaves the daemon only as the
    schedule allows: a VM frame goes unchanged to ports of the same network
    or to the port's own passt process, or is answered to the port itself; a
    frame from a passt process goes to the port that owns it; requests and
    supervision emit no frame at all. *)
Theorem daemon_isolated (n : nat) (w w' : World V) (l : label) :
  reachable n w -> Z.of_nat n < u32_max - 1 -> step l w w' ->
  exists evs, trace w' = trace w ++ evs /\ Forall (allowed (inner w) l) evs.
Proof. intros Hr Hn Hs. by apply (step_ok n l w w' (reachable_ok n w Hr ltac:(lia)) Hn Hs). Qed.

(** C15: the mutex is poisoned by exactly one kind of step, a bare 14-byte IPv4
    Ethernet header from an attached port, and no step heals it (the threads
    that CreatePort starts under the mutex are taken to start). *)
Theorem daemon_poisoned_iff (n : nat) (w w' : World V) (l : label) :
  reachable n w -> Z.of_nat n < u32_max - 1 -> step l w w' ->
  poisoned w' = true <-> poisoned w = true \/ deadly (inner w) l.
Proof.
  intros Hr Hn Hs. destruct (step_ok n l w w' (reachable_ok n w Hr ltac:(lia)) Hn Hs) as (_ & _ & Hcase).
  destruct Hcase as [[-> [Hp|Hd]]|(Hp & -> & Hd)]; [rewrite Hp; tauto|tauto|tauto].
Qed.
End Daemon.
