(* ===== verification/Lives.v ===== *)
(** * The lives of the daemon

    The daemon is started on its directory, serves requests, frames and
    supervisions in any order, on a disk whose calls may fail, loses power at
    any moment, even inside a request, and is started again: [Config.start],
    [Daemon.step] and [Crash] composed over any number of lives. *)
From S2P Require Import Prelude RustStd Model Ipam Json Protocol StateStore Server.
From S2P Require Import Frame MacTable Engine Gateway Dhcp Dns Passt Packet Dataplane Control Crash Config Pump Daemon.
Import Dp.

Section Lives.
Context {V : Type} `{JsonLaws V, !SnapshotCodec V, !SnapshotLaws V}.
Context {M : Type} `{DhcpLaws M, !DnsCodec}.
Implicit Types (env : Env) (w : World V).

(** A start on the disk [d] that comes up as [w]: some version, flags and
    environment, and a disk that works. *)
Definition boots (d : fs) w : Prop :=
  exists version revision argv getenv udp_upstream env sock, disk_works env /\
    start version revision argv getenv udp_upstream (env_disk env) d = Some (Serving sock w).

(** The state of a world at the end of a request, or where it was cut off. *)
Definition after_request env (req : Request V) w : World V :=
  settle (@dispatch (World V) V _ (dataplane env) req w).

(** The request is answered with a success. *)
Definition granted env (req : Request V) w : Prop :=
  exists h v, @handler (World V) V (dataplane env) (rq_method req) = Some h /\
    h (default Null (rq_params req)) w = Returns (after_request env req w) (Ok v).

(** [life n ts w]: [n] critical sections into a life, with [ts] the published
    ports in force since the state file was last up to date, the latest first.
    A request may find any disk: each call works or fails ([life_request]).
    The file is up to date again after a success that has always written it
    ([life_saved]), and stays so after a request on a working disk and after
    any success ([life_kept]). A power loss strikes during a request or after
    it (the request may be one that does nothing). *)
Inductive life : nat -> list PublishTable -> World V -> Prop :=
  | first_life d w :
      live d !! state_file (socket_dir w) = None -> stable d !! state_file (socket_dir w) = None ->
      boots d w -> life 0 [publish_table (inner w)] w
  | life_request n ts w env req :
      life n ts w -> Z.of_nat n < u32_max - 1 -> running env ->
      life (S n) (publish_table (inner (after_request env req w)) :: ts) (after_request env req w)
  | life_saved n ts w env req :
      life n ts w -> Z.of_nat n < u32_max - 1 -> running env -> always_saves (rq_method req) = true -> granted env req w ->
      life (S n) [publish_table (inner (after_request env req w))] (after_request env req w)
  | life_kept n t w env req :
      life n [t] w -> Z.of_nat n < u32_max - 1 -> running env -> disk_works env \/ granted env req w ->
      life (S n) [publish_table (inner (after_request env req w))] (after_request env req w)
  | life_turn n ts w l w' :
      life n ts w -> Z.of_nat n < u32_max - 1 -> (forall req, l <> LRequest req) -> step (M := M) l w w' -> life (S n) ts w'
  | next_life n ts w env req d w' :
      life n ts w -> Z.of_nat n < u32_max - 1 -> survives (disk (after_request env req w)) d -> boots d w' ->
      socket_dir w' = socket_dir (after_request env req w) -> life 0 [publish_table (inner w')] w'.

Lemma works_running env : disk_works env -> running env.
Proof. intros Hd c t. by rewrite Hd. Qed.

Lemma set_dns_keeps (d : DnsForwarder) w : world_ok w -> world_ok (upd (set_dns d) w).
Proof. intros [D1 D2 D3 D4 D5 D6 D7]. by split. Qed.

(** A start comes up as what [try_new] read, with resolvers. *)
Lemma boots_read d w :
  boots d w -> exists env t d' u, disk_works env /\
    try_new (env_disk env) (socket_dir w) d = Some (Ok (from_parts (socket_dir w) d' t)) /\
    w = upd (set_dns (DnsForwarder_new u)) (from_parts (socket_dir w) d' t).
Proof.
  intros (ver & rev & argv & getenv & udp & env & sock & He & Hs). unfold start in Hs.
  destruct (wants_version argv); [done|]. destruct (parse_flags argv); [|done]. destruct (resolve _ getenv) as [cfg|]; [|done].
  unfold try_new in Hs |- *. destruct (load_from_disk (env_disk env) (cfg_socket_dir cfg) d) as [d' [store|e]|d'] eqn:Hl; try done.
  injection Hs as <- <-. exists env, (st_publish_table store), d', (udp <$> upstream_dns cfg). simpl. by rewrite Hl.
Qed.

(** Over a directory that holds one of the tables [T]. *)
Lemma boots_holds T d0 d w :
  holds (V := V) T (socket_dir w) d0 -> survives d0 d -> boots d w ->
  exists t u, T t /\ w = upd (set_dns (DnsForwarder_new u)) (from_parts (socket_dir w) d t) /\ durable w.
Proof.
  intros Hh Hsv (env & t & d' & u & He & Htry & Hw)%boots_read.
  destruct (restart_holds env _ _ _ _ Hh Hsv He) as (t2 & w2 & Htry2 & Ht & -> & Hd).
  rewrite Htry in Htry2. injection Htry2 as -> ->. exists t2, u. split_and!; [done|done|]. rewrite Hw. exact Hd.
Qed.

(** Over an empty one. *)
Lemma unsaved_durable w :
  live (disk w) !! state_file (socket_dir w) = None -> stable (disk w) !! state_file (socket_dir w) = None ->
  publish_table (inner w) = pt_empty -> durable w.
Proof.
  intros Hl Hs Ht. unfold durable. rewrite Ht. split.
  - intros f. rewrite Hl, Hs. by intros [?|?].
  - intros o (f & Hf & Ho). exists pt_empty. split; [|done]. left. rewrite Hl, Hs in Hf. by destruct Hf as [-> | ->].
Qed.

Lemma boots_empty d w :
  live d !! state_file (socket_dir w) = None -> stable d !! state_file (socket_dir w) = None -> boots d w ->
  exists u, w = upd (set_dns (DnsForwarder_new u)) (from_parts (socket_dir w) d pt_empty) /\ durable w.
Proof.
  intros Hl Hs (env & t & d' & u & He & Htry & Hw)%boots_read. unfold try_new, load_from_disk in Htry. run_cmd in Htry.
  unfold state_file in Hl. rewrite Hl in Htry. injection Htry as <- <-. exists u. split; [done|].
  apply unsaved_durable; by rewrite Hw.
Qed.

Lemma first_ok u dir d t :
  pt_unique t -> daemon_ok 0 (upd (set_dns (DnsForwarder_new u)) (from_parts (V := V) dir d t)).
Proof.
  intros Ht. split; [by apply set_dns_keeps, from_parts_ok|by intros ?? Hin%elem_of_nil|simpl; lia].
Qed.

(** ** What a life keeps *)

(** Neither the disk nor the published ports change. *)
Definition leaves_saved w w' : Prop :=
  socket_dir w' = socket_dir w /\ disk w' = disk w /\ publish_table (inner w') = publish_table (inner w).

Lemma leaves_durable w w' : leaves_saved w w' -> durable w -> durable w'.
Proof. unfold durable. by intros (-> & -> & ->). Qed.

Lemma core_leaves w w' : same_core w w' -> leaves_saved w w'.
Proof. intros (Hs & _ & Hd & _ & f & Hf). split_and!; [done|done|]. by rewrite Hf. Qed.

Lemma turn_leaves n l w w' :
  daemon_ok n w -> (forall req, l <> LRequest req) -> step (M := M) l w w' -> leaves_saved w w'.
Proof.
  intros [Hw Hp Hid] Hl Hs. destruct Hs as [env req w|name me frame w Hin Hb|env wait name w|name mac payload w Hin Hu].
  - by destruct (Hl req).
  - destruct (Hp name me Hin) as [Hown _]. destruct (poisoned w) eqn:Hpo.
    { unfold pump_frame. run_cmd. by rewrite Hpo. }
    destruct (pump_runs (M := M) name me frame w Hw Hb Hown Hpo) as [(_ & _ & ->)|(_ & w' & -> & evs & f & _ & _ & ->)]; done.
  - assert (Hwp : wp (tick env wait name) w (fun _ => leaves_saved w) (fun _ => leaves_saved w)).
    { unfold tick. apply wp_bind, wp_get. destruct (poisoned w); [by apply wp_ret|].
      apply wp_supervise_passt. intros. by apply core_leaves. }
    apply wp_returns in Hwp as (w' & r & -> & Hr). by destruct r.
  - assert (Hwp : wp (deliver_wan name mac payload) w (fun _ => leaves_saved w) (fun _ => leaves_saved w)).
    { unfold deliver_wan. wp_steps; done. }
    apply wp_returns in Hwp as (w' & r & -> & Hr). by destruct r.
Qed.

Lemma struck_ok env name (h : V -> op V V) params w :
  world_ok w -> 0 <= next_port_id (inner w) < u32_max -> @handler (World V) V (dataplane env) name = Some h ->
  world_ok (run_state (h params w)).
Proof.
  intros Hw Hid Hh. destruct (handler_stops env name h params Hh) as (h' & Hh' & Hst).
  destruct (wp_returns _ _ _ _ (handler_safe (enduring env) name h' params w (enduring_runs env) Hw Hid Hh')) as (s & r & Heq & Hr).
  assert (Hs : world_ok s) by (by destruct r). destruct (Hst w) as [->|(s' & -> & Heq')]; [by rewrite Heq|].
  rewrite Heq in Heq'. by injection Heq' as <- _.
Qed.

(** A request, whatever the machine and the disk do: the file is left with
    one of the tables it could hold or the one in force. *)
Lemma after_request_held T n env req w :
  daemon_ok n w -> holds T (socket_dir w) (disk w) -> Z.of_nat n < u32_max - 1 ->
  let w' := after_request env req w in
  held T w' /\ pt_unique (publish_table (inner w')) /\
  (always_saves (rq_method req) = true -> granted env req w -> durable w').
Proof.
  intros [Hw Hp Hid] Hd Hn. cbv zeta. unfold granted, after_request, dispatch.
  destruct (@handler (World V) V (dataplane env) (rq_method req)) as [h|] eqn:Hh; cbv zeta.
  - pose proof (struck_ok env _ h (default Null (rq_params req)) w Hw ltac:(lia) Hh) as Hok.
    destruct (request_held T env _ h (default Null (rq_params req)) w Hd Hh) as [Hheld Hsaved].
    assert (Hg : forall s : World V, (exists h0 v, Some h = Some h0 /\ h0 (default Null (rq_params req)) w = Returns s (Ok v)) ->
      exists v, h (default Null (rq_params req)) w = Returns s (Ok v)) by (intros s (h0 & v & [= <-] & Hv); by exists v).
    destruct (h (default Null (rq_params req)) w) as [w' [v|e]|w']; simpl in *;
      (split_and!; [exact Hheld|exact (dp_unique _ Hok)|intros Hs [v' Hv]%Hg; by eapply Hsaved]).
  - simpl. split_and!; [by apply held_weak|exact (dp_unique _ Hw)|by intros _ (h & v & ? & _)].
Qed.

(** From a file that is up to date. *)
Lemma after_request_durable env req w :
  durable w -> disk_works env \/ granted env req w -> durable (after_request env req w).
Proof.
  intros Hd. unfold granted, after_request, dispatch.
  destruct (@handler (World V) V (dataplane env) (rq_method req)) as [h|] eqn:Hh; cbv zeta; [|done].
  destruct (request_settles env _ h (default Null (rq_params req)) w Hd Hh) as [[Hwork _] Hok].
  intros [Hdw|(h0 & v & [= <-] & Hv)].
  - apply enduring_works, Hwork in Hdw. by destruct (h (default Null (rq_params req)) w) as [w' [v|e]|w'].
  - rewrite Hv. by eapply Hok.
Qed.

(** What a life keeps: the tables the file may hold. *)
Record life_ok (n : nat) (ts : list PublishTable) w : Prop := {
  lf_daemon : daemon_ok n w;
  lf_latest : head ts = Some (publish_table (inner w));
  lf_file : holds (fun t => t ∈ ts) (socket_dir w) (disk w);
  lf_unique : Forall pt_unique ts;
}.

Lemma durable_file w : durable w <-> holds (fun t => t ∈ [publish_table (inner w)]) (socket_dir w) (disk w).
Proof.
  split; (apply holds_mono; intros t); [by intros ->; left|by intros ->%list_elem_of_singleton].
Qed.

Lemma up_to_date n w : daemon_ok n w -> durable w -> life_ok n [publish_table (inner w)] w.
Proof. intros Hw Hd. split; [done|done|by apply durable_file|]. constructor; [exact (dp_unique _ (d_world _ _ Hw))|constructor]. Qed.

Lemma life_is_ok n ts w : life n ts w -> life_ok n ts w.
Proof.
  induction 1 as [d w Hl Hs Hb|n ts w env req _ [Hok Hlt Hf Hu] Hn He|n ts w env req _ [Hok Hlt Hf Hu] Hn He Hsv Hg
    |n t w env req _ [Hok Hlt Hf Hu] Hn He Hg|n ts w l w' _ [Hok Hlt Hf Hu] Hn Hl Hs
    |n ts w env req d w' _ [Hok Hlt Hf Hu] Hn Hsv Hb Hdir].
  - destruct (boots_empty d w Hl Hs Hb) as (u & Hw & Hd). apply up_to_date; [|done]. rewrite Hw. apply first_ok. intros p v p' v' h Hg.
    unfold pt_get in Hg. simpl in Hg. by rewrite lookup_empty in Hg.
  - destruct (dispatch_result n env req w He Hok Hn) as [Hok' _].
    destruct (after_request_held _ n env req w Hok Hf Hn) as (Hh & Hu' & _). split; [exact Hok'|done| |by constructor].
    eapply holds_mono; [|exact Hh]. intros t [Ht| ->]; by constructor.
  - destruct (dispatch_result n env req w He Hok Hn) as [Hok' _].
    destruct (after_request_held _ n env req w Hok Hf Hn) as (_ & _ & Hd). by apply up_to_date; [|apply Hd].
  - destruct (dispatch_result n env req w He Hok Hn) as [Hok' _]. apply up_to_date; [exact Hok'|].
    injection Hlt as ->. apply after_request_durable; [by apply durable_file|done].
  - destruct (step_ok (M := M) n l w w' Hok Hn Hs) as [Hok' _].
    destruct (turn_leaves n l w w' Hok Hl Hs) as (Hdir & Hdisk & Ht). split; [done|by rewrite Ht|by rewrite Hdir, Hdisk|done].
  - destruct (after_request_held _ n env req w Hok Hf Hn) as (Hh & Hu' & _). unfold held in Hh. rewrite <- Hdir in Hh.
    destruct (boots_holds _ _ d w' Hh Hsv Hb) as (t & u & Ht & Hw' & Hd').
    assert (Htu : pt_unique t) by (destruct Ht as [Ht| ->]; [by eapply Forall_forall|done]).
    apply up_to_date; [rewrite Hw'; by apply first_ok|done].
Qed.

(** C9: consistency over all lives. However often the daemon is started, loses
    power, even inside a request, and is started again on its directory, and
    whichever of its saves fail, in every state of every life networks, ports,
    switch, gateway, ids and publish table agree, no host port is published
    twice, and every pump serves its own port. A start after a power loss in
    this state, with any flags that resolve to this directory, comes up
    serving on the control socket, with the configured resolvers and published
    ports that were in force since the state file was last up to date: with
    exactly the ones in force when no save has failed since. *)
Theorem lives_consistent (n : nat) (ts : list PublishTable) (w : World V) :
  life n ts w ->
  world_ok w /\ pumps_ok w /\ pt_unique (publish_table (inner w)) /\ head ts = Some (publish_table (inner w)) /\
  forall version revision argv getenv udp_upstream env d flags cfg,
    survives (disk w) d -> disk_works env ->
    wants_version argv = false -> parse_flags argv = Ok flags -> resolve flags getenv = Ok cfg ->
    cfg_socket_dir cfg = socket_dir w ->
    exists t, t ∈ ts /\ pt_unique t /\ (length ts = 1%nat -> t = publish_table (inner w)) /\
      start version revision argv getenv udp_upstream (env_disk env) d =
        Some (Serving (path_join (socket_dir w) "control.sock")
          (upd (set_dns (DnsForwarder_new (udp_upstream <$> upstream_dns cfg))) (from_parts (socket_dir w) d t))).
Proof.
  intros Hl. destruct (life_is_ok n ts w Hl) as [[Hw Hp _] Hlt Hf Hu]. split_and!; [done|done|exact (dp_unique _ Hw)|done|].
  intros ver rev argv getenv udp env d flags cfg Hsv He Hv Hfl Hr Hdir. unfold start. rewrite Hv, Hfl, Hr, Hdir.
  destruct (restart_holds env _ _ _ _ Hf Hsv He) as (t & w2 & -> & Ht & -> & _). exists t.
  split_and!; [done|by eapply Forall_forall| |done]. intros Hone. destruct ts as [|t0 []]; [done| |done].
  apply list_elem_of_singleton in Ht as ->. by injection Hlt.
Qed.
End Lives.
