(* ===== verification/Supervision.v ===== *)
(** * Keeping passt running (crates/k8netd/src/dataplane.rs)

    The supervision a pump does between frames ([supervise_passt]), over
    sequences of ticks with the answers of the clock, [try_wait] and the
    spawn at each. *)
From S2P Require Import Prelude RustStd Json Protocol StateStore Server Passt Packet Dataplane.
Import Dp.

(** ** One slot *)

(** The slot after one tick, and the command line run, if any. *)
Definition tick_slot (env : Env) (wait : wait_result) (slot : PasstSlot) : option (list string) * PasstSlot :=
  let crashed := match live_proc slot with Some _ => exited wait | None => false end in
  let slot := if crashed then
      let n := sat_u32 (failures slot + 1) in
      {| desired := desired slot; live_proc := None; failures := n;
         next_retry := Some (env_now env + restart_backoff n); uplink_mac := uplink_mac slot |}
    else slot in
  let due := match next_retry slot with None => true | Some t => t <=? env_now env end in
  if (match live_proc slot with None => due | Some _ => false end) then
    let '(argv, _, slot') := spawn_slot env slot in (argv, slot')
  else (None, slot).

Definition tick : Type := Env * wait_result.

Fixpoint tick_slots (l : list tick) (slot : PasstSlot) : list (list string) * PasstSlot :=
  match l with
  | [] => ([], slot)
  | (env, wait) :: l' =>
      let '(argv, slot1) := tick_slot env wait slot in
      let '(runs, slot2) := tick_slots l' slot1 in (option_list argv ++ runs, slot2)
  end.

Lemma tick_slots_app l1 l2 slot :
  tick_slots (l1 ++ l2) slot =
    let '(r1, s1) := tick_slots l1 slot in let '(r2, s2) := tick_slots l2 s1 in (r1 ++ r2, s2).
Proof.
  revert slot. induction l1 as [|[env wait] l1 IH]; intros slot; simpl; [by destruct (tick_slots l2 slot)|].
  destruct (tick_slot env wait slot) as [argv s0]. rewrite IH.
  destruct (tick_slots l1 s0) as [r1 s1]. destruct (tick_slots l2 s1) as [r2 s2]. by rewrite app_assoc.
Qed.

(** A slot that waits for its time. *)
Lemma tick_waiting env wait slot due :
  live_proc slot = None -> next_retry slot = Some due -> env_now env < due -> tick_slot env wait slot = (None, slot).
Proof.
  intros Hl Hr Ht. unfold tick_slot. rewrite Hl. cbv zeta iota. rewrite Hl, Hr.
  by rewrite (proj2 (Z.leb_gt due (env_now env))).
Qed.

Lemma ticks_waiting l slot due :
  live_proc slot = None -> next_retry slot = Some due -> Forall (fun t : tick => env_now t.1 < due) l ->
  tick_slots l slot = ([], slot).
Proof.
  intros Hl Hr. induction 1 as [|[env wait] l Ht _ IH]; [done|]. cbn [tick_slots].
  rewrite (tick_waiting env wait slot due) by done. by rewrite IH.
Qed.

(** The slot of a process that was found dead. *)
Definition crashed_slot (env : Env) (slot : PasstSlot) : PasstSlot :=
  let n := sat_u32 (failures slot + 1) in
  {| desired := desired slot; live_proc := None; failures := n;
     next_retry := Some (env_now env + restart_backoff n); uplink_mac := uplink_mac slot |}.

Lemma sat_succ n : 0 <= n -> 1 <= sat_u32 (n + 1) <= u32_max.
Proof. unfold sat_u32, u32_max. lia. Qed.

Lemma backoff_range n : 0 <= n -> 100 <= restart_backoff n <= 2000.
Proof. intros Hn. by apply (backoff_bounds n n). Qed.

(** The delay after a crash: 100 ms, doubled for each failure before it, and
    two seconds at most. The cap is reached long before the bound on the
    shift and the end of the counter. *)
Definition delay (failures : Z) : Z := Z.min (100 * 2 ^ failures) 2000.

Lemma backoff_delay n : 0 <= n -> restart_backoff (sat_u32 (n + 1)) = delay n.
Proof.
  intros Hn. unfold restart_backoff, delay, sat_u32. destruct (decide (n < 5)) as [Hlt|Hge].
  - assert (n = 0 \/ n = 1 \/ n = 2 \/ n = 3 \/ n = 4) as Hcases by lia.
    destruct Hcases as [-> |[-> |[-> |[-> | ->]]]]; done.
  - rewrite (Z.max_r 0 (Z.min (n + 1) u32_max)) by (unfold u32_max; lia).
    assert (Hp : forall k, 5 <= k -> 32 <= 2 ^ k) by (intros k Hk; apply (Z.pow_le_mono_r 2 5 k); lia).
    rewrite !Z.min_r; [done| |].
    + pose proof (Hp n). lia.
    + pose proof (Hp (Z.min (Z.max 0 (Z.min (n + 1) u32_max - 1)) 16)). unfold u32_max in *. lia.
Qed.

Lemma tick_crash env slot p :
  0 <= failures slot -> live_proc slot = Some p -> tick_slot env Exited slot = (None, crashed_slot env slot).
Proof.
  intros Hf Hl. unfold tick_slot. rewrite Hl. simpl. pose proof (sat_succ (failures slot) Hf).
  pose proof (backoff_range (sat_u32 (failures slot + 1)) ltac:(lia)).
  by rewrite (proj2 (Z.leb_gt _ (env_now env))) by lia.
Qed.

(** The slot of a fresh process. *)
Definition running_slot (slot : PasstSlot) (p : PasstProc) : PasstSlot :=
  {| desired := desired slot; live_proc := Some p; failures := 0; next_retry := None; uplink_mac := uplink_mac slot |}.

Lemma tick_due env wait slot argv fds p :
  live_proc slot = None -> (forall t, next_retry slot = Some t -> t <= env_now env) ->
  spawn (desired slot) (env_spawn env) = (argv, fds, Ok p) -> tick_slot env wait slot = (argv, running_slot slot p).
Proof.
  intros Hl Hr Hs. unfold tick_slot. rewrite Hl. cbv zeta iota. rewrite Hl. unfold spawn_slot. rewrite Hs.
  destruct (next_retry slot) as [t|]; [|done]. specialize (Hr t eq_refl). by rewrite (proj2 (Z.leb_le _ _)).
Qed.

(** ** The supervisor *)
Section Supervisor.
Context {V : Type} `{JsonValue V, SnapshotCodec V}.

(** One tick of the supervisor is one tick of the slot. *)
Lemma supervise_slot env wait port (w : World V) slot :
  passts (inner w) !! port = Some slot ->
  exists w', supervise_passt env wait port w = Returns w' (Ok tt) /\
    passts (inner w') = <[port := (tick_slot env wait slot).2]> (passts (inner w)) /\
    trace w' = trace w ++ (Spawned <$> option_list (tick_slot env wait slot).1).
Proof.
  intros Hs. unfold supervise_passt, tick_slot, locked. run_cmd. rewrite Hs. cbv zeta.
  set (slot1 := if match live_proc slot with Some _ => exited wait | None => false end then _ else slot).
  destruct (match live_proc slot1 with Some _ => false | None => _ end).
  - destruct (spawn_slot env slot1) as [[argv o] slot']. eexists. split; [done|]. destruct argv; simpl; by rewrite ?app_nil_r.
  - eexists. split; [done|]. simpl. by rewrite app_nil_r.
Qed.

Fixpoint supervise_all (l : list tick) (port : string) : op V unit :=
  match l with
  | [] => mret tt
  | (env, wait) :: l' => _ ← supervise_passt env wait port; supervise_all l' port
  end.

Lemma supervise_slots l port (w : World V) slot :
  passts (inner w) !! port = Some slot ->
  exists w', supervise_all l port w = Returns w' (Ok tt) /\
    passts (inner w') !! port = Some (tick_slots l slot).2 /\
    trace w' = trace w ++ (Spawned <$> (tick_slots l slot).1).
Proof.
  revert w slot. induction l as [|[env wait] l IH]; intros w slot Hs.
  { exists w. simpl. by rewrite app_nil_r. }
  destruct (supervise_slot env wait port w slot Hs) as (w1 & Hx & Hp & Ht). cbn [supervise_all tick_slots]. run_cmd. rewrite Hx.
  destruct (tick_slot env wait slot) as [argv slot1]. simpl in *.
  destruct (IH w1 slot1) as (w2 & Hy & Hp2 & Ht2); [rewrite Hp; apply lookup_insert_eq|]. rewrite Hy.
  exists w2. destruct (tick_slots l slot1) as [runs slot2]. simpl in *.
  split_and!; [done|done|]. by rewrite Ht2, Ht, fmap_app, app_assoc.
Qed.

(** C25: a dead passt comes back, and on time. When a process is found dead,
    nothing is run before its delay has passed (100 ms, doubled for each
    failure counted before, two seconds at most); the first tick at or after
    the end of the delay, if the spawn succeeds, runs it again with the same
    configuration and clears the count. *)
Theorem crashed_passt_returns (w : World V) (port : string) (slot : PasstSlot) (p0 p : PasstProc)
    (env1 env2 : Env) (wait : wait_result) (between : list tick) (argv : option (list string)) (fds : list Z) :
  let due := env_now env1 + Z.min (100 * 2 ^ failures slot) 2000 in
  passts (inner w) !! port = Some slot -> 0 <= failures slot -> live_proc slot = Some p0 ->
  Forall (fun t : tick => env_now t.1 < due) between -> due <= env_now env2 ->
  spawn (desired slot) (env_spawn env2) = (argv, fds, Ok p) ->
  exists w1 w2, supervise_all ((env1, Exited) :: between) port w = Returns w1 (Ok tt) /\ trace w1 = trace w /\
    live_proc <$> passts (inner w1) !! port = Some None /\
    supervise_passt env2 wait port w1 = Returns w2 (Ok tt) /\
    passts (inner w2) !! port = Some (running_slot slot p) /\
    trace w2 = trace w ++ (Spawned <$> option_list argv).
Proof.
  intros due Hs Hf Hl Hb Hn Hsp. fold (delay (failures slot)) in due.
  destruct (supervise_slots ((env1, Exited) :: between) port w slot Hs) as (w1 & Hx & Hp & Ht).
  assert (Hticks : tick_slots ((env1, Exited) :: between) slot = ([], crashed_slot env1 slot)).
  { cbn [tick_slots]. rewrite (tick_crash _ _ p0) by done.
    rewrite (ticks_waiting _ _ due); [done|done| |done]. simpl. by rewrite backoff_delay. }
  rewrite Hticks in Hp, Ht. simpl in Hp, Ht. rewrite app_nil_r in Ht.
  destruct (supervise_slot env2 wait port w1 _ Hp) as (w2 & Hy & Hp2 & Ht2).
  assert (Htick : tick_slot env2 wait (crashed_slot env1 slot) = (argv, running_slot slot p)).
  { apply (tick_due env2 wait (crashed_slot env1 slot) argv fds p); [done| |done].
    intros t [= <-]. by rewrite backoff_delay. }
  rewrite Htick in Hp2, Ht2. exists w1, w2. rewrite Hp. split_and!; [done..| |by rewrite Ht2, Ht].
  rewrite Hp2. apply lookup_insert_eq.
Qed.
End Supervisor.

(** ** A process that keeps crashing *)

(** Every spawn of these ticks succeeds. *)
Definition spawns_work (config : PasstConfig) (l : list tick) : Prop :=
  Forall (fun t : tick => exists argv fds p, spawn config (env_spawn t.1) = (argv, fds, Ok p)) l.

(** The delay never grows for a process that starts and dies: each successful
    spawn clears the failure count, so however often it has crashed in a row,
    it is run again 100 ms after each crash. *)
Theorem crash_loop_never_backs_off (l : list tick) (slot : PasstSlot) :
  failures slot = 0 -> next_retry slot = None -> spawns_work (desired slot) l ->
  let slot' := (tick_slots l slot).2 in
  failures slot' <= 1 /\
  forall t, next_retry slot' = Some t -> exists env wait, (env, wait) ∈ l /\ t = env_now env + 100.
Proof.
  intros Hf0 Hr0 Hw.
  assert (Hgen : forall l slot, spawns_work (desired slot) l ->
    (live_proc slot = None \/ failures slot = 0) -> 0 <= failures slot <= 1 ->
    let slot' := (tick_slots l slot).2 in failures slot' <= 1 /\
    forall t, next_retry slot' = Some t -> next_retry slot = Some t \/ exists env wait, (env, wait) ∈ l /\ t = env_now env + 100).
  { clear. induction l as [|[env wait] l IH]; intros slot Hw Hlive Hf; cbv zeta; [simpl; split; [lia|auto]|].
    apply Forall_cons in Hw as [(argv & fds & p & Hs) Hw]. cbn [tick_slots fst] in *.
    assert (Hstep : exists argv' slot1, tick_slot env wait slot = (argv', slot1) /\ desired slot1 = desired slot /\
      (live_proc slot1 = None \/ failures slot1 = 0) /\ 0 <= failures slot1 <= 1 /\
      (forall t, next_retry slot1 = Some t -> next_retry slot = Some t \/ t = env_now env + 100)).
    { destruct (live_proc slot) as [q|] eqn:Hl.
      - destruct (exited wait) eqn:Hx.
        + destruct wait; try done. destruct Hlive as [?|Hz]; [done|]. rewrite (tick_crash _ _ q) by (rewrite ?Hz; done).
          eexists _, _. split; [done|]. unfold crashed_slot. simpl. rewrite Hz. split_and!; [done|by left|done|done|].
          intros t [= <-]. by right.
        + exists None, slot. unfold tick_slot. rewrite Hl, Hx. cbv zeta. rewrite Hl. split_and!; auto; lia.
      - destruct (next_retry slot) as [due|] eqn:Hr; [destruct (decide (due <= env_now env))|].
        + rewrite (tick_due _ _ _ argv fds p); [|done|intros t; rewrite Hr; by intros [= <-]|done].
          eexists _, _. split; [done|]. simpl. split_and!; [done|by right|done|done|done].
        + rewrite (tick_waiting _ _ _ due); [|done|done|lia].
          exists None, slot. rewrite Hl, Hr. split_and!; auto; lia.
        + rewrite (tick_due _ _ _ argv fds p); [|done|intros t; by rewrite Hr|done].
          eexists _, _. split; [done|]. simpl. split_and!; [done|by right|done|done|done]. }
    destruct Hstep as (argv' & slot1 & Ht & Hd & Hl1 & Hf1 & Hr1). rewrite Ht. cbv zeta.
    destruct (IH slot1) as [Hf2 Hr2]; [by rewrite Hd|done|done|]. cbv zeta in Hf2, Hr2.
    destruct (tick_slots l slot1) as [runs slot2]. simpl in *. split; [done|]. intros t Ht2.
    destruct (Hr2 t Ht2) as [Hx|(e & w & Hin & ->)].
    - destruct (Hr1 t Hx) as [?| ->]; [by left|]. right. exists env, wait. split; [by left|done].
    - right. exists e, w. split; [by right|done]. }
  cbv zeta. destruct (Hgen l slot Hw) as [Hf Hr]; [by right|lia|]. split; [done|]. intros t Ht.
  destruct (Hr t Ht) as [Hx|?]; [congruence|done].
Qed.
