(* ===== verification/Replies.v ===== *)
(** * What the clients get back (crates/k8netd/src/dataplane.rs)

    The type of every answer of the dataplane, with a reader for it, and the
    machine types of the numbers the state holds. *)
From S2P Require Import Prelude RustStd Model Ipam Json Protocol StateStore Server Passt Dataplane.
Import Dp.

(** ** Machine types *)
Section Typed.
Context {V : Type}.

(** Every number of the state fits the type the code declares for it: [u32]
    ids, [u16] ports, [u8] octets. *)
Record typed (g : Inner V) : Prop := {
  ty_ports : forall name lp, ports g !! name = Some lp ->
    is_u32 (lp_id lp) /\ (forall m, lp_mac lp = Some m -> wf_mac m);
  ty_next : is_u32 (next_port_id g);
  ty_range : is_u16 (publish_range g).1 /\ is_u16 (publish_range g).2;
  ty_table : forall p v h, pt_get (publish_table g) p v = Some h -> is_u16 h;
}.

Lemma typed_same g g' :
  ports g' = ports g -> next_port_id g' = next_port_id g -> publish_range g' = publish_range g ->
  (forall p v h, pt_get (publish_table g') p v = Some h -> pt_get (publish_table g) p v = Some h) ->
  typed g -> typed g'.
Proof. intros Hp Hn Hr Ht [H1 H2 H3 H4]. split; rewrite ?Hp, ?Hn, ?Hr; eauto. Qed.

Lemma typed_insert name lp g :
  is_u32 (lp_id lp) -> (forall m, lp_mac lp = Some m -> wf_mac m) -> typed g -> typed (set_ports (insert name lp) g).
Proof.
  intros Hid Hm [H1 H2 H3 H4]. split; simpl; [|done..].
  intros n l [[_ <-]|[_ Hl]]%lookup_insert_Some; [done|by eapply H1].
Qed.

Lemma typed_delete name g : typed g -> typed (set_ports (delete name) g).
Proof. intros [H1 H2 H3 H4]. split; simpl; [|done..]. intros n l [_ Hl]%lookup_delete_Some. by eapply H1. Qed.

Lemma typed_id g z : typed g -> typed (set_next_port_id (wrap_u32 z) g).
Proof.
  intros [H1 H2 H3 H4]. split; simpl; [done| |done..]. unfold is_u32, u32_max, wrap_u32.
  pose proof (Z.mod_pos_bound z (2 ^ 32) ltac:(lia)). lia.
Qed.

Definition table_u16 (t : PublishTable) : Prop := forall p v h, pt_get t p v = Some h -> is_u16 h.

Lemma typed_table t g : table_u16 t -> typed g -> typed (set_table t g).
Proof. intros Ht [H1 H2 H3 H4]. by split. Qed.

Lemma remove_u16 g port vm r t : typed g -> pt_remove (publish_table g) port vm = (r, t) -> table_u16 t.
Proof.
  intros [_ _ _ Ht] Hr p v h. replace t with (pt_remove (publish_table g) port vm).2 by (by rewrite Hr).
  rewrite pt_remove_get. case_decide; [done|]. apply Ht.
Qed.

Lemma remove_port_u16 g port : typed g -> table_u16 (pt_remove_port (publish_table g) port).2.
Proof. intros [_ _ _ Ht] p v h. rewrite pt_remove_port_get. case_decide; [done|]. apply Ht. Qed.

Lemma allocate_u16 g port vm r t :
  typed g -> pt_allocate (publish_table g) port vm (publish_range g) = (r, t) ->
  table_u16 t /\ (forall h, r = Some h -> is_u16 h).
Proof.
  intros [_ _ [Hlo Hhi] Ht] Ha. pose proof (pt_allocate_cases (publish_table g) port vm (publish_range g)) as Hc.
  rewrite Ha in Hc. destruct r as [h|]; [|by destruct Hc as (-> & _)].
  destruct Hc as (Hget & Hother & Hcase).
  assert (Hh : is_u16 h).
  { destruct Hcase as [[Hold _]|(_ & Hr & _)]; [by eapply Ht|]. unfold is_u16 in *. lia. }
  split; [|by intros ? [= <-]]. intros p v h' Hp.
  destruct (decide (p = port /\ v = vm)) as [[-> ->]|Hne]; [congruence|]. rewrite Hother in Hp by done. by eapply Ht.
Qed.
End Typed.

(** ** Answers *)
Inductive Reply :=
  | NoData
  | NetworkInfo (name : string) (cidr : Ipv4Cidr) (gateway : Ipv4Addr)
  | PortInfo (name : string) (network : option string) (mac : option MacAddr)
  | Address (ip : Ipv4Addr)
  | HostPort (port : Z).

Section Replies.
Context {V : Type} `{JsonLaws V, SnapshotCodec V}.
Implicit Types (env : Env) (g : Inner V) (w : World V).

(** As the handlers build it. *)
Definition show_reply (r : Reply) : V :=
  match r with
  | NoData => Null
  | NetworkInfo name cidr gw =>
      Obj [("name", Str name); ("cidr", Str (show_cidr cidr)); ("gateway", Str (show_ipv4_addr gw))]
  | PortInfo name network mac =>
      Obj [("name", Str name); ("network", of_option (Str <$> network));
           ("mac", of_option ((fun m => Str (show_mac m)) <$> mac))]
  | Address ip => Str (show_ipv4_addr ip)
  | HostPort p => Obj [("host_port", Num p)]
  end.

(** The methods that answer with data. *)
Definition reply_type (method : string) (params : V) (r : Reply) : Prop :=
  match r with
  | NoData => method ∉ ["GetNetwork"; "GetPort"; "AllocateIP"; "PublishPort"]
  | NetworkInfo name cidr gw =>
      method = "GetNetwork" /\ str_param params "name" = Ok name /\ wf_cidr cidr /\ is_u32 gw /\ in_cidr cidr gw
  | PortInfo name network mac =>
      method = "GetPort" /\ str_param params "name" = Ok name /\ forall m, mac = Some m -> wf_mac m
  | Address ip => method = "AllocateIP" /\ is_u32 ip
  | HostPort p => method = "PublishPort" /\ is_u16 p
  end%string.

(** A client's reader of an answer. *)
Definition field_str (v : V) (k : string) : option string := x ← get_key v k; as_str x.

Definition read_reply (method : string) (v : V) : option Reply :=
  if decide (method = "GetNetwork"%string) then
    name ← field_str v "name"; c ← field_str v "cidr"; cidr ← ok (parse_cidr c);
    a ← field_str v "gateway"; gw ← parse_ipv4_addr a; Some (NetworkInfo name cidr gw)
  else if decide (method = "GetPort"%string) then
    name ← field_str v "name";
    mac ← match field_str v "mac" with None => Some None | Some t => m ← ok (parse_mac t); Some (Some m) end;
    Some (PortInfo name (field_str v "network") mac)
  else if decide (method = "AllocateIP"%string) then
    a ← as_str v; ip ← parse_ipv4_addr a; Some (Address ip)
  else if decide (method = "PublishPort"%string) then
    x ← get_key v "host_port"; p ← as_u64 x; if p <=? u16_max then Some (HostPort p) else None
  else Some NoData.

Lemma field_str_head k s l : field_str (Obj ((k, Str s) :: l)) k = Some s.
Proof. unfold field_str. rewrite get_Obj_head. apply as_str_Str. Qed.

Lemma field_str_tail k k' v l : k <> k' -> field_str (Obj ((k', v) :: l)) k = field_str (Obj l) k.
Proof. intros Hk. unfold field_str. by rewrite get_Obj_tail. Qed.

Lemma field_str_option k (o : option string) l : field_str (Obj ((k, of_option (Str <$> o)) :: l)) k = o.
Proof. unfold field_str. rewrite get_Obj_head. destruct o; simpl; [apply as_str_Str|apply as_str_Null]. Qed.

Lemma read_show method params r : reply_type method params r -> read_reply method (show_reply r) = Some r.
Proof.
  destruct r as [|name c gw|name net mac|ip|p]; cbn [reply_type show_reply]; unfold read_reply.
  - intros Hm. rewrite !decide_False by (intros ->; apply Hm; set_solver). done.
  - intros (-> & _ & Hc & Hg & _). rewrite decide_True by done.
    rewrite field_str_head. cbn [mbind option_bind]. rewrite (field_str_tail "cidr") by done. rewrite field_str_head.
    cbn [mbind option_bind]. rewrite cidr_parse_show by done. cbn [mbind option_bind ok].
    rewrite !(field_str_tail "gateway") by done. rewrite field_str_head. cbn [mbind option_bind]. by rewrite parse_show_ipv4.
  - intros (-> & _ & Hm). rewrite decide_False by done. rewrite decide_True by done.
    rewrite field_str_head. cbn [mbind option_bind]. rewrite !(field_str_tail "mac") by done. rewrite (field_str_tail "network") by done.
    rewrite field_str_option. replace ((fun m => Str (show_mac m)) <$> mac) with (Str (V := V) <$> (show_mac <$> mac)) by (by destruct mac).
    rewrite field_str_option.
    destruct mac as [m|]; simpl; [|done]. rewrite mac_parse_show by auto. done.
  - intros (-> & Hip). rewrite !decide_False by done. rewrite decide_True by done. rewrite as_str_Str.
    cbn [mbind option_bind]. by rewrite parse_show_ipv4.
  - intros (-> & Hp). rewrite !decide_False by done. rewrite decide_True by done. rewrite get_Obj_head.
    cbn [mbind option_bind]. rewrite as_u64_Num by (unfold is_u16, is_u64, u16_max, u64_max in *; lia).
    cbn [mbind option_bind]. by destruct (Z.leb_spec p u16_max); [|unfold is_u16 in *; lia].
Qed.

(** ** The handlers are well typed *)

Lemma typed_core w w' : same_core w w' -> typed (inner w) -> typed (inner w').
Proof. intros (_ & _ & _ & _ & f & ->). by apply typed_same. Qed.

Definition well_typed (method : string) (params : V) (m : op V V) w : Prop :=
  wp m w (fun v w' => typed (inner w') /\ exists r, v = show_reply r /\ reply_type method params r)
    (fun _ w' => typed (inner w')).

Ltac typed_here :=
  first
    [ assumption
    | apply typed_insert; [| |typed_here]
    | apply typed_delete; typed_here
    | apply typed_id; typed_here
    | apply typed_table; [solve [eauto using remove_u16, remove_port_u16]|typed_here]
    | match goal with
      | Hc : same_core _ ?w |- typed (inner ?w) => apply (typed_core _ _ Hc); typed_here
      | |- typed (set_networks ?f ?g) => apply (typed_same g); [done..|auto|typed_here]
      | |- typed (set_names ?f ?g) => apply (typed_same g); [done..|auto|typed_here]
      | |- typed (set_switch ?f ?g) => apply (typed_same g); [done..|auto|typed_here]
      | |- typed (set_gateway ?f ?g) => apply (typed_same g); [done..|auto|typed_here]
      | |- typed (set_passts ?f ?g) => apply (typed_same g); [done..|auto|typed_here]
      | |- typed (inner (upd ?f ?w)) => change (typed (f (inner w))); typed_here
      | |- typed (inner (put_ipam ?n ?e ?i ?w)) => apply (typed_same (inner w)); [done..|auto|typed_here]
      | |- typed (inner (log ?e ?w)) => change (typed (inner w)); typed_here
      | |- typed (inner (set_disk ?d ?w)) => change (typed (inner w)); typed_here
      end ].

(** What the state says of the port at hand. *)
Ltac typed_port Ht :=
  match goal with Hp : ports _ !! _ = Some ?lp |- _ => destruct (ty_ports _ Ht _ _ Hp) as [? ?] end.

Ltac typed_tails :=
  repeat first
    [ progress wp_steps
    | apply wp_persist; [done|intros ?..]
    | apply wp_ensure_passt; [intros ? ?|intros ? ? ?]
    | apply wp_teardown_passt; intros ? ? ];
  try (split; [|exists NoData; split; [done|simpl; set_solver]]);
  try typed_here.

Lemma create_network_typed env params w :
  running env -> typed (inner w) -> well_typed "CreateNetwork" params (create_network env params) w.
Proof. intros He Ht. unfold well_typed, create_network, lock. typed_tails. Qed.

Lemma delete_network_typed env params w :
  running env -> typed (inner w) -> well_typed "DeleteNetwork" params (delete_network env params) w.
Proof. intros He Ht. unfold well_typed, delete_network, lock. typed_tails. Qed.

Lemma delete_port_typed env params w :
  running env -> typed (inner w) -> well_typed "DeletePort" params (delete_port env params) w.
Proof. intros He Ht. unfold well_typed, delete_port, lock. typed_tails. Qed.

Lemma release_ip_typed env params w :
  running env -> typed (inner w) -> well_typed "ReleaseIP" params (release_ip env params) w.
Proof. intros He Ht. unfold well_typed, release_ip, lock. typed_tails. Qed.

Lemma unpublish_port_typed env params w :
  running env -> typed (inner w) -> well_typed "UnpublishPort" params (unpublish_port env params) w.
Proof. intros He Ht. unfold well_typed, unpublish_port, lock, locked. typed_tails. Qed.

Lemma get_network_typed env params w :
  world_ok w -> typed (inner w) -> well_typed "GetNetwork" params (get_network env params) w.
Proof.
  intros Hw Ht. unfold well_typed, get_network, lock. wp_steps; simp_results; try done.
  match goal with Hn : networks _ !! ?n = Some ?e |- _ =>
    apply (dp_networks _ Hw) in Hn as [_ [[_ Hc _ Hg Hin _ _] _ _ _]];
    split; [done|]; exists (NetworkInfo n (net_cidr (ipam_network (ne_ipam e))) (net_gateway (ipam_network (ne_ipam e))));
    by split end.
Qed.

Lemma create_port_typed env params w :
  running env -> typed (inner w) -> well_typed "CreatePort" params (create_port env params) w.
Proof.
  intros He Ht. unfold well_typed, create_port, lock. typed_tails; try done; by destruct Ht.
Qed.

Lemma get_port_typed env params w :
  typed (inner w) -> well_typed "GetPort" params (get_port env params) w.
Proof.
  intros Ht. unfold well_typed, get_port, lock. wp_steps; simp_results; try done.
  match goal with Hp : ports _ !! ?n = Some ?lp |- _ =>
    split; [done|]; exists (PortInfo n (lp_network lp) (lp_mac lp)); split; [done|];
    split_and!; [done|done|]; by apply (ty_ports _ Ht) in Hp as [_ ?] end.
Qed.

Lemma attach_port_typed env params w :
  running env -> typed (inner w) -> well_typed "AttachPort" params (attach_port env params) w.
Proof.
  intros He Ht. unfold well_typed, attach_port, lock. typed_tails; simp_results; try done.
  all: typed_port Ht; try done.
  all: intros ? [= <-]; by eapply parse_mac_wf.
Qed.

Lemma detach_port_typed env params w :
  running env -> typed (inner w) -> well_typed "DetachPort" params (detach_port env params) w.
Proof.
  intros He Ht. unfold well_typed, detach_port, lock. typed_tails; simp_results; try done.
  all: by typed_port Ht.
Qed.

Lemma allocate_ip_typed env params w :
  world_ok w -> typed (inner w) -> well_typed "AllocateIP" params (allocate_ip env params) w.
Proof.
  intros Hw Ht. unfold well_typed, allocate_ip, lock. wp_steps; try typed_here. simp_results.
  split; [typed_here|]. eexists (Address _). split; [done|]. split; [done|].
  subst. match goal with Ha : allocate ?i ?m = (Ok ?ip, ?i') |- is_u32 ?ip =>
    assert (Hi' : ipam_ok i') by (replace i' with (allocate i m).2 by (by rewrite Ha);
      apply allocate_ok; [by eapply parse_mac_wf|by eapply (dp_networks _ Hw)]);
    pose proof (allocate_cases i m) as Hc; cbv zeta in Hc; rewrite Ha in Hc; destruct Hc as (_ & Hl & _);
    pose proof (ok_pool _ Hi' _ _ Hl); destruct (wfn_pool _ (ok_network _ Hi')); unfold in_pool in *; unfold_width; lia
  end.
Qed.

Lemma publish_port_typed env params w :
  running env -> typed (inner w) -> well_typed "PublishPort" params (publish_port env params) w.
Proof.
  intros He Ht. unfold well_typed, publish_port, lock, locked. typed_tails; simp_results; try done.
  all: try match goal with Hx : pt_allocate _ _ _ _ = (_, _) |- _ => destruct (allocate_u16 _ _ _ _ _ Ht Hx) as [? ?] end.
  all: try (split; [|eexists (HostPort _); split; [done|split; [done|]]]).
  all: try typed_here; eauto using ty_table.
Qed.

(** ** Every answer has its type *)

Lemma handler_typed env name h params w :
  running env -> world_ok w -> typed (inner w) -> @handler (World V) V (dataplane env) name = Some h ->
  well_typed name params (h params) w.
Proof.
  intros He Hw Ht Hh. unfold handler in Hh. repeat (case_decide; [simplify_eq; simpl|]); [..|done];
    eauto using create_network_typed, delete_network_typed, get_network_typed, create_port_typed,
      delete_port_typed, get_port_typed, attach_port_typed, detach_port_typed, allocate_ip_typed,
      release_ip_typed, publish_port_typed, unpublish_port_typed.
Qed.

(** C16: type soundness of the control plane. In a consistent state whose numbers
    fit their machine types, every request leaves them within their types,
    and a success of a method is an answer of that method's type, from which
    a client reads back well-formed values: a prefix with its gateway inside,
    a MAC address, an address of the pool, a port number. *)
Theorem answers_well_typed (env : Env) (name : string) (h : V -> op V V) (params : V) (w : World V) :
  running env -> world_ok w -> typed (inner w) -> @handler (World V) V (dataplane env) name = Some h ->
  exists w' r, h params w = Returns w' r /\ typed (inner w') /\
    forall v, r = Ok v -> exists answer, read_reply name v = Some answer /\ reply_type name params answer.
Proof.
  intros He Hw Ht Hh. destruct (wp_returns _ _ _ _ (handler_typed env name h params w He Hw Ht Hh)) as (w' & r & Hr & Hpost).
  exists w', r. split; [done|]. destruct r as [v|e]; [|by split].
  destruct Hpost as (Ht' & a & -> & Ha). split; [done|]. intros ? [= <-]. exists a. split; [by apply (read_show name params)|done].
Qed.
End Replies.
