(* ===== verification/Client.v ===== *)
(** * A client's call over the control socket

    The whole way of a request: the line a client writes, the server's reading
    of it ([Protocol], [Server.handle_connection]), the daemon's handler
    ([Dataplane]) and the line that goes back, read again by the client
    ([Replies]). *)
From S2P Require Import Prelude RustStd Model Ipam Json Protocol StateStore Server.
From S2P Require Import Frame MacTable Engine Gateway Dhcp Dns Passt Packet Dataplane Control Registry Planes Replies.
Import Dp.

Definition newline : string := String "010" EmptyString.

(** A request is written as a JSON object, so the line that carries it ends
    in no white space of its own. *)
Class RequestWire (V : Type) `{JsonValue V, ProtocolCodec V} :=
  request_line (r : Request V) : trim_end (request_to_string r +:+ newline) = request_to_string r.

(** ** The implementation on trees writes digits *)
Lemma chars_digits p : exists l, chars (bits p +:+ newline) = l ++ [newline] /\
  Forall (fun x => x = "0" \/ x = "1")%string l /\ concat_string l = bits p.
Proof.
  assert (Hstep : forall (a : ascii) s l, (a = "0" \/ a = "1")%char ->
    chars s = l ++ [newline] -> Forall (fun x => x = "0" \/ x = "1")%string l ->
    chars (String a s) = (String a EmptyString :: l) ++ [newline]).
  { intros a s l _ Hs Hl. cbn [chars]. rewrite Hs. destruct l as [|x l]; [done|].
    apply Forall_cons in Hl as [[-> | ->] _]; done. }
  induction p as [p (l & Hc & Hl & Hs)|p (l & Hc & Hl & Hs)|]; [..|by exists []].
  - exists ("1"%string :: l). split_and!; [apply Hstep; auto|by constructor; [right|]|]. simpl. by rewrite Hs.
  - exists ("0"%string :: l). split_and!; [apply Hstep; auto|by constructor; [left|]|]. simpl. by rewrite Hs.
Qed.

Lemma trim_end_digits p : trim_end (bits p +:+ newline) = bits p.
Proof.
  destruct (chars_digits p) as (l & Hc & Hl & Hs). unfold trim_end. rewrite Hc, reverse_app. cbn [reverse rev_append].
  change (reverse [newline]) with [newline]. cbn [app drop_while].
  replace (is_whitespace newline) with true by (by vm_compute).
  assert (Hstop : drop_while is_whitespace (reverse l) = reverse l).
  { destruct (reverse l) as [|x r] eqn:Hr; [done|]. cbn [drop_while].
    assert (Hx : x ∈ l) by (apply elem_of_reverse; rewrite Hr; by left).
    rewrite Forall_forall in Hl. destruct (Hl x Hx) as [-> | ->]; by vm_compute. }
  by rewrite Hstop, reverse_involutive.
Qed.

#[export] Instance tree_wire : RequestWire Tree.
Proof. intros r. apply trim_end_digits. Qed.

(** ** The call *)
Section Client.
Context {V : Type} `{JsonLaws V, !SnapshotCodec V, !ProtocolCodec V, !ProtocolLaws V, !RequestWire V}.
Implicit Types (env : Env) (w : World V).

(** What the client reads out of the answer to its call of [method]. *)
Definition outcome (method : string) (resp : Response V) : option (result RpcError Reply) :=
  match rs_result resp, rs_error resp with
  | Some v, None => Ok <$> read_reply method v
  | None, Some e => Some (Err e)
  | _, _ => None
  end.

(** C17: a call over the control socket. A client that writes a request for a
    method of the daemon, on one line, gets exactly one line back; it reads as
    a response with the id of the request, whose outcome is that of the
    handler on the parameters sent: its error, or an answer of the method's
    type that says what the handler returned. The daemon is left as the
    handler left it, consistent and within its machine types. *)
Theorem remote_call (env : Env) (w : World V) (name : string) (h : V -> op V V) (params id : V) (c : connection) :
  running env -> world_ok w -> typed (inner w) -> 0 <= next_port_id (inner w) < u32_max ->
  @handler (World V) V (dataplane env) name = Some h -> params <> Null -> id <> Null ->
  line_in c = Ok (request_to_string (Request_new name (Some params) id) +:+ newline) -> write_ok c = Ok tt ->
  exists w' text resp r,
    handle_connection (H1 := dataplane env) c w = Returns w' (Ok (1%nat, text +:+ newline)) /\
    no_char "010"%char text = true /\ response_from_str text = Some resp /\ rs_id resp = id /\
    h params w = Returns w' r /\ world_ok w' /\ typed (inner w') /\
    match r with
    | Ok v => exists answer, outcome name resp = Some (Ok answer) /\ reply_type name params answer /\ v = show_reply answer
    | Err e => outcome name resp = Some (Err e)
    end.
Proof.
  intros He Hw Ht Hid Hh Hpar Hidn Hl Hwr.
  pose proof (wp_and _ _ _ _ _ _ (handler_safe env name h params w He Hw Hid Hh) (handler_typed env name h params w He Hw Ht Hh)) as Hwp.
  apply wp_returns in Hwp as (w' & r & Hrun & Hr).
  assert (Hparse : parse_request (trim_end (request_to_string (Request_new name (Some params) id) +:+ newline)) =
    Ok (Request_new name (Some params) id)).
  { rewrite request_line, request_roundtrip by done. unfold null_absent. simpl. by rewrite decide_False. }
  unfold handle_connection. rewrite Hl, Hwr. unfold is_empty. rewrite bool_decide_eq_false_2.
  2: { by destruct (request_to_string _). }
  rewrite Hparse. unfold dispatch. cbn [rq_method rq_params rq_id Request_new default].
  rewrite Hh. unfold Datatypes.id. rewrite Hrun. destruct r as [v|e].
  - destruct Hr as (Hok & Ht' & answer & -> & Hty). eexists w', _, _, (Ok _).
    split_and!; [done|apply response_one_line|apply response_law|done|done|done|done|].
    exists answer. split_and!; [|done|done]. unfold outcome. simpl. by rewrite (read_show name params answer Hty).
  - destruct Hr as [Hok Ht']. eexists w', _, _, (Err e).
    by split_and!; [done|apply response_one_line|apply response_law|..].
Qed.
End Client.
