(* ===== verification/Transit.v ===== *)
(** * From one guest to another

    The composition of the parts on the way of a frame between two guests:
    the transmit ring of the sender's port ([VhostPort]), its pump ([Pump]),
    the switch ([Engine]), the receiver's channel and its receive ring. *)
From S2P Require Import Prelude RustStd Model Ipam Json Protocol StateStore Server.
From S2P Require Import Frame MacTable Engine Gateway Dhcp Dns Passt Packet VhostPort Dataplane Pump.
Import Dp.

Section Transit.
Context {V : Type} `{JsonValue V, SnapshotCodec V}.
Context {M : Type} `{DhcpLaws M, !DnsCodec}.
Implicit Types (g : Inner V) (w : World V).

(** No service answers the frame and the gateway leaves it alone. *)
Record passes g (name : string) (me : Z) (frame : list Z) : Prop := {
  ps_service : service_reply (M := M) g name frame = Val None;
  ps_icmp : gateway_icmp_reply g name frame = Val None;
  ps_gateway : Gateway.handle_frame (gateway g) me frame = Val L2;
}.

(** Such a frame goes to the WAN uplink when it is addressed to it, and else
    to the switch. *)
Lemma passes_pump name me frame w :
  passes (inner w) name me frame -> poisoned w = false ->
  pump_frame (M := M) name me frame w =
    (if to_uplink (inner w) name frame then passt_egress name frame else fabric me frame) w.
Proof.
  intros [Hs Hi Hg] Hp. unfold pump_frame, lift_panic. run_cmd. rewrite Hp, Hs, Hg, Hi.
  destruct (frame_ethertype_total frame) as [et ->]. by repeat case_decide.
Qed.

(** No seam of the pump takes the frame. *)
Definition transit g (name : string) (me : Z) (frame : list Z) : Prop :=
  passes g name me frame /\ to_uplink g name frame = false.

Lemma transit_fabric name me frame w :
  transit (inner w) name me frame -> poisoned w = false -> pump_frame (M := M) name me frame w = fabric me frame w.
Proof. intros [Hps Hu] Hp. by rewrite passes_pump, Hu. Qed.

(** Frames of other protocols pass. *)
Lemma passes_other g name me frame et :
  frame_ethertype frame = Val (Some et) -> et <> ETHERTYPE_IPV4 ->
  Gateway.handle_frame (gateway g) me frame = Val L2 -> passes g name me frame.
Proof.
  intros Het Hne Hg. assert (Hp : parse_ipv4 frame = Val None).
  { unfold parse_ipv4. rewrite Het. cbn [mbind may_panic_bind]. by destruct (Z.eqb_spec et ETHERTYPE_IPV4). }
  split; [| |done].
  - unfold service_reply. destruct (attachment g name) as [[e m]|]; [|done]. by rewrite Hp.
  - unfold gateway_icmp_reply, icmp_echo_reply. destruct (attachment g name) as [[e m]|]; [|done]. by rewrite Hp.
Qed.

Lemma transit_other g name me frame et :
  frame_ethertype frame = Val (Some et) -> et <> ETHERTYPE_IPV4 ->
  Gateway.handle_frame (gateway g) me frame = Val L2 -> to_uplink g name frame = false ->
  transit g name me frame.
Proof. split; [by eapply passes_other|done]. Qed.

(** So is IPv4 between the guests, other than UDP, whatever the addresses. *)
Lemma transit_ipv4 g name me frame ip e m :
  attachment g name = Some (e, m) -> parse_ipv4 frame = Val (Some ip) -> ip_proto ip <> IPPROTO_UDP ->
  ip_dst ip <> net_gateway (ipam_network (ne_ipam e)) ->
  Gateway.handle_frame (gateway g) me frame = Val L2 -> to_uplink g name frame = false ->
  transit g name me frame.
Proof.
  intros Ha Hp Hu Hd Hg Hup. split; [split; [| |done]|done].
  - unfold service_reply. rewrite Ha, Hp. cbn [mbind may_panic_bind]. by destruct (Z.eqb_spec (ip_proto ip) IPPROTO_UDP).
  - unfold gateway_icmp_reply, icmp_echo_reply. rewrite Ha, Hp. cbn [mbind may_panic_bind].
    by destruct (Z.eqb_spec (ip_dst ip) (net_gateway (ipam_network (ne_ipam e)))).
Qed.

Lemma inject_all_exact (l : list (string * list Z)) w :
  Forall (fun e => is_Some (ports (inner w) !! e.1)) l ->
  inject_all l w = Returns {| socket_dir := socket_dir w; inner := inner w; poisoned := poisoned w; disk := disk w;
    trace := trace w ++ ((fun e => ToVm e.1 e.2) <$> l) |} (Ok tt).
Proof.
  revert w. induction l as [|[peer f] l IH]; intros w Hl.
  { simpl. rewrite app_nil_r. by destruct w. }
  apply Forall_cons in Hl as [[lp Hlp] Hl]. cbn [inject_all]. unfold inject_to, locked. run_cmd. simpl in Hlp. rewrite Hlp.
  rewrite IH by done. simpl. by rewrite <- app_assoc.
Qed.

(** The peers of an egress list, in its order. *)
Definition peers g (egress : list Z) : list string := omap (fun id => names g !! id) egress.

Lemma elem_of_peers g egress peer :
  dp_ok g -> peer ∈ peers g egress <-> exists lp, ports g !! peer = Some lp /\ lp_id lp ∈ egress.
Proof.
  intros Hg. unfold peers. rewrite list_elem_of_omap. split.
  - intros (id & Hin & Hn). apply (dp_names g Hg) in Hn as (lp & Hlp & <-). eauto.
  - intros (lp & Hlp & Hin). exists (lp_id lp). split; [done|]. apply (dp_names g Hg). eauto.
Qed.

Lemma NoDup_peers g egress : dp_ok g -> NoDup egress -> NoDup (peers g egress).
Proof.
  intros Hg. induction egress as [|id egress IH]; [intros; by apply NoDup_nil_2|].
  intros [Hnin Hnd]%NoDup_cons. unfold peers. cbn [omap list_omap]. destruct (names g !! id) as [n|] eqn:Hn; [|by apply IH].
  apply NoDup_cons. split; [|by apply IH]. intros Hin. apply (elem_of_peers g egress n Hg) in Hin as (lp & Hlp & Hid).
  apply (dp_names g Hg) in Hn as (lp' & Hlp' & <-). congruence.
Qed.

Lemma fabric_targets g me (frame : list Z) egress :
  me ∉ egress ->
  omap (fun e : Z * list Z => (fun n => (n, e.2)) <$> names g !! e.1)
    (filter (fun e : Z * list Z => e.1 <> me) ((fun id => (id, frame)) <$> egress)) =
  (fun peer => (peer, frame)) <$> peers g egress.
Proof.
  induction egress as [|id egress IH]; [done|]. intros [Hne Hnin]%not_elem_of_cons.
  cbn [fmap list_fmap]. rewrite filter_cons_True by (simpl; congruence). unfold peers. cbn [omap list_omap fst snd].
  destruct (names g !! id) as [n|]; cbn [fmap option_fmap option_map]; [|by apply IH].
  simpl. f_equal. by apply IH.
Qed.

(** The switch seam delivers a frame to the peers the engine names, each once. *)
Lemma fabric_exact me frame w network p :
  dp_ok (inner w) -> Engine.ports (switch (inner w)) !! me = Some network -> parse frame = Val (Ok p) ->
  exists egress s', Engine.forward (switch (inner w)) me frame = Val ((fun id => (id, frame)) <$> egress, s') /\
    NoDup egress /\ (forall id, id ∈ egress <-> delivers s' me p id) /\
    Engine.ports s' = Engine.ports (switch (inner w)) /\ Engine.table s' = learn (Engine.table (switch (inner w))) me (src p) /\
    fabric me frame w = Returns {| socket_dir := socket_dir w; inner := set_switch (fun _ => s') (inner w);
      poisoned := poisoned w; disk := disk w;
      trace := trace w ++ ((fun peer => ToVm peer frame) <$> peers (inner w) egress) |} (Ok tt).
Proof.
  intros Hok Hme Hparse. destruct (forward_spec (switch (inner w)) me frame) as (egress & s' & Hf & Hports & Hnd & Hm).
  rewrite Hme, Hparse in Hm. destruct Hm as [Ht Hin]. exists egress, s'. split_and!; [done..|].
  unfold fabric, locked, lift_panic. run_cmd. rewrite Hf.
  assert (Hnin : me ∉ egress) by (intros Hx; apply Hin in Hx as (? & _ & _ & Hne & _); done).
  rewrite fabric_targets by done. rewrite inject_all_exact.
  - simpl. by rewrite <- list_fmap_compose.
  - rewrite Forall_fmap. apply Forall_forall. intros peer (lp & Hlp & _)%(elem_of_peers _ _ _ Hok). simpl. by eexists.
Qed.

(** The frames queued for a port by a list of events. *)
Definition queued_for (name : string) (evs : list event) : list (list Z) :=
  omap (fun e => match e with ToVm n f => if decide (n = name) then Some f else None | _ => None end) evs.

Lemma queued_for_peers name (frame : list Z) l :
  NoDup l -> queued_for name ((fun peer => ToVm peer frame) <$> l) = if decide (name ∈ l) then [frame] else [].
Proof.
  induction l as [|n l IH]; [done|]. intros [Hnin Hnd]%NoDup_cons. unfold queued_for in *. cbn [fmap list_fmap omap list_omap].
  rewrite (IH Hnd). destruct (decide (n = name)) as [->|Hne].
  - rewrite (decide_False (P := name ∈ l)) by done. by rewrite decide_True by set_solver.
  - destruct (decide (name ∈ l)); [by rewrite decide_True by set_solver|by rewrite decide_False by set_solver].
Qed.

(** What a transit frame puts into the channel of each port: the frame once,
    when the delivery rule names the port, and nothing otherwise. *)
Lemma transit_queues name me frame w network p :
  world_ok w -> poisoned w = false -> transit (inner w) name me frame ->
  Engine.ports (switch (inner w)) !! me = Some network -> parse frame = Val (Ok p) ->
  exists w' s' evs, pump_frame (M := M) name me frame w = Returns w' (Ok tt) /\
    inner w' = set_switch (fun _ => s') (inner w) /\ trace w' = trace w ++ evs /\
    Engine.ports s' = Engine.ports (switch (inner w)) /\
    Engine.table s' = learn (Engine.table (switch (inner w))) me (src p) /\
    forall peer lq, ports (inner w) !! peer = Some lq ->
      (delivers s' me p (lp_id lq) -> queued_for peer evs = [frame]) /\
      (~ delivers s' me p (lp_id lq) -> queued_for peer evs = []).
Proof.
  intros Hw Hp Ht Hme Hparse. rewrite (transit_fabric _ _ _ _ Ht Hp).
  destruct (fabric_exact me frame w network p Hw Hme Hparse) as (egress & s' & Hf & Hnd & Hin & Hports & Htab & Hfab).
  eexists _, s', _. split_and!; [exact Hfab|done|done|done|done|].
  intros peer lq Hlq. assert (Hiff : peer ∈ peers (inner w) egress <-> delivers s' me p (lp_id lq)).
  { rewrite elem_of_peers by exact Hw. rewrite <- Hin. split; [|by eauto].
    intros (lq' & Hlq' & Hi). congruence. }
  rewrite queued_for_peers by (apply NoDup_peers; [exact Hw|done]).
  split; intros Hd; [by rewrite decide_True by tauto|by rewrite decide_False by tauto].
Qed.

(** C20: the switch seam is exact. A frame of a live port that no daemon service
    takes for itself is queued, unchanged and once, for every port the
    delivery rule of the switch names, and for no other; the switch learns
    its source and nothing else changes. *)
Theorem transit_exact (name : string) (me : Z) (frame : list Z) (w : World V) (network : string) (p : ParsedFrame) :
  world_ok w -> poisoned w = false -> transit (inner w) name me frame ->
  Engine.ports (switch (inner w)) !! me = Some network -> parse frame = Val (Ok p) ->
  exists w' s' evs, pump_frame (M := M) name me frame w = Returns w' (Ok tt) /\
    inner w' = set_switch (fun _ => s') (inner w) /\ trace w' = trace w ++ evs /\
    Engine.ports s' = Engine.ports (switch (inner w)) /\
    Engine.table s' = learn (Engine.table (switch (inner w))) me (src p) /\
    forall peer lq, ports (inner w) !! peer = Some lq ->
      (delivers s' me p (lp_id lq) -> queued_for peer evs = [frame]) /\
      (~ delivers s' me p (lp_id lq) -> queued_for peer evs = []).
Proof. exact (transit_queues name me frame w network p). Qed.

(** ** Ring to ring *)
Section Rings.
Context {Q C : Type} `{VirtQueueLaws Q C}.

(** The worker's receive side after frames were queued for its port. *)
Definition enqueue (frames : list (list Z)) (s : PortState Q) : PortState Q :=
  {| ring := ring s; channel := channel s ++ (VhostPort.ToVm <$> frames); sent := sent s |}.

(** C2: guest to guest. A guest posts one chain with a frame, as a driver encodes
    it; the port's worker hands the frame to the pump, the pump to the
    switch, the switch to the channel of the receiver [b], and, when [b]'s
    guest has posted more buffers than frames are waiting, the worker of [b]
    writes it where [b]'s driver reads it back, byte for byte, and completes
    that buffer. *)
Theorem guest_to_guest (w : World V) (a b : string) (la lb : LivePort) (network : string) (frame : list Z) (p : ParsedFrame)
    (sa sb : PortState Q) (ca cb : C) (caps : C -> nat) (waiting : list (list Z)) :
  world_ok w -> poisoned w = false ->
  ports (inner w) !! a = Some la -> ports (inner w) !! b = Some lb ->
  Engine.ports (switch (inner w)) !! lp_id la = Some network -> parse frame = Val (Ok p) ->
  transit (inner w) a (lp_id la) frame ->
  delivers {| Engine.ports := Engine.ports (switch (inner w));
              table := learn (table (switch (inner w))) (lp_id la) (src p) |} (lp_id la) p (lp_id lb) ->
  vq_iter (ring sa) = true -> posted (ring sa) = [ca] ->
  carries (ring sa) (vq_desc_table (ring sa)) ca (Some frame) ->
  vq_iter (rewind (ring sb)) = true -> channel sb = VhostPort.ToVm <$> waiting ->
  rx_ready (rewind (ring sb)) (vq_desc_table (ring sb)) caps (posted (rewind (ring sb))) ->
  NoDup (head_index <$> posted (rewind (ring sb))) ->
  posted (rewind (ring sb)) !! length waiting = Some cb -> (length frame + 12 <= caps cb)%nat ->
  exists sa' ra w' evs sb' rb,
    service_tx sa = Returns sa' ra /\ sent sa' = sent sa ++ [FromVm frame] /\
    pump_frame (M := M) a (lp_id la) frame w = Returns w' (Ok tt) /\ trace w' = trace w ++ evs /\
    service_rx (enqueue (queued_for b evs) sb) = Returns sb' rb /\
    decode_driver_rx (buffer (ring sb') cb) = Some frame /\
    (head_index cb, wrap_u32 (zlen frame + 12)) ∈ completed (ring sb').
Proof.
  intros Hw Hpo Ha Hb Hsa Hparse Ht Hd Hia Hpa Hca Hib Hch Hrd Hnd Hcb Hfit.
  destruct (service_tx_spec sa [Some frame] Hia) as (qa & ra & Htx & _); [rewrite Hpa; by apply Forall2_cons|].
  destruct (transit_queues a (lp_id la) frame w network p Hw Hpo Ht Hsa Hparse) as
    (w' & s' & evs & Hpump & _ & Htr & Hports & Htab & Hq).
  assert (Hqb : queued_for b evs = [frame]).
  { apply (Hq b lb Hb). destruct s' as [ps tb]. simpl in *. by subst. }
  set (frames := waiting ++ [frame]).
  assert (Hchan : channel (enqueue (queued_for b evs) sb) = VhostPort.ToVm <$> frames).
  { unfold enqueue, frames. simpl. by rewrite Hqb, Hch, fmap_app. }
  destruct (service_rx_spec (enqueue (queued_for b evs) sb) caps frames Hib Hchan Hrd Hnd) as
    (qb & rb & Hrx & _ & Hcomp & Hread & _).
  eexists _, ra, w', evs, _, rb. split_and!; [exact Htx|done|exact Hpump|exact Htr|exact Hrx| |].
  - apply (Hread (length waiting) cb frame Hcb); [by apply list_lookup_middle|done].
  - simpl. rewrite Hcomp. apply elem_of_app. right. apply list_elem_of_lookup. exists (length waiting).
    rewrite lookup_zip_with. unfold enqueue. simpl. rewrite Hcb. simpl. unfold frames.
    rewrite list_lookup_middle by done. simpl. unfold rx_used.
    by destruct (Nat.leb_spec (length frame + 12) (caps cb)); [|lia].
Qed.
End Rings.
End Transit.
