(* ===== verification/Datagrams.v ===== *)
(** * A guest's datagram at the service seam

    The frame of a UDP datagram as a guest sends it, and what the service
    seam of the pump ([Pump.service_reply]) makes of one: the part shared by
    the way to a lease ([Leases]) and the way to a name ([Resolution]). *)
From S2P Require Import Prelude RustStd Model Ipam Json Protocol StateStore Server.
From S2P Require Import Frame MacTable Engine Gateway Dhcp Dns Passt Packet Dataplane Pump.
Import Dp.

Section Datagrams.
Context {V : Type} `{JsonValue V, SnapshotCodec V}.
Context {M : Type} `{DhcpLaws M, !DnsCodec}.
Implicit Types (g : Inner V) (w : World V).

(** A UDP datagram in IPv4 (no options) in Ethernet, sent by [mac]. The
    destination MAC, the other header fields and both checksums are
    whatever the guest writes. *)
Inductive udp_frame (mac : MacAddr) (src dst : Ipv4Addr) (sport dport : Z) (packet : list Z) : list Z -> Prop :=
  udp_frame_intro to h1 ck uck :
    length to = 6%nat -> length h1 = 8%nat -> length ck = 2%nat -> length uck = 2%nat ->
    is_u32 src -> is_u32 dst -> is_u16 sport -> is_u16 dport -> 8 + zlen packet <= u16_max ->
    udp_frame mac src dst sport dport packet ((to ++ octets mac) ++ u16_to_be ETHERTYPE_IPV4 ++
      ipv4_packet h1 IPPROTO_UDP ck src dst
        (u16_to_be sport ++ u16_to_be dport ++ u16_to_be (8 + zlen packet) ++ uck ++ packet)).

Lemma be16_at_cons2 a b l i : be16_at (a :: b :: l) (S (S i)) = be16_at l i.
Proof. done. Qed.

Lemma be16_at_to_be z l : is_u16 z -> be16_at (u16_to_be z ++ l) 0 = Val z.
Proof.
  intros Hz. transitivity (Val (u16_from_be (z / 256 mod 256) (z mod 256))); [done|]. by rewrite u16_from_to_be.
Qed.

Lemma udp_frame_sender mac src dst sport dport packet frame :
  udp_frame mac src dst sport dport packet frame -> get_range frame 6 12 = Some (octets mac).
Proof.
  intros [to h1 ck uck Hto _ _ _ _ _ _]. do 6 (destruct to as [|? to]; [done|]). destruct to; [|done].
  unfold get_range. rewrite decide_True by (simpl; lia). done.
Qed.

(** The service seam takes a datagram apart and gives it to the DHCP server
    or to the forwarder, by its ports and its destination. *)
Lemma udp_frame_served g name e vm_mac mac src dst sport dport packet frame :
  attachment g name = Some (e, vm_mac) -> udp_frame mac src dst sport dport packet frame ->
  service_reply (M := M) g name frame =
    let gw := net_gateway (ipam_network (ne_ipam e)) in
    if (dport =? DHCP_SERVER_PORT) && (sport =? DHCP_CLIENT_PORT) then dhcp_answer (M := M) e vm_mac frame packet
    else if (dport =? DNS_PORT) && (dst =? gw) then
      Val ((fun answer => wrap_udp_reply answer vm_mac gw src DNS_PORT sport) <$> (Dns.handle (dns g) packet).1)
    else Val None.
Proof.
  intros Ha Hf. destruct Hf as [to h1 ck uck Hto Hh Hck Huck Hs Hd Hsp Hdp Hlen].
  unfold service_reply. rewrite Ha, parse_ipv4_packet; [|rewrite length_app; simpl; lia|done..].
  cbn [mbind may_panic_bind ip_proto ip_payload ip_dst ip_src].
  do 2 (destruct uck as [|? uck]; [done|]). destruct uck; [|done].
  set (p := u16_to_be sport ++ _).
  assert (Hp : (length p = 8 + length packet)%nat) by done.
  rewrite Z.eqb_refl. destruct (Nat.ltb_spec (length p) 8); [lia|]. cbn [negb orb].
  assert (Hb0 : be16_at p 0 = Val sport) by (by apply be16_at_to_be).
  assert (Hb2 : be16_at p 2 = Val dport) by (transitivity (be16_at (drop 2 p) 0); [done|by apply be16_at_to_be]).
  assert (Hb4 : be16_at p 4 = Val (8 + zlen packet)).
  { transitivity (be16_at (drop 4 p) 0); [done|]. apply be16_at_to_be. unfold is_u16, zlen in *. lia. }
  rewrite Hb0, Hb2, Hb4. cbn [mbind may_panic_bind].
  replace (Nat.min (Nat.max (Z.to_nat (8 + zlen packet)) 8) (length p)) with (length p) by (unfold zlen; lia).
  unfold slice. rewrite decide_True by lia. cbn [mbind may_panic_bind].
  change (drop 8 p) with packet. rewrite take_ge by lia.
  repeat (case_match; [done|]). by repeat case_match.
Qed.

(** A reply of the service seam goes to the port itself and nothing else
    happens. *)
Lemma service_answers name me w e vm_mac frame reply :
  attachment (inner w) name = Some (e, vm_mac) -> poisoned w = false ->
  service_reply (M := M) (inner w) name frame = Val (Some reply) ->
  pump_frame (M := M) name me frame w = Returns (log (ToVm name reply) w) (Ok tt).
Proof.
  intros Ha Hp Hs. destruct (attachment_Some _ _ _ _ Ha) as (lp & net & Hport & _).
  unfold pump_frame, lift_panic. run_cmd. rewrite Hp, Hs. unfold inject_to, locked. run_cmd. by rewrite Hport.
Qed.
End Datagrams.
