(* ===== verification/Leases.v ===== *)
(** * From an attachment to a lease

    The composition of the parts on the way of an address: the reservation
    made when a port is attached ([Control]), the guest's frames through the
    pump ([Pump]), the DHCP server behind it ([Dhcp]) and the reply's frame
    ([Packet]). *)
From S2P Require Import Prelude RustStd Model Ipam Json Protocol StateStore Server.
From S2P Require Import Frame MacTable Engine Gateway Dhcp Dns Passt Packet Dataplane Control Registry Planes Pump Datagrams.
Import Dp.

(** RFC 2131: [yiaddr] is at offset 16 of a message. *)
Class DhcpWire (M : Type) `{DhcpCodec M} :=
  yiaddr_at : forall (m : M) b, to_vec m = Some b -> get_range b 16 20 = Some (ip_octets (yiaddr (header m))).

#[export] Instance wire_yiaddr : DhcpWire WireMessage.
Proof. intros m b [= <-]. unfold wire_encode, get_range. rewrite decide_True; [done|]. simpl. lia. Qed.

Section Leases.
Context {V : Type} `{JsonValue V, SnapshotCodec V}.
Context {M : Type} `{DhcpLaws M, !DhcpWire M, !DnsCodec}.
Implicit Types (g : Inner V) (w : World V).

(** A DHCP client's frame: a datagram from port 68 to 67, whatever the
    addresses. *)
Definition dhcp_frame (mac : MacAddr) (packet frame : list Z) : Prop :=
  exists src dst, udp_frame mac src dst DHCP_CLIENT_PORT DHCP_SERVER_PORT packet frame.

(** The frame leases [ip] to the sender of [msg] on the network [n]. *)
Definition leases (n : Network) (msg : M) (mac : MacAddr) (ip : Ipv4Addr) (t : MessageType) (frame : list Z) : Prop :=
  exists out b, to_vec out = Some b /\ is_lease n msg out ip t /\
    frame = wrap_udp_reply b mac (net_gateway n) ip DHCP_SERVER_PORT DHCP_CLIENT_PORT.

(** What a client that holds a binding asks, and the answer due. *)
Inductive exchange (msg : M) (ip : Ipv4Addr) : MessageType -> MessageType -> Prop :=
  | asks_any : exchange msg ip Discover Offer
  | asks_own : requested_ip msg = ip -> exchange msg ip DhcpRequest Ack.

Lemma bound_client_answered s packet (msg : M) mac ip t t' :
  wf_network (ipam_network (ipam s)) -> client_message packet msg mac t -> exchange msg ip t t' ->
  lookup_mac (ipam s) mac = Some ip ->
  exists out b s', Dhcp.handle s packet = Val (Some b, s') /\ to_vec out = Some b /\
    is_lease (ipam_network (ipam s)) msg out ip t'.
Proof.
  intros Hn Hc Hx Hl. destruct (reply_ok (ipam s) msg ip t' Hn) as (out & b & Hr & Hb & Hlease).
  assert (Hp : process s packet = Val (Some b, ipam s)).
  { rewrite (process_client s _ _ _ _ Hc). destruct Hx as [|Hreq]; simpl.
    - unfold discover. by rewrite Hl, Hr.
    - unfold request. by rewrite Hreq, decide_True, Hr by done. }
  destruct (handle_process _ _ _ _ Hp) as (s' & -> & _). by exists out, b, s'.
Qed.

(** The service seam hands the packet to the DHCP server. *)
Lemma dhcp_frame_served g name e vm_mac mac packet frame :
  attachment g name = Some (e, vm_mac) -> dhcp_frame mac packet frame ->
  service_reply (M := M) g name frame = dhcp_answer (M := M) e vm_mac frame packet.
Proof. intros Ha (src & dst & Hf). by rewrite (udp_frame_served _ _ _ _ _ _ _ _ _ _ _ Ha Hf). Qed.

Lemma ip_of_octets ip : is_u32 ip -> ip_of_bytes (ip_octets ip) = Val ip.
Proof.
  intros Hip. transitivity (Val (u32_from_be (ip / 2 ^ 24 mod 256) (ip / 2 ^ 16 mod 256) (ip / 256 mod 256) (ip mod 256)));
    [done|]. by rewrite u32_from_to_be.
Qed.

(** One exchange of a client that holds a binding. *)
Lemma pump_leases name me w e vm_mac mac packet frame (msg : M) ip t t' :
  attachment (inner w) name = Some (e, vm_mac) -> ipam_ok (ne_ipam e) -> poisoned w = false ->
  lookup_mac (ne_ipam e) mac = Some ip -> dhcp_frame mac packet frame -> client_message packet msg mac t ->
  exchange msg ip t t' ->
  exists reply, leases (ipam_network (ne_ipam e)) msg mac ip t' reply /\
    pump_frame (M := M) name me frame w = Returns (log (ToVm name reply) w) (Ok tt).
Proof.
  intros Ha Hi Hp Hl Hf Hc Hx.
  destruct (bound_client_answered (DhcpServer_new (ne_ipam e)) packet msg mac ip t t') as (out & b & s' & Hh & Hb & Hlease);
    [apply ok_network, Hi|done..|].
  eexists. split; [by exists out, b|].
  assert (Hip : is_u32 ip).
  { destruct (ok_pool _ Hi mac ip Hl) as [Hlo Hhi]. destruct (wfn_pool _ (ok_network _ Hi)). unfold is_u32 in *. lia. }
  assert (Hy : yiaddr (header out) = ip) by apply Hlease.
  assert (Hs : service_reply (M := M) (inner w) name frame =
    Val (Some (wrap_udp_reply b mac (net_gateway (ipam_network (ne_ipam e))) ip DHCP_SERVER_PORT DHCP_CLIENT_PORT))).
  { rewrite (dhcp_frame_served _ _ _ _ _ _ _ Ha Hf). unfold dhcp_answer. rewrite Hh. cbn [mbind may_panic_bind fst].
    rewrite (yiaddr_at _ _ Hb), Hy, ip_of_octets by done. destruct Hf as (? & ? & Hf). rewrite (udp_frame_sender _ _ _ _ _ _ _ Hf).
    cbn [mbind may_panic_bind option_bind]. by rewrite mac_from_octets. }
  by apply (service_answers name me w e vm_mac).
Qed.

(** C11: from an attachment to a lease. Once a port is attached, whatever the
    disk and the passt process did, the guest behind it obtains by DHCP the
    address that was reserved for it: its DISCOVER is answered with an offer
    and its REQUEST with an acknowledgement of that address, each in one frame
    back to the guest, with the network's mask, router and DNS server and
    nothing else changed. It is an address of the pool, and the one the port's
    passt process is configured for. *)
Theorem attach_then_lease (env : Env) (w : World V) (params : V) (name net mac_text : string) (mac : MacAddr)
    (lp : LivePort) (e : NetworkEntry V) (ip : Ipv4Addr) (i : Ipam) (me : Z) (d q f1 f2 : list Z) (msg1 msg2 : M) :
  running env -> world_ok w -> poisoned w = false ->
  str_param params "port" = Ok name -> str_param params "network" = Ok net ->
  str_param params "mac" = Ok mac_text -> parse_mac mac_text = Ok mac ->
  ports (inner w) !! name = Some lp -> lp_network lp = None ->
  networks (inner w) !! net = Some e -> allocate (ne_ipam e) mac = (Ok ip, i) ->
  dhcp_frame mac d f1 -> client_message d msg1 mac Discover ->
  dhcp_frame mac q f2 -> client_message q msg2 mac DhcpRequest -> requested_ip msg2 = ip ->
  exists w1 r offer ack, attach_port env params w = Returns w1 r /\ (r = Ok Null \/ r = Err Internal) /\
    leases (ipam_network (ne_ipam e)) msg1 mac ip Offer offer /\
    leases (ipam_network (ne_ipam e)) msg2 mac ip Ack ack /\
    (_ ← pump_frame (M := M) name me f1; pump_frame (M := M) name me f2) w1 =
      Returns (log (ToVm name ack) (log (ToVm name offer) w1)) (Ok tt) /\
    in_pool (net_pool (ipam_network (ne_ipam e))) ip /\
    exists up, slot_is w1 name (config_of e ip ∅) up.
Proof.
  intros He Hw Hp Hq1 Hq2 Hq3 Hq4 Hport Hnone Hnet Ha Hf1 Hc1 Hf2 Hc2 Hreq.
  destruct (attach_spec env w params name net mac_text mac lp e ip i He Hw Hp Hq1 Hq2 Hq3 Hq4 Hport Hnone Hnet Ha)
    as (w1 & r & Hatt & Hr & Hj & Hnet1 & Hl & Hpool & up & Hslot & _).
  assert (Hp1 : poisoned w1 = false).
  { pose proof (dp_attach_port env params w He Hp) as Hs. unfold serves, wp in Hs. rewrite Hatt in Hs. by destruct r, Hs. }
  assert (Hok : ipam_ok i).
  { pose proof (allocate_ok (ne_ipam e) mac (parse_mac_wf _ _ Hq4) (proj2 (dp_networks _ Hw net e Hnet))) as Hi. by rewrite Ha in Hi. }
  assert (Hsame : ipam_network i = ipam_network (ne_ipam e)) by (by eapply allocated_network).
  pose (e1 := {| ne_ipam := i; created_with := created_with e |}).
  assert (Hat : attachment (inner w1) name = Some (e1, mac)).
  { unfold attachment. destruct Hj as [-> _]. simpl. by rewrite Hnet1. }
  rewrite <- Hsame.
  destruct (pump_leases name me w1 e1 mac mac d f1 msg1 ip _ _ Hat Hok Hp1 Hl Hf1 Hc1 (asks_any _ _)) as (offer & Ho & Hrun1).
  destruct (pump_leases name me (log (ToVm name offer) w1) e1 mac mac q f2 msg2 ip _ _ Hat Hok Hp1 Hl Hf2 Hc2 (asks_own _ _ Hreq))
    as (ack & Hack & Hrun2).
  exists w1, r, offer, ack. split_and!; [done..| |by rewrite Hsame|by exists up].
  run_cmd. by rewrite Hrun1, Hrun2.
Qed.
End Leases.
