(* ===== verification/Wan.v ===== *)
(** * Between a guest and its WAN uplink

    The composition of the parts on the way of a frame out of a guest and of
    a frame from the world into one: the port's rings ([VhostPort]), the pump
    thread and the passt reader ([Pump]), and the framing of the passt socket
    ([Passt]). *)
From S2P Require Import Prelude RustStd Model Ipam Json Protocol StateStore Server.
From S2P Require Import Frame MacTable Engine Gateway Dhcp Dns Passt Packet VhostPort Dataplane Pump Daemon Transit.
Import Dp.

Section Wan.
Context {V : Type} `{JsonValue V, SnapshotCodec V}.
Context {M : Type} `{DhcpLaws M, !DnsCodec}.
Implicit Types (g : Inner V) (w : World V).

(** ** The pump thread *)

(** One turn of the pump's loop: what [recv_timeout] returned, and whether a
    supervision is due, with what the clock, the spawn and [try_wait] give. *)
Record turn := {
  received : option VhostPort.PortMessage;
  due : option (Env * wait_result);
}.

Definition pump_turn (name : string) (me : Z) (t : turn) : op V unit :=
  _ ← (match received t with
       | Some (VhostPort.FromVm frame) => pump_frame (M := M) name me frame
       | _ => mret tt
       end : op V unit);
  match due t with
  | Some (env, wait) => tick env wait name
  | None => mret tt
  end.

Fixpoint pump_loop (name : string) (me : Z) (turns : list turn) : op V unit :=
  match turns with
  | [] => mret tt
  | t :: turns' => _ ← pump_turn name me t; pump_loop name me turns'
  end.

(** The messages taken off the worker's channel. *)
Definition arrivals (turns : list turn) : list VhostPort.PortMessage := omap received turns.

(** No supervision finds the process dead. *)
Definition passt_survives (turns : list turn) : Prop :=
  Forall (fun t => match due t with Some (_, wait) => exited wait = false | None => True end) turns.

(** ** The passt reader *)

(** What the reader does with the payloads of a connection, until the port
    is gone. *)
Fixpoint reader_run (name : string) (payloads : list (list Z)) : op V unit :=
  match payloads with
  | [] => mret tt
  | p :: ps =>
      m ← lift_panic (uplink_of p);
      _ ← deliver_wan name m p;
      w ← get;
      match ports (inner w) !! name with
      | Some _ => reader_run name ps
      | None => mret tt
      end
  end.

(** One connection of the reader, read in [chunks]. *)
Definition read_connection (name : string) (chunks : list (list Z)) : op V unit :=
  reader_run name (read_passt_frames [] chunks).1.

(** The uplink's address after a payload: its source address. *)
Definition heard (m : option (list Z)) (payload : list Z) : option (list Z) :=
  match get_range payload 6 12 with Some s => Some s | None => m end.

(** ** Frames for the world *)

(** IPv4 to the gateway's MAC that is neither for the gateway's own address
    nor a DHCP client's. *)
Record wan_bound (n : Network) (frame : list Z) : Prop := {
  wb_type : frame_ethertype frame = Val (Some ETHERTYPE_IPV4);
  wb_routed : exists p, parse frame = Val (Ok p) /\ ethertype p = ETHERTYPE_IPV4 /\
    dst p = gateway_mac_addr (net_gateway n) /\ ipv4_header_ok (payload p);
  wb_foreign : forall ip, parse_ipv4 frame = Val (Some ip) ->
    ip_dst ip <> net_gateway n /\
    ~ (ip_proto ip = IPPROTO_UDP /\ be16_at (ip_payload ip) 0 = Val DHCP_CLIENT_PORT /\
       be16_at (ip_payload ip) 2 = Val DHCP_SERVER_PORT);
}.

Lemma parsed_payload_length frame p : parse frame = Val (Ok p) -> (14 + length (payload p) <= length frame)%nat.
Proof.
  intros Hp. destruct (decide (length frame < 14)%nat) as [Hl|Hl]; [by rewrite parse_short in Hp by done|].
  destruct (frame_split frame ltac:(lia)) as (d & s & e0 & e1 & rest & ->). rewrite parse_split in Hp.
  assert (Hlen : length (octets d ++ octets s ++ e0 :: e1 :: rest) = (14 + length rest)%nat) by done.
  rewrite Hlen. unfold parse_rest in Hp. repeat case_match; simplify_eq; simpl; lia.
Qed.

(** No service answers such a frame. *)
Lemma foreign_unserved g name e m frame :
  attachment g name = Some (e, m) -> wan_bound (ipam_network (ne_ipam e)) frame ->
  service_reply (M := M) g name frame = Val None /\ gateway_icmp_reply g name frame = Val None.
Proof.
  intros Ha [Het (p & Hp & _ & _ & Hh) Hf]. unfold service_reply, gateway_icmp_reply, icmp_echo_reply. rewrite Ha.
  destruct (parse_ipv4 frame) as [[ip|]|] eqn:Hip; cbn [mbind may_panic_bind]; [|done|].
  - destruct (Hf ip eq_refl) as [Hdst Hdhcp]. split; [|by destruct (Z.eqb_spec (ip_dst ip) (net_gateway (ipam_network (ne_ipam e))))].
    destruct (Z.eqb_spec (ip_proto ip) IPPROTO_UDP) as [Hu|]; [|done]. cbn [negb orb].
    destruct (Nat.ltb_spec (length (ip_payload ip)) 8); [done|].
    destruct (be16_total (ip_payload ip) 0) as [sport Hs]; [lia|]. destruct (be16_total (ip_payload ip) 2) as [dport Hd]; [lia|].
    destruct (be16_total (ip_payload ip) 4) as [ulen ->]; [lia|]. rewrite Hs, Hd in Hdhcp |- *. cbn [mbind may_panic_bind].
    unfold slice. rewrite decide_True by lia. cbn [mbind may_panic_bind].
    destruct (Z.eqb_spec dport DHCP_SERVER_PORT), (Z.eqb_spec sport DHCP_CLIENT_PORT); cbn [andb];
      [subst; by exfalso; apply Hdhcp|..];
      by destruct (Z.eqb_spec (ip_dst ip) (net_gateway (ipam_network (ne_ipam e)))); rewrite ?andb_false_r.
  - apply parse_ipv4_panics in Hip as [Hlen _]. destruct Hh as (first & rest & Hpl & _ & H5 & H4). exfalso.
    pose proof (parsed_payload_length frame p Hp). unfold zlen in *. lia.
Qed.

Lemma attachment_attached w name lp e m :
  world_ok w -> ports (inner w) !! name = Some lp -> attachment (inner w) name = Some (e, m) ->
  attached (gateway (inner w)) (lp_id lp) (ipam_network (ne_ipam e)).
Proof.
  intros Hw Hlp (lp' & net & Hlp' & Hnet & He & _)%attachment_Some. exists net.
  assert (lp' = lp) as -> by congruence. destruct (dp_joined _ Hw _ _ Hlp) as [-> _].
  split; [done|]. by rewrite (dp_mirror _ Hw), He.
Qed.

Lemma egress_live w name slot p frame :
  poisoned w = false -> passts (inner w) !! name = Some slot -> live_proc slot = Some p ->
  passt_egress name frame w = Returns (log (ToWan (pp_pid p) (encode_frame frame)) w) (Ok tt).
Proof.
  intros Hp Hslot Hlive. unfold passt_egress, locked. run_cmd. simpl. rewrite Hslot. simpl. by rewrite Hlive.
Qed.

Lemma wan_egress w name lp e m slot p frame :
  world_ok w -> poisoned w = false -> ports (inner w) !! name = Some lp -> attachment (inner w) name = Some (e, m) ->
  passts (inner w) !! name = Some slot -> live_proc slot = Some p -> wan_bound (ipam_network (ne_ipam e)) frame ->
  pump_frame (M := M) name (lp_id lp) frame w = Returns (log (ToWan (pp_pid p) (encode_frame frame)) w) (Ok tt).
Proof.
  intros Hw Hp Hlp Ha Hslot Hlive Hf. destruct (foreign_unserved _ _ _ _ _ Ha Hf) as [Hs Hi].
  destruct Hf as [Het (f & Hparse & H4 & Hdst & Hh) _].
  pose proof (handle_frame_complete (gateway (inner w)) (lp_id lp) frame (Wan frame) (world_gateway_ok w Hw)
    (acts_wan _ _ _ _ _ (attachment_attached _ _ _ _ _ Hw Hlp Ha) Hparse H4 Hh Hdst)) as Hgw.
  unfold pump_frame, lift_panic. run_cmd. rewrite Hp, Hs, Het, Hgw. case_decide; [done|]. rewrite decide_True, Hi by done.
  by apply (egress_live w name slot p).
Qed.

(** The pump looks at the outer ethertype only: an 802.1Q frame passes every
    service and the gateway, although the gateway reads through the tag and
    would answer its ARP request or send its packet to the WAN. *)
Theorem tagged_frame_passes name me d s tci et payload w :
  world_ok w -> poisoned w = false -> bytes_ok (tagged_frame d s tci et payload) ->
  pump_frame (M := M) name me (tagged_frame d s tci et payload) w =
    (if to_uplink (inner w) name (tagged_frame d s tci et payload)
     then passt_egress name (tagged_frame d s tci et payload)
     else fabric me (tagged_frame d s tci et payload)) w.
Proof.
  intros Hw Hp Hb. set (frame := tagged_frame d s tci et payload) in *.
  assert (Het : frame_ethertype frame = Val (Some 0x8100)) by (by destruct d, s).
  assert (Hip : parse_ipv4 frame = Val None).
  { unfold parse_ipv4. by rewrite Het. }
  assert (Hs : service_reply (M := M) (inner w) name frame = Val None).
  { unfold service_reply. destruct (attachment (inner w) name) as [[e m]|]; [|done]. by rewrite Hip. }
  destruct (handle_frame_sound (gateway (inner w)) me frame Hb (world_gateway_ok w Hw)) as [Hact|(act & Hact & _)];
    unfold pump_frame, lift_panic; run_cmd; rewrite Hp, Hs, Het, Hact; by repeat case_decide.
Qed.

(** A supervision that finds the process alive changes nothing. *)
Lemma tick_alive env wait name w slot p :
  poisoned w = false -> passts (inner w) !! name = Some slot -> live_proc slot = Some p -> exited wait = false ->
  tick env wait name w = Returns w (Ok tt).
Proof.
  intros Hp Hslot Hlive Hw. unfold tick, supervise_passt, locked. run_cmd. rewrite Hp. simpl. rewrite Hslot, Hlive, Hw, Hlive.
  do 2 f_equal. destruct w as [dir g po d t]. unfold upd, set_passts. simpl in *. rewrite insert_id by done. by destruct g.
Qed.

(** The pump's turns over frames for the world. *)
Lemma pump_loop_wan name lp e m slot p turns fs w :
  world_ok w -> poisoned w = false -> ports (inner w) !! name = Some lp -> attachment (inner w) name = Some (e, m) ->
  passts (inner w) !! name = Some slot -> live_proc slot = Some p ->
  passt_survives turns -> arrivals turns = VhostPort.FromVm <$> fs -> Forall (wan_bound (ipam_network (ne_ipam e))) fs ->
  pump_loop name (lp_id lp) turns w =
    Returns {| socket_dir := socket_dir w; inner := inner w; poisoned := poisoned w; disk := disk w;
               trace := trace w ++ ((fun f => ToWan (pp_pid p) (encode_frame f)) <$> fs) |} (Ok tt).
Proof.
  revert fs w. induction turns as [|[[msg|] d] turns IH]; intros fs w Hw Hp Hlp Ha Hslot Hlive Hsv Harr Hfs.
  - apply symmetry, fmap_nil_inv in Harr as ->. simpl. rewrite app_nil_r. by destruct w.
  - cbn [arrivals omap list_omap received] in Harr. apply symmetry, fmap_cons_inv in Harr as (f & fs' & -> & Harr & ->).
    apply Forall_cons in Hfs as [Hf Hfs]. apply Forall_cons in Hsv as [Hd Hsv]. cbn [due] in Hd.
    cbn [pump_loop]. unfold pump_turn. cbn [received due]. run_cmd.
    rewrite (wan_egress w name lp e m slot p f Hw Hp Hlp Ha Hslot Hlive Hf).
    set (w1 := log _ w).
    assert (Hrest : pump_loop name (lp_id lp) turns w1 = Returns {| socket_dir := socket_dir w; inner := inner w;
      poisoned := poisoned w; disk := disk w;
      trace := trace w ++ ((fun f => ToWan (pp_pid p) (encode_frame f)) <$> f :: fs') |} (Ok tt)).
    { rewrite (IH fs' w1); try done. simpl. by rewrite <- app_assoc. }
    destruct d as [[env wait]|]; [|done]. rewrite (tick_alive env wait name w1 slot p) by done. done.
  - apply Forall_cons in Hsv as [Hd Hsv]. cbn [due] in Hd. cbn [pump_loop]. unfold pump_turn. cbn [received due]. run_cmd.
    destruct d as [[env wait]|]; [rewrite (tick_alive env wait name w slot p) by done|]; by apply IH.
Qed.

(** ** What the reader leaves *)

Lemma readable_heard payload m : readable payload ->
  exists o, uplink_of payload = Val o /\ match o with Some s => Some s | None => m end = heard m payload.
Proof.
  intros [Hl _]. unfold uplink_of, heard, slice, get_range. destruct (Nat.leb_spec 6 (length payload)).
  - rewrite !decide_True by lia. by eexists.
  - rewrite decide_False by lia. by exists None.
Qed.

(** The slot with another uplink address. *)
Definition with_uplink (m : option (list Z)) (slot : PasstSlot) : PasstSlot :=
  {| desired := desired slot; live_proc := live_proc slot; failures := failures slot;
     next_retry := next_retry slot; uplink_mac := m |}.

Lemma with_uplink_same slot : with_uplink (uplink_mac slot) slot = slot.
Proof. by destruct slot. Qed.

(** From [w] to [w']: the payloads [ps] were queued for [name], and its slot
    has the uplink address [m]. *)
Definition delivered (name : string) (ps : list (list Z)) (slot : PasstSlot) (m : option (list Z)) w w' : Prop :=
  socket_dir w' = socket_dir w /\ poisoned w' = poisoned w /\ disk w' = disk w /\
  trace w' = trace w ++ (ToVm name <$> ps) /\
  inner w' = set_passts (insert name (with_uplink m slot)) (inner w).

Lemma set_passts_twice f f' g : set_passts f (set_passts f' g) = set_passts (fun x => f (f' x)) g.
Proof. done. Qed.

Lemma set_passts_ext f f' g : f (passts g) = f' (passts g) -> set_passts f g = set_passts f' g.
Proof. unfold set_passts. by intros ->. Qed.

Lemma deliver_readable name lp slot payload o w :
  poisoned w = false -> ports (inner w) !! name = Some lp -> passts (inner w) !! name = Some slot ->
  uplink_of payload = Val o ->
  exists w', deliver_wan name o payload w = Returns w' (Ok tt) /\
    delivered name [payload] slot (match o with Some s => Some s | None => uplink_mac slot end) w w'.
Proof.
  intros Hp Hlp Hslot Ho. unfold deliver_wan. run_cmd.
  assert (Hsame : delivered name [payload] slot (uplink_mac slot) w (log (ToVm name payload) w)).
  { split_and!; [done..|]. rewrite with_uplink_same. simpl. destruct (inner w) eqn:Hi. unfold set_passts. simpl in *.
    by rewrite insert_id. }
  destruct o as [s|]; [rewrite Hslot, Hp; cbn [orb]; case_bool_decide as Hs|]; cbv beta iota; simpl; rewrite Hlp.
  - eexists. split; [done|]. by rewrite <- Hs.
  - eexists. split; [done|]. by split_and!.
  - eexists. by split.
Qed.

(** The reader delivers readable payloads in order and keeps the source of
    the last that has one. *)
Lemma reader_run_spec name lp slot ps w :
  poisoned w = false -> ports (inner w) !! name = Some lp -> passts (inner w) !! name = Some slot ->
  Forall readable ps ->
  exists w', reader_run name ps w = Returns w' (Ok tt) /\
    delivered name ps slot (foldl heard (uplink_mac slot) ps) w w'.
Proof.
  revert slot w. induction ps as [|p ps IH]; intros slot w Hp Hlp Hslot Hr.
  { exists w. split; [done|]. split_and!; [done..|by simpl; rewrite app_nil_r|]. simpl. rewrite with_uplink_same.
    destruct (inner w) eqn:Hi. unfold set_passts. simpl in *. by rewrite insert_id. }
  apply Forall_cons in Hr as [Hr1 Hr]. destruct (readable_heard p (uplink_mac slot) Hr1) as (o & Ho & Hh).
  destruct (deliver_readable name lp slot p o w Hp Hlp Hslot Ho) as (w1 & Hd & F1 & F2 & F3 & F4 & F5).
  rewrite Hh in F5. cbn [reader_run]. unfold lift_panic. run_cmd. rewrite Ho, Hd.
  assert (Hlp1 : ports (inner w1) !! name = Some lp) by (by rewrite F5).
  rewrite Hlp1. destruct (IH (with_uplink (heard (uplink_mac slot) p) slot) w1) as (w2 & Hrun & G1 & G2 & G3 & G4 & G5);
    [congruence|done|rewrite F5; apply lookup_insert_eq|done|].
  exists w2. split; [done|]. split_and!; [congruence..| |].
  - by rewrite G4, F4, <- app_assoc.
  - rewrite G5, F5, set_passts_twice. apply set_passts_ext. by rewrite insert_insert_eq.
Qed.

(** ** Ring to socket and back *)

(** The bytes written to the socket of a passt process. *)
Definition wan_bytes (pid : Z) (evs : list event) : list Z :=
  concat (omap (fun e => match e with ToWan q b => if decide (q = pid) then Some b else None | _ => None end) evs).

Lemma wan_bytes_frames pid fs : wan_bytes pid ((fun f => ToWan pid (encode_frame f)) <$> fs) = concat (encode_frame <$> fs).
Proof.
  unfold wan_bytes. induction fs as [|f fs IH]; [done|]. cbn [fmap list_fmap omap list_omap].
  rewrite decide_True by done. cbn [concat]. by rewrite IH.
Qed.

Lemma queued_for_self name ps : queued_for name (ToVm name <$> ps) = ps.
Proof.
  unfold queued_for. induction ps as [|p ps IH]; [done|]. cbn [fmap list_fmap omap list_omap].
  rewrite decide_True by done. by rewrite IH.
Qed.

Lemma wan_bound_readable n f : wan_bound n f -> (length f + 4 <= MAX_PASST_PENDING)%nat -> readable f.
Proof. intros [_ (p & Hp & _) _] Hl. apply parsed_payload_length in Hp. split; [lia|done]. Qed.

(** After the reader, frames to the uplink's address leave by its socket. *)
Lemma uplink_reply name slot ps p m me frame w w' :
  delivered name ps slot (Some m) w w' -> poisoned w = false -> live_proc slot = Some p ->
  passes (inner w) name me frame -> (6 <= length frame)%nat -> take 6 frame = m ->
  pump_frame (M := M) name me frame w' = Returns (log (ToWan (pp_pid p) (encode_frame frame)) w') (Ok tt).
Proof.
  intros (_ & Hp' & _ & _ & Hi) Hp Hlive [Hs Hic Hg] Hlen Hm.
  assert (Hps : passts (inner w') !! name = Some (with_uplink (Some m) slot)) by (rewrite Hi; apply lookup_insert_eq).
  rewrite passes_pump by (rewrite ?Hi; by split || congruence).
  unfold to_uplink. rewrite Hps. cbn [mbind option_bind with_uplink uplink_mac].
  destruct (Nat.leb_spec 6 (length frame)); [|lia]. rewrite bool_decide_eq_true_2 by done. cbn [andb].
  apply (egress_live w' name (with_uplink (Some m) slot) p); [congruence|done|done].
Qed.

Section Rings.
Context {Q C : Type} `{VirtQueueLaws Q C}.

(** C3: guest to world. Whatever batch of IPv4 frames for the world an attached
    guest posts on its transmit ring, every chain is completed, and the pump,
    however its turns and supervisions fall, writes to the port's own passt
    process exactly these frames, in order and unchanged, and does nothing
    else; and whoever reads that socket by the daemon's framing, in pieces of
    any size, gets back the frames the guest posted. *)
Theorem guest_to_world (w : World V) (a : string) (la : LivePort) (e : NetworkEntry V) (mac : MacAddr)
    (slot : PasstSlot) (p : PasstProc) (fs : list (list Z)) (sa : PortState Q) :
  world_ok w -> poisoned w = false -> ports (inner w) !! a = Some la -> attachment (inner w) a = Some (e, mac) ->
  passts (inner w) !! a = Some slot -> live_proc slot = Some p ->
  Forall (wan_bound (ipam_network (ne_ipam e))) fs -> Forall (fun f => length f + 4 <= MAX_PASST_PENDING)%nat fs ->
  vq_iter (ring sa) = true -> sent sa = [] ->
  Forall2 (carries (ring sa) (vq_desc_table (ring sa))) (posted (ring sa)) (Some <$> fs) ->
  exists sa' ra, service_tx sa = Returns sa' ra /\ posted (ring sa') = [] /\
    completed (ring sa') = completed (ring sa) ++ zip_with tx_used (posted (ring sa)) (Some <$> fs) /\
    forall turns, passt_survives turns -> arrivals turns = sent sa' ->
    exists w' evs, pump_loop a (lp_id la) turns w = Returns w' (Ok tt) /\
      inner w' = inner w /\ disk w' = disk w /\ trace w' = trace w ++ evs /\
      evs = (fun f => ToWan (pp_pid p) (encode_frame f)) <$> fs /\
      forall chunks, concat chunks = wan_bytes (pp_pid p) evs -> read_passt_frames [] chunks = (fs, Some []).
Proof.
  intros Hw Hp Hla Ha Hslot Hlive Hfs Hsz Hit Hsent Hc.
  destruct (service_tx_spec sa (Some <$> fs) Hit Hc) as (q' & ra & Htx & Hpost & Hcomp & _).
  eexists _, ra. split_and!; [exact Htx|done|done|]. cbn [sent]. rewrite Hsent, app_nil_l.
  assert (Hid : omap id (Some <$> fs) = fs).
  { clear. induction fs as [|f fs IH]; [done|]. cbn [fmap list_fmap omap list_omap id]. by rewrite IH. }
  rewrite Hid. intros turns Hsv Harr.
  rewrite (pump_loop_wan a la e mac slot p turns fs w) by done.
  eexists _, _. split_and!; [done..|]. intros chunks Hch. rewrite wan_bytes_frames in Hch. apply read_stream; [|done].
  apply Forall_forall. intros f Hf. rewrite Forall_forall in Hfs, Hsz. by eapply wan_bound_readable; [apply Hfs|apply Hsz].
Qed.

(** C4: world to guest, and back. The frames a passt process writes, however the
    socket cuts them, reach the guest of its port and no other, in order:
    each is read back by the guest's driver, byte for byte, from the next
    posted buffer that can hold it. The last source address among them is
    kept as the uplink's, so that what the guest then sends to that address
    (and no service takes) leaves by the same socket. *)
Theorem world_to_guest (w : World V) (b : string) (lb : LivePort) (slot : PasstSlot) (ps chunks : list (list Z))
    (sb : PortState Q) (caps : C -> nat) (waiting : list (list Z)) :
  poisoned w = false -> ports (inner w) !! b = Some lb -> passts (inner w) !! b = Some slot ->
  Forall readable ps -> concat chunks = concat (encode_frame <$> ps) ->
  vq_iter (rewind (ring sb)) = true -> channel sb = VhostPort.ToVm <$> waiting ->
  rx_ready (rewind (ring sb)) (vq_desc_table (ring sb)) caps (posted (rewind (ring sb))) ->
  NoDup (head_index <$> posted (rewind (ring sb))) ->
  exists w' evs sb' rb, read_connection b chunks w = Returns w' (Ok tt) /\
    trace w' = trace w ++ evs /\ evs = ToVm b <$> ps /\
    service_rx (enqueue (queued_for b evs) sb) = Returns sb' rb /\
    (forall i c f, ps !! i = Some f -> posted (rewind (ring sb)) !! (length waiting + i)%nat = Some c ->
       (length f + 12 <= caps c)%nat -> decode_driver_rx (buffer (ring sb') c) = Some f) /\
    forall m p me frame, foldl heard (uplink_mac slot) ps = Some m -> live_proc slot = Some p ->
      passes (inner w) b me frame -> (6 <= length frame)%nat -> take 6 frame = m ->
      pump_frame (M := M) b me frame w' = Returns (log (ToWan (pp_pid p) (encode_frame frame)) w') (Ok tt).
Proof.
  intros Hp Hlb Hslot Hr Hch Hit Hchan Hrd Hnd.
  destruct (reader_run_spec b lb slot ps w Hp Hlb Hslot Hr) as (w' & Hrun & Hdel).
  destruct (service_rx_spec (enqueue ps sb) caps (waiting ++ ps) Hit) as (qb & rb & Hrx & _ & _ & Hread & _);
    [unfold enqueue; simpl; by rewrite Hchan, fmap_app|done..|].
  exists w', (ToVm b <$> ps). rewrite queued_for_self. eexists _, rb.
  split_and!; [unfold read_connection; by rewrite (read_stream ps chunks)|apply Hdel|done|exact Hrx| |].
  - intros i c f Hf Hc Hfit. apply (Hread (length waiting + i)%nat c f Hc); [|done].
    rewrite lookup_app_r by lia. by replace (length waiting + i - length waiting)%nat with i by lia.
  - intros m p me frame Hm Hlive Hps Hlen Htake. rewrite Hm in Hdel. by apply (uplink_reply b slot ps p m me frame w).
Qed.
End Rings.
End Wan.
