(* ===== verification/Resolution.v ===== *)
(** * From a question to its answer

    The composition of the parts on the way of a name: the guest's query
    through its transmit ring ([VhostPort]) and the pump ([Pump]), the
    forwarder and its upstreams ([Dns]), the reply's frame ([Packet]) and the
    guest's receive ring. *)
From S2P Require Import Prelude RustStd Model Ipam Json Protocol StateStore Server.
From S2P Require Import Frame MacTable Engine Gateway Dhcp Dns Passt Packet VhostPort Dataplane Pump Transit Datagrams.
Import Dp.

Section Resolution.
Context {V : Type} `{JsonValue V, SnapshotCodec V}.
Context {M : Type} `{DhcpLaws M, !DnsCodec}.
Implicit Types (g : Inner V) (w : World V).

(** The upstream [u] does not answer the query acceptably. *)
Definition fails (packet : list Z) (id : Z) (u : UpstreamSender) : Prop := forall r, ~ Dns.answers packet id u r.

(** The answer a query is due: that of the first upstream that answers it
    acceptably, as it came, or SERVFAIL when there is none. *)
Inductive answer_due (f : DnsForwarder) (packet : list Z) (id : Z) : list Z -> Prop :=
  | due_upstream before u after r :
      upstreams f = before ++ u :: after -> Forall (fails packet id) before -> Dns.answers packet id u r ->
      answer_due f packet id r
  | due_servfail r :
      Forall (fails packet id) (upstreams f) -> servfail id = Some r -> answer_due f packet id r.

Lemma forwarder_answers f packet q sf :
  dns_from_vec packet = Some q -> no_queries q = false -> servfail (dns_id q) = Some sf ->
  exists r, (Dns.handle f packet).1 = Some r /\ answer_due f packet (dns_id q) r.
Proof.
  intros Hq Hn Hsf. unfold Dns.handle. rewrite Hq, Hn.
  pose proof (try_upstreams_spec packet (dns_id q) (upstreams f)) as Hs.
  destruct (try_upstreams packet (dns_id q) (upstreams f)) as [[r|] n].
  - destruct Hs as (before & u & after & Hf & _ & Ha & Hall). exists r. split; [done|]. by eapply due_upstream.
  - destruct Hs as [_ Hall]. exists sf. by split; [|apply due_servfail].
Qed.

(** The query's frame at the pump. *)
Lemma pump_resolves name me w e vm_mac mac src sport packet frame q sf :
  attachment (inner w) name = Some (e, vm_mac) -> poisoned w = false ->
  let gw := net_gateway (ipam_network (ne_ipam e)) in
  udp_frame mac src gw sport DNS_PORT packet frame ->
  dns_from_vec packet = Some q -> no_queries q = false -> servfail (dns_id q) = Some sf ->
  exists answer, answer_due (dns (inner w)) packet (dns_id q) answer /\
    pump_frame (M := M) name me frame w =
      Returns (log (ToVm name (wrap_udp_reply answer vm_mac gw src DNS_PORT sport)) w) (Ok tt).
Proof.
  intros Ha Hp gw Hf Hq Hn Hsf. destruct (forwarder_answers (dns (inner w)) packet q sf Hq Hn Hsf) as (r & Hr & Hdue).
  exists r. split; [done|]. apply (service_answers name me w e vm_mac); [done..|].
  rewrite (udp_frame_served _ _ _ _ _ _ _ _ _ _ _ Ha Hf). cbv zeta. fold gw.
  rewrite !Z.eqb_refl, Hr. destruct (Z.eqb_spec DNS_PORT DHCP_SERVER_PORT); [done|reflexivity].
Qed.

Section Rings.
Context {Q C : Type} `{VirtQueueLaws Q C}.

(** C12: from a question to its answer. A guest of an attached port that posts a
    DNS query for its network's gateway, from any port and address, gets back
    in its next buffer, from the gateway and the DNS port to the address and
    port it asked from, the answer due: the first acceptable one among the
    upstreams, in the configured order and as it came, or SERVFAIL. The frame
    is valid IPv4, and nothing else in the daemon changes. *)
Theorem question_answered (w : World V) (a : string) (la : LivePort) (e : NetworkEntry V) (vm_mac mac : MacAddr)
    (src : Ipv4Addr) (sport : Z) (packet frame sf : list Z) (q : DnsMessage)
    (sa sb : PortState Q) (ca cb : C) (caps : C -> nat) :
  world_ok w -> poisoned w = false -> ports (inner w) !! a = Some la -> attachment (inner w) a = Some (e, vm_mac) ->
  let gw := net_gateway (ipam_network (ne_ipam e)) in
  udp_frame mac src gw sport DNS_PORT packet frame -> src <> 0 ->
  dns_from_vec packet = Some q -> no_queries q = false -> servfail (dns_id q) = Some sf ->
  vq_iter (ring sa) = true -> posted (ring sa) = [ca] -> sent sa = [] ->
  carries (ring sa) (vq_desc_table (ring sa)) ca (Some frame) ->
  vq_iter (rewind (ring sb)) = true -> channel sb = [] ->
  rx_ready (rewind (ring sb)) (vq_desc_table (ring sb)) caps (posted (rewind (ring sb))) ->
  NoDup (head_index <$> posted (rewind (ring sb))) -> posted (rewind (ring sb)) !! 0%nat = Some cb ->
  exists sa' ra answer reply sb' rb, answer_due (dns (inner w)) packet (dns_id q) answer /\
    service_tx sa = Returns sa' ra /\ sent sa' = [VhostPort.FromVm frame] /\
    pump_frame (M := M) a (lp_id la) frame w = Returns (log (ToVm a reply) w) (Ok tt) /\
    service_rx (enqueue [reply] sb) = Returns sb' rb /\
    ((length reply + 12 <= caps cb)%nat -> decode_driver_rx (buffer (ring sb') cb) = Some reply) /\
    inet_checksum (take 20 (drop 14 reply)) = 0 /\
    parse_ipv4 reply = Val (Some {| ip_src := gw; ip_dst := src; ip_proto := IPPROTO_UDP;
      ip_payload := u16_to_be DNS_PORT ++ u16_to_be sport ++ u16_to_be (u16_or_max (8 + zlen answer)) ++ [0; 0] ++ answer |}).
Proof.
  intros Hw Hp Hla Ha gw Hf Hsrc Hq Hn Hsf Hia Hpa Hsa Hca Hib Hch Hrd Hnd Hcb.
  destruct (pump_resolves a (lp_id la) w e vm_mac mac src sport packet frame q sf Ha Hp Hf Hq Hn Hsf) as (answer & Hdue & Hpump).
  destruct (service_tx_spec sa [Some frame] Hia) as (qa & ra & Htx & _); [rewrite Hpa; by apply Forall2_cons|].
  set (reply := wrap_udp_reply answer vm_mac gw src DNS_PORT sport) in *.
  destruct (service_rx_spec (enqueue [reply] sb) caps [reply] Hib) as (qb & rb & Hrx & _ & _ & Hread & _);
    [unfold enqueue; simpl; by rewrite Hch|done..|].
  assert (Hgw : is_u32 gw) by (apply wfn_gateway_u32, ok_network, (attachment_ok w a e vm_mac Hw Ha)).
  assert (Hs32 : is_u32 src) by (by destruct Hf).
  destruct (udp_reply_reads_back answer vm_mac gw src DNS_PORT sport Hgw Hs32) as (Hparse & Hck & _).
  eexists _, ra, answer, reply, _, rb. split_and!; [done|exact Htx|by cbn [sent]; rewrite Hsa|done|exact Hrx| |done|].
  - intros Hfit. by apply (Hread 0%nat cb reply Hcb).
  - fold reply in Hparse. rewrite Hparse. by destruct (Z.eqb_spec src 0).
Qed.
End Rings.
End Resolution.
