(* ===== verification/Presence.v ===== *)
(** * The gateway as its guests see it

    No host stands behind a network's gateway address: the daemon answers for
    it. The composition of the pump ([Pump]), the gateway's ARP answers
    ([Gateway]) and the ICMP echo seam ([Packet]). *)
From S2P Require Import Prelude RustStd Model Ipam Json Protocol StateStore Server.
From S2P Require Import Frame MacTable Engine Gateway Dhcp Dns Passt Packet VhostPort Dataplane Pump Daemon Transit Wan.
Import Dp.

Section Presence.
Context {V : Type} `{JsonValue V, SnapshotCodec V}.
Context {M : Type} `{DhcpLaws M, !DnsCodec}.
Implicit Types (g : Inner V) (w : World V).

(** A guest's question who has the address [gw], padded as it likes. *)
Definition who_has (to sha : MacAddr) (spa : Ipv4Addr) (tha : MacAddr) (gw : Ipv4Addr) (pad : list Z) : list Z :=
  eth_frame to sha ETHERTYPE_ARP (arp_payload 1 sha spa tha gw ++ pad).

(** An echo request to the gateway. *)
Definition ping (to mac : MacAddr) (h7 ck : list Z) (ttl : Z) (src gw : Ipv4Addr) (code c0 c1 : Z) (rest : list Z) : list Z :=
  (octets to ++ octets mac) ++ u16_to_be ETHERTYPE_IPV4 ++
  ipv4_packet (h7 ++ [ttl]) IPPROTO_ICMP ck src gw (echo_body ICMP_ECHO_REQUEST code [c0; c1] rest).

Lemma inject_live w name lp frame :
  poisoned w = false -> ports (inner w) !! name = Some lp ->
  inject_to name frame w = Returns (log (ToVm name frame) w) (Ok tt).
Proof. intros Hp Hlp. unfold inject_to, locked. run_cmd. by rewrite Hlp. Qed.

Lemma who_has_answered w name lp e m to sha spa tha pad :
  world_ok w -> poisoned w = false -> ports (inner w) !! name = Some lp -> attachment (inner w) name = Some (e, m) ->
  is_u32 spa ->
  let gw := net_gateway (ipam_network (ne_ipam e)) in
  pump_frame (M := M) name (lp_id lp) (who_has to sha spa tha gw pad) w =
    Returns (log (ToVm name (arp_reply_frame gw sha spa)) w) (Ok tt).
Proof.
  intros Hw Hp Hlp Ha Hspa gw. set (frame := who_has to sha spa tha gw pad).
  assert (Het : frame_ethertype frame = Val (Some ETHERTYPE_ARP)) by (by destruct to, sha).
  assert (Hs : service_reply (M := M) (inner w) name frame = Val None).
  { unfold service_reply, parse_ipv4. by rewrite Ha, Het. }
  assert (Hg : handle_frame (gateway (inner w)) (lp_id lp) frame = Val (ArpReply (arp_reply_frame gw sha spa))).
  { apply handle_frame_complete; [by apply world_gateway_ok|]. eapply acts_arp; [by eapply attachment_attached|..].
    - by apply parse_eth_frame.
    - done.
    - done.
    - done. }
  unfold pump_frame, lift_panic. run_cmd. rewrite Hp, Hs, Het, Hg. rewrite decide_True by done. by apply (inject_live w name lp).
Qed.

Lemma ping_answered w name lp e m to mac h7 ck ttl src code c0 c1 rest :
  world_ok w -> poisoned w = false -> ports (inner w) !! name = Some lp -> attachment (inner w) name = Some (e, m) ->
  length h7 = 7%nat -> length ck = 2%nat -> is_u32 src -> (4 <= length rest)%nat ->
  let gw := net_gateway (ipam_network (ne_ipam e)) in
  let request := ping to mac h7 ck ttl src gw code c0 c1 rest in
  bytes_ok request ->
  pump_frame (M := M) name (lp_id lp) request w =
    Returns (log (ToVm name (echo_answer m gw src h7 code rest)) w) (Ok tt).
Proof.
  intros Hw Hp Hlp Ha Hh Hck Hsrc Hrest gw request Hb.
  assert (Hgw : is_u32 gw) by (apply wfn_gateway_u32, ok_network, (attachment_ok w name e m Hw Ha)).
  assert (Hmacs : length (octets to ++ octets mac) = 12%nat) by (by destruct to, mac).
  assert (Het : frame_ethertype request = Val (Some ETHERTYPE_IPV4)) by (by destruct to, mac).
  assert (Hs : service_reply (M := M) (inner w) name request = Val None).
  { unfold service_reply, request, ping. rewrite Ha, parse_ipv4_packet by (try done; rewrite length_app; simpl; lia). done. }
  assert (Hi : gateway_icmp_reply (inner w) name request = Val (Some (echo_answer m gw src h7 code rest))).
  { unfold gateway_icmp_reply. rewrite Ha. by apply icmp_echo_reply_request. }
  destruct (handle_frame_sound (gateway (inner w)) (lp_id lp) request Hb (world_gateway_ok w Hw)) as [Hg|(act & Hg & _)];
    unfold pump_frame, lift_panic; run_cmd; rewrite Hp, Hs, Het, Hg, Hi; case_decide; try done;
    by apply (inject_live w name lp).
Qed.

Lemma ping_bytes to mac h7 ck ttl src gw code c0 c1 rest :
  bytes_ok (ping to mac h7 ck ttl src gw code c0 c1 rest) -> bytes_ok h7 /\ is_u8 code /\ bytes_ok rest.
Proof.
  unfold ping, ipv4_packet, echo_body, bytes_ok. repeat (rewrite Forall_app || rewrite Forall_cons). naive_solver.
Qed.

(** C13: the gateway's address is alive. A guest of an attached port that asks who
    has the gateway's address is told a MAC, and a ping to that MAC is
    answered: both answers go back to the guest alone, the first parses as an
    ARP reply to it, the second comes from the gateway's address with the
    identifier, sequence number and data of the request and with an IPv4 and
    an ICMP checksum that verify. That MAC is also the one by which packets
    for the world leave. *)
Theorem gateway_present (w : World V) (name : string) (lp : LivePort) (e : NetworkEntry V) (m to sha tha : MacAddr)
    (spa src : Ipv4Addr) (pad h7 ck rest : list Z) (ttl code c0 c1 : Z) :
  world_ok w -> poisoned w = false -> ports (inner w) !! name = Some lp -> attachment (inner w) name = Some (e, m) ->
  let gw := net_gateway (ipam_network (ne_ipam e)) in
  let gm := gateway_mac_addr gw in
  let request := ping gm sha h7 ck ttl src gw code c0 c1 rest in
  is_u32 spa -> is_u32 src -> length h7 = 7%nat -> length ck = 2%nat -> (4 <= length rest)%nat -> zlen rest <= 65000 ->
  bytes_ok request ->
  exists told pong ck',
    (_ ← pump_frame (M := M) name (lp_id lp) (who_has to sha spa tha gw pad);
     pump_frame (M := M) name (lp_id lp) request) w =
      Returns (log (ToVm name pong) (log (ToVm name told) w)) (Ok tt) /\
    parse told = Val (Ok {| dst := sha; src := gm; ethertype := ETHERTYPE_ARP; payload := arp_payload 2 gm gw sha spa |}) /\
    parse_ipv4 pong = Val (Some {| ip_src := gw; ip_dst := src; ip_proto := IPPROTO_ICMP;
      ip_payload := echo_body ICMP_ECHO_REPLY code ck' rest |}) /\
    take 6 pong = octets m /\
    inet_checksum (take 20 (drop 14 pong)) = 0 /\ inet_checksum (drop 34 pong) = 0 /\
    forall frame, wan_bound (ipam_network (ne_ipam e)) frame -> take 6 frame = octets gm.
Proof.
  intros Hw Hp Hlp Ha gw gm request Hspa Hsrc Hh Hck Hrest Hlen Hb.
  destruct (ping_bytes _ _ _ _ _ _ _ _ _ _ _ Hb) as (Hb7 & Hcode & Hbr).
  assert (Hgw : is_u32 gw) by (apply wfn_gateway_u32, ok_network, (attachment_ok w name e m Hw Ha)).
  destruct (echo_answer_checks m gw src h7 code rest) as [Hck1 Hck2]; [done..|].
  exists (arp_reply_frame gw sha spa), (echo_answer m gw src h7 code rest). eexists. split_and!.
  - run_cmd. rewrite (who_has_answered w name lp e m) by done. cbv beta iota.
    set (w1 := log _ w). by apply (ping_answered w1 name lp e m gm sha h7 ck ttl src code c0 c1 rest).
  - by apply parse_eth_frame.
  - unfold echo_answer, eth_frame. rewrite app_assoc. apply parse_ipv4_packet; try done. rewrite length_app. simpl. lia.
  - done.
  - exact Hck1.
  - exact Hck2.
  - intros frame [_ (f & Hf & _ & Hd & _) _]. destruct (slice_dst _ _ Hf) as [Hl Hs].
    unfold slice in Hs. rewrite decide_True in Hs by lia. rewrite drop_0, Hd in Hs. by injection Hs.
Qed.
End Presence.
