(* ===== verification/Witnesses.v ===== *)
(** * Witnesses

    Every theorem with hypotheses, applied to concrete inputs: a small lab
    network, a daemon with a port on it, and the in-memory implementations of
    the interfaces. *)
From S2P Require Import Prelude RustStd Model Ipam Json Protocol StateStore Server.
From S2P Require Import Frame MacTable Engine Gateway Dhcp Dns Passt Packet VhostPort.
From S2P Require Import Dataplane Control Config Pump Daemon.
Import Dp.

(** ** A lab network *)
Definition lab_pool : IpPool := {| pool_start := ip_new 10 0 0 10; pool_end := ip_new 10 0 0 20 |}.
Definition lab : Network := {|
  net_name := "lab";
  net_cidr := {| cidr_addr := ip_new 10 0 0 0; cidr_prefix := 24 |};
  net_gateway := ip_new 10 0 0 1;
  net_pool := lab_pool;
|}.
Definition mac_a : MacAddr := Mac 2 0 0 0 0 1.
Definition mac_b : MacAddr := Mac 2 0 0 0 0 2.

Lemma lab_pool_wf : wf_pool lab_pool.
Proof. split; vm_compute; intuition congruence. Qed.

Lemma lab_new : Network_new "lab" "10.0.0.0/24" "10.0.0.1" lab_pool = Ok lab.
Proof. by vm_compute. Qed.

Lemma lab_wf : wf_network lab.
Proof. eapply (Network_new_wf "lab" "10.0.0.0/24" "10.0.0.1" lab_pool); [exact lab_pool_wf|exact lab_new]. Qed.

Lemma network_new_iff_witness :
  Network_new "lab" "10.0.0.0/24" "10.0.0.1" lab_pool = Ok lab <->
  wf_network lab /\ net_name lab = "lab" /\ net_pool lab = lab_pool /\
  parse_cidr "10.0.0.0/24" = Ok (net_cidr lab) /\ parse_ipv4_addr "10.0.0.1" = Some (net_gateway lab).
Proof. exact (network_new_iff "lab" "10.0.0.0/24" "10.0.0.1" lab_pool lab lab_pool_wf). Defined.

Definition lab_ipam : Ipam := (allocate (Ipam_new lab) mac_a).2.

Lemma mac_a_wf : wf_mac mac_a.
Proof. repeat constructor; vm_compute; congruence. Qed.

Lemma lab_ipam_ok : ipam_ok lab_ipam.
Proof. apply allocate_ok; [exact mac_a_wf|apply Ipam_new_ok, lab_wf]. Qed.

Lemma ipam_reachable_safe_witness :
  (forall m m' ip, lookup_mac lab_ipam m = Some ip -> lookup_mac lab_ipam m' = Some ip -> m = m') /\
  (forall m ip, lookup_mac lab_ipam m = Some ip -> in_pool (net_pool lab) ip /\ ip <> net_gateway lab).
Proof.
  exact (ipam_reachable_safe lab lab_ipam lab_wf (ir_allocate lab _ mac_a (ir_new lab) mac_a_wf)).
Defined.

Lemma snapshot_roundtrip_witness : from_snapshot lab (snapshot lab_ipam) = Ok lab_ipam.
Proof. exact (snapshot_roundtrip lab_ipam lab_ipam_ok). Defined.

(** ** The switch and the gateway *)
Lemma learn_refines_lru_witness :
  represents (learn (MacTable_new 2) 7 mac_a) (lru_learn 2 [] 7 mac_a).
Proof. apply (learn_refines_lru (MacTable_new 2) [] 7 mac_a); [apply represents_new|done]. Defined.

Definition two_ports : Switch := add_port (add_port Switch_new 1 "lab") 2 "lab".
Definition hello : list Z := eth_frame (Mac 255 255 255 255 255 255) mac_a 0x1234 [1; 2; 3].
Definition answer : list Z := eth_frame mac_a mac_b 0x1234 [4; 5].

Lemma reply_reaches_station_witness :
  exists s', forward (forward_all two_ports [(1, hello)]) 2 answer = Val ([(1, answer)], s').
Proof.
  apply (reply_reaches_station two_ports 1 2 "lab" hello answer
    {| dst := Mac 255 255 255 255 255 255; src := mac_a; ethertype := 0x1234; payload := [1; 2; 3] |}
    {| dst := mac_a; src := mac_b; ethertype := 0x1234; payload := [4; 5] |} []).
  - split; [done|]. exists []. apply represents_new.
  - vm_compute. congruence.
  - reflexivity.
  - reflexivity.
  - congruence.
  - reflexivity.
  - constructor.
  - simpl. lia.
  - reflexivity.
  - reflexivity.
  - vm_compute. congruence.
  - vm_compute. congruence.
Defined.

Definition lab_gateway : Gateway := gw_add_port (gw_add_network Gateway_new lab) 1 "lab".

Lemma gateway_exact_witness :
  exists a, handle_frame lab_gateway 1 hello = Val a /\
    forall b, acts lab_gateway 1 hello b <-> a = b /\ b <> L2.
Proof.
  apply (gateway_exact lab_gateway 1 hello).
  - repeat constructor; vm_compute; congruence.
  - intros name n. unfold lab_gateway. simpl. intros [[<- <-]|[_ Hn]]%lookup_insert_Some; [|by rewrite lookup_empty in Hn].
    vm_compute. intuition congruence.
Defined.

Lemma parse_ok_iff_witness :
  let p := {| dst := mac_a; src := mac_b; ethertype := 0x1234; payload := [4; 5] |} in
  parse answer = Val (Ok p) <->
  is_u16 (ethertype p) /\
  (ethertype p <> 0x8100 /\ answer = eth_frame (dst p) (src p) (ethertype p) (payload p) \/
   exists tci, is_u16 tci /\ answer = tagged_frame (dst p) (src p) tci (ethertype p) (payload p)).
Proof. apply (parse_ok_iff answer). repeat constructor; vm_compute; congruence. Defined.

(** ** The state file *)
Definition disk_ok : environment := fun _ => Done.
Definition no_files : fs := {| live := ∅; stable := ∅ |}.
Definition some_store : StateStore Tree :=
  {| st_networks := ∅; st_ports := ∅; ipam_records := {["02:00:00:00:00:01" := "10.0.0.10"]}; dhcp_leases := ∅;
     st_publish_table := {| entries := {["p1" := {[80 := 20000]}]} |} |}.

Lemma save_crash_atomic_witness :
  clean (run_state (save_to_disk disk_ok some_store "/run" no_files)) (path_join "/run" STATE_FILE_NAME) /\
  (forall o, may_read (run_state (save_to_disk disk_ok some_store "/run" no_files)) (path_join "/run" STATE_FILE_NAME) o ->
    may_read no_files (path_join "/run" STATE_FILE_NAME) o \/ o = Some (snapshot_to_string (from_store some_store))).
Proof.
  destruct (save_crash_atomic disk_ok some_store "/run" no_files) as (Hc & Hr & _); [|by split].
  intros f [Hf|Hf]; simpl in Hf; by rewrite lookup_empty in Hf.
Defined.

Lemma save_then_load_witness :
  exists d', save_to_disk disk_ok some_store "/run" no_files = Returns d' (Ok tt) /\
    load_from_disk disk_ok "/run" d' = Returns d' (Ok some_store).
Proof.
  eexists. split; [reflexivity|]. by apply (save_then_load disk_ok disk_ok some_store "/run" no_files).
Defined.

(** A document of the format version 7. *)
Definition future : StateSnapshot Tree :=
  {| version := 7; snap_networks := ∅; snap_ports := ∅; snap_ipam_records := ∅; snap_dhcp_leases := ∅;
     snap_publish_table := pt_empty |}.

Lemma version_guard_witness : deserialize_snapshot (snapshot_to_string future) = Err (VersionMismatch 2 7).
Proof.
  destruct (snapshot_roundtrip_law future) as (v & Hp & Ho & Hn & Hs); [vm_compute; intuition congruence|].
  exact (version_guard (snapshot_to_string future) v 7 future Hp Ho Hn Hs).
Defined.

(** ** The control socket *)
Definition no_plane : Memory.MemoryControlPlane Tree := Memory.new.
Definition quiet_line : connection := {| line_in := Ok ("{" +:+ String "010" EmptyString); write_ok := Ok tt |}.

Lemma connection_answered_witness :
  exists cp' n body, handle_connection quiet_line no_plane = Returns cp' (Ok (n, body)) /\ memory_ok cp'.
Proof.
  destruct (connection_answered (V := Tree) quiet_line ("{" +:+ String "010" EmptyString) no_plane)
    as (cp' & n & body & H & Hok & _); [exact memory_new_ok|reflexivity..|]. by exists cp', n, body.
Defined.

Lemma serve_survives_witness :
  exists cp' log, serve_loop (Ok <$> [quiet_line; quiet_line]) no_plane = Returns cp' (Ok tt, log) /\
    memory_ok cp' /\ length log = 2%nat.
Proof.
  destruct (serve_survives (V := Tree) [quiet_line; quiet_line] no_plane) as (cp' & log & H & Hok & Hlen);
    [exact memory_new_ok|]. exists cp', log. exact (conj H (conj Hok Hlen)).
Defined.

Lemma request_roundtrip_witness :
  parse_request (request_to_string (Request_new "GetPort" (Some (Obj [("name", Str "p1")])) (Num 1 : Tree))) =
    Ok (Request_new "GetPort" (Some (Obj [("name", Str "p1")])) (Num 1)).
Proof.
  rewrite (request_roundtrip "GetPort" (Some (Obj [("name", Str "p1")])) (Num 1 : Tree)).
  - by vm_compute.
  - intros Hx. discriminate Hx.
Defined.

(** ** The services *)
Definition discover_a : list Z := client_packet Discover mac_a 0 None.
Definition request_a : list Z := client_packet DhcpRequest mac_a 0 (Some (ip_new 10 0 0 10)).
Definition msg_of (packet : list Z) : WireMessage := default {| wire_header := {| opcode := BootReply; ethernet := true;
  hlen := 6; xid := 0; flags := 0; ciaddr := 0; yiaddr := 0; chaddr := [] |}; wire_opts := [] |} (wire_decode packet).

Lemma discover_offers_binding_witness :
  exists r s', Dhcp.handle (M := WireMessage) (DhcpServer_new lab_ipam) discover_a = Val (r, s') /\ is_Some r.
Proof.
  destruct (discover_offers_binding (DhcpServer_new lab_ipam) discover_a (msg_of discover_a) mac_a) as (r & s' & Hh & Hc).
  - exact lab_ipam_ok.
  - repeat constructor; vm_compute; congruence.
  - unfold client_message. split_and!; [vm_compute; lia|by vm_compute..].
  - exists r, s'. split; [exact Hh|]. vm_compute in Hh. injection Hh as <- <-. by eexists.
Defined.

Definition lab_entry : NetworkEntry Tree := {| ne_ipam := lab_ipam; created_with := Null |}.

(** The lease reserved for [mac_a] is acknowledged. *)
Lemma dhcp_acks_reserved_only_witness :
  exists out b sender ip,
    dhcp_answer (M := WireMessage) lab_entry mac_a hello request_a =
      Val (Some (wrap_udp_reply b sender (ip_new 10 0 0 1) ip DHCP_SERVER_PORT DHCP_CLIENT_PORT)) /\
    to_vec out = Some b /\ is_lease lab (msg_of request_a) out (ip_new 10 0 0 10) Ack.
Proof.
  destruct (dhcp_acks_reserved_only lab_entry mac_a hello request_a (msg_of request_a) mac_a) as
    (out & b & sender & ip & H & Ho & Hcase).
  - exact lab_ipam_ok.
  - repeat constructor; vm_compute; congruence.
  - unfold client_message. split_and!; [vm_compute; lia|by vm_compute..].
  - rewrite decide_True in Hcase by (by vm_compute).
    replace (requested_ip (msg_of request_a)) with (ip_new 10 0 0 10) in Hcase by (by vm_compute).
    exists out, b, sender, ip. exact (conj H (conj Ho Hcase)).
Defined.

Lemma reader_reassembles_witness :
  read_passt_frames [] [[0; 0; 0; 2; 7]; [8; 0; 0]; [0; 1; 9]] = ([[7; 8]; [9]], Some []).
Proof.
  apply (reader_reassembles [[7; 8]; [9]]); [|reflexivity].
  apply Forall_cons; split; [|apply Forall_singleton];
    (unfold readable, MAX_PASST_PENDING; cbn [length]; split; [left|]; lia).
Defined.

Lemma reader_dies_on_runt_witness : read_passt_frames [] [encode_frame [1; 2; 3; 4; 5; 6] ++ []] = ([], None).
Proof. apply (reader_dies_on_runt [1; 2; 3; 4; 5; 6] []). simpl. lia. Defined.

Lemma udp_reply_reads_back_witness :
  parse_ipv4 (wrap_udp_reply [1; 2; 3] mac_a (ip_new 10 0 0 1) (ip_new 10 0 0 10) 67 68) =
    Val (Some {| ip_src := ip_new 10 0 0 1; ip_dst := ip_new 10 0 0 10; ip_proto := IPPROTO_UDP;
      ip_payload := [0; 67; 0; 68; 0; 11; 0; 0; 1; 2; 3] |}).
Proof.
  apply (udp_reply_reads_back [1; 2; 3] mac_a (ip_new 10 0 0 1) (ip_new 10 0 0 10) 67 68);
    vm_compute; intuition congruence.
Defined.

Definition ping : list Z :=
  octets (gateway_mac_addr (ip_new 10 0 0 1)) ++ octets mac_a ++ u16_to_be ETHERTYPE_IPV4 ++
  ipv4_packet ([0; 0; 32; 0; 1; 0; 0] ++ [64]) IPPROTO_ICMP [0; 0] (ip_new 10 0 0 10) (ip_new 10 0 0 1)
    (echo_body ICMP_ECHO_REQUEST 0 [1; 2] [0; 1; 0; 1; 97]).

Lemma echo_reply_correct_witness :
  exists reply, icmp_echo_reply (ip_new 10 0 0 1) mac_a ping = Val (Some reply) /\
    inet_checksum (take 20 (drop 14 reply)) = 0 /\ inet_checksum (drop 34 reply) = 0.
Proof.
  destruct (echo_reply_correct (octets (gateway_mac_addr (ip_new 10 0 0 1)) ++ octets mac_a) [0; 0; 32; 0; 1; 0; 0] [0; 0]
    [0; 1; 0; 1; 97] 64 0 1 2 (ip_new 10 0 0 10) (ip_new 10 0 0 1) mac_a) as (reply & ck & H & _ & _ & H1 & H2);
    [done|done|done|vm_compute; intuition congruence|vm_compute; intuition congruence|simpl; lia
    |vm_compute; congruence|repeat constructor; vm_compute; congruence|repeat constructor; vm_compute; congruence
    |vm_compute; intuition congruence|].
  exists reply. exact (conj H (conj H1 H2)).
Defined.

(** ** Configuration and start *)
Definition some_env (k : string) : option string :=
  if decide (k = "K8NETD_PUBLISH_RANGE") then Some "30000-30010"
  else if decide (k = "K8NETD_UPSTREAM_DNS") then Some "9.9.9.9, 1.1.1.1" else None.

Definition some_flags : Flags :=
  {| f_socket_dir := Some "/s"; f_passt_binary := None; f_upstream_dns := None; f_mtu := Some 9000 |}.
Definition some_config : Config :=
  {| cfg_socket_dir := "/s"; passt_binary := "passt"; upstream_dns := [ip_new 9 9 9 9; ip_new 1 1 1 1]; mtu := 9000;
     port_forwards := []; cfg_publish_range := (30000, 30010) |}.

Lemma resolve_sound_witness : is_u16 (mtu some_config) /\ upstream_dns some_config <> [].
Proof.
  destruct (resolve_sound some_flags some_env some_config) as (_ & _ & _ & Hne & _ & Hm & _);
    [intros m [= <-]; vm_compute; intuition congruence|by vm_compute|]. exact (conj Hm Hne).
Defined.

(** The configured publish range is read and then ignored. *)
Definition deaf : Ipv4Addr -> UpstreamSender := fun _ _ => Err Timeout.
Definition fresh : World Tree :=
  upd (set_dns (DnsForwarder_new (deaf <$> [ip_new 9 9 9 9; ip_new 1 1 1 1]))) (from_parts "/s" no_files pt_empty).

Lemma start_state_witness :
  exists flags cfg, parse_flags ["--socket-dir"; "/s"] = Ok flags /\ resolve flags some_env = Ok cfg /\
    publish_range (inner fresh) = DEFAULT_PUBLISH_RANGE.
Proof.
  destruct (start_state "1.0" "abc" ["--socket-dir"; "/s"] some_env deaf disk_ok no_files "/s/control.sock" fresh)
    as (flags & cfg & d & store & _ & Hf & Hc & _ & _ & _ & Hr & _); [reflexivity|].
  exists flags, cfg. exact (conj Hf (conj Hc Hr)).
Defined.

(** ** A virtqueue *)
Definition tx_ring : MemRing := {| mr_chains := [ {| mc_head := 0; mc_flags := 0; mc_bytes := Ok (encode_driver_tx [1; 2]); mc_cap := 0 |};
    {| mc_head := 1; mc_flags := 0; mc_bytes := Ok [0; 0]; mc_cap := 0 |} ];
  mr_at := 0; mr_completed := []; mr_buffers := ∅ |}.

Lemma tx_publishes_frames_witness :
  exists q r, service_tx {| ring := tx_ring; channel := []; sent := [] |} =
      Returns {| ring := q; channel := []; sent := [FromVm [1; 2]] |} r /\ completed q = [(0, 14); (1, 0)].
Proof.
  destruct (tx_publishes_frames {| ring := tx_ring; channel := []; sent := [] |} [Some [1; 2]; None]) as (q & r & H & _ & Hc & _).
  - reflexivity.
  - constructor; [by apply carries_frame|]. constructor; [|constructor].
    apply (carries_runt _ _ _ [0; 0]); [reflexivity|reflexivity|simpl; lia].
  - exists q, r. exact (conj H Hc).
Defined.

Definition rx_chain (h : Z) : MemChain := {| mc_head := h; mc_flags := 2; mc_bytes := Ok []; mc_cap := 64 |}.
Definition rx_ring : MemRing :=
  {| mr_chains := [rx_chain 0; rx_chain 1]; mr_at := 0; mr_completed := []; mr_buffers := ∅ |}.

Lemma rx_delivers_frames_witness :
  exists q r, service_rx {| ring := rx_ring; channel := [VhostPort.ToVm [1; 2]]; sent := [] |} =
      Returns {| ring := q; channel := []; sent := [] |} r /\
    posted q = [rx_chain 1] /\ decode_driver_rx (buffer q (rx_chain 0)) = Some [1; 2].
Proof.
  destruct (rx_delivers_frames {| ring := rx_ring; channel := [VhostPort.ToVm [1; 2]]; sent := [] |} (fun _ => 64%nat) [[1; 2]])
    as (q & r & H & Hp & _ & Hb & _).
  - reflexivity.
  - reflexivity.
  - repeat constructor.
  - apply NoDup_ListNoDup. repeat constructor; simpl; intuition congruence.
  - exists q, r. split; [exact H|]. split; [exact Hp|].
    apply (Hb 0%nat (rx_chain 0) [1; 2]); [reflexivity|reflexivity|simpl; lia].
Defined.

(** ** A daemon with one network and one port *)
Definition calm : Env := {|
  env_disk := disk_ok; env_bind := true;
  env_spawn := {| so_socketpair := Ok (10, 11); so_child := Ok 77 |};
  env_polls := [(Passt.Exited, false)]; env_now := 0 |}.

Lemma calm_runs : running calm.
Proof. intros c t. discriminate. Qed.

Definition start_world : World Tree := from_parts "/s" no_files pt_empty.

Lemma pt_empty_unique : pt_unique pt_empty.
Proof. intros p v p' v' h Hg. unfold pt_get in Hg. simpl in Hg. by rewrite lookup_empty in Hg. Qed.

Lemma start_ok : world_ok start_world.
Proof. apply from_parts_ok, pt_empty_unique. Qed.

Definition create_port_params : Tree := Obj [("name", Str "p1")].

Lemma requests_keep_invariant_witness :
  exists w r, create_port calm create_port_params start_world = Returns w r /\ world_ok w.
Proof.
  apply (requests_keep_invariant calm "CreatePort" (create_port calm) create_port_params start_world);
    [exact calm_runs|exact start_ok|vm_compute; intuition congruence|reflexivity].
Defined.

(** The lab network is known. *)
Definition with_lab : World Tree :=
  upd (set_networks (insert "lab" {| ne_ipam := Ipam_new lab; created_with := Null |}))
    (upd (set_gateway (fun x => gw_add_network x lab)) start_world).

Lemma with_lab_ok : world_ok with_lab.
Proof. apply (add_network_ok "lab" lab Null); [exact start_ok|reflexivity|apply Ipam_new_ok, lab_wf]. Qed.

Definition free_port : LivePort := {| lp_id := 1; lp_network := None; lp_mac := None; lp_nic := None |}.

(** And a port that is not attached. *)
Definition with_port : World Tree :=
  upd (fun g => set_ports (insert "p1" free_port) (set_names (insert 1 "p1")
    (set_switch (fun s => add_port s 1 "") (set_next_port_id 2 g)))) with_lab.

Lemma with_port_ok : world_ok with_port.
Proof. apply (new_port_ok "p1" (inner with_lab)); [exact with_lab_ok|reflexivity|vm_compute; intuition congruence]. Qed.

Definition attach_params : Tree :=
  Obj [("port", Str "p1"); ("network", Str "lab"); ("mac", Str "02:00:00:00:00:01")].

Lemma attach_effect_witness :
  exists w r, attach_port calm attach_params with_port = Returns w r /\ (r = Ok Null \/ r = Err Internal) /\
    joined (inner w) "p1" 1 "lab" mac_a.
Proof.
  destruct (attach_effect calm with_port attach_params "p1" "lab" "02:00:00:00:00:01" mac_a free_port
    {| ne_ipam := Ipam_new lab; created_with := Null |} (ip_new 10 0 0 10) lab_ipam) as (w & r & H & Hr & Hj & _);
    [exact calm_runs|exact with_port_ok|reflexivity|reflexivity|reflexivity|reflexivity|by vm_compute|reflexivity
    |reflexivity|reflexivity|by vm_compute|].
  exists w, r. exact (conj H (conj Hr Hj)).
Defined.

(** The port attached, with its address reserved and one port published. *)
Definition joined_port : LivePort :=
  {| lp_id := 1; lp_network := Some "lab"; lp_mac := Some mac_a; lp_nic := Some mac_a |}.
Definition one_published : PublishTable := {| entries := {["p1" := {[80 := 20000]}]} |}.
Definition attached_world : World Tree :=
  upd (fun g => set_table one_published (set_gateway (fun x => gw_add_port x 1 "lab")
    (set_switch (fun s => add_port s 1 "lab") (set_ports (insert "p1" joined_port)
      (set_networks (insert "lab" {| ne_ipam := lab_ipam; created_with := Null |}) g))))) with_port.

Lemma attached_world_at :
  attached_at (inner attached_world) "p1" "lab" joined_port mac_a {| ne_ipam := lab_ipam; created_with := Null |} (ip_new 10 0 0 10).
Proof. split_and!; [reflexivity|reflexivity|reflexivity|reflexivity|by vm_compute]. Qed.

Lemma publish_effect_witness :
  exists w r, publish_port calm (Obj [("port", Str "p1"); ("vm_port", Num 443)]) attached_world = Returns w r /\
    pt_get (publish_table (inner w)) "p1" 443 = Some 20001.
Proof.
  pose proof (publish_effect calm attached_world (Obj [("port", Str "p1"); ("vm_port", Num 443)]) "p1" "lab" 443 joined_port mac_a
    {| ne_ipam := lab_ipam; created_with := Null |} (ip_new 10 0 0 10) calm_runs eq_refl eq_refl eq_refl attached_world_at) as Hx.
  remember (pt_allocate (publish_table (inner attached_world)) "p1" 443 (publish_range (inner attached_world))) as at_ eqn:Hat.
  assert (Hfst : at_.1 = Some 20001) by (rewrite Hat; by vm_compute).
  destruct at_ as [a t]. simpl in Hfst. subst a. destruct Hx as (w & r & H & Ht & Hg & _).
  exists w, r. rewrite Ht. exact (conj H Hg).
Defined.

Lemma delete_port_clears_witness :
  exists w r, delete_port calm create_port_params attached_world = Returns w r /\ ports (inner w) !! "p1" = None.
Proof.
  destruct (delete_port_clears calm attached_world create_port_params "p1" joined_port) as (w & r & H & [Hp _] & _);
    [exact calm_runs|reflexivity|reflexivity|reflexivity|].
  exists w, r. split; [exact H|]. rewrite Hp. apply lookup_delete_eq.
Defined.

Lemma unpublish_last_stops_passt_witness :
  exists w r, unpublish_port calm (Obj [("port", Str "p1"); ("vm_port", Num 80)]) attached_world = Returns w r /\
    attached_at (inner w) "p1" "lab" joined_port mac_a {| ne_ipam := lab_ipam; created_with := Null |} (ip_new 10 0 0 10).
Proof.
  destruct (unpublish_last_stops_passt calm attached_world (Obj [("port", Str "p1"); ("vm_port", Num 80)]) "p1" "lab" 80 20000
    joined_port mac_a {| ne_ipam := lab_ipam; created_with := Null |} (ip_new 10 0 0 10)
    (pt_remove one_published "p1" 80).2) as (w & r & H & _ & Ha & _);
    [exact calm_runs|reflexivity|reflexivity|reflexivity|exact attached_world_at|by vm_compute|by vm_compute|].
  exists w, r. exact (conj H Ha).
Defined.

(** The network is deleted under the port. *)
Definition orphaned : World Tree := upd (set_networks (delete "lab")) attached_world.

Lemma detach_deleted_network_witness :
  exists w, detach_port calm create_port_params orphaned = Returns w (Err NotFound) /\
    pt_get (publish_table (inner w)) "p1" 80 = Some 20000.
Proof.
  destruct (detach_deleted_network calm orphaned create_port_params "p1" "lab" mac_a joined_port) as
    (w & H & _ & _ & _ & Ht & _); [reflexivity|reflexivity|reflexivity|reflexivity|reflexivity|reflexivity|].
  exists w. split; [exact H|]. rewrite Ht. by vm_compute.
Defined.

(** A daemon whose state file is up to date. *)
Definition saved_world : World Tree :=
  set_disk {| live := {[path_join "/s" STATE_FILE_NAME :=
      {| contents := snapshot_to_string (from_store (to_store (inner start_world))); synced := true |}]}; stable := ∅ |}
    start_world.

Lemma saved_world_saved : saved saved_world.
Proof. exists true. reflexivity. Qed.

Definition port_saved : World Tree := run_state (create_port calm create_port_params saved_world).

Lemma port_created : create_port calm create_port_params saved_world = Returns port_saved (Ok Null).
Proof. reflexivity. Qed.

Lemma success_is_durable_witness :
  load_from_disk disk_ok "/s" (disk port_saved) = Returns (disk port_saved) (Ok (to_store (inner port_saved))).
Proof.
  apply (success_is_durable calm calm "CreatePort" (create_port calm) create_port_params Null saved_world port_saved);
    [exact calm_runs|exact saved_world_saved|reflexivity|discriminate|exact port_created|reflexivity].
Defined.

Lemma restart_restores_table_only_witness :
  try_new disk_ok "/s" (disk saved_world) = Some (Ok (from_parts (V := Tree) "/s" (disk saved_world) pt_empty)).
Proof. apply (restart_restores_table_only calm saved_world saved_world_saved). reflexivity. Defined.

(** ** The running daemon *)
Definition get_port_request : Request Tree := Request_new "GetPort" (Some create_port_params) (Num 1).
Definition create_request : Request Tree := Request_new "CreatePort" (Some create_port_params) (Num 1).

(** After one request: the port exists and its pump runs. *)
Definition one_port : World Tree := settle (@dispatch (World Tree) Tree _ (dataplane calm) create_request start_world).

Lemma one_port_reachable : reachable (M := WireMessage) 1 one_port.
Proof. exact (reach_step 0 _ _ _ (reach_start "/s" no_files pt_empty pt_empty_unique) (step_request calm create_request start_world calm_runs)). Qed.

Lemma pump_running : PumpStarted "p1" 1 ∈ trace one_port.
Proof. by vm_compute; repeat constructor. Qed.

Lemma hello_bytes : bytes_ok hello.
Proof. repeat constructor; vm_compute; congruence. Qed.

Definition after_hello : World Tree := settle (pump_frame (M := WireMessage) "p1" 1 hello one_port).

Lemma daemon_consistent_witness : world_ok one_port /\ pumps_ok one_port.
Proof.
  destruct (daemon_consistent (M := WireMessage) 1 one_port one_port_reachable) as (Hw & Hp & _); [vm_compute; congruence|].
  exact (conj Hw Hp).
Defined.

Lemma daemon_isolated_witness :
  exists evs, trace after_hello = trace one_port ++ evs /\
    Forall (pump_event (inner one_port) "p1" hello) evs.
Proof.
  apply (daemon_isolated (M := WireMessage) 1 one_port after_hello (LFrame "p1" 1 hello) one_port_reachable);
    [vm_compute; congruence|exact (step_frame "p1" 1 hello one_port pump_running hello_bytes)].
Defined.

Lemma daemon_poisoned_iff_witness :
  poisoned after_hello = true <-> poisoned one_port = true \/ deadly (inner one_port) (LFrame "p1" 1 hello).
Proof.
  apply (daemon_poisoned_iff (M := WireMessage) 1 one_port after_hello (LFrame "p1" 1 hello) one_port_reachable);
    [vm_compute; congruence|exact (step_frame "p1" 1 hello one_port pump_running hello_bytes)].
Defined.
