(* ===== verification/Scenarios.v ===== *)
(** * Witnesses, continued

    The theorems on lifetimes, sessions, wake-ups, supervision, answers and
    the way of a frame between two guests, applied to concrete runs. *)
From S2P Require Import Prelude RustStd Model Ipam Json Protocol StateStore Server.
From S2P Require Import Frame MacTable Engine Gateway Dhcp Dns Passt Packet VhostPort.
From S2P Require Import Dataplane Control Config Pump Daemon Witnesses.
From S2P Require Session Lifecycle Wakeup Recovery.
From S2P Require Import Transit Replies Supervision.
Import Dp.

(** ** Two guests on the lab network *)

(** A daemon whose disk is full: requests still change the live state. *)
Definition full_disk : Env := {|
  env_disk := fun _ => Fails "full" EmptyString; env_bind := true;
  env_spawn := {| so_socketpair := Ok (10, 11); so_child := Ok 77 |};
  env_polls := []; env_now := 0 |}.

Lemma full_disk_runs : running full_disk.
Proof. intros c t. discriminate. Qed.

Definition request (method : string) (params : list (string * Tree)) : Request Tree :=
  Request_new method (Some (Obj params)) (Num 1).

Definition after (w : World Tree) (req : Request Tree) : World Tree :=
  settle (@dispatch (World Tree) Tree _ (dataplane full_disk) req w).

Definition requests : list (Request Tree) := [
  request "CreateNetwork" [("name", Str "lab"); ("cidr", Str "10.0.0.0/24"); ("gateway", Str "10.0.0.1");
                           ("poolStart", Str "10.0.0.10"); ("poolEnd", Str "10.0.0.20")];
  request "CreatePort" [("name", Str "p1")];
  request "CreatePort" [("name", Str "p2")];
  request "AttachPort" [("port", Str "p1"); ("network", Str "lab"); ("mac", Str "02:00:00:00:00:01")];
  request "AttachPort" [("port", Str "p2"); ("network", Str "lab"); ("mac", Str "02:00:00:00:00:02")]
]%string.

Definition two_guests : World Tree := foldl after start_world requests.

Lemma reach_after n w req : reachable (M := WireMessage) n w -> reachable (M := WireMessage) (S n) (after w req).
Proof. intros Hr. eapply reach_step; [exact Hr|]. apply step_request, full_disk_runs. Qed.

Lemma two_guests_reachable : reachable (M := WireMessage) 5 two_guests.
Proof.
  unfold two_guests, requests. cbn [foldl]. do 5 apply reach_after. exact (reach_start "/s" no_files pt_empty pt_empty_unique).
Qed.

Lemma two_guests_ok : world_ok two_guests.
Proof. apply (d_world 5), (reachable_ok (M := WireMessage) 5); [exact two_guests_reachable|reflexivity]. Qed.

Definition port_1 : LivePort := {| lp_id := 1; lp_network := Some "lab"; lp_mac := Some mac_a; lp_nic := Some mac_a |}.
Definition port_2 : LivePort := {| lp_id := 2; lp_network := Some "lab"; lp_mac := Some mac_b; lp_nic := Some mac_b |}.

Lemma two_guests_ports : ports (inner two_guests) !! "p1"%string = Some port_1 /\ ports (inner two_guests) !! "p2"%string = Some port_2.
Proof. split; reflexivity. Qed.

Definition hello_parsed : ParsedFrame :=
  {| dst := Mac 255 255 255 255 255 255; src := mac_a; ethertype := 0x1234; payload := [1; 2; 3] |}.

Lemma hello_transit : transit (M := WireMessage) (inner two_guests) "p1" 1 hello.
Proof. apply (transit_other _ _ _ _ 0x1234); [reflexivity|discriminate|reflexivity|reflexivity]. Qed.

Lemma hello_delivers :
  delivers {| Engine.ports := Engine.ports (switch (inner two_guests));
              table := learn (table (switch (inner two_guests))) 1 (src hello_parsed) |} 1 hello_parsed 2.
Proof. exists "lab"%string. split_and!; [reflexivity|reflexivity|congruence|]. left. by vm_compute. Qed.

Lemma switch_eta (s : Switch) : s = {| Engine.ports := Engine.ports s; table := table s |}.
Proof. by destruct s. Qed.

Lemma transit_exact_witness :
  exists w evs, pump_frame (M := WireMessage) "p1" 1 hello two_guests = Returns w (Ok tt) /\
    trace w = trace two_guests ++ evs /\ queued_for "p2" evs = [hello] /\ queued_for "p1" evs = [].
Proof.
  destruct (transit_exact (M := WireMessage) "p1" 1 hello two_guests "lab" hello_parsed) as
    (w & s & evs & H & _ & Ht & Hp & Htab & Hq);
    [exact two_guests_ok|reflexivity|exact hello_transit|reflexivity|reflexivity|].
  exists w, evs. split_and!; [exact H|exact Ht| |].
  - apply (Hq "p2"%string port_2 (proj2 two_guests_ports)). rewrite (switch_eta s), Hp, Htab. exact hello_delivers.
  - apply (Hq "p1"%string port_1 (proj1 two_guests_ports)). intros (n & _ & _ & Hne & _). by apply Hne.
Defined.

Definition sender : PortState MemRing :=
  {| ring := {| mr_chains := [{| mc_head := 0; mc_flags := 0; mc_bytes := Ok (encode_driver_tx hello); mc_cap := 0 |}];
                mr_at := 0; mr_completed := []; mr_buffers := ∅ |}; channel := []; sent := [] |}.
Definition receiver : PortState MemRing := {| ring := rx_ring; channel := []; sent := [] |}.

Lemma guest_to_guest_witness :
  exists evs s r, service_rx (enqueue (queued_for "p2" evs) receiver) = Returns s r /\
    decode_driver_rx (buffer (ring s) (rx_chain 0)) = Some hello.
Proof.
  destruct (guest_to_guest (M := WireMessage) two_guests "p1" "p2" port_1 port_2 "lab" hello hello_parsed sender receiver
    {| mc_head := 0; mc_flags := 0; mc_bytes := Ok (encode_driver_tx hello); mc_cap := 0 |} (rx_chain 0)
    (fun _ => 64%nat) []) as (sa & ra & w & evs & sb & rb & _ & _ & _ & _ & Hrx & Hread & _).
  - exact two_guests_ok.
  - reflexivity.
  - exact (proj1 two_guests_ports).
  - exact (proj2 two_guests_ports).
  - reflexivity.
  - reflexivity.
  - exact hello_transit.
  - exact hello_delivers.
  - reflexivity.
  - reflexivity.
  - by apply carries_frame.
  - reflexivity.
  - reflexivity.
  - repeat constructor.
  - apply NoDup_ListNoDup. repeat constructor; simpl; intuition congruence.
  - reflexivity.
  - simpl. lia.
  - exists evs, sb, rb. exact (conj Hrx Hread).
Defined.

(** ** Wake-ups *)
Definition empty_ring : MemRing := {| mr_chains := []; mr_at := 0; mr_completed := []; mr_buffers := ∅ |}.

Definition asleep : Wakeup.RxState (Q := MemRing) :=
  {| Wakeup.port := {| ring := empty_ring; channel := []; sent := [] |}; Wakeup.memory := false; Wakeup.notify := 0;
     Wakeup.kicked := false; Wakeup.unnotified := 0; Wakeup.unkicked := 0; Wakeup.busy := false |}.

(** Memory is published, the guest posts a buffer, a frame is queued. *)
Definition both_waiting : Wakeup.RxState (Q := MemRing) :=
  Wakeup.send [1; 2] (Wakeup.post {| mr_chains := [rx_chain 0]; mr_at := 0; mr_completed := []; mr_buffers := ∅ |}
    (Wakeup.update_memory asleep)).

Lemma both_waiting_reachable : Wakeup.rx_reachable both_waiting.
Proof.
  unfold both_waiting. eapply Wakeup.rx_more; [|apply Wakeup.rx_send].
  eapply Wakeup.rx_more; [|apply (Wakeup.rx_post (rx_chain 0)); reflexivity].
  eapply Wakeup.rx_more; [|apply Wakeup.rx_memory]. exact (Wakeup.rx_start empty_ring eq_refl).
Qed.

Lemma no_lost_wakeup_witness : Wakeup.pending both_waiting.
Proof. apply (Wakeup.no_lost_wakeup both_waiting both_waiting_reachable); discriminate. Defined.

Lemma queued_frames_reach_guest_witness :
  exists n s, (n <= 3)%nat /\ Wakeup.rx_steps n both_waiting s /\ channel (Wakeup.port s) = [].
Proof.
  destruct (Wakeup.queued_frames_reach_guest both_waiting (fun _ => 64%nat) both_waiting_reachable) as
    (n & s & frames & Hn & Hs & Hf & Hc & _).
  - reflexivity.
  - discriminate.
  - discriminate.
  - split_and!; [reflexivity|repeat constructor|apply NoDup_singleton].
  - exists n, s. split; [exact Hn|]. split; [exact Hs|]. rewrite Hc.
    destruct frames as [|f [|f' fs]]; [discriminate|reflexivity|discriminate].
Defined.

(** ** Lifetimes *)
(** A file system in which [./p] is [p], and listeners that remove their path. *)
Definition without_dot (n : string) : string :=
  match n with String "." (String "/" r) => r | _ => n end.

Lemma without_dot_plain (n : string) : Lifecycle.plain n = true -> without_dot n = n.
Proof.
  intros Hp. destruct n as [|[[] [] [] [] [] [] [] []] [|[[] [] [] [] [] [] [] []] r]]; try done.
Qed.

Lemma without_dot_inj (n m : string) :
  Lifecycle.plain n = true -> Lifecycle.plain m = true -> without_dot n = without_dot m -> n = m.
Proof. intros Hn Hm. by rewrite !without_dot_plain. Qed.

#[export] Instance dot_host : Lifecycle.Host := {|
  Lifecycle.entry := without_dot;
  Lifecycle.listener_unlinks := true;
  Lifecycle.entry_plain := without_dot_inj;
|}.

Definition one_life : Lifecycle.Life := Lifecycle.create "p1" Lifecycle.start.

Lemma one_life_lives : Lifecycle.lives true true one_life.
Proof.
  eapply Lifecycle.lives_step; [apply Lifecycle.lives_start|]. apply Lifecycle.life_create.
  - intros _ g r Hr. discriminate Hr.
  - intros _. split; [reflexivity|]. intros g r s Hr. discriminate Hr.
Qed.

(** Its port is deleted, its reader ends and drops the [VhostPort], its thread
    is stranded, and the name is created again. *)
Definition stranded_life : Lifecycle.Life :=
  Lifecycle.reader_end 1 (Lifecycle.reader_poll 1 (Lifecycle.delete_port true "p1"
    (Lifecycle.session_step 1 (Session.goto Session.Accept Session.fresh)
      (Lifecycle.session_step 1 (Session.goto Session.Create Session.fresh) one_life)))).

Lemma stranded_readers : Lifecycle.readers stranded_life = {[1%nat := ("p1"%string, Lifecycle.Gone)]}.
Proof. by vm_compute. Qed.

Definition two_lives : Lifecycle.Life := Lifecycle.create "p1" stranded_life.

Lemma two_lives_lives : Lifecycle.lives true true two_lives.
Proof.
  eapply Lifecycle.lives_step; [|apply Lifecycle.life_create].
  - eapply Lifecycle.lives_step; [|apply Lifecycle.life_end]. eapply Lifecycle.lives_step; [|apply Lifecycle.life_poll].
    eapply Lifecycle.lives_step; [|apply Lifecycle.life_delete].
    eapply Lifecycle.lives_step; [|apply (Lifecycle.life_session _ _ Session.Good false 1 (Session.goto Session.Create Session.fresh)); [reflexivity|reflexivity|reflexivity]].
    eapply Lifecycle.lives_step; [exact one_life_lives|].
    apply (Lifecycle.life_session _ _ Session.Good false 1 Session.fresh); reflexivity.
  - intros _ g r Hr. rewrite stranded_readers in Hr. by apply lookup_singleton_Some in Hr as [_ [= <-]].
  - intros _. split; [reflexivity|]. intros g r s Hr Hs. rewrite stranded_readers in Hr.
    apply lookup_singleton_Some in Hr as [<- _]. vm_compute in Hs. injection Hs as <-. by right.
Qed.

Lemma ports_keep_their_sockets_witness : Lifecycle.sockets two_lives !! "p1"%string = Some 2%nat.
Proof. apply (Lifecycle.ports_keep_their_sockets two_lives "p1" 2 two_lives_lives). reflexivity. Defined.

(** A client has connected. *)
Definition client_life : Lifecycle.Life := Lifecycle.set_session (Session.connect true) 1 one_life.

Lemma client_life_lives : Lifecycle.lives true true client_life.
Proof. eapply Lifecycle.lives_step; [exact one_life_lives|]. by apply (Lifecycle.life_client true true 1 "p1"). Qed.

Lemma live_port_serves_witness :
  exists s k s', Lifecycle.sessions client_life !! 1%nat = Some s /\ (k <= 7)%nat /\ Session.alone k s s' /\
    Session.at_point s' = Session.Serving.
Proof.
  destruct (Lifecycle.live_port_serves true client_life "p1" 1 client_life_lives) as (_ & s & Hs & Hserve); [reflexivity|].
  assert (s = Session.connect true Session.fresh) as -> by (vm_compute in Hs; by injection Hs as <-).
  destruct (Hserve true []) as (k & s' & Hk & Ha & Hp & _); [reflexivity|by intros []|].
  exists (Session.connect true Session.fresh), k, s'. exact (conj Hs (conj Hk (conj Ha Hp))).
Defined.

Lemma drop_ends_session_witness :
  let s := Session.goto Session.Exited (Session.drop_port true Session.fresh) in
  Session.runs 1 (Session.drop_port true Session.fresh) s /\ (1 <= 4)%nat.
Proof.
  assert (Hr : Session.runs 1 (Session.drop_port true Session.fresh)
    (Session.goto Session.Exited (Session.drop_port true Session.fresh))).
  { eapply (Session.runs_thread Session.Good false); [reflexivity|apply Session.runs_here]. }
  split; [exact Hr|]. exact (proj1 (Session.drop_ends_session 1 Session.fresh _ Hr)).
Defined.

(** The port's thread waits for a frontend. *)
Definition idle_session : Session.Session := Session.goto Session.Accept Session.fresh.
Definition idle_life : Lifecycle.Life := Lifecycle.set_session (fun _ => idle_session) 1 one_life.

Lemma deleted_port_leaks_thread_witness :
  let l' := Lifecycle.reader_end 1 (Lifecycle.reader_poll 1 (Lifecycle.delete_port true "p1" idle_life)) in
  exists s', Lifecycle.sessions l' !! 1%nat = Some s' /\ Session.stop s' = true.
Proof.
  destruct (Lifecycle.deleted_port_leaks_thread idle_life "p1" 1 idle_session) as (_ & s' & Hs & Hst & _);
    [reflexivity|reflexivity|reflexivity|reflexivity|reflexivity|].
  exists s'. exact (conj Hs Hst).
Defined.

Lemma recreated_port_has_two_readers_witness :
  let l := one_life in
  let l' := Lifecycle.reader_poll 1 (Lifecycle.reader_poll 2 (Lifecycle.start_passt "p1"
    (Lifecycle.create "p1" (Lifecycle.delete_port true "p1" l)))) in
  Lifecycle.readers l' !! 1%nat = Some ("p1"%string, Lifecycle.Reading 0).
Proof.
  destruct (Lifecycle.recreated_port_has_two_readers one_life "p1" 1) as (_ & Hr & _);
    [reflexivity|reflexivity|vm_compute; lia|]. exact Hr.
Defined.

(** ** Answers *)
Lemma start_typed : typed (inner start_world).
Proof.
  split; simpl.
  - intros n lp Hn. by rewrite lookup_empty in Hn.
  - repeat split; vm_compute; (lia || done).
  - split; vm_compute; intuition congruence.
  - intros p v h Hg. unfold pt_get in Hg. simpl in Hg. by rewrite lookup_empty in Hg.
Qed.

Lemma answers_well_typed_witness :
  exists w r, create_port full_disk create_port_params start_world = Returns w r /\ typed (inner w).
Proof.
  destruct (answers_well_typed full_disk "CreatePort" (create_port full_disk) create_port_params start_world) as
    (w & r & H & Ht & _); [exact full_disk_runs|exact start_ok|exact start_typed|reflexivity|].
  exists w, r. exact (conj H Ht).
Defined.

(** ** Supervision *)
Definition passt_config : PasstConfig := passt_config_for "10.0.0.10" "255.255.255.0" "10.0.0.1" ∅.
Definition live_slot : PasstSlot :=
  {| desired := passt_config; live_proc := Some {| pp_pid := 77; pp_stream := 10; served_fd := 11 |}; failures := 0;
     next_retry := None; uplink_mac := None |}.
Definition with_passt : World Tree := upd (set_passts (insert "p1"%string live_slot)) start_world.
Definition at_time (t : Z) : Env := {| env_disk := disk_ok; env_bind := true;
  env_spawn := {| so_socketpair := Ok (10, 11); so_child := Ok 78 |}; env_polls := []; env_now := t |}.
Definition later : Env := at_time 2000.

(** Found dead at 0, looked at again after 99 ms, and run again after 100. *)
Lemma crashed_passt_returns_witness :
  exists w1 w2, supervise_all [(calm, Passt.Exited); (at_time 99, Passt.Running)] "p1" with_passt = Returns w1 (Ok tt) /\
    supervise_passt (at_time 100) Passt.Running "p1" w1 = Returns w2 (Ok tt) /\
    live_proc <$> passts (inner w2) !! "p1"%string = Some (Some {| pp_pid := 78; pp_stream := 10; served_fd := 11 |}).
Proof.
  destruct (crashed_passt_returns with_passt "p1" live_slot {| pp_pid := 77; pp_stream := 10; served_fd := 11 |}
    {| pp_pid := 78; pp_stream := 10; served_fd := 11 |} calm (at_time 100) Passt.Running [(at_time 99, Passt.Running)]
    (Some (passt_argv passt_config 11)) [11]) as (w1 & w2 & H1 & _ & _ & H2 & Hp & _);
    [reflexivity|simpl; lia|reflexivity|by repeat constructor|simpl; lia|reflexivity|].
  exists w1, w2. split; [exact H1|]. split; [exact H2|]. rewrite Hp. reflexivity.
Defined.

Lemma crash_loop_never_backs_off_witness :
  failures (tick_slots [(calm, Passt.Exited); (later, Passt.Running)] live_slot).2 <= 1.
Proof.
  apply (crash_loop_never_backs_off [(calm, Passt.Exited); (later, Passt.Running)] live_slot); [reflexivity|reflexivity|].
  constructor; [by do 3 eexists|]. constructor; [by do 3 eexists|constructor].
Defined.

(** ** A client that comes back *)
Import Recovery.

(** Two receive buffers were taken off the ring, none was completed. *)
Definition dropped_ring : MemRing := mr_step rx_ring 2.

Lemma recovery_serves_in_flight_witness :
  exists q r, service_rx {| ring := dropped_ring; channel := [VhostPort.ToVm [1; 2]]; sent := [] |} =
      Returns {| ring := q; channel := []; sent := [] |} r /\
    completed q = [(0, 14)] /\ posted q = [rx_chain 1] /\ in_flight q = 0%nat.
Proof.
  destruct (recovery_serves_in_flight {| ring := dropped_ring; channel := [VhostPort.ToVm [1; 2]]; sent := [] |}
    (fun _ => 64%nat) [[1; 2]]) as (q & r & H & Hc & Hp & _ & Hi & _).
  - repeat split; vm_compute; (lia || done).
  - reflexivity.
  - reflexivity.
  - reflexivity.
  - repeat constructor.
  - apply NoDup_ListNoDup. repeat constructor; simpl; intuition congruence.
  - exists q, r. exact (conj H (conj Hc (conj Hp Hi))).
Defined.

(** The first buffer is in flight; the guest has posted the second. *)
Definition late_ring : MemRing := mr_step rx_ring 1.

Lemma late_recovery_replays_witness :
  exists q r, service_rx {| ring := late_ring; channel := [VhostPort.ToVm [7]]; sent := [] |} =
      Returns {| ring := q; channel := []; sent := [] |} r /\
    completed q = [(1, 13)] /\ posted (rewind q) = [rx_chain 1].
Proof.
  destruct (late_recovery_replays {| ring := late_ring; channel := [VhostPort.ToVm [7]]; sent := [] |}
    (fun _ => 64%nat) [[7]]) as (q & r & H & Hc & _ & Hp).
  - repeat split; vm_compute; (lia || done).
  - vm_compute. lia.
  - reflexivity.
  - reflexivity.
  - reflexivity.
  - repeat constructor.
  - apply NoDup_ListNoDup. repeat constructor; simpl; intuition congruence.
  - exists q, r. exact (conj H (conj Hc Hp)).
Defined.

(** Two services later the guest holds one buffer twice and has lost the other. *)
Example late_twice :
  let s1 := run_state (service_rx {| ring := late_ring; channel := [VhostPort.ToVm [7]]; sent := [] |}) in
  let s2 := run_state (service_rx {| ring := ring s1; channel := [VhostPort.ToVm [8; 9]]; sent := [] |}) in
  completed (ring s2) = [(1, 13); (1, 14)] /\ decode_driver_rx (buffer (ring s2) (rx_chain 1)) = Some [8; 9].
Proof. vm_compute. done. Qed.
