(* ===== verification/Conversations.v ===== *)
(** * Witnesses, continued

    The theorems on conversations with the control planes and on the life of
    an address, applied to concrete requests. *)
From S2P Require Import Prelude RustStd Model Ipam Json Protocol StateStore Server.
From S2P Require Import Frame MacTable Engine Gateway Dhcp Dns Passt Packet Dataplane Control ControlLoop Registry Planes Addresses.
From S2P Require Import Pump Datagrams Leases Daemon Witnesses Scenarios.
Import Dp.

(** ** The registry *)
Lemma empty_memory_named : named (Memory.new : Memory.MemoryControlPlane Tree).
Proof. intros name p Hp. simpl in Hp. by rewrite lookup_empty in Hp. Qed.

Lemma planes_refine_registry_witness :
  (exists s' rs, converse (pair Memory.memory_plane <$> requests) Memory.new = Returns s' rs /\
     Registry.trace False (memory_registry Memory.new) (zip requests rs) (memory_registry s')) /\
  (exists w' rs, daemon_talks (zip [calm; full_disk; calm; calm; full_disk] requests) start_world = Returns w' rs /\
     Registry.trace True (dp_registry (inner start_world)) (zip requests rs) (dp_registry (inner w'))).
Proof.
  apply (planes_refine_registry requests Memory.new [calm; full_disk; calm; calm; full_disk] start_world).
  - exact memory_new_ok.
  - exact empty_memory_named.
  - repeat constructor; (exact calm_runs || exact full_disk_runs).
  - reflexivity.
  - reflexivity.
Defined.

(** ** A published port *)
Definition publish_443 : Request Tree := request "PublishPort" [("port", Str "p1"); ("vm_port", Num 443)]%string.
Definition meanwhile : list (Env * Request Tree) := [
  (full_disk, request "UnpublishPort" [("port", Str "p1"); ("vm_port", Num 80)]);
  (calm, request "CreatePort" [("name", Str "p2")]);
  (full_disk, request "DeletePort" [("name", Str "p2")]);
  (calm, request "PublishPort" [("port", Str "p2"); ("vm_port", Num 443)])
]%string.
Definition host_20001 : Tree := Obj [("host_port"%string, Num 20001)].
Definition answers : list (Response Tree) :=
  [respond (Num 1) (Err Internal); respond (Num 1) (Ok Null); respond (Num 1) (Err Internal); respond (Num 1) (Err NotFound)].

Definition told_world : World Tree :=
  settle (daemon_talks ((calm, publish_443) :: meanwhile ++ [(calm, publish_443)]) attached_world).

Lemma settled {A} (r : run (World Tree) A) a :
  match r with Returns _ b => b = a | Panics _ => False end -> r = Returns (settle r) a.
Proof. destruct r; [by intros ->|done]. Qed.

Lemma one_published_unique : pt_unique one_published.
Proof.
  assert (Hone : forall p v h, pt_get one_published p v = Some h -> p = "p1"%string /\ v = 80).
  { intros p v h Hg. unfold pt_get in Hg. apply bind_Some in Hg as (m & Hm & Hv).
    apply (lookup_singleton_Some "p1"%string p {[80 := 20000]} m) in Hm as [<- <-]. by apply lookup_singleton_Some in Hv as [<- _]. }
  intros p v p' v' h Hg Hg'. destruct (Hone _ _ _ Hg) as [-> ->]. by destruct (Hone _ _ _ Hg') as [-> ->].
Qed.

Lemma host_port_stable_witness :
  pt_get (publish_table (inner told_world)) "p1" 443 = Some 20001.
Proof.
  destruct (host_port_stable meanwhile calm publish_443 calm publish_443 attached_world told_world
    (respond (Num 1) (Ok host_20001)) answers (respond (Num 1) (Ok host_20001)) "p1" 443 host_20001 host_20001)
    as (h & Hh & _ & Hp & _).
  - unfold told_world. apply settled. vm_compute. reflexivity.
  - reflexivity.
  - repeat constructor; (exact calm_runs || exact full_disk_runs).
  - reflexivity.
  - exact one_published_unique.
  - by vm_compute.
  - by vm_compute.
  - repeat constructor; intros [(Hm & Hp & Hv)|[Hm Hn]]; vm_compute in *; try congruence; set_solver.
  - reflexivity.
  - reflexivity.
  - injection Hh as <-. exact Hp.
Defined.

(** ** From an attachment to a lease *)
Definition lease_frame (packet : list Z) : list Z :=
  (octets (Mac 255 255 255 255 255 255) ++ octets mac_a) ++ u16_to_be ETHERTYPE_IPV4 ++
  ipv4_packet [0; 1; 44; 0; 0; 0; 0; 64] IPPROTO_UDP [0; 0] ip_unspecified ip_broadcast
    (u16_to_be DHCP_CLIENT_PORT ++ u16_to_be DHCP_SERVER_PORT ++ u16_to_be (8 + zlen packet) ++ [0; 0] ++ packet).

Lemma lease_frame_ok packet : 8 + zlen packet <= u16_max -> dhcp_frame mac_a packet (lease_frame packet).
Proof. intros Hlen. exists ip_unspecified, ip_broadcast. by constructor. Qed.

Lemma attach_then_lease_witness :
  exists w1 r offer ack, attach_port calm attach_params with_port = Returns w1 r /\ (r = Ok Null \/ r = Err Internal) /\
    leases lab (msg_of discover_a) mac_a (ip_new 10 0 0 10) Offer offer /\
    leases lab (msg_of request_a) mac_a (ip_new 10 0 0 10) Ack ack /\
    (_ ← pump_frame (M := WireMessage) "p1" 1 (lease_frame discover_a);
     pump_frame (M := WireMessage) "p1" 1 (lease_frame request_a)) w1 =
      Returns (log (ToVm "p1" ack) (log (ToVm "p1" offer) w1)) (Ok tt).
Proof.
  destruct (attach_then_lease calm with_port attach_params "p1" "lab" "02:00:00:00:00:01" mac_a free_port
    {| ne_ipam := Ipam_new lab; created_with := Null |} (ip_new 10 0 0 10) lab_ipam 1 discover_a request_a
    (lease_frame discover_a) (lease_frame request_a) (msg_of discover_a) (msg_of request_a))
    as (w1 & r & offer & ack & H1 & H2 & H3 & H4 & H5 & _);
    [exact calm_runs|exact with_port_ok|reflexivity|reflexivity|reflexivity|reflexivity|by vm_compute|reflexivity
    |reflexivity|reflexivity|by vm_compute|..].
  - apply lease_frame_ok. vm_compute. congruence.
  - unfold client_message. split_and!; [vm_compute; lia|by vm_compute..].
  - apply lease_frame_ok. vm_compute. congruence.
  - unfold client_message. split_and!; [vm_compute; lia|by vm_compute..].
  - by vm_compute.
  - exists w1, r, offer, ack. exact (conj H1 (conj H2 (conj H3 (conj H4 H5)))).
Defined.

(** The guest keeps its address over the same requests. *)
Definition held_world : World Tree := settle (daemon_talks meanwhile attached_world).

Lemma attached_world_holds :
  holds "p1" "lab" mac_a (ip_new 10 0 0 10) (ports (inner attached_world)) (networks (inner attached_world)).
Proof.
  split_and!.
  - exists joined_port. by vm_compute.
  - exists {| ne_ipam := lab_ipam; created_with := Null |}. by vm_compute.
  - intros other lp Hp _ _. simpl in Hp. apply lookup_insert_Some in Hp as [[<- _]|[_ Hp]]; [done|].
    apply lookup_insert_Some in Hp as [[<- _]|[_ Hp]]; [done|]. by rewrite lookup_empty in Hp.
Qed.

Lemma address_kept_witness :
  holds "p1" "lab" mac_a (ip_new 10 0 0 10) (ports (inner held_world)) (networks (inner held_world)).
Proof.
  apply (address_kept "p1" "lab" mac_a (ip_new 10 0 0 10) meanwhile attached_world held_world answers).
  - exact attached_world_holds.
  - repeat constructor; (exact calm_runs || exact full_disk_runs).
  - repeat constructor; intros [[Hm Hn]|[[Hm _]|[[Hm _]|[Hm _]]]]; vm_compute in *; try congruence; set_solver.
  - unfold held_world. apply settled. vm_compute. reflexivity.
Defined.

(** A second port with the same MAC, and the end of the first one's address. *)
Definition twin : LivePort := {| lp_id := 2; lp_network := Some "lab"; lp_mac := Some mac_a; lp_nic := Some mac_a |}%string.

Lemma shared_mac_loses_address_witness :
  exists w r, delete_port calm (Obj [("name", Str "p2")]) (upd (set_ports (insert "p2" twin)) attached_world) = Returns w r /\
    reserved_ip (inner w) "p1" = Err NotFound.
Proof.
  destruct (shared_mac_loses_address calm (upd (set_ports (insert "p2" twin)) attached_world) (Obj [("name", Str "p2")])
    "p1" "p2" "lab" joined_port twin mac_a {| ne_ipam := lab_ipam; created_with := Null |} (ip_new 10 0 0 10))
    as (w & r & H & _ & _ & Hr);
    [exact calm_runs|reflexivity|reflexivity|congruence|split_and!; [reflexivity..|by vm_compute]|reflexivity|reflexivity|reflexivity|].
  exists w, r. exact (conj H Hr).
Defined.

(** ** The control loop *)
Definition memory_loop : Type := Loop (C := Memory.MemoryControlPlane Tree).

Definition client (text : string) (g : option (result string unit)) : Client := {| written := text; gone := g |}.
Definition lf : string := String "010" EmptyString.

(** A client that sent a line, one that left, and one that says nothing. *)
Definition three_clients : memory_loop := {| plane := Memory.new; reading := None; backlog := [1; 2; 3]%nat;
  clients := <[1%nat := client ("{" +:+ lf) None]> (<[2%nat := client "" (Some (Ok tt))]> (<[3%nat := client "{" None]> ∅));
  answered := [] |}.

Definition next (l : memory_loop) : memory_loop :=
  match turn (Ok tt) l with Some (Returns l' _) => l' | _ => l end.

Lemma step_next (l : memory_loop) :
  match turn (Ok tt) l with Some (Returns _ _) => True | _ => False end -> ControlLoop.step None l (next l).
Proof.
  intros Hl. apply (step_turn (Ok tt)). unfold next. by destruct (turn (Ok tt) l) as [[l' []|]|].
Qed.

Definition moves : list (option (nat * act)) := [None; None; Some (4%nat, Connects); None; None].

Definition served_two : memory_loop := next (next (acts 4 Connects (next (next three_clients)))).

Lemma served_two_steps : ControlLoop.steps moves three_clients served_two.
Proof. repeat (econstructor; [first [apply step_client | apply step_next; by vm_compute]|]). constructor. Qed.

Lemma backlog_answered_witness :
  exists log, answered served_two = zip [1; 2]%nat log /\ reading served_two = None.
Proof.
  destruct (backlog_answered three_clients [1; 2]%nat [3]%nat [Ok ("{" +:+ lf); Ok ""]) as [_ Hany].
  - exact memory_new_ok.
  - reflexivity.
  - reflexivity.
  - repeat constructor; eexists; (split; [reflexivity|reflexivity]).
  - destruct (Hany moves served_two served_two_steps eq_refl) as (conns & log & Hl & Hs & Ha & Hr & _).
    exists log. exact (conj Ha Hr).
Defined.

(** The third client is accepted and says nothing more. *)
Definition waiting : memory_loop := next served_two.

Lemma silent_client_blocks_witness :
  stuck_on 3 (acts 4 (Writes ("{" +:+ lf)) waiting) /\ answered (acts 4 (Writes ("{" +:+ lf)) waiting) = answered waiting.
Proof.
  destruct (silent_client_blocks 3 [Some (4%nat, Writes ("{" +:+ lf))] waiting (acts 4 (Writes ("{" +:+ lf)) waiting))
    as (Hs & _ & Ha).
  - split; [by vm_compute|]. exists (client "{" None). by vm_compute.
  - repeat constructor. congruence.
  - econstructor; [constructor|constructor].
  - exact (conj Hs Ha).
Defined.
