(* ===== verification/Journeys.v ===== *)
(** * Witnesses, concluded

    The theorems on the ways between a guest, its gateway and the world,
    applied to the two guests of the lab network. *)
From S2P Require Import Prelude RustStd Model Ipam Json Protocol StateStore Server.
From S2P Require Import Frame MacTable Engine Gateway Dhcp Dns Passt Packet VhostPort.
From S2P Require Import Dataplane Control Crash Config Pump Daemon Lives Replies Client Witnesses Transit Scenarios Datagrams Wan Resolution Presence.
Import Dp.
#[local] Open Scope string_scope.

Definition lab_of_two : NetworkEntry Tree :=
  match networks (inner two_guests) !! "lab" with Some e => e | None => {| ne_ipam := lab_ipam; created_with := Null |} end.

Lemma p1_attachment : attachment (inner two_guests) "p1" = Some (lab_of_two, mac_a).
Proof. by vm_compute. Qed.

Definition p1_slot : PasstSlot :=
  match passts (inner two_guests) !! "p1" with Some s => s
  | None => {| desired := passt_config_for "" "" "" ∅; live_proc := None; failures := 0; next_retry := None; uplink_mac := None |} end.

Lemma p1_slot_eq : passts (inner two_guests) !! "p1" = Some p1_slot.
Proof. by vm_compute. Qed.

Definition p1_passt : PasstProc := {| pp_pid := 77; pp_stream := 10; served_fd := 11 |}.
Lemma p1_passt_live : live_proc p1_slot = Some p1_passt.
Proof. by vm_compute. Qed.

Definition lab_gw : Ipv4Addr := ip_new 10 0 0 1.
Lemma lab_gw_eq : net_gateway (ipam_network (ne_ipam lab_of_two)) = lab_gw.
Proof. by vm_compute. Qed.

(** A transmit ring with one chain per frame. *)
Definition tx_chain (head : Z) (frame : list Z) : MemChain :=
  {| mc_head := head; mc_flags := 0; mc_bytes := Ok (encode_driver_tx frame); mc_cap := 0 |}.

Definition tx_port (chains : list MemChain) : PortState MemRing :=
  {| ring := {| mr_chains := chains; mr_at := 0; mr_completed := []; mr_buffers := ∅ |}; channel := []; sent := [] |}.

(** A receive ring with two buffers of [cap] bytes. *)
Definition rx_buffer (cap : nat) (head : Z) : MemChain := {| mc_head := head; mc_flags := 2; mc_bytes := Ok []; mc_cap := cap |}.
Definition rx_port (cap : nat) : PortState MemRing :=
  {| ring := {| mr_chains := [rx_buffer cap 0; rx_buffer cap 1]; mr_at := 0; mr_completed := []; mr_buffers := ∅ |};
     channel := []; sent := [] |}.

(** ** Guest to world *)
Definition to_world (proto : Z) : list Z :=
  eth_frame (gateway_mac_addr lab_gw) mac_a ETHERTYPE_IPV4
    (ipv4_packet [0; 0; 40; 0; 0; 0; 0; 64] proto [0; 0] (ip_new 10 0 0 10) (ip_new 1 1 1 1) [1; 187; 0; 80; 0; 9; 0; 0; 7]).

Lemma to_world_bound proto : proto = 6 \/ proto = 17 -> wan_bound (ipam_network (ne_ipam lab_of_two)) (to_world proto).
Proof.
  intros Hproto. split.
  - by destruct Hproto as [-> | ->].
  - rewrite lab_gw_eq. eexists. split; [by apply parse_eth_frame|]. split_and!; [done|done|].
    eexists 69, _. split_and!; [reflexivity|reflexivity|vm_compute; congruence|]. destruct Hproto as [-> | ->]; vm_compute; congruence.
  - rewrite lab_gw_eq. intros ip Hip. destruct Hproto as [-> | ->]; vm_compute in Hip; injection Hip as <-;
      (split; [by vm_compute|]); by intros (_ & Hs & _); vm_compute in Hs.
Qed.

Definition two_turns : list turn :=
  [ {| received := Some (VhostPort.FromVm (to_world 6)); due := None |};
    {| received := None; due := Some (calm, Running) |};
    {| received := Some (VhostPort.FromVm (to_world 17)); due := Some (calm, Running) |} ].

Lemma guest_to_world_witness :
  exists w, pump_loop (M := WireMessage) "p1" 1 two_turns two_guests = Returns w (Ok tt) /\
    trace w = (trace two_guests ++ [ToWan 77 (encode_frame (to_world 6)); ToWan 77 (encode_frame (to_world 17))])%list.
Proof.
  destruct (guest_to_world (M := WireMessage) two_guests "p1" port_1 lab_of_two mac_a p1_slot p1_passt [to_world 6; to_world 17]
    (tx_port [tx_chain 0 (to_world 6); tx_chain 1 (to_world 17)])) as (sa & ra & Htx & _ & _ & Hrun).
  - exact two_guests_ok.
  - reflexivity.
  - exact (proj1 two_guests_ports).
  - exact p1_attachment.
  - exact p1_slot_eq.
  - exact p1_passt_live.
  - apply Forall_cons; split; [apply to_world_bound; by left|]. apply Forall_singleton, to_world_bound. by right.
  - apply Forall_cons; split; [|apply Forall_singleton]; unfold MAX_PASST_PENDING; apply Nat2Z.inj_le; vm_compute; congruence.
  - reflexivity.
  - reflexivity.
  - repeat constructor.
  - assert (Hsent : arrivals two_turns = sent sa).
    { vm_compute in Htx. injection Htx as <- _. reflexivity. }
    destruct (Hrun two_turns) as (w & evs & Hpump & _ & _ & Ht & Hevs & _);
      [repeat constructor|exact Hsent|].
    exists w. split; [exact Hpump|]. rewrite Ht, Hevs. reflexivity.
Defined.

(** ** World to guest, and back *)
Definition passt_mac : MacAddr := Mac 154 85 154 85 154 85.
Definition from_world (n : Z) : list Z := eth_frame mac_a passt_mac 0x0806 [0; 1; n].
Definition back : list Z := eth_frame passt_mac mac_a 0x1234 [4; 5].

(** The two frames, read in pieces of three sizes. *)
Definition pieces : list (list Z) :=
  let stream := (encode_frame (from_world 1) ++ encode_frame (from_world 2))%list in
  [take 2 stream; take 30 (drop 2 stream); drop 32 stream].

Lemma back_passes : passes (M := WireMessage) (inner two_guests) "p1" 1 back.
Proof. apply (passes_other _ _ _ _ 0x1234); [reflexivity|discriminate|reflexivity]. Qed.

Lemma world_to_guest_witness :
  exists w s r, read_connection "p1" pieces two_guests = Returns w (Ok tt) /\
    service_rx (enqueue [from_world 1; from_world 2] (rx_port 64)) = Returns s r /\
    decode_driver_rx (buffer (ring s) (rx_buffer 64 1)) = Some (from_world 2) /\
    pump_frame (M := WireMessage) "p1" 1 back w = Returns (log (ToWan 77 (encode_frame back)) w) (Ok tt).
Proof.
  destruct (world_to_guest (M := WireMessage) two_guests "p1" port_1 p1_slot [from_world 1; from_world 2] pieces
    (rx_port 64) (fun _ => 64%nat) []) as (w & evs & s & r & Hrun & _ & Hevs & Hrx & Hread & Hback).
  - reflexivity.
  - exact (proj1 two_guests_ports).
  - exact p1_slot_eq.
  - apply Forall_cons; split; [|apply Forall_singleton]; (split; [right; vm_compute; lia|]);
      unfold MAX_PASST_PENDING; apply Nat2Z.inj_le; vm_compute; congruence.
  - by vm_compute.
  - reflexivity.
  - reflexivity.
  - repeat constructor.
  - apply NoDup_ListNoDup. repeat constructor; simpl; intuition congruence.
  - rewrite Hevs in Hrx. rewrite queued_for_self in Hrx. exists w, s, r.
    refine (conj Hrun (conj Hrx (conj _ _))).
    + apply (Hread 1%nat); [reflexivity|reflexivity|vm_compute; lia].
    + apply (Hback (octets passt_mac) p1_passt 1 back); [by vm_compute|exact p1_passt_live|exact back_passes|vm_compute; lia|reflexivity].
Defined.

(** ** A question *)
Definition query : list Z := [18; 52; 1; 0; 0; 1; 0; 0; 0; 0; 0; 0; 1; 97; 0; 0; 1; 0; 1].
Definition answer : list Z := [18; 52; 129; 128; 0; 1; 0; 1; 0; 0; 0; 0; 1; 97; 0; 0; 1; 0; 1].

(** One upstream is silent, the next gives a stray answer, the third answers. *)
Definition three_upstreams : list UpstreamSender :=
  [fun _ => Err Timeout; fun _ => Ok query; fun _ => Ok answer].

Definition resolving : World Tree := upd (set_dns (DnsForwarder_new three_upstreams)) two_guests.

Lemma dns_ok (w : World Tree) d : world_ok w -> world_ok (upd (set_dns d) w).
Proof. intros [D1 D2 D3 D4 D5 D6 D7]. by split. Qed.

Lemma resolving_ok : world_ok resolving.
Proof. exact (dns_ok _ _ two_guests_ok). Qed.

Definition query_frame : list Z :=
  (octets (gateway_mac_addr lab_gw) ++ octets mac_a) ++ u16_to_be ETHERTYPE_IPV4 ++
  ipv4_packet [0; 0; 47; 0; 0; 0; 0; 64] IPPROTO_UDP [0; 0] (ip_new 10 0 0 10) lab_gw
    (u16_to_be 5353 ++ u16_to_be DNS_PORT ++ u16_to_be (8 + zlen query) ++ [0; 0] ++ query).

Lemma resolving_attachment : attachment (inner resolving) "p1" = Some (lab_of_two, mac_a).
Proof. by vm_compute. Qed.

Lemma resolving_port : ports (inner resolving) !! "p1" = Some port_1.
Proof. by vm_compute. Qed.

Lemma query_frame_ok : udp_frame mac_a (ip_new 10 0 0 10) lab_gw 5353 DNS_PORT query query_frame.
Proof. constructor; try reflexivity; vm_compute; intuition congruence. Qed.

Lemma question_answered_witness :
  exists r reply s ra, answer_due (DnsForwarder_new three_upstreams) query 4660 r /\
    pump_frame (M := WireMessage) "p1" 1 query_frame resolving = Returns (log (ToVm "p1" reply) resolving) (Ok tt) /\
    service_rx (enqueue [reply] (rx_port 128)) = Returns s ra.
Proof.
  destruct (question_answered (M := WireMessage) resolving "p1" port_1 lab_of_two mac_a mac_a (ip_new 10 0 0 10) 5353 query
    query_frame (u16_to_be 4660 ++ [128; 2] ++ replicate 8 0)%list {| dns_id := 4660; is_response := false; no_queries := false |}
    (tx_port [tx_chain 0 query_frame]) (rx_port 128) (tx_chain 0 query_frame) (rx_buffer 128 0) (fun _ => 128%nat))
    as (sa & ra & r & reply & sb & rb & Hdue & _ & _ & Hpump & Hrx & _).
  - exact resolving_ok.
  - reflexivity.
  - exact resolving_port.
  - exact resolving_attachment.
  - rewrite lab_gw_eq. exact query_frame_ok.
  - vm_compute. congruence.
  - reflexivity.
  - reflexivity.
  - reflexivity.
  - reflexivity.
  - reflexivity.
  - reflexivity.
  - by apply carries_frame.
  - reflexivity.
  - reflexivity.
  - repeat constructor.
  - apply NoDup_ListNoDup. repeat constructor; simpl; intuition congruence.
  - reflexivity.
  - exists r, reply, sb, rb. exact (conj Hdue (conj Hpump Hrx)).
Defined.

(** ** The gateway *)
Lemma gateway_present_witness :
  exists told pong,
    (_ ← pump_frame (M := WireMessage) "p1" 1 (who_has (Mac 255 255 255 255 255 255) mac_a (ip_new 10 0 0 10) (Mac 0 0 0 0 0 0)
       (net_gateway (ipam_network (ne_ipam lab_of_two))) [0; 0]);
     pump_frame (M := WireMessage) "p1" 1 (ping (gateway_mac_addr (net_gateway (ipam_network (ne_ipam lab_of_two)))) mac_a
       [0; 0; 32; 0; 0; 0; 0] [0; 0] 64 (ip_new 10 0 0 10) (net_gateway (ipam_network (ne_ipam lab_of_two))) 0 0 0 [0; 1; 0; 2; 9; 9; 9; 9]))
      two_guests = Returns (log (ToVm "p1" pong) (log (ToVm "p1" told) two_guests)) (Ok tt) /\
    take 6 pong = octets mac_a /\ inet_checksum (drop 34 pong) = 0.
Proof.
  destruct (gateway_present (M := WireMessage) two_guests "p1" port_1 lab_of_two mac_a (Mac 255 255 255 255 255 255) mac_a (Mac 0 0 0 0 0 0)
    (ip_new 10 0 0 10) (ip_new 10 0 0 10) [0; 0] [0; 0; 32; 0; 0; 0; 0] [0; 0] [0; 1; 0; 2; 9; 9; 9; 9] 64 0 0 0)
    as (told & pong & ck & Hrun & _ & _ & Hto & _ & Hck & _).
  - exact two_guests_ok.
  - reflexivity.
  - exact (proj1 two_guests_ports).
  - exact p1_attachment.
  - vm_compute. intuition congruence.
  - vm_compute. intuition congruence.
  - reflexivity.
  - reflexivity.
  - simpl. lia.
  - vm_compute. congruence.
  - rewrite lab_gw_eq. apply bytes_ok_list. by vm_compute.
  - exists told, pong. exact (conj Hrun (conj Hto Hck)).
Defined.

(** ** A power loss *)

(** The machine stops when the directory is to be synced, after the rename. *)
Definition power_cut : Env := {|
  env_disk := fun c => match c with SyncDir _ => Stops "" | _ => Done end; env_bind := true;
  env_spawn := {| so_socketpair := Ok (10, 11); so_child := Ok 78 |}; env_polls := []; env_now := 0 |}.

Definition publish_http : Tree := Obj [("port", Str "p1"); ("vm_port", Num 80)].

Definition cut_world : World Tree := run_state (publish_port power_cut publish_http two_guests).

(** The disk keeps what the running system saw, or what it had written. *)
Definition kept (m : gmap string file) : fs :=
  let f := (fun x => {| contents := contents x; synced := true |}) <$> m in {| live := f; stable := f |}.

Lemma kept_live d : survives d (kept (live d)).
Proof.
  intros p. exists (contents <$> live d !! p). unfold may_read, kept. simpl. rewrite lookup_fmap.
  split_and!; [|by destruct (live d !! p)|done].
  exists (live d !! p). split; [by left|]. destruct (live d !! p); simpl; [by eexists|done].
Qed.

Lemma two_guests_durable : durable two_guests.
Proof. apply unsaved_durable; by vm_compute. Qed.

Lemma published_ports_survive_witness :
  exists t w, try_new disk_ok (socket_dir cut_world) (kept (live (disk cut_world))) = Some (Ok w) /\
    w = from_parts (socket_dir cut_world) (kept (live (disk cut_world))) t /\
    (t = publish_table (inner two_guests) \/ t = publish_table (inner cut_world)).
Proof.
  destruct (published_ports_survive power_cut calm "PublishPort" (publish_port power_cut) publish_http two_guests
    (kept (live (disk cut_world)))) as (t & w & Htry & Hw & _ & Ht & _).
  - exact two_guests_durable.
  - reflexivity.
  - exact (kept_live (disk cut_world)).
  - intros c. reflexivity.
  - exists t, w. exact (conj Htry (conj Hw Ht)).
Defined.

(** ** Two lives *)
Definition boot (d : fs) : option (started Tree) :=
  start "1.0" "unknown" ["--socket-dir"; "/s"] (fun _ => None) (fun _ _ => Err Timeout) disk_ok d.

Definition up (o : option (started Tree)) : World Tree :=
  match o with Some (Serving _ w) => w | _ => start_world end.

Lemma comes_up d sock :
  match boot d with Some (Serving s _) => s = sock | _ => False end -> boots d (up (boot d)).
Proof.
  intros Hs. exists "1.0", "unknown", ["--socket-dir"; "/s"], (fun _ => None), (fun _ _ => Err Timeout), calm, sock.
  split; [done|]. change (start _ _ _ _ _ _ _) with (boot d). destruct (boot d) as [[| |s w]|]; try done. by subst.
Qed.

Definition life_1 : World Tree := up (boot no_files).
Definition lab_request : Request Tree :=
  request "CreateNetwork" [("name", Str "lab"); ("cidr", Str "10.0.0.0/24"); ("gateway", Str "10.0.0.1");
                           ("poolStart", Str "10.0.0.10"); ("poolEnd", Str "10.0.0.20")].
Definition with_network : World Tree := after_request calm lab_request life_1.

Lemma life_1_lives : life (M := WireMessage) 0 [publish_table (inner life_1)] life_1.
Proof.
  apply (first_life no_files); [by vm_compute|by vm_compute|]. apply (comes_up no_files "/s/control.sock"). by vm_compute.
Qed.

Lemma with_network_lives : life (M := WireMessage) 1 [publish_table (inner with_network)] with_network.
Proof.
  apply (life_kept 0 (publish_table (inner life_1))); [exact life_1_lives|reflexivity|intros c t; discriminate|].
  left. intros c. reflexivity.
Qed.

(** The disk is full when a port is created. *)
Definition port_request : Request Tree := Request_new "CreatePort" (Some create_port_params) (Num 2).
Definition with_port : World Tree := after_request full_disk port_request with_network.

Lemma with_port_lives :
  life (M := WireMessage) 2 [publish_table (inner with_port); publish_table (inner with_network)] with_port.
Proof. apply life_request; [exact with_network_lives|reflexivity|exact full_disk_runs]. Qed.

(** The power fails, and the daemon is started again. *)
Lemma lives_consistent_witness :
  world_ok with_port /\
  exists t w, boot (kept (live (disk with_port))) = Some (Serving "/s/control.sock" w) /\ publish_table (inner w) = t /\
    t ∈ [publish_table (inner with_port); publish_table (inner with_network)].
Proof.
  destruct (lives_consistent (M := WireMessage) 2 _ with_port with_port_lives) as (Hw & _ & _ & _ & Hboot).
  assert (Hdir : socket_dir with_port = "/s") by (by vm_compute). split; [exact Hw|].
  destruct (Hboot "1.0" "unknown" ["--socket-dir"; "/s"] (fun _ => None) (fun _ _ => Err Timeout) calm
    (kept (live (disk with_port)))
    {| f_socket_dir := Some "/s"; f_passt_binary := None; f_upstream_dns := None; f_mtu := None |}
    {| cfg_socket_dir := "/s"; passt_binary := DEFAULT_PASST_BINARY; upstream_dns := [ip_new 1 1 1 1; ip_new 8 8 8 8];
       mtu := DEFAULT_MTU; port_forwards := []; cfg_publish_range := DEFAULT_PUBLISH_RANGE |}
    (kept_live (disk with_port)) (fun c => eq_refl) eq_refl eq_refl eq_refl (eq_sym Hdir)) as (t & Ht & _ & _ & Hx).
  rewrite Hdir in Hx. eexists t, _. split; [exact Hx|]. split; [reflexivity|exact Ht].
Defined.

(** ** A call *)
Definition call_line : connection :=
  {| line_in := Ok (request_to_string (Request_new "CreatePort" (Some create_port_params) (Num 7)) +:+ newline); write_ok := Ok tt |}.

Lemma remote_call_witness :
  exists w text resp, handle_connection (H1 := dataplane full_disk) call_line start_world = Returns w (Ok (1%nat, text +:+ newline)) /\
    response_from_str text = Some resp /\ rs_id resp = Num 7.
Proof.
  destruct (remote_call full_disk start_world "CreatePort" (create_port full_disk) create_port_params (Num 7) call_line)
    as (w & text & resp & r & Hrun & _ & Hresp & Hid & _);
    [exact full_disk_runs|exact start_ok|exact start_typed|vm_compute; intuition congruence|reflexivity|discriminate|discriminate
    |reflexivity|reflexivity|].
  exists w, text, resp. exact (conj Hrun (conj Hresp Hid)).
Defined.
