(* ===== verification/Tests.v ===== *)
(** * The repository's unit tests, on the definitions: the harness and the core

    A test is a command on the object it exercises; it passes when it returns
    without a panic, as in the test runner.  Modules are named after the source
    file, tests after the test function.  This file: crates/k8netd-core/src/model.rs
    and ipam.rs. *)
From S2P Require Import Prelude RustStd Model Ipam.
Open Scope string_scope.
Open Scope Z_scope.

(** ** The harness *)
Section Harness.
Context {S : Type}.

(** A method on [&mut self], and one on [&self]. *)
Definition call {A} (f : S -> A * S) : cmd S string A := fun s => let '(a, s') := f s in Returns s' (Ok a).
Definition look {A} (f : S -> A) : cmd S string A := fun s => Returns s (Ok (f s)).

(** [assert!], [assert_eq!], [unwrap] and [expect_err]. *)
Definition assert (b : bool) : cmd S string unit := unwrap (if b then Some tt else None).
Definition assert_eq {A} `{EqDecision A} (x y : A) : cmd S string unit := assert (bool_decide (x = y)).
Definition expect {E A} (r : result E A) : cmd S string A := unwrap (ok r).
Definition no_panic {A} (m : may_panic A) : cmd S string A := unwrap (match m with Val a => Some a | Panic => None end).
Definition is_err {E A} (r : result E A) : bool := negb (is_ok r).

(** A test on the object that [o] makes. *)
Definition on {E} (o : result E S) (t : cmd S string unit) : bool :=
  match o with
  | Ok s => match t s with Returns _ (Ok _) => true | _ => false end
  | Err _ => false
  end.
End Harness.

(** A test without an object. *)
Definition test (t : cmd unit string unit) : bool := on (E := unit) (Ok tt) t.

Definition all_pass (l : list bool) : Prop := forallb (fun b => b) l = true.

(** The constructors that the test modules share. *)
Definition ip (a b c d : Z) : Ipv4Addr := ip_new a b c d.
Definition mac {S} (s : string) : cmd S string MacAddr := expect (parse_mac s).

(** ** crates/k8netd-core/src/model.rs *)
Module ModelTests.
Definition lab_pool : result ModelError IpPool := IpPool_new (ip 192 168 124 10) (ip 192 168 124 200).

(** [Network::new] with the lab pool, or with [pool]. *)
Definition with_pool (pool : result ModelError IpPool) (name cidr gateway : string) : cmd unit string (result ModelError Network) :=
  p ← expect pool; mret (Network_new name cidr gateway p).
Definition rejects (pool : result ModelError IpPool) (name cidr gateway : string) : bool :=
  test (r ← with_pool pool name cidr gateway; assert (is_err r)).

Definition network_valid_construction : bool := test (
  r ← with_pool lab_pool "lab" "192.168.124.0/24" "192.168.124.1";
  n ← expect r;
  _ ← assert_eq (net_name n) "lab";
  c ← expect (parse_cidr "192.168.124.0/24");
  _ ← assert_eq (net_cidr n) c;
  _ ← assert_eq (net_gateway n) (ip 192 168 124 1);
  _ ← assert_eq (pool_start (net_pool n)) (ip 192 168 124 10);
  assert_eq (pool_end (net_pool n)) (ip 192 168 124 200)).

Definition network_rejects_empty_name : bool := rejects lab_pool "" "192.168.124.0/24" "192.168.124.1".
Definition network_rejects_whitespace_name : bool := rejects lab_pool "   " "192.168.124.0/24" "192.168.124.1".
Definition network_rejects_unparseable_cidr : bool := rejects lab_pool "lab" "not-a-cidr" "192.168.124.1".
Definition network_rejects_cidr_with_host_bits : bool := rejects lab_pool "lab" "192.168.124.1/24" "192.168.124.1".
Definition network_rejects_prefix_out_of_range : bool := rejects lab_pool "lab" "192.168.124.0/33" "192.168.124.1".
Definition network_rejects_unparseable_gateway : bool := rejects lab_pool "lab" "192.168.124.0/24" "not-an-ip".
Definition network_rejects_gateway_outside_cidr : bool := rejects lab_pool "lab" "192.168.124.0/24" "10.0.0.1".
Definition network_rejects_pool_outside_cidr : bool :=
  rejects (IpPool_new (ip 10 0 0 1) (ip 10 0 0 10)) "lab" "192.168.124.0/24" "192.168.124.1".
Definition network_rejects_pool_overlapping_gateway : bool :=
  rejects (IpPool_new (ip 192 168 124 1) (ip 192 168 124 10)) "lab" "192.168.124.0/24" "192.168.124.1".

Definition ip_pool_rejects_reversed_bounds : bool :=
  test (assert (is_err (IpPool_new (ip 192 168 124 200) (ip 192 168 124 10)))).
Definition ip_pool_accepts_single_address : bool := test (
  p ← expect (IpPool_new (ip 192 168 124 10) (ip 192 168 124 10)); assert_eq (pool_start p) (pool_end p)).
Definition ipv4_cidr_rejects_host_bits : bool := test (assert (is_err (parse_cidr "192.168.124.1/24"))).
Definition ipv4_cidr_parses_clean_network : bool := test (
  c ← expect (parse_cidr "192.168.124.0/24"); assert_eq (show_cidr c) "192.168.124.0/24").

Definition socket : string := "/run/user/1000/k8snet/vm1.sock".
Definition vm1 : result ModelError Port := Port_new "vm1" socket.
Definition attach (network : string) (m : MacAddr) (a : Ipv4Addr) : cmd Port string unit :=
  modify (fun p => Port_attach p network m a).
Definition attached_as (network : option string) (m : option MacAddr) (a : option Ipv4Addr) : cmd Port string unit :=
  p ← get; _ ← assert_eq (port_network p) network; _ ← assert_eq (port_mac p) m; assert_eq (port_ip p) a.

Definition port_created_is_detached : bool := on vm1 (
  p ← get; _ ← assert_eq (port_name p) "vm1"; _ ← assert_eq (port_socket_path p) socket;
  attached_as None None None).
Definition port_rejects_empty_name : bool := test (assert (is_err (Port_new "" socket))).
Definition port_rejects_whitespace_name : bool := test (assert (is_err (Port_new "   " socket))).
Definition port_attach_sets_attachment : bool := on vm1 (
  m ← mac "02:00:00:00:00:01"; _ ← attach "lab" m (ip 192 168 124 10);
  attached_as (Some "lab") (Some m) (Some (ip 192 168 124 10))).
Definition port_detach_clears_attachment_keeps_socket : bool := on vm1 (
  m ← mac "02:00:00:00:00:01"; _ ← attach "lab" m (ip 192 168 124 10); _ ← modify Port_detach;
  _ ← attached_as None None None; p ← get; assert_eq (port_socket_path p) socket).
Definition port_reattach_after_detach : bool := on vm1 (
  m ← mac "02:00:00:00:00:01"; _ ← attach "lab" m (ip 192 168 124 10); _ ← modify Port_detach;
  m2 ← mac "02:00:00:00:00:02"; _ ← attach "other" m2 (ip 192 168 124 11);
  attached_as (Some "other") (Some m2) (Some (ip 192 168 124 11))).

Definition mac_parses_valid : bool := test (
  m ← mac "02:00:00:00:00:01"; assert_eq (show_mac m) "02:00:00:00:00:01").
Definition mac_rejects_too_short : bool := test (assert (is_err (parse_mac "02:00:00:00:00"))).
Definition mac_rejects_too_long : bool := test (assert (is_err (parse_mac "02:00:00:00:00:01:02"))).
Definition mac_rejects_non_hex : bool := test (assert (is_err (parse_mac "zz:00:00:00:00:01"))).
Definition mac_rejects_empty : bool := test (assert (is_err (parse_mac ""))).
Definition mac_display_round_trip : bool := test (
  m ← mac "02:00:00:00:00:01"; again ← mac (show_mac m); assert_eq m again).

Lemma model_tests_pass : all_pass [
  network_valid_construction; network_rejects_empty_name; network_rejects_whitespace_name;
  network_rejects_unparseable_cidr; network_rejects_cidr_with_host_bits; network_rejects_prefix_out_of_range;
  network_rejects_unparseable_gateway; network_rejects_gateway_outside_cidr; network_rejects_pool_outside_cidr;
  network_rejects_pool_overlapping_gateway; ip_pool_rejects_reversed_bounds; ip_pool_accepts_single_address;
  ipv4_cidr_rejects_host_bits; ipv4_cidr_parses_clean_network; port_created_is_detached; port_rejects_empty_name;
  port_rejects_whitespace_name; port_attach_sets_attachment; port_detach_clears_attachment_keeps_socket;
  port_reattach_after_detach; mac_parses_valid; mac_rejects_too_short; mac_rejects_too_long; mac_rejects_non_hex;
  mac_rejects_empty; mac_display_round_trip].
Proof. vm_compute. done. Qed.
End ModelTests.

(** ** crates/k8netd-core/src/ipam.rs *)
Module IpamTests.
(** [Ipam::new(lab_network(gateway, pool))], by the last octets. *)
Definition lab_ipam (gateway first last : Z) : result ModelError Ipam :=
  pool ← IpPool_new (ip 192 168 124 first) (ip 192 168 124 last);
  n ← Network_new "lab" "192.168.124.0/24" (show_ipv4_addr (ip 192 168 124 gateway)) pool;
  Ok (Ipam_new n).

Definition alloc (m : string) : cmd Ipam string (result IpamError Ipv4Addr) := m ← mac m; call (fun i => allocate i m).
Definition free (m : string) : cmd Ipam string (result IpamError unit) := m ← mac m; call (fun i => release i m).
Definition must_alloc (m : string) : cmd Ipam string Ipv4Addr := r ← alloc m; expect r.
Definition must_free (m : string) : cmd Ipam string unit := r ← free m; expect r.
Definition lookup (m : string) : cmd Ipam string (option Ipv4Addr) := m ← mac m; look (fun i => lookup_mac i m).

Definition m1 : string := "02:00:00:00:00:01".
Definition m2 : string := "02:00:00:00:00:02".
Definition m3 : string := "02:00:00:00:00:03".
Definition m4 : string := "02:00:00:00:00:04".

Definition allocate_returns_address_inside_pool : bool := on (lab_ipam 1 10 200) (
  a ← must_alloc m1; assert ((ip 192 168 124 10 <=? a) && (a <=? ip 192 168 124 200))).
Definition allocate_returns_lowest_free_address : bool := on (lab_ipam 1 10 12) (
  a ← must_alloc m1; assert_eq a (ip 192 168 124 10)).
Definition same_mac_gets_same_ip : bool := on (lab_ipam 1 10 12) (
  a ← must_alloc m1; b ← must_alloc m1; assert_eq a b).
Definition lookup_returns_bound_ip : bool := on (lab_ipam 1 10 12) (
  a ← must_alloc m1; o ← lookup m1; assert_eq o (Some a)).
Definition release_frees_ip_for_reuse : bool := on (lab_ipam 1 10 12) (
  a ← must_alloc m1; _ ← must_alloc m2; _ ← must_free m1; c ← must_alloc m3; assert_eq c a).
Definition release_removes_binding : bool := on (lab_ipam 1 10 12) (
  _ ← must_alloc m1; _ ← must_free m1; o ← lookup m1; assert_eq o None).
Definition release_unknown_mac_returns_error : bool := on (lab_ipam 1 10 12) (
  r ← free "02:00:00:00:00:ff"; assert_eq r (Err UnknownMac)).
Definition pool_exhaustion_returns_error : bool := on (lab_ipam 1 10 12) (
  _ ← must_alloc m1; _ ← must_alloc m2; _ ← must_alloc m3; r ← alloc m4; assert_eq r (Err PoolExhausted)).
Definition allocation_after_exhaustion_post_release : bool := on (lab_ipam 1 10 12) (
  _ ← must_alloc m1; _ ← must_alloc m2; _ ← must_alloc m3; r ← alloc m4; _ ← assert_eq r (Err PoolExhausted);
  _ ← must_free m1; again ← must_alloc m4; assert_eq again (ip 192 168 124 10)).
Definition gateway_adjacent_to_pool_start_never_allocated : bool := on (lab_ipam 9 10 12) (
  a ← must_alloc m1; b ← must_alloc m2; c ← must_alloc m3;
  assert (bool_decide (ip 192 168 124 9 ∉ [a; b; c]))).
Definition gateway_adjacent_to_pool_end_never_allocated : bool := on (lab_ipam 13 10 12) (
  a ← must_alloc m1; b ← must_alloc m2; c ← must_alloc m3;
  assert (bool_decide (ip 192 168 124 13 ∉ [a; b; c]))).
Definition two_macs_never_get_same_ip : bool := on (lab_ipam 1 10 14) (
  a ← must_alloc m1; b ← must_alloc m2; c ← must_alloc m3; d ← must_alloc m4; e ← must_alloc "02:00:00:00:00:05";
  assert (bool_decide (NoDup [a; b; c; d; e]))).
Definition single_address_pool : bool := on (lab_ipam 1 10 10) (
  a ← must_alloc m1; _ ← assert_eq a (ip 192 168 124 10); r ← alloc m2; _ ← assert_eq r (Err PoolExhausted);
  _ ← must_free m1; c ← must_alloc m3; assert_eq c (ip 192 168 124 10)).
Definition full_pool_release_one_reallocate : bool := on (lab_ipam 1 10 12) (
  _ ← must_alloc m1; _ ← must_alloc m2; _ ← must_alloc m3; _ ← must_free m2; d ← must_alloc m4;
  assert_eq d (ip 192 168 124 11)).

Lemma ipam_tests_pass : all_pass [
  allocate_returns_address_inside_pool; allocate_returns_lowest_free_address; same_mac_gets_same_ip;
  lookup_returns_bound_ip; release_frees_ip_for_reuse; release_removes_binding; release_unknown_mac_returns_error;
  pool_exhaustion_returns_error; allocation_after_exhaustion_post_release; gateway_adjacent_to_pool_start_never_allocated;
  gateway_adjacent_to_pool_end_never_allocated; two_macs_never_get_same_ip; single_address_pool;
  full_pool_release_one_reallocate].
Proof. vm_compute. done. Qed.
End IpamTests.
