(* ===== verification/TestsSwitch.v ===== *)
(** * The repository's unit tests, on the definitions: the switch

    The tests of crates/k8netd-core/src/switch/: frame.rs, mac_table.rs,
    engine.rs and gateway.rs. *)
From S2P Require Import Prelude RustStd Model Frame MacTable Engine Gateway Tests.
Open Scope string_scope.
Open Scope list_scope.
Open Scope Z_scope.

(** The addresses and frame builders the modules share. *)
Definition MAC_A : list Z := [0x02; 0x00; 0x00; 0x00; 0x00; 0x01].
Definition MAC_B : list Z := [0x02; 0x00; 0x00; 0x00; 0x00; 0x02].
Definition MAC_C : list Z := [0x02; 0x00; 0x00; 0x00; 0x00; 0x03].
Definition MAC_D : list Z := [0x02; 0x00; 0x00; 0x00; 0x00; 0x09].
Definition MAC_X : list Z := [0x02; 0x00; 0x00; 0x00; 0x00; 0x0a].
Definition BCAST : list Z := replicate 6 0xff.
Definition IGMP : list Z := [0x01; 0x00; 0x5e; 0x00; 0x00; 0x01].
Definition ZERO : list Z := replicate 6 0x00.
Definition IPV4 : Z := 0x0800.
Definition ARP : Z := 0x0806.

Definition eth_frame (dst src : list Z) (ethertype : Z) (payload : list Z) : list Z :=
  dst ++ src ++ u16_to_be ethertype ++ payload.

(** 13 bytes, one short of the header. *)
Definition short_frame : list Z := [0x02; 0x00; 0x00; 0x00; 0x00; 0x01; 0x02; 0x00; 0x00; 0x00; 0x00; 0x02; 0x08].

(** ** frame.rs *)
Module FrameTests.
Definition parsed (frame : list Z) : cmd unit string ParsedFrame := r ← no_panic (parse frame); expect r.
Definition rejected (frame : list Z) : bool := test (
  r ← no_panic (parse frame); assert (match r with Err (TooShort _) => true | _ => false end)).

Definition arp_request : list Z :=
  [0xff; 0xff; 0xff; 0xff; 0xff; 0xff;  0x02; 0x00; 0x00; 0x00; 0x00; 0x01;  0x08; 0x06;
   0x00; 0x01;  0x08; 0x00;  0x06;  0x04;  0x00; 0x01;
   0x02; 0x00; 0x00; 0x00; 0x00; 0x01;  0xc0; 0xa8; 0x7c; 0x0a;
   0x00; 0x00; 0x00; 0x00; 0x00; 0x00;  0xc0; 0xa8; 0x7c; 0x01].
Definition parse_arp_frame_fixture : bool := test (
  p ← parsed arp_request;
  d ← mac "ff:ff:ff:ff:ff:ff"; _ ← assert_eq (dst p) d;
  s ← mac "02:00:00:00:00:01"; _ ← assert_eq (src p) s;
  _ ← assert_eq (ethertype p) 0x0806;
  _ ← assert_eq (length (payload p)) 28%nat;
  first ← no_panic (slice (payload p) 0 2); _ ← assert_eq first [0x00; 0x01];
  last ← no_panic (slice (payload p) 24 28); _ ← assert_eq last [0xc0; 0xa8; 0x7c; 0x01];
  assert_eq (payload p) (drop 14 arp_request)).

Definition ipv4_packet : list Z :=
  [0x45; 0x00; 0x00; 0x1c; 0x00; 0x01; 0x00; 0x00; 0x40; 0x01; 0x00; 0x00; 0xc0; 0xa8; 0x7c; 0x0a; 0xc0; 0xa8; 0x7c; 0x01].
Definition parse_ipv4_frame_fixture : bool := test (
  let frame := eth_frame MAC_B MAC_A 0x0800 ipv4_packet in
  p ← parsed frame;
  d ← mac "02:00:00:00:00:02"; _ ← assert_eq (dst p) d;
  s ← mac "02:00:00:00:00:01"; _ ← assert_eq (src p) s;
  _ ← assert_eq (ethertype p) 0x0800;
  _ ← assert_eq (payload p) ipv4_packet;
  assert_eq (payload p) (drop 14 frame)).
Definition parse_broadcast_dst_mac : bool := test (
  p ← parsed (eth_frame BCAST MAC_A 0x0800 [0xde; 0xad; 0xbe; 0xef]);
  d ← mac "ff:ff:ff:ff:ff:ff"; assert_eq (dst p) d).
Definition parse_zero_src_mac : bool := test (
  p ← parsed (eth_frame MAC_B ZERO 0x0806 (replicate 8 0x00));
  s ← mac "00:00:00:00:00:00"; _ ← assert_eq (src p) s; assert_eq (ethertype p) 0x0806).
Definition parse_unknown_ethertype_is_not_error : bool := test (
  p ← parsed (eth_frame MAC_B MAC_A 0x88b5 [0xaa; 0xbb]);
  _ ← assert_eq (ethertype p) 0x88b5; assert_eq (payload p) [0xaa; 0xbb]).
Definition parse_exact_14_byte_header_no_payload : bool := test (
  p ← parsed (eth_frame MAC_B MAC_A 0x0800 []);
  _ ← assert_eq (ethertype p) 0x0800; assert_eq (payload p) []).
Definition parse_frame_shorter_than_header_is_error : bool := rejected short_frame.
Definition parse_empty_frame_is_error : bool := rejected [].
Definition parse_vlan_tagged_frame_skips_tag : bool := test (
  let frame := MAC_B ++ MAC_A ++ [0x81; 0x00] ++ [0x00; 0x64] ++ [0x08; 0x00] ++ [0xde; 0xad; 0xbe; 0xef] in
  p ← parsed frame;
  _ ← assert_eq (ethertype p) 0x0800;
  _ ← assert_eq (payload p) [0xde; 0xad; 0xbe; 0xef];
  assert_eq (payload p) (drop 18 frame)).

Lemma frame_tests_pass : all_pass [
  parse_arp_frame_fixture; parse_ipv4_frame_fixture; parse_broadcast_dst_mac; parse_zero_src_mac;
  parse_unknown_ethertype_is_not_error; parse_exact_14_byte_header_no_payload;
  parse_frame_shorter_than_header_is_error; parse_empty_frame_is_error; parse_vlan_tagged_frame_skips_tag].
Proof. vm_compute. done. Qed.
End FrameTests.

(** ** mac_table.rs *)
Module MacTableTests.
Definition table (capacity : nat) (t : cmd MacTable string unit) : bool := on (E := unit) (Ok (MacTable_new capacity)) t.
Definition learn (port : PortId) (m : string) : cmd MacTable string unit :=
  m ← mac m; modify (fun t => MacTable.learn t port m).
Definition lookup_is (m : string) (port : option PortId) : cmd MacTable string unit :=
  m ← mac m; t ← get; assert_eq (MacTable.lookup t m) port.
Definition evict (m : string) : cmd MacTable string bool := m ← mac m; call (fun t => MacTable.evict t m).
Definition len_is (n : nat) : cmd MacTable string unit := t ← get; assert_eq (table_len t) n.
Definition is_empty : cmd MacTable string unit := t ← get; assert (table_is_empty t).

Definition m1 : string := "02:00:00:00:00:01".
Definition m2 : string := "02:00:00:00:00:02".
Definition m3 : string := "02:00:00:00:00:03".

Definition learn_then_lookup_returns_port : bool := table 16 (_ ← learn 1 m1; lookup_is m1 (Some 1)).
Definition learn_multiple_macs_per_port : bool := table 16 (
  _ ← learn 1 m1; _ ← learn 1 m2; _ ← lookup_is m1 (Some 1); _ ← lookup_is m2 (Some 1); len_is 2).
Definition learn_same_mac_new_port_updates_mapping : bool := table 16 (
  _ ← learn 1 m1; _ ← learn 2 m1; _ ← lookup_is m1 (Some 2); len_is 1).
Definition relearn_same_mac_same_port_keeps_len : bool := table 16 (_ ← learn 1 m1; _ ← learn 1 m1; len_is 1).
Definition learn_zero_mac_is_stored : bool := table 16 (
  _ ← learn 1 "00:00:00:00:00:00"; lookup_is "00:00:00:00:00:00" (Some 1)).
Definition new_table_is_empty : bool := table 16 (_ ← is_empty; len_is 0).
Definition lookup_absent_mac_returns_none : bool := table 16 (lookup_is m1 None).
Definition lookup_after_evict_returns_none : bool := table 16 (_ ← learn 1 m1; _ ← evict m1; lookup_is m1 None).
Definition evict_removes_entry : bool := table 16 (_ ← learn 1 m1; b ← evict m1; _ ← assert b; is_empty).
Definition evict_absent_mac_returns_false : bool := table 16 (b ← evict m1; assert (negb b)).
Definition evict_then_relearn_works : bool := table 16 (
  _ ← learn 1 m1; _ ← evict m1; _ ← learn 2 m1; lookup_is m1 (Some 2)).
Definition capacity_full_evicts_oldest : bool := table 2 (
  _ ← learn 1 m1; _ ← learn 2 m2; _ ← learn 3 m3;
  _ ← lookup_is m1 None; _ ← lookup_is m2 (Some 2); _ ← lookup_is m3 (Some 3); len_is 2).
Definition relearn_refreshes_recency : bool := table 2 (
  _ ← learn 1 m1; _ ← learn 2 m2; _ ← learn 1 m1; _ ← learn 3 m3;
  _ ← lookup_is m1 (Some 1); _ ← lookup_is m2 None; lookup_is m3 (Some 3)).
Definition zero_capacity_table_drops_all_learns : bool := table 0 (_ ← learn 1 m1; _ ← is_empty; lookup_is m1 None).

Lemma mac_table_tests_pass : all_pass [
  learn_then_lookup_returns_port; learn_multiple_macs_per_port; learn_same_mac_new_port_updates_mapping;
  relearn_same_mac_same_port_keeps_len; learn_zero_mac_is_stored; new_table_is_empty; lookup_absent_mac_returns_none;
  lookup_after_evict_returns_none; evict_removes_entry; evict_absent_mac_returns_false; evict_then_relearn_works;
  capacity_full_evicts_oldest; relearn_refreshes_recency; zero_capacity_table_drops_all_learns].
Proof. vm_compute. done. Qed.
End MacTableTests.

(** ** engine.rs *)
Module EngineTests.
Definition add_port (port : PortId) (network : string) : cmd Switch string unit :=
  modify (fun s => Engine.add_port s port network).
Definition new (t : cmd Switch string unit) : bool := on (E := unit) (Ok Switch_new) t.
Definition lab_switch (t : cmd Switch string unit) : bool := new (
  _ ← add_port 1 "lab"; _ ← add_port 2 "lab"; _ ← add_port 3 "lab"; t).
Definition two_network_switch (t : cmd Switch string unit) : bool := lab_switch (_ ← add_port 9 "staging"; t).

Definition remove_port (port : PortId) : cmd Switch string bool := call (fun s => Engine.remove_port s port).
Definition forward (ingress : PortId) (frame : list Z) : cmd Switch string (list (PortId * list Z)) := fun s =>
  match Engine.forward s ingress frame with Val (out, s') => Returns s' (Ok out) | Panic => Panics s end.

(** The egress ports, sorted. *)
Definition egress (out : list (PortId * list Z)) : list PortId := merge_sort Z.le out.*1.
Definition assert_frames_unmodified (out : list (PortId * list Z)) (frame : list Z) : cmd Switch string unit :=
  assert (forallb (fun e => bool_decide (e.2 = frame)) out).

(** A frame, and the ports it comes out of. *)
Definition sends (ingress : PortId) (frame : list Z) (to : list PortId) : cmd Switch string unit :=
  out ← forward ingress frame; assert_eq (egress out) to.
Definition sends_unmodified (ingress : PortId) (frame : list Z) (to : list PortId) : cmd Switch string unit :=
  out ← forward ingress frame; _ ← assert_eq (egress out) to; assert_frames_unmodified out frame.

Definition known_unicast_delivered_only_to_learned_port : bool := lab_switch (
  _ ← sends 2 (eth_frame MAC_X MAC_B IPV4 []) [1; 3];
  _ ← sends_unmodified 1 (eth_frame MAC_B MAC_A IPV4 [0xde; 0xad]) [2];
  sends 3 (eth_frame MAC_A MAC_C IPV4 [0xbe; 0xef]) [1]).
Definition tagged_frame_forwarded_like_untagged : bool := lab_switch (
  _ ← sends 2 (MAC_X ++ MAC_B ++ [0x81; 0x00] ++ [0x00; 0x64] ++ [0x08; 0x00] ++ [0xde; 0xad]) [1; 3];
  sends 1 (eth_frame MAC_B MAC_A IPV4 [0xbe; 0xef]) [2]).
Definition unknown_unicast_floods_all_ports_except_source : bool := lab_switch (
  sends_unmodified 1 (eth_frame MAC_X MAC_A IPV4 [0xde; 0xad]) [2; 3]).
Definition flood_reaches_port_that_never_transmitted : bool := lab_switch (
  _ ← sends 2 (eth_frame MAC_X MAC_B IPV4 []) [1; 3];
  sends 1 (eth_frame MAC_X MAC_A IPV4 [0xde; 0xad]) [2; 3]).
Definition broadcast_floods_all_ports_except_source : bool := lab_switch (
  sends_unmodified 1 (eth_frame BCAST MAC_A IPV4 [0xde; 0xad]) [2; 3]).
Definition multicast_floods_even_when_dst_learned : bool := lab_switch (
  _ ← sends 2 (eth_frame MAC_X IGMP IPV4 []) [1; 3];
  sends 1 (eth_frame IGMP MAC_A IPV4 [0xde; 0xad]) [2; 3]).
Definition broadcast_floods_even_when_dst_learned : bool := lab_switch (
  _ ← sends 2 (eth_frame MAC_X BCAST IPV4 []) [1; 3];
  sends 1 (eth_frame BCAST MAC_A IPV4 [0xde; 0xad]) [2; 3]).
Definition cross_network_learned_dst_floods_within_ingress_network : bool := two_network_switch (
  _ ← sends 9 (eth_frame MAC_B MAC_X IPV4 []) [];
  sends_unmodified 1 (eth_frame MAC_X MAC_A IPV4 [0xde; 0xad]) [2; 3]).
Definition broadcast_never_crosses_networks : bool := two_network_switch (
  _ ← sends 1 (eth_frame BCAST MAC_A IPV4 [0xde; 0xad]) [2; 3];
  sends 9 (eth_frame BCAST MAC_X IPV4 [0xde; 0xad]) []).
Definition no_echo_to_ingress_port : bool := lab_switch (
  _ ← sends 1 (eth_frame MAC_X MAC_A IPV4 []) [2; 3];
  sends 1 (eth_frame MAC_A MAC_A IPV4 [0xde; 0xad]) []).
Definition learning_happens_before_forwarding : bool := lab_switch (
  _ ← sends 1 (eth_frame MAC_X MAC_A IPV4 [0xde; 0xad]) [2; 3];
  sends 2 (eth_frame MAC_A MAC_B IPV4 [0xbe; 0xef]) [1]).
Definition single_port_network_has_no_flood_destination : bool := new (
  _ ← add_port 1 "lab"; sends 1 (eth_frame MAC_X MAC_A IPV4 [0xde; 0xad]) []).
Definition mac_moved_between_ports_relearns : bool := lab_switch (
  _ ← sends 1 (eth_frame MAC_C MAC_X IPV4 []) [2; 3];
  _ ← sends 2 (eth_frame MAC_C MAC_X IPV4 [0x01]) [1; 3];
  sends 3 (eth_frame MAC_X MAC_C IPV4 [0x02]) [2]).
Definition frame_at_unknown_port_is_dropped_and_not_learned : bool := lab_switch (
  _ ← sends 99 (eth_frame MAC_X MAC_X IPV4 [0xde; 0xad]) [];
  sends 1 (eth_frame MAC_X MAC_A IPV4 [0xbe; 0xef]) [2; 3]).
Definition malformed_frame_is_dropped_and_switch_stays_usable : bool := lab_switch (
  _ ← sends 1 short_frame [];
  sends 1 (eth_frame MAC_X MAC_A IPV4 [0xde; 0xad]) [2; 3]).
Definition removed_port_stops_sending_and_receiving : bool := lab_switch (
  _ ← sends 2 (eth_frame MAC_X MAC_B IPV4 []) [1; 3];
  b ← remove_port 2; _ ← assert b;
  _ ← sends 2 (eth_frame MAC_X MAC_B IPV4 [0x01]) [];
  _ ← sends 1 (eth_frame MAC_B MAC_A IPV4 [0x02]) [];
  _ ← sends 1 (eth_frame BCAST MAC_A IPV4 [0x03]) [3];
  b ← remove_port 99; assert (negb b)).

Lemma engine_tests_pass : all_pass [
  known_unicast_delivered_only_to_learned_port; tagged_frame_forwarded_like_untagged;
  unknown_unicast_floods_all_ports_except_source; flood_reaches_port_that_never_transmitted;
  broadcast_floods_all_ports_except_source; multicast_floods_even_when_dst_learned;
  broadcast_floods_even_when_dst_learned; cross_network_learned_dst_floods_within_ingress_network;
  broadcast_never_crosses_networks; no_echo_to_ingress_port; learning_happens_before_forwarding;
  single_port_network_has_no_flood_destination; mac_moved_between_ports_relearns;
  frame_at_unknown_port_is_dropped_and_not_learned; malformed_frame_is_dropped_and_switch_stays_usable;
  removed_port_stops_sending_and_receiving].
Proof. vm_compute. done. Qed.
End EngineTests.

(** ** gateway.rs *)
Module GatewayTests.
(** The derived gateway MAC of 192.168.124.1. *)
Definition GW_MAC_LAB : list Z := [0x02; 0x00; 0xc0; 0xa8; 0x7c; 0x01].

Definition arp_payload (op : Z) (sha : list Z) (spa : Ipv4Addr) (tha : list Z) (tpa : Ipv4Addr) : list Z :=
  u16_to_be 1 ++ u16_to_be 0x0800 ++ [6; 4] ++ u16_to_be op ++ sha ++ ip_octets spa ++ tha ++ ip_octets tpa.
Definition arp_frame (dst src : list Z) (op : Z) (sha : list Z) (spa : Ipv4Addr) (tha : list Z) (tpa : Ipv4Addr) : list Z :=
  eth_frame dst src ARP (arp_payload op sha spa tha tpa).
Definition ipv4_header (src dst : Ipv4Addr) : list Z :=
  [0x45; 0x00] ++ u16_to_be 20 ++ u16_to_be 0 ++ u16_to_be 0x4000 ++ [64; 17] ++ u16_to_be 0 ++ ip_octets src ++ ip_octets dst.
Definition ipv4_frame (dst src : list Z) (src_ip dst_ip : Ipv4Addr) : list Z :=
  eth_frame dst src IPV4 (ipv4_header src_ip dst_ip).

Definition lab_network : result ModelError Network :=
  p ← IpPool_new (ip 192 168 124 10) (ip 192 168 124 200); Network_new "lab" "192.168.124.0/24" "192.168.124.1" p.
Definition staging_network : result ModelError Network :=
  p ← IpPool_new (ip 10 0 0 10) (ip 10 0 0 200); Network_new "staging" "10.0.0.0/24" "10.0.0.1" p.

Definition lab_gateway : result ModelError Gateway :=
  n ← lab_network; Ok (gw_add_port (gw_add_port (gw_add_network Gateway_new n) 1 "lab") 2 "lab").
Definition two_network_gateway : result ModelError Gateway :=
  n ← lab_network; m ← staging_network;
  Ok (gw_add_port (gw_add_port (gw_add_port (gw_add_network (gw_add_network Gateway_new n) m) 1 "lab") 2 "lab") 9 "staging").

Definition handle (ingress : PortId) (frame : list Z) : cmd Gateway string GatewayAction :=
  g ← get; no_panic (handle_frame g ingress frame).
Definition is_l2 (ingress : PortId) (frame : list Z) : cmd Gateway string unit :=
  a ← handle ingress frame; assert_eq a L2.
Definition is_wan (ingress : PortId) (frame : list Z) : cmd Gateway string unit :=
  a ← handle ingress frame; assert_eq a (Wan frame).
Definition is_reply (ingress : PortId) (frame expected : list Z) : cmd Gateway string unit :=
  a ← handle ingress frame; assert_eq a (ArpReply expected).

Definition a_ip : Ipv4Addr := ip 192 168 124 10.
Definition gw_ip : Ipv4Addr := ip 192 168 124 1.
Definition reply_to_a : list Z := arp_frame MAC_A GW_MAC_LAB 2 GW_MAC_LAB gw_ip MAC_A a_ip.

Definition arp_request_for_gateway_answered_with_gateway_mac : bool := on lab_gateway (
  is_reply 1 (arp_frame GW_MAC_LAB MAC_A 1 MAC_A a_ip ZERO gw_ip) reply_to_a).
Definition arp_request_for_peer_address_not_answered : bool := on lab_gateway (
  is_l2 1 (arp_frame BCAST MAC_A 1 MAC_A a_ip ZERO (ip 192 168 124 20))).
Definition arp_request_for_outside_address_not_answered : bool := on lab_gateway (
  is_l2 1 (arp_frame BCAST MAC_A 1 MAC_A a_ip ZERO (ip 10 0 0 5))).
Definition non_local_ipv4_routed_to_ingress_own_wan : bool := on lab_gateway (
  is_wan 1 (ipv4_frame GW_MAC_LAB MAC_A a_ip (ip 8 8 8 8))).
Definition non_local_ipv4_on_second_network_routed_to_wan : bool := on two_network_gateway (
  is_wan 9 (ipv4_frame [0x02; 0x00; 0x0a; 0x00; 0x00; 0x01] MAC_D (ip 10 0 0 10) (ip 9 9 9 9))).
Definition local_ipv4_between_vms_bypasses_wan : bool := on lab_gateway (
  is_l2 1 (ipv4_frame MAC_B MAC_A a_ip (ip 192 168 124 20))).
Definition pod_cidr_ipv4_to_peer_vm_mac_stays_on_fabric : bool := on lab_gateway (
  is_l2 1 (ipv4_frame MAC_B MAC_A a_ip (ip 10 244 0 183))).
Definition ipv4_to_gateway_mac_is_wan_egress : bool := on lab_gateway (
  a ← handle 1 (ipv4_frame GW_MAC_LAB MAC_A a_ip (ip 8 8 8 8));
  assert (match a with Wan _ => true | _ => false end)).
Definition non_ip_non_arp_ethertype_is_l2_only : bool := on lab_gateway (
  is_l2 1 (eth_frame BCAST MAC_A 0x88b5 [0xaa; 0xbb])).
Definition arp_reply_is_not_answered : bool := on lab_gateway (
  is_l2 1 (arp_frame GW_MAC_LAB MAC_A 2 MAC_A a_ip GW_MAC_LAB gw_ip)).
Definition arp_request_for_other_network_gateway_not_answered : bool := on two_network_gateway (
  _ ← is_l2 9 (arp_frame BCAST MAC_D 1 MAC_D (ip 10 0 0 10) ZERO gw_ip);
  is_l2 1 (arp_frame BCAST MAC_A 1 MAC_A a_ip ZERO (ip 10 0 0 1))).
Definition non_local_ipv4_with_short_ip_header_not_routed : bool := on lab_gateway (
  is_l2 1 (eth_frame GW_MAC_LAB MAC_A IPV4 [0x45; 0x00; 0x00; 0x04])).
Definition non_local_ipv4_with_ihl_below_minimum_not_routed : bool := on lab_gateway (
  is_l2 1 (eth_frame GW_MAC_LAB MAC_A IPV4 (<[0%nat := 0x40]> (ipv4_header a_ip (ip 8 8 8 8))))).
Definition non_local_ipv4_from_unattached_port_not_routed : bool := on lab_gateway (
  let frame := ipv4_frame GW_MAC_LAB MAC_A a_ip (ip 8 8 8 8) in
  _ ← is_l2 77 frame;
  _ ← modify (fun g => gw_add_port g 77 "lab"); _ ← is_wan 77 frame;
  b ← call (fun g => gw_remove_port g 77); _ ← assert b; is_l2 77 frame).
Definition two_ports_same_network_each_route_to_own_wan : bool := on lab_gateway (
  let from_a := ipv4_frame GW_MAC_LAB MAC_A a_ip (ip 8 8 8 8) in
  let from_b := ipv4_frame GW_MAC_LAB MAC_B (ip 192 168 124 11) (ip 9 9 9 9) in
  _ ← assert (bool_decide (from_a <> from_b)); _ ← is_wan 1 from_a; is_wan 2 from_b).
Definition broadcast_arp_for_gateway_answered_unicast_reply : bool := on lab_gateway (
  is_reply 1 (arp_frame BCAST MAC_A 1 MAC_A a_ip ZERO gw_ip) reply_to_a).
Definition port_on_unknown_network_is_l2 : bool := on (E := unit) (Ok (gw_add_port Gateway_new 5 "ghost")) (
  is_l2 5 (arp_frame BCAST MAC_A 1 MAC_A a_ip ZERO gw_ip)).

Lemma gateway_tests_pass : all_pass [
  arp_request_for_gateway_answered_with_gateway_mac; arp_request_for_peer_address_not_answered;
  arp_request_for_outside_address_not_answered; non_local_ipv4_routed_to_ingress_own_wan;
  non_local_ipv4_on_second_network_routed_to_wan; local_ipv4_between_vms_bypasses_wan;
  pod_cidr_ipv4_to_peer_vm_mac_stays_on_fabric; ipv4_to_gateway_mac_is_wan_egress;
  non_ip_non_arp_ethertype_is_l2_only; arp_reply_is_not_answered; arp_request_for_other_network_gateway_not_answered;
  non_local_ipv4_with_short_ip_header_not_routed; non_local_ipv4_with_ihl_below_minimum_not_routed;
  non_local_ipv4_from_unattached_port_not_routed; two_ports_same_network_each_route_to_own_wan;
  broadcast_arp_for_gateway_answered_unicast_reply; port_on_unknown_network_is_l2].
Proof. vm_compute. done. Qed.
End GatewayTests.
