(* ===== verification/TestsRpc.v ===== *)
(** * The repository's unit tests, on the definitions: the control plane

    The tests of crates/k8netd-rpc/src/protocol.rs that do not look into the
    text serde writes, and those of server.rs that need no thread of their own
    and no file, on the in-memory control plane; [Tree] is the JSON value. *)
From S2P Require Import Prelude RustStd Model Ipam Json Protocol Server Tests.
Open Scope string_scope.
Open Scope Z_scope.

(** ** protocol.rs *)
Module ProtocolTests.
#[local] Instance Request_eq_dec : EqDecision (Request Tree).
Proof. solve_decision. Defined.
#[local] Instance Response_eq_dec : EqDecision (Response Tree).
Proof. solve_decision. Defined.

Definition lab_params : Tree := Obj [("name", Str "lab"); ("cidr", Str "192.168.124.0/24")].
Definition round_trip (req : Request Tree) : bool := test (
  restored ← expect (parse_request (request_to_string req)); assert_eq req restored).
Definition response_round_trip (resp : Response Tree) : bool := test (
  restored ← unwrap (response_from_str (response_to_string resp)); assert_eq resp restored).

Definition request_round_trip_object_params : bool := round_trip (Request_new "CreateNetwork" (Some lab_params) (Str "1")).
Definition request_round_trip_null_params : bool := round_trip (Request_new "GetNetwork" None (Str "1")).
Definition response_round_trip_result : bool := response_round_trip (Response_ok (Str "1") (Obj [("name", Str "lab")])).
Definition response_round_trip_null_result : bool := response_round_trip (Response_ok (Str "1") Null).
Definition response_error_round_trip : bool := response_round_trip (Response_err (Str "1") Conflict).

Definition error_round_trip (e : RpcError) (code : string) : cmd unit string unit :=
  let v : Tree := error_to_value e in
  c ← unwrap (get_key v "code"); _ ← assert_eq c (Str code);
  m ← unwrap (get_key v "message"); s ← unwrap (as_str m); _ ← assert (bool_decide (s <> ""));
  restored ← unwrap (error_from_value v); assert_eq restored e.
Definition error_codes_round_trip_all_five : bool :=
  test (error_round_trip NotFound "not_found") && test (error_round_trip AlreadyExists "already_exists") &&
  test (error_round_trip InvalidParams "invalid_params") && test (error_round_trip Conflict "conflict") &&
  test (error_round_trip Internal "internal").
Definition error_method_not_found_round_trip : bool := test (error_round_trip MethodNotFound "method_not_found").

(** A request with these members; its parameters are null. *)
Definition members (version : option string) (id : option Tree) : RawRequest Tree :=
  {| raw_jsonrpc := Some "2.0"; raw_version := version; raw_method := Some "GetNetwork"; raw_params := None; raw_id := id |}.
Definition request_accepts_current_version : bool := test (
  req ← expect (validate (members (Some PROTOCOL_VERSION) (Some (Str "1"))));
  assert_eq req (Request_new "GetNetwork" None (Str "1"))).
Definition request_rejects_missing_version : bool := test (assert (is_err (validate (members None (Some (Str "1")))))).
Definition request_rejects_wrong_version : bool := test (
  assert (match validate (members (Some "9.9") (Some (Str "1"))) with
          | Err e => bool_decide (rpc_code e = "invalid_params") | Ok _ => false end)).
Definition request_rejects_malformed_json : bool := test (
  assert (match parse_request (V := Tree) "{not json" with
          | Err e => bool_decide (rpc_code e = "parse_error") | Ok _ => false end)).
Definition request_rejects_missing_id : bool := test (assert (is_err (validate (members (Some PROTOCOL_VERSION) None)))).

Lemma protocol_tests_pass : all_pass [
  request_round_trip_object_params; request_round_trip_null_params; response_round_trip_result;
  response_round_trip_null_result; error_codes_round_trip_all_five; request_accepts_current_version;
  request_rejects_missing_version; request_rejects_wrong_version; response_error_round_trip;
  error_method_not_found_round_trip; request_rejects_malformed_json; request_rejects_missing_id].
Proof. vm_compute. done. Qed.
End ProtocolTests.

(** ** server.rs *)
Module ServerTests.
Definition Plane : Type := Memory.MemoryControlPlane Tree.
Definition router (t : cmd Plane string unit) : bool := on (E := unit) (Ok Memory.new) t.
Definition router_with_range (first last : Z) (t : cmd Plane string unit) : bool :=
  on (E := unit) (Ok (Memory.with_publish_range first last)) t.

Definition request (method : string) (params : list (string * Tree)) (id : Z) : Request Tree :=
  Request_new method (Some (Obj params)) (Num id).
Definition dispatch (req : Request Tree) : cmd Plane string (Response Tree) := fun s =>
  match Server.dispatch req s with Returns s' r => Returns s' (Ok r) | Panics s' => Panics s' end.

(** [resp.error.is_none()], [resp.error.map(|e| e.code()) == Some(code)], and
    a key of the result. *)
Definition succeeds (req : Request Tree) : cmd Plane string unit := r ← dispatch req; assert_eq (rs_error r) None.
Definition fails (code : string) (req : Request Tree) : cmd Plane string unit :=
  r ← dispatch req; assert_eq (rpc_code <$> rs_error r) (Some code).
Definition result_key (key : string) (r : Response Tree) : cmd Plane string Tree :=
  v ← unwrap (rs_result r); unwrap (get_key v key).

Definition net_params (cidr : string) : list (string * Tree) :=
  [("name", Str "net0"); ("cidr", Str cidr); ("gateway", Str "192.168.124.1");
   ("poolStart", Str "192.168.124.100"); ("poolEnd", Str "192.168.124.200")].
Definition create_net (cidr : string) : Request Tree := request "CreateNetwork" (net_params cidr) 1.
Definition net1 : Request Tree := request "CreateNetwork"
  [("name", Str "net1"); ("cidr", Str "10.0.0.0/24"); ("gateway", Str "10.0.0.1");
   ("poolStart", Str "10.0.0.10"); ("poolEnd", Str "10.0.0.20")] 3.
Definition named (method name : string) (id : Z) : Request Tree := request method [("name", Str name)] id.
Definition attach (port network mac : string) (id : Z) : Request Tree :=
  request "AttachPort" [("port", Str port); ("network", Str network); ("mac", Str mac)] id.

Definition unknown_method_is_method_not_found : bool := router (
  r ← dispatch (Request_new "Nope" None (Num 7));
  _ ← assert_eq (rpc_code <$> rs_error r) (Some "method_not_found"); assert_eq (rs_id r) (Num 7)).
Definition missing_params_is_invalid_params : bool := router (fails "invalid_params" (named "CreateNetwork" "x" 1)).
Definition create_network_idempotency_semantics : bool := router (
  _ ← succeeds (create_net "192.168.124.0/24");
  _ ← succeeds (create_net "192.168.124.0/24");
  fails "conflict" (create_net "10.0.0.0/24")).
Definition get_network_round_trip_and_not_found : bool := router (
  _ ← dispatch (create_net "192.168.124.0/24");
  r ← dispatch (named "GetNetwork" "net0" 2);
  cidr ← result_key "cidr" r; _ ← assert_eq cidr (Str "192.168.124.0/24");
  fails "not_found" (named "GetNetwork" "zz" 3)).
Definition delete_network_lifecycle : bool := router (
  _ ← dispatch (create_net "192.168.124.0/24");
  _ ← succeeds (named "DeleteNetwork" "net0" 4); fails "not_found" (named "DeleteNetwork" "net0" 4)).
Definition port_recreate_after_delete_is_fresh : bool := router (
  _ ← dispatch (named "CreatePort" "p" 1);
  _ ← dispatch (named "DeletePort" "p" 2);
  _ ← succeeds (named "CreatePort" "p" 3);
  r ← dispatch (named "GetPort" "p" 4); network ← result_key "network" r; assert_eq network Null).
Definition create_port_idempotent_delete_not_found : bool := router (
  _ ← succeeds (named "CreatePort" "vm-a" 5);
  _ ← succeeds (named "CreatePort" "vm-a" 5);
  _ ← succeeds (named "DeletePort" "vm-a" 6);
  fails "not_found" (named "DeletePort" "vm-a" 6)).
Definition attach_detach_transitions : bool := router (
  _ ← dispatch (create_net "192.168.124.0/24");
  _ ← dispatch (named "CreatePort" "p1" 1);
  _ ← succeeds (attach "p1" "net0" "02:00:00:00:00:01" 2);
  _ ← succeeds (attach "p1" "net0" "02:00:00:00:00:01" 2);
  _ ← dispatch net1;
  _ ← fails "conflict" (attach "p1" "net1" "02:00:00:00:00:01" 4);
  _ ← fails "not_found" (attach "ghost" "net0" "02:00:00:00:00:09" 5);
  _ ← succeeds (named "DetachPort" "p1" 6);
  r ← dispatch (named "GetPort" "p1" 7);
  network ← result_key "network" r; _ ← assert_eq network Null;
  name ← result_key "name" r; assert_eq name (Str "p1")).

Definition on_mac (method network mac : string) (id : Z) : Request Tree :=
  request method [("network", Str network); ("mac", Str mac)] id.
Definition alloc (mac : string) : cmd Plane string string :=
  r ← dispatch (on_mac "AllocateIP" "net0" mac 1); v ← unwrap (rs_result r); unwrap (as_str v).
Definition allocate_release_ip_semantics : bool := router (
  _ ← dispatch (create_net "192.168.124.0/24");
  ip1 ← alloc "02:00:00:00:00:01";
  ip2 ← alloc "02:00:00:00:00:02"; _ ← assert (bool_decide (ip1 <> ip2));
  again ← alloc "02:00:00:00:00:01"; _ ← assert_eq again ip1;
  _ ← succeeds (on_mac "ReleaseIP" "net0" "02:00:00:00:00:01" 2);
  _ ← fails "not_found" (on_mac "ReleaseIP" "net0" "02:00:00:00:00:01" 2);
  fails "not_found" (on_mac "AllocateIP" "zz" "02:00:00:00:00:01" 3)).

(** A connection that carries one line; the test reads the answer back. *)
Definition connection_answer (line : string) : cmd Plane string (Response Tree) := fun s =>
  match handle_connection {| line_in := Ok (line +:+ String "010" EmptyString); write_ok := Ok tt |} s with
  | Returns s' (Ok (1%nat, body)) => unwrap (response_from_str (trim body)) s'
  | Returns s' _ => Panics s'
  | Panics s' => Panics s'
  end.
Definition connection_round_trip_over_socketpair : bool := router (
  _ ← dispatch (create_net "192.168.124.0/24");
  r ← connection_answer (request_to_string (Request_new "GetNetwork" (Some (Obj [("name", Str "net0")])) (Str "abc")));
  _ ← assert_eq (rs_id r) (Str "abc");
  gateway ← result_key "gateway" r; assert_eq gateway (Str "192.168.124.1")).
Definition malformed_input_yields_parse_error_response : bool := router (
  r ← connection_answer "{not json"; assert_eq (rpc_code <$> rs_error r) (Some "parse_error")).

(** Publishing. *)
Definition pub_req (port : string) (vm_port id : Z) : Request Tree :=
  request "PublishPort" [("port", Str port); ("vm_port", Num vm_port)] id.
Definition attached_port (name mac : string) : cmd Plane string unit :=
  _ ← dispatch (create_net "192.168.124.0/24");
  _ ← dispatch (named "CreatePort" name 2);
  succeeds (attach name "net0" mac 3).
Definition host_port_of (r : Response Tree) : cmd Plane string Z :=
  v ← result_key "host_port" r; n ← unwrap (as_u64 v); mret (wrap_u16 n).
Definition publish (port : string) (vm_port id : Z) : cmd Plane string Z :=
  r ← dispatch (pub_req port vm_port id); host_port_of r.
Definition within (first last n : Z) : cmd Plane string unit := assert ((first <=? n) && (n <=? last)).

Definition publish_port_idempotent_same_params_same_host_port : bool := router (
  _ ← attached_port "vm1" "02:00:00:00:00:01";
  first ← publish "vm1" 6443 1; again ← publish "vm1" 6443 2;
  _ ← assert_eq first again; within 20000 21000 first).
Definition publish_port_distinct_vm_port_gets_distinct_host_port : bool := router (
  _ ← attached_port "vm1" "02:00:00:00:00:01";
  api ← publish "vm1" 6443 1; ssh ← publish "vm1" 22 2;
  _ ← assert (bool_decide (api <> ssh)); _ ← within 20000 21000 api; within 20000 21000 ssh).
Definition publish_port_unknown_port_is_error : bool := router (fails "not_found" (pub_req "ghost" 6443 1)).
Definition publish_port_unattached_port_is_error : bool := router (
  _ ← dispatch (named "CreatePort" "lonely" 1);
  _ ← fails "not_found" (pub_req "lonely" 6443 2);
  _ ← attached_port "vm1" "02:00:00:00:00:01";
  _ ← succeeds (pub_req "vm1" 6443 3);
  _ ← dispatch (named "DetachPort" "vm1" 4);
  fails "not_found" (pub_req "vm1" 6443 5)).
Definition publish_range_exhaustion_typed_error_no_partial_state : bool := router_with_range 20000 20001 (
  _ ← attached_port "vm1" "02:00:00:00:00:01";
  _ ← attached_port "vm2" "02:00:00:00:00:02";
  _ ← attached_port "vm3" "02:00:00:00:00:03";
  _ ← succeeds (pub_req "vm1" 6443 1); _ ← succeeds (pub_req "vm2" 6443 2);
  _ ← fails "conflict" (pub_req "vm3" 6443 3);
  _ ← dispatch (named "DetachPort" "vm1" 4);
  r ← dispatch (pub_req "vm3" 6443 5); _ ← assert_eq (rs_error r) None;
  hp ← host_port_of r; _ ← within 20000 20001 hp;
  again ← publish "vm3" 6443 6; assert_eq again hp).
Definition detach_port_frees_allocations : bool := router_with_range 20000 20002 (
  _ ← attached_port "vm1" "02:00:00:00:00:01";
  _ ← attached_port "vm2" "02:00:00:00:00:02";
  _ ← attached_port "vm3" "02:00:00:00:00:03";
  _ ← attached_port "vm4" "02:00:00:00:00:04";
  _ ← succeeds (pub_req "vm1" 6443 1); _ ← succeeds (pub_req "vm1" 22 2); _ ← succeeds (pub_req "vm2" 6443 3);
  _ ← fails "conflict" (pub_req "vm3" 6443 4);
  _ ← dispatch (named "DetachPort" "vm1" 5);
  _ ← succeeds (pub_req "vm3" 6443 6); _ ← succeeds (pub_req "vm3" 22 7);
  fails "conflict" (pub_req "vm4" 6443 8)).
Definition delete_port_frees_allocations : bool := router_with_range 20000 20001 (
  _ ← attached_port "vm1" "02:00:00:00:00:01";
  _ ← attached_port "vm2" "02:00:00:00:00:02";
  _ ← attached_port "vm3" "02:00:00:00:00:03";
  _ ← succeeds (pub_req "vm1" 6443 1); _ ← succeeds (pub_req "vm2" 6443 2);
  _ ← fails "conflict" (pub_req "vm3" 6443 3);
  _ ← dispatch (named "DeletePort" "vm1" 4);
  succeeds (pub_req "vm3" 6443 5)).

Lemma server_tests_pass : all_pass [
  unknown_method_is_method_not_found; missing_params_is_invalid_params; create_network_idempotency_semantics;
  get_network_round_trip_and_not_found; delete_network_lifecycle; port_recreate_after_delete_is_fresh;
  create_port_idempotent_delete_not_found; attach_detach_transitions; allocate_release_ip_semantics;
  connection_round_trip_over_socketpair; malformed_input_yields_parse_error_response;
  publish_port_idempotent_same_params_same_host_port; publish_port_distinct_vm_port_gets_distinct_host_port;
  publish_port_unknown_port_is_error; publish_port_unattached_port_is_error;
  publish_range_exhaustion_typed_error_no_partial_state; detach_port_frees_allocations; delete_port_frees_allocations].
Proof. vm_compute. done. Qed.
End ServerTests.
