(* ===== verification/TestsSvc.v ===== *)
(** * The repository's unit tests, on the definitions: the services

    The tests of crates/k8netd-svc/src/dhcp.rs, dns.rs and passt.rs, with the codecs of
    [Dhcp] and [Dns], and of crates/k8netd/src/config.rs. *)
From S2P Require Import Prelude RustStd Model Ipam Tests.
From S2P Require Dhcp Dns Passt Config.
Open Scope string_scope.
Open Scope list_scope.
Open Scope Z_scope.

(** ** dhcp.rs *)
Module DhcpTests.
Import Dhcp.

Definition XID : Z := 0x11223344.
Definition GATEWAY : Ipv4Addr := ip 192 168 124 1.
Definition MAC_A : list Z := [0x02; 0; 0; 0; 0; 0x01].
Definition MAC_B : list Z := [0x02; 0; 0; 0; 0; 0x02].
Definition MAC_C : list Z := [0x02; 0; 0; 0; 0; 0x03].
Definition MAC_R : list Z := [0x02; 0; 0; 0; 0; 0x05].

Definition network (name cidr : string) (last : Z) : result ModelError Network :=
  pool ← IpPool_new (ip 192 168 124 10) (ip 192 168 124 last); Network_new name cidr "192.168.124.1" pool.
Definition lab_network : result ModelError Network := network "lab" "192.168.124.0/24" 200.
Definition small_network : result ModelError Network := network "small" "192.168.124.0/24" 12.
Definition net28_network : result ModelError Network := network "net28" "192.168.124.0/28" 14.

(** [DhcpServer::new(ipam)], after [macs] were allocated in the allocator. *)
Definition server_on (n : result ModelError Network) (macs : list (list Z)) (t : cmd DhcpServer string unit) : bool :=
  on (n ← n; Ok (DhcpServer_new (foldl (fun i m => match mac_from_bytes m with Some m => (allocate i m).2 | None => i end) (Ipam_new n) macs))) t.
Definition server (t : cmd DhcpServer string unit) : bool := server_on lab_network [] t.

(** The client's messages. *)
Definition message (x : Z) (ci : Ipv4Addr) (addr : list Z) (opts : list DhcpOption) : WireMessage :=
  foldl (fun m o => insert_opt o m) (new_with_id x ci ip_unspecified ip_unspecified ip_unspecified addr) opts.
Definition discover (x : Z) (addr : list Z) : WireMessage := message x ip_unspecified addr [OptMessageType Discover].
Definition asked (requested : option Ipv4Addr) : list DhcpOption :=
  match requested with Some a => [OptRequestedIpAddress a] | None => [] end.
Definition request_from (ci : Ipv4Addr) (x : Z) (addr : list Z) (requested : option Ipv4Addr) : WireMessage :=
  message x ci addr (OptMessageType DhcpRequest :: asked requested).
Definition request : Z -> list Z -> option Ipv4Addr -> WireMessage := request_from ip_unspecified.
Definition renew (x : Z) (addr : list Z) (ci : Ipv4Addr) : WireMessage := request_from ci x addr None.

(** Encode, hand to the server, decode the reply. *)
Definition handle (packet : list Z) : cmd DhcpServer string (option (list Z)) := fun s =>
  match Dhcp.handle (M := WireMessage) s packet with Val (r, s') => Returns s' (Ok r) | Panic => Panics s end.
Definition exchange (m : WireMessage) : cmd DhcpServer string (option WireMessage) :=
  r ← handle (wire_encode m); match r with Some b => o ← unwrap (wire_decode b); mret (Some o) | None => mret None end.
Definition answered (m : WireMessage) : cmd DhcpServer string WireMessage := r ← exchange m; unwrap r.
Definition silent (packet : list Z) : cmd DhcpServer string unit := r ← handle packet; assert_eq r None.

Definition yi (m : WireMessage) : Ipv4Addr := yiaddr (header m).
Definition assert_reply (m : WireMessage) (x : Z) (addr : list Z) (t : MessageType) : cmd DhcpServer string unit :=
  _ ← assert_eq (opcode (header m)) BootReply; _ ← assert_eq (xid (header m)) x;
  _ ← assert_eq (chaddr (header m)) addr; assert_eq (msg_type m) (Some t).
Definition assert_req3_options (m : WireMessage) (mask : Ipv4Addr) : cmd DhcpServer string unit :=
  _ ← assert_eq (get_opt m CodeSubnetMask) (Some (OptSubnetMask mask));
  _ ← assert_eq (get_opt m CodeRouter) (Some (OptRouter [GATEWAY]));
  _ ← assert_eq (get_opt m CodeDomainNameServer) (Some (OptDomainNameServer [GATEWAY]));
  assert_eq (get_opt m CodeAddressLeaseTime) (Some (OptAddressLeaseTime LEASE_SECONDS)).
Definition naks (m : WireMessage) (addr : list Z) : cmd DhcpServer string unit :=
  nak ← answered m; assert_reply nak XID addr Nak.

Definition discover_unknown_mac_yields_offer_with_pool_ip : bool := server (
  offer ← answered (discover XID MAC_A); _ ← assert_reply offer XID MAC_A Offer; assert_eq (yi offer) (ip 192 168 124 10)).
Definition request_offered_ip_yields_ack : bool := server (
  offer ← answered (discover XID MAC_A); ack ← answered (request XID MAC_A (Some (yi offer)));
  _ ← assert_reply ack XID MAC_A Ack; assert_eq (yi ack) (yi offer)).
Definition discover_retransmit_reoffers_same_ip : bool := server (
  first ← answered (discover XID MAC_A); second ← answered (discover XID MAC_A); assert_eq (yi first) (yi second)).
Definition offer_and_ack_echo_broadcast_flag : bool := server (
  offer ← answered (set_flags 0x8000 (discover XID MAC_A)); _ ← assert_eq (Z.testbit (flags (header offer)) 15) true;
  ack ← answered (set_flags 0x8000 (request XID MAC_A (Some (yi offer)))); assert_eq (Z.testbit (flags (header ack)) 15) true).
Definition reserved_mac_receives_reserved_ip_in_offer : bool := server_on lab_network [MAC_R] (
  offer ← answered (discover XID MAC_R); _ ← assert_reply offer XID MAC_R Offer; assert_eq (yi offer) (ip 192 168 124 10)).
Definition reserved_mac_receives_reserved_ip_in_ack : bool := server_on lab_network [MAC_R] (
  _ ← answered (discover XID MAC_R); ack ← answered (request XID MAC_R (Some (ip 192 168 124 10)));
  _ ← assert_reply ack XID MAC_R Ack; assert_eq (yi ack) (ip 192 168 124 10)).
Definition reserved_mac_offer_precedes_pool_order : bool := server_on lab_network [MAC_A; MAC_B; MAC_R] (
  offer ← answered (discover XID MAC_R); assert_eq (yi offer) (ip 192 168 124 12)).
Definition offer_carries_required_options : bool := server (
  offer ← answered (discover XID MAC_A); assert_req3_options offer (ip 255 255 255 0)).
Definition ack_carries_required_options : bool := server (
  offer ← answered (discover XID MAC_A); ack ← answered (request XID MAC_A (Some (yi offer)));
  assert_req3_options ack (ip 255 255 255 0)).
Definition subnet_mask_derived_from_cidr_prefix : bool := server_on net28_network [] (
  offer ← answered (discover XID MAC_A); assert_eq (get_opt offer CodeSubnetMask) (Some (OptSubnetMask (ip 255 255 255 240)))).
Definition two_unknown_macs_get_distinct_pool_ips : bool := server (
  a ← answered (discover XID MAC_A); b ← answered (discover XID MAC_B);
  _ ← assert_eq (yi a) (ip 192 168 124 10); _ ← assert_eq (yi b) (ip 192 168 124 11); assert (negb (yi a =? yi b))).
Definition request_ip_offered_to_other_mac_yields_nak : bool := server (
  offer ← answered (discover XID MAC_A); naks (request XID MAC_B (Some (yi offer))) MAC_B).
Definition nak_carries_expected_fields : bool := server (
  _ ← answered (discover XID MAC_A);
  nak ← answered (request XID MAC_B (Some (ip 192 168 124 10)));
  _ ← assert_reply nak XID MAC_B Nak; _ ← assert_eq (yi nak) ip_unspecified;
  assert (forallb (fun c => bool_decide (get_opt nak c = None))
    [CodeServerIdentifier; CodeSubnetMask; CodeRouter; CodeDomainNameServer; CodeAddressLeaseTime])).
Definition request_ip_outside_pool_yields_nak : bool := server (naks (request XID MAC_A (Some (ip 192 168 124 5))) MAC_A).
Definition request_gateway_ip_yields_nak : bool := server (naks (request XID MAC_A (Some GATEWAY)) MAC_A).
Definition request_without_requested_ip_option_yields_nak : bool := server (naks (request XID MAC_A None) MAC_A).
Definition renewing_request_with_matching_ciaddr_yields_ack : bool := server (
  offer ← answered (discover XID MAC_A); ack ← answered (renew XID MAC_A (yi offer));
  _ ← assert_reply ack XID MAC_A Ack; _ ← assert_eq (yi ack) (yi offer); assert_req3_options ack (ip 255 255 255 0)).
Definition reserved_mac_renewing_with_ciaddr_yields_ack : bool := server_on lab_network [MAC_R] (
  ack ← answered (renew XID MAC_R (ip 192 168 124 10)); _ ← assert_reply ack XID MAC_R Ack; assert_eq (yi ack) (ip 192 168 124 10)).
Definition renewing_request_with_ciaddr_bound_to_other_mac_yields_nak : bool := server (
  offer_a ← answered (discover XID MAC_A); _ ← answered (discover XID MAC_B); naks (renew XID MAC_B (yi offer_a)) MAC_B).
Definition renewing_request_with_unbound_ciaddr_yields_nak : bool := server (
  _ ← answered (discover XID MAC_A); naks (renew XID MAC_A (ip 192 168 124 11)) MAC_A).
Definition renewing_request_with_ciaddr_outside_pool_yields_nak : bool := server (
  _ ← answered (discover XID MAC_A); naks (renew XID MAC_A (ip 192 168 124 5)) MAC_A).
Definition renewing_request_with_ciaddr_equal_gateway_yields_nak : bool := server (
  _ ← answered (discover XID MAC_A); naks (renew XID MAC_A GATEWAY) MAC_A).
Definition request_without_option50_and_unspecified_ciaddr_yields_nak : bool := server (
  _ ← answered (discover XID MAC_A); naks (request XID MAC_A None) MAC_A).
Definition request_with_option50_takes_precedence_over_ciaddr : bool := server (
  offer ← answered (discover XID MAC_A);
  ack ← answered (request_from (ip 192 168 124 11) XID MAC_A (Some (yi offer)));
  _ ← assert_reply ack XID MAC_A Ack; assert_eq (yi ack) (yi offer)).
Definition request_with_option50_mismatch_naks_even_when_ciaddr_matches : bool := server (
  offer_a ← answered (discover XID MAC_A); _ ← answered (discover XID MAC_B);
  naks (request_from (yi offer_a) XID MAC_A (Some (ip 192 168 124 11))) MAC_A).
(** The allocator as the reservation was released. *)
Definition released : result ModelError DhcpServer :=
  n ← lab_network;
  let i := (allocate (Ipam_new n) (Mac 2 0 0 0 0 1)).2 in Ok (DhcpServer_new (release i (Mac 2 0 0 0 0 1)).2).
Definition released_reservation_mac_gets_pool_address_not_old_ip : bool := on released (
  b ← answered (discover XID MAC_B); _ ← assert_eq (yi b) (ip 192 168 124 10);
  a ← answered (discover XID MAC_A); assert_eq (yi a) (ip 192 168 124 11)).
Definition request_different_ip_than_offered_yields_nak : bool := server (
  offer ← answered (discover XID MAC_A); _ ← naks (request XID MAC_A (Some (ip 192 168 124 11))) MAC_A;
  assert (negb (yi offer =? ip 192 168 124 11))).
Definition exhausted_pool_discover_yields_no_response : bool := server_on small_network [MAC_A; MAC_B; MAC_C] (
  _ ← silent (wire_encode (discover XID MAC_R));
  offer ← answered (discover XID MAC_A); assert_eq (yi offer) (ip 192 168 124 10)).
Definition offer_and_ack_server_identifier_is_gateway : bool := server (
  offer ← answered (discover XID MAC_A);
  _ ← assert_eq (get_opt offer CodeServerIdentifier) (Some (OptServerIdentifier GATEWAY));
  ack ← answered (request XID MAC_A (Some (yi offer)));
  assert_eq (get_opt ack CodeServerIdentifier) (Some (OptServerIdentifier GATEWAY))).
Definition bad_magic_cookie_yields_no_response : bool := server (
  let bytes := wire_encode (discover XID MAC_A) in
  silent (take 236 bytes ++ replicate 4 0xEE ++ drop 240 bytes)).
Definition truncated_and_empty_packets_yield_no_response : bool := server (
  let bytes := wire_encode (discover XID MAC_A) in
  _ ← silent []; _ ← silent (take 50 bytes); silent (take 200 bytes)).
(** A client identifier option (61) and no message type. *)
Definition bootrequest_without_message_type_yields_no_response : bool := server (
  let bytes := wire_encode (message XID ip_unspecified MAC_A []) in
  silent (take 240 bytes ++ [61; 6] ++ MAC_A ++ [255])).
Definition non_ethernet_hlen_yields_no_response : bool := server (
  silent (wire_encode (discover XID [0x02; 0x00; 0x00]))).

Lemma dhcp_tests_pass : all_pass [
  discover_unknown_mac_yields_offer_with_pool_ip; request_offered_ip_yields_ack; discover_retransmit_reoffers_same_ip;
  offer_and_ack_echo_broadcast_flag; reserved_mac_receives_reserved_ip_in_offer; reserved_mac_receives_reserved_ip_in_ack;
  reserved_mac_offer_precedes_pool_order; offer_carries_required_options; ack_carries_required_options;
  subnet_mask_derived_from_cidr_prefix; two_unknown_macs_get_distinct_pool_ips; request_ip_offered_to_other_mac_yields_nak;
  nak_carries_expected_fields; request_ip_outside_pool_yields_nak; request_gateway_ip_yields_nak;
  request_without_requested_ip_option_yields_nak; renewing_request_with_matching_ciaddr_yields_ack;
  reserved_mac_renewing_with_ciaddr_yields_ack; renewing_request_with_ciaddr_bound_to_other_mac_yields_nak;
  renewing_request_with_unbound_ciaddr_yields_nak; renewing_request_with_ciaddr_outside_pool_yields_nak;
  renewing_request_with_ciaddr_equal_gateway_yields_nak; request_without_option50_and_unspecified_ciaddr_yields_nak;
  request_with_option50_takes_precedence_over_ciaddr; request_with_option50_mismatch_naks_even_when_ciaddr_matches;
  released_reservation_mac_gets_pool_address_not_old_ip; request_different_ip_than_offered_yields_nak;
  exhausted_pool_discover_yields_no_response; offer_and_ack_server_identifier_is_gateway;
  bad_magic_cookie_yields_no_response; truncated_and_empty_packets_yield_no_response;
  bootrequest_without_message_type_yields_no_response; non_ethernet_hlen_yields_no_response].
Proof. vm_compute. done. Qed.
End DhcpTests.

(** ** dns.rs

    A message is its fixed header and a tail; the upstreams are stubs that
    return the pinned result, and [handle] counts how many of them it asked. *)
Module DnsTests.
Import Dns.

Definition QUERY_ID : Z := 0x1234.
Definition OTHER_ID : Z := 0xBEEF.

(** The header with flags [f] and [q] questions, then [tail]. *)
Definition message (id f q : Z) (tail : list Z) : list Z :=
  u16_to_be id ++ [f; 0] ++ u16_to_be q ++ replicate 6 0 ++ tail.
Definition query (id : Z) : list Z := message id 0 1 [1; 2; 3].
Definition response_for (id : Z) (answer : list Z) : list Z := message id 128 0 answer.
Definition A_IP : list Z := [198; 51; 100; 7].

Definition stub (r : result UpstreamError (list Z)) : UpstreamSender := fun _ => r.
(** A stub that answers only the very bytes of [q]. *)
Definition strict_stub (q : list Z) (r : result UpstreamError (list Z)) : UpstreamSender := fun sent =>
  if decide (sent = q) then r else Err Refused.
Definition forwarder (l : list UpstreamSender) : DnsForwarder := DnsForwarder_new l.

(** What is relayed and how many upstreams were asked. *)
Definition relays (f : DnsForwarder) (packet : list Z) (r : option (list Z)) (asked : nat) : cmd unit string unit :=
  assert_eq (handle f packet) (r, asked).
(** SERVFAIL: the id of the query, a response of opcode Query and code 2, and no sections. *)
Definition servfails (f : DnsForwarder) (packet : list Z) (id : Z) (asked : nat) : cmd unit string unit :=
  relays f packet (Some (u16_to_be id ++ [128; 2] ++ replicate 8 0)) asked.

Definition query_is_forwarded_and_response_relayed_unchanged : bool := test (
  let canned := response_for QUERY_ID A_IP in
  relays (forwarder [strict_stub (query QUERY_ID) (Ok canned)]) (query QUERY_ID) (Some canned) 1).
Definition query_with_zero_id_is_forwarded_and_relayed : bool := test (
  let canned := response_for 0 A_IP in
  relays (forwarder [stub (Ok canned)]) (query 0) (Some canned) 1).
Definition tc_bit_on_query_is_forwarded_as_is : bool := test (
  let q := message QUERY_ID 2 1 [1; 2; 3] in
  let canned := message QUERY_ID (128 + 2) 0 A_IP in
  relays (forwarder [strict_stub q (Ok canned)]) q (Some canned) 1).
Definition first_upstream_success_wins_second_never_called : bool := test (
  let first := response_for QUERY_ID A_IP in
  let second := response_for QUERY_ID [203; 0; 113; 9] in
  _ ← relays (forwarder [stub (Ok first); stub (Ok second)]) (query QUERY_ID) (Some first) 1;
  assert (bool_decide (first <> second))).
Definition failed_upstream_falls_through_to_next : bool := test (
  let good := response_for QUERY_ID A_IP in
  relays (forwarder [stub (Err Timeout); stub (Ok good)]) (query QUERY_ID) (Some good) 2).
Definition mismatched_response_id_is_dropped_next_upstream_tried : bool := test (
  let good := response_for QUERY_ID A_IP in
  relays (forwarder [stub (Ok (response_for OTHER_ID A_IP)); stub (Ok good)]) (query QUERY_ID) (Some good) 2).
Definition all_upstreams_timeout_yields_servfail : bool := test (
  servfails (forwarder [stub (Err Timeout)]) (query QUERY_ID) QUERY_ID 1).
Definition mixed_timeout_and_refused_yields_servfail : bool := test (
  servfails (forwarder [stub (Err Timeout); stub (Err Refused)]) (query QUERY_ID) QUERY_ID 2).
Definition no_upstreams_yields_servfail : bool := test (servfails (forwarder []) (query QUERY_ID) QUERY_ID 0).
Definition mismatched_response_id_with_single_upstream_yields_servfail : bool := test (
  servfails (forwarder [stub (Ok (response_for OTHER_ID A_IP))]) (query QUERY_ID) QUERY_ID 1).
Definition empty_packet_yields_no_response : bool := test (relays (forwarder [stub (Ok [])]) [] None 0).
Definition zero_question_query_yields_no_response : bool := test (
  relays (forwarder [stub (Ok [])]) (message QUERY_ID 0 0 []) None 0).
Definition repeated_queries_are_independent : bool := test (
  let canned := response_for QUERY_ID A_IP in
  let f := forwarder [stub (Ok canned)] in
  _ ← relays f (query QUERY_ID) (Some canned) 1; relays f (query QUERY_ID) (Some canned) 1).

Lemma dns_tests_pass : all_pass [
  query_is_forwarded_and_response_relayed_unchanged; query_with_zero_id_is_forwarded_and_relayed;
  tc_bit_on_query_is_forwarded_as_is; first_upstream_success_wins_second_never_called;
  failed_upstream_falls_through_to_next; mismatched_response_id_is_dropped_next_upstream_tried;
  all_upstreams_timeout_yields_servfail; mixed_timeout_and_refused_yields_servfail; no_upstreams_yields_servfail;
  mismatched_response_id_with_single_upstream_yields_servfail; empty_packet_yields_no_response;
  zero_question_query_yields_no_response; repeated_queries_are_independent].
Proof. vm_compute. done. Qed.
End DnsTests.

(** ** passt.rs: the command line and the framing *)
Module PasstTests.
Import Passt.

Definition cfg (l : list (Z * Z)) : PasstConfig :=
  {| cfg_vm_ip := "192.168.124.20"; cfg_netmask := "255.255.255.0"; cfg_gateway := "192.168.124.1";
     forwards := (fun '(h, v) => {| pf_host := h; pf_vm := v |}) <$> l |}.
Definition base (fd : string) : list string :=
  ["passt"; "--fd"; fd; "-a"; "192.168.124.20"; "-n"; "255.255.255.0"; "-g"; "192.168.124.1";
   "--map-host-loopback"; "192.168.124.1"].
Definition is_t (a : string) : bool := String.prefix "-t" a.

(** Broadcast destination, source 02:00.., and a counting payload. *)
Definition make_frame (payload_len : nat) : list Z :=
  replicate 6 0xff ++ [0x02] ++ replicate 7 0 ++ ((fun i => Z.of_nat i mod 251) <$> seq 14 payload_len).

Definition argv_matches_contract_single_forward : bool := test (
  assert_eq (passt_argv (cfg [(6443, 6443)]) 7) (base "7" ++ ["-t6443:6443"; "--foreground"])).
Definition argv_multiple_forwards_in_order : bool := test (
  let argv := passt_argv (cfg [(6443, 6443); (22, 2222)]) 9 in
  _ ← assert_eq (take 11 argv) (base "9");
  _ ← assert_eq (argv !! 11%nat) (Some "-t6443:6443"); _ ← assert_eq (argv !! 12%nat) (Some "-t22:2222");
  assert_eq (length argv) 14%nat).
Definition argv_without_forwards_has_no_t_flags : bool := test (
  let argv := passt_argv (cfg []) 3 in
  _ ← assert_eq (length argv) 12%nat; assert (forallb (fun a => negb (is_t a)) argv)).
Definition frame_round_trip : bool := test (
  let frame := make_frame 64 in
  let encoded := encode_frame frame in
  _ ← assert_eq (length encoded) (FRAME_HEADER_LEN + length frame)%nat;
  _ ← assert_eq (take FRAME_HEADER_LEN encoded) (u32_to_be (zlen frame));
  r ← no_panic (decode_frame encoded); payload ← expect r; assert_eq payload frame).
Definition frame_rejects_short_and_truncated : bool := test (
  r ← no_panic (decode_frame [0; 0; 0]); _ ← assert_eq r (Err (TooShort 3));
  r ← no_panic (decode_frame (u32_to_be 200)); assert_eq r (Err (Truncated 200 0))).
Definition published_entries_render_exact_t_args : bool := test (
  let config := passt_config_for "192.168.124.20" "255.255.255.0" "192.168.124.1" {[6443 := 6443; 22 := 22]} in
  let argv := passt_argv config 7 in
  let t_args := filter (fun a => is_t a = true) argv in
  _ ← assert_eq (length t_args) 2%nat;
  _ ← assert (bool_decide ("-t22:22" ∈ t_args) && bool_decide ("-t6443:6443" ∈ t_args));
  assert_eq (take 11 argv) (base "7")).
Definition unpublished_port_renders_no_t_args_egress_unchanged : bool := test (
  let argv := passt_argv (passt_config_for "192.168.124.20" "255.255.255.0" "192.168.124.1" ∅) 7 in
  _ ← assert_eq (length argv) 12%nat; assert (forallb (fun a => negb (is_t a)) argv)).

Lemma passt_tests_pass : all_pass [
  argv_matches_contract_single_forward; argv_multiple_forwards_in_order; argv_without_forwards_has_no_t_flags;
  frame_round_trip; frame_rejects_short_and_truncated; published_entries_render_exact_t_args;
  unpublished_port_renders_no_t_args_egress_unchanged].
Proof. vm_compute. done. Qed.
End PasstTests.

(** ** config.rs *)
Module ConfigTests.
Import Config.

Definition env (pairs : list (string * string)) (k : string) : option string :=
  snd <$> head (filter (fun p : string * string => p.1 = k) pairs).
Definition resolved (flags : Flags) (pairs : list (string * string)) : cmd unit string Config :=
  expect (resolve flags (env pairs)).

Definition defaults_match_plan : bool := test (
  c ← resolved Flags_default [];
  _ ← assert_eq (cfg_socket_dir c) "/run/user/1000/k8snet"; _ ← assert_eq (passt_binary c) "passt";
  _ ← assert_eq (upstream_dns c) [ip 1 1 1 1; ip 8 8 8 8]; _ ← assert_eq (mtu c) 1500;
  assert_eq (port_forwards c) []).
Definition env_overrides_defaults : bool := test (
  c ← resolved Flags_default [("K8NETD_SOCKET_DIR", "/tmp/x"); ("K8NETD_PASST_BINARY", "/usr/bin/passt");
                              ("K8NETD_UPSTREAM_DNS", "9.9.9.9"); ("K8NETD_MTU", "1400")];
  _ ← assert_eq (cfg_socket_dir c) "/tmp/x"; _ ← assert_eq (passt_binary c) "/usr/bin/passt";
  _ ← assert_eq (upstream_dns c) [ip 9 9 9 9]; _ ← assert_eq (mtu c) 1400; assert_eq (port_forwards c) []).
Definition flag_overrides_env_and_default : bool := test (
  let flags := {| f_socket_dir := Some "/from-flag"; f_passt_binary := None; f_upstream_dns := None; f_mtu := Some 9000 |} in
  c ← resolved flags [("K8NETD_MTU", "1400"); ("K8NETD_SOCKET_DIR", "/from-env")];
  _ ← assert_eq (cfg_socket_dir c) "/from-flag"; _ ← assert_eq (mtu c) 9000; assert_eq (port_forwards c) []).
Definition rejected (key val : string) : bool := is_err (resolve Flags_default (env [(key, val)])).
Definition invalid_values_rejected_at_startup : bool := test (
  _ ← assert (rejected "K8NETD_MTU" "notanumber");
  _ ← assert (rejected "K8NETD_UPSTREAM_DNS" "1.1.1.1,banana");
  assert (rejected "K8NETD_UPSTREAM_DNS" "1.1.1.1,,8.8.8.8")).
Definition version_flag_short_circuits_before_parse : bool := test (
  _ ← assert (wants_version ["--version"]); _ ← assert (wants_version ["-V"]);
  _ ← assert (wants_version ["--socket-dir"; "/x"; "--version"]);
  _ ← assert (negb (wants_version ["--socket-dir"; "/x"])); _ ← assert (negb (wants_version []));
  assert (is_err (parse_flags ["--version"]))).
Definition parse_flags_and_unknown_rejection : bool := test (
  f ← expect (parse_flags ["--socket-dir"; "/s"; "--passt-binary"; "pb"; "--upstream-dns"; "9.9.9.9"; "--mtu"; "8888"]);
  _ ← assert_eq (f_socket_dir f) (Some "/s"); _ ← assert_eq (f_passt_binary f) (Some "pb");
  _ ← assert_eq (f_upstream_dns f) (Some "9.9.9.9"); _ ← assert_eq (f_mtu f) (Some 8888);
  _ ← assert (is_err (parse_flags ["--nope"])); _ ← assert (is_err (parse_flags ["--port-forwards"; "1,2"]));
  assert (is_err (parse_flags ["--mtu"]))).
Definition publish_range_env_parses_start_end : bool := test (
  c ← resolved Flags_default [("K8NETD_PUBLISH_RANGE", "30000-30100")]; assert_eq (cfg_publish_range c) (30000, 30100)).
Definition publish_range_defaults_to_20000_21000 : bool := test (
  c ← resolved Flags_default []; assert_eq (cfg_publish_range c) (20000, 21000)).
Definition invalid_range (raw : string) : bool :=
  match resolve Flags_default (env [("K8NETD_PUBLISH_RANGE", raw)]) with Err (InvalidValue _ _) => true | _ => false end.
Definition publish_range_malformed_values_rejected : bool := test (
  assert (forallb invalid_range ["20000"; "banana"; "21000-20000"; "20000-"; "-20000"])).
Definition deprecated_port_forwards_env_is_ignored : bool := test (
  c ← resolved Flags_default [("K8NETD_PORT_FORWARDS", "8080")]; assert_eq (port_forwards c) []).

Lemma config_tests_pass : all_pass [
  defaults_match_plan; env_overrides_defaults; flag_overrides_env_and_default; invalid_values_rejected_at_startup;
  version_flag_short_circuits_before_parse; parse_flags_and_unknown_rejection; publish_range_env_parses_start_end;
  publish_range_defaults_to_20000_21000; publish_range_malformed_values_rejected;
  deprecated_port_forwards_env_is_ignored].
Proof. vm_compute. done. Qed.
End ConfigTests.
