(* ===== verification/TestsDaemon.v ===== *)
(** * The repository's unit tests, on the definitions: the daemon

    The tests of crates/k8netd/src/dataplane.rs, from ring to ring: a frame is
    posted on the sender's transmit ring, taken off by its worker, handled by
    the pump, and read back from the receive ring of the port it was queued
    for.  The threads run in the order the tests wait for them; the stub of
    passt is its process id and the command line that was run. *)
From S2P Require Import Prelude RustStd Model Ipam Json Protocol StateStore Server Tests.
From S2P Require Import Frame MacTable Engine Gateway Dhcp Dns Passt Packet VhostPort Dataplane Pump Transit.
Import Dp.
Open Scope string_scope.
Open Scope list_scope.
Open Scope Z_scope.

Module DataplaneTests.
(** No test reads the state file back: its text is left empty. *)
Definition no_text : SnapshotCodec Tree := {| snapshot_to_string := fun _ => ""; snapshot_from_value := fun _ => None |}.
#[local] Existing Instance no_text.

Definition world : Type := World Tree.

(** A test of a daemon that starts in an empty directory. *)
Definition root (t : cmd world string unit) : bool :=
  on (E := unit) (Ok (from_parts "/tmp/k8netd-dpw" {| live := ∅; stable := ∅ |} pt_empty)) t.

(** What the system does during one call: a passt that is started gets the
    process id [pid]; one that is stopped exits at the first poll. *)
Definition at_ (pid now : Z) : Env := {|
  env_disk := fun _ => Done; env_bind := true;
  env_spawn := {| so_socketpair := Ok (10, 11); so_child := Ok pid |};
  env_polls := [(Passt.Exited, false)]; env_now := now |}.

(** A control request, and one that must succeed. *)
Definition request (m : method) (params : list (string * Tree)) : cmd world string (result RpcError Tree) := fun w =>
  match m (Obj params) w with Returns w' r => Returns w' (Ok r) | Panics w' => Panics w' end.
Definition ok_request (m : method) (params : list (string * Tree)) : cmd world string Tree :=
  r ← request m params; expect r.
(** A turn of another thread of the daemon. *)
Definition turn {A} (m : op Tree A) : cmd world string A := fun w =>
  match m w with Returns w' (Ok a) => Returns w' (Ok a) | Returns w' (Err _) => Panics w' | Panics w' => Panics w' end.

Definition net_params : list (string * Tree) :=
  [("name", Str "net0"); ("cidr", Str "192.168.124.0/24"); ("gateway", Str "192.168.124.1");
   ("poolStart", Str "192.168.124.100"); ("poolEnd", Str "192.168.124.200")].
Definition attach_params (port mac : string) : list (string * Tree) :=
  [("port", Str port); ("network", Str "net0"); ("mac", Str mac)].
Definition named (name : string) : list (string * Tree) := [("name", Str name)].

(** ** The passt stub *)

Definition live_passt_pid (port : string) : cmd world string (option Z) :=
  w ← get; mret (slot ← passts (inner w) !! port; p ← live_proc slot; Some (pp_pid p)).
(** The command lines run, the last one, and the processes that were stopped. *)
Definition argv_lines : cmd world string (list (list string)) :=
  w ← get; mret (omap (fun e => match e with Spawned a => Some a | _ => None end) (trace w)).
Definition last_argv : cmd world string (list string) := l ← argv_lines; unwrap (last l).
Definition pid_alive (pid : Z) : cmd world string bool :=
  w ← get; mret (forallb (fun e => match e with Stopped p _ => negb (p =? pid) | _ => true end) (trace w)).
(** The frames a passt's descriptor received. *)
Definition egress_frames (pid : Z) : cmd world string (list (list Z)) :=
  w ← get; mret (concat (omap (fun e => match e with
    | ToWan p b => if p =? pid then match read_passt_frames [] [b] with (l, Some []) => Some l | _ => None end else None
    | _ => None end) (trace w))).

Definition follows (a b : string) (l : list string) : bool :=
  bool_decide (Exists (fun p => p = (a, b)) (zip l (tail l))).
Definition forward_arg (host vm : Z) : string := "-t" +:+ show_uint host +:+ ":" +:+ show_uint vm.

(** [attached_dp]: net0 and one attached port; its reserved address. *)
Definition attached_dp (port mac : string) : cmd world string Ipv4Addr :=
  _ ← ok_request (create_network (at_ 1 0)) net_params;
  _ ← ok_request (create_port (at_ 1 0)) (named port);
  _ ← ok_request (attach_port (at_ 1 0)) (attach_params port mac);
  ip ← ok_request (allocate_ip (at_ 1 0)) [("network", Str "net0"); ("mac", Str mac)];
  s ← unwrap (as_str ip); unwrap (parse_ipv4_addr s).
Definition attached_dp_with_observed_passt (port mac : string) : cmd world string Ipv4Addr :=
  ip ← attached_dp port mac; pid ← live_passt_pid port; _ ← assert_eq pid (Some 1);
  l ← argv_lines; _ ← assert_eq (length l) 1%nat; mret ip.
Definition publish (pid : Z) (port : string) (vm_port : Z) : cmd world string Z :=
  r ← ok_request (publish_port (at_ pid 0)) [("port", Str port); ("vm_port", Num vm_port)];
  v ← unwrap (get_key r "host_port"); n ← unwrap (as_u64 v); mret (wrap_u16 n).
Definition delete (name : string) : cmd world string unit := _ ← ok_request (delete_port (at_ 9 0)) (named name); mret tt.

Definition publish_port_ensures_passt_with_pinned_argv : bool := root (
  ip ← attached_dp_with_observed_passt "vm1" "02:00:00:00:00:01";
  hp ← publish 2 "vm1" 6443;
  pid ← live_passt_pid "vm1"; _ ← assert_eq pid (Some 2);
  tokens ← last_argv;
  _ ← assert (follows "-a" (show_ipv4_addr ip) tokens);
  _ ← assert (bool_decide (forward_arg hp 6443 ∈ tokens));
  delete "vm1").
Definition republish_same_pair_does_not_respawn_passt : bool := root (
  _ ← attached_dp_with_observed_passt "vm1" "02:00:00:00:00:01";
  hp1 ← publish 2 "vm1" 6443; pid ← live_passt_pid "vm1"; _ ← assert_eq pid (Some 2);
  hp2 ← publish 3 "vm1" 6443; _ ← assert_eq hp1 hp2;
  pid ← live_passt_pid "vm1"; _ ← assert_eq pid (Some 2);
  tokens ← last_argv; _ ← assert (bool_decide (forward_arg hp1 6443 ∈ tokens));
  delete "vm1").
Definition attach_port_spawns_egress_passt_without_forwards : bool := root (
  _ ← ok_request (create_network (at_ 1 0)) net_params;
  _ ← ok_request (create_port (at_ 1 0)) (named "vm1");
  _ ← ok_request (attach_port (at_ 1 0)) (attach_params "vm1" "02:00:00:00:00:01");
  pid ← live_passt_pid "vm1"; _ ← assert_eq pid (Some 1);
  tokens ← last_argv; _ ← assert (bool_decide ("-a" ∈ tokens));
  _ ← assert (negb (existsb (String.prefix "-t") tokens));
  delete "vm1").
Definition publishing_second_vm_port_restarts_passt_with_both_forwards : bool := root (
  _ ← attached_dp_with_observed_passt "vm1" "02:00:00:00:00:01";
  hp_api ← publish 2 "vm1" 6443; first_pid ← live_passt_pid "vm1"; _ ← assert_eq first_pid (Some 2);
  hp_ssh ← publish 3 "vm1" 22; second_pid ← live_passt_pid "vm1"; _ ← assert_eq second_pid (Some 3);
  tokens ← last_argv;
  _ ← assert (bool_decide (forward_arg hp_api 6443 ∈ tokens)); _ ← assert (bool_decide (forward_arg hp_ssh 22 ∈ tokens));
  alive ← pid_alive 2; _ ← assert (negb alive);
  delete "vm1").
Definition delete_port_stops_the_port_passt : bool := root (
  _ ← attached_dp_with_observed_passt "vm1" "02:00:00:00:00:01";
  _ ← publish 2 "vm1" 6443; pid ← live_passt_pid "vm1"; _ ← assert_eq pid (Some 2);
  alive ← pid_alive 2; _ ← assert alive;
  _ ← delete "vm1";
  alive ← pid_alive 2; assert (negb alive)).
Definition detach_port_stops_the_port_passt : bool := root (
  _ ← attached_dp_with_observed_passt "vm1" "02:00:00:00:00:01";
  _ ← publish 2 "vm1" 6443; pid ← live_passt_pid "vm1"; _ ← assert_eq pid (Some 2);
  _ ← ok_request (detach_port (at_ 9 0)) (named "vm1");
  alive ← pid_alive 2; _ ← assert (negb alive);
  delete "vm1").
(** The published process is found exited at 10 ms; each tick is a turn of the
    pump, the next process starts when the delay is over, and is kept. *)
Definition daemon_reensures_passt_after_unexpected_exit : bool := root (
  _ ← attached_dp_with_observed_passt "vm1" "02:00:00:00:00:01";
  _ ← publish 2 "vm1" 6443; crashed ← live_passt_pid "vm1"; _ ← assert_eq crashed (Some 2);
  _ ← turn (supervise_passt (at_ 3 10) Passt.Exited "vm1");
  _ ← turn (supervise_passt (at_ 4 60) Passt.Running "vm1");
  pid ← live_passt_pid "vm1"; _ ← assert_eq pid None;
  _ ← turn (supervise_passt (at_ 5 110) Passt.Running "vm1");
  pid ← live_passt_pid "vm1"; _ ← assert_eq pid (Some 5);
  l ← argv_lines; _ ← assert_eq (length l) 3%nat;
  _ ← turn (supervise_passt (at_ 6 510) Passt.Running "vm1");
  pid ← live_passt_pid "vm1"; _ ← assert_eq pid (Some 5);
  delete "vm1").

(** ** The guests *)

(** A ring with the given chains posted. *)
Definition ring_of (chains : list MemChain) (frames : list PortMessage) : VhostPort.PortState MemRing :=
  {| ring := {| mr_chains := chains; mr_at := 0; mr_completed := []; mr_buffers := ∅ |}; channel := frames; sent := [] |}.

(** The guest of [port] posts a frame on its transmit ring; the worker takes it
    off and the pump handles it. *)
Fixpoint pump_all (port : string) (id : Z) (l : list PortMessage) : cmd world string unit :=
  match l with
  | [] => mret tt
  | VhostPort.FromVm f :: l' => _ ← turn (pump_frame (M := WireMessage) port id f); pump_all port id l'
  | VhostPort.ToVm _ :: l' => pump_all port id l'
  end.
Definition transmit (port : string) (frame : list Z) : cmd world string unit :=
  w ← get; lp ← unwrap (ports (inner w) !! port);
  match service_tx (ring_of [{| mc_head := 5; mc_flags := 0; mc_bytes := Ok (encode_driver_tx frame); mc_cap := 0 |}] []) with
  | Returns s (Ok _) => pump_all port (lp_id lp) (sent s)
  | _ => unwrap None
  end.

(** The frames that the guest of [port] reads when it has posted one buffer of
    each of the sizes [caps]. *)
Definition received (port : string) (caps : list nat) : cmd world string (list (list Z)) :=
  w ← get;
  let chains := imap (fun i cap => {| mc_head := 6 + Z.of_nat i; mc_flags := VIRTQ_DESC_F_WRITE; mc_bytes := Ok []; mc_cap := cap |}) caps in
  match service_rx (enqueue (queued_for port (trace w)) (ring_of chains [])) with
  | Returns s (Ok _) =>
      unwrap (mapM (fun e : Z * Z => decode_driver_rx (take (Z.to_nat e.2) (default [] (mr_buffers (ring s) !! e.1)))) (mr_completed (ring s)))
  | _ => unwrap None
  end.

Definition broadcast_floods_between_two_live_ports : bool := root (
  _ ← ok_request (create_network (at_ 1 0)) net_params;
  _ ← ok_request (create_port (at_ 1 0)) (named "vm1");
  _ ← ok_request (create_port (at_ 1 0)) (named "vm2");
  _ ← ok_request (attach_port (at_ 1 0)) (attach_params "vm1" "02:00:00:00:00:01");
  _ ← ok_request (attach_port (at_ 2 0)) (attach_params "vm2" "02:00:00:00:00:02");
  _ ← transmit "vm1" (replicate 60 0xff);
  got ← received "vm2" [128%nat]; assert_eq got [replicate 60 0xff]).

(** ** Frame builders *)
Definition DP_GW_MAC : list Z := [0x02; 0x00; 0xc0; 0xa8; 0x7c; 0x01].
Definition DP_VM_MAC : list Z := [0x02; 0x00; 0x00; 0x00; 0x00; 0x09].
Definition DP_PEER_MAC : list Z := [0x02; 0x00; 0x00; 0x00; 0x00; 0x0a].
Definition DP_GW_IP : Ipv4Addr := ip 192 168 124 1.
Definition BCAST : list Z := replicate 6 0xff.

Definition eth_frame (dst src : list Z) (ethertype : Z) (payload : list Z) : list Z :=
  dst ++ src ++ u16_to_be ethertype ++ payload.
Definition ipv4_header (src dst : Ipv4Addr) (total_len proto : Z) : list Z :=
  [0x45; 0x00] ++ u16_to_be total_len ++ [0; 0] ++ [0x40; 0] ++ [64; proto] ++ [0; 0] ++ ip_octets src ++ ip_octets dst.
Definition udp_header (sport dport payload_len : Z) : list Z :=
  u16_to_be sport ++ u16_to_be dport ++ u16_to_be (8 + payload_len) ++ [0; 0].
Definition udp_over_eth (dst src_mac : list Z) (src_ip dst_ip : Ipv4Addr) (sport dport : Z) (inner : list Z) : list Z :=
  eth_frame dst src_mac 0x0800
    (ipv4_header src_ip dst_ip (20 + 8 + zlen inner) 17 ++ udp_header sport dport (zlen inner) ++ inner).
Definition dhcp_packet (msg_type xid : Z) (mac : list Z) (requested : option Ipv4Addr) : list Z :=
  [1; 1; 6; 0] ++ u32_to_be xid ++ replicate 20 0 ++ mac ++ replicate 202 0 ++ [0x63; 0x82; 0x53; 0x63] ++ [53; 1; msg_type]
  ++ match requested with Some a => [50; 4] ++ ip_octets a | None => [] end ++ [255].
(** A query for example.com, A, IN. *)
Definition dns_query_bytes (id : Z) : list Z :=
  u16_to_be id ++ [0x01; 0x00] ++ [0; 1; 0; 0; 0; 0; 0; 0]
  ++ [7; 101; 120; 97; 109; 112; 108; 101; 3; 99; 111; 109; 0] ++ [0; 1; 0; 1].

Record DhcpReply := { msg_type : option Z; yiaddr : list Z; router : option (list Z); dns : option (list Z) }.

(** The options from index [i]; every turn moves at least two bytes on. *)
Fixpoint parse_options (fuel : nat) (dhcp : list Z) (i : nat) (r : DhcpReply) : option DhcpReply :=
  match fuel, drop i dhcp with
  | S fuel, code :: len :: rest =>
      if (code =? 0) || (code =? 255) then Some r
      else
        val ← get_range rest 0 (Z.to_nat len);
        parse_options fuel dhcp (i + 2 + Z.to_nat len)
          (if (code =? 53) && (len =? 1) then
             {| msg_type := head val; yiaddr := yiaddr r; router := router r; dns := dns r |}
           else if (code =? 3) && (len =? 4) then
             {| msg_type := msg_type r; yiaddr := yiaddr r; router := Some val; dns := dns r |}
           else if (code =? 6) && (len =? 4) then
             {| msg_type := msg_type r; yiaddr := yiaddr r; router := router r; dns := Some val |}
           else r)
  | _, _ => Some r
  end.
Definition parse_dhcp_reply (frame : list Z) : option DhcpReply :=
  if Nat.ltb (length frame) (14 + 20 + 8 + 240) then None
  else
    first ← frame !! 14%nat;
    let ihl := Z.to_nat (Z.land first 0x0f * 4) in
    dhcp ← get_range frame (14 + ihl + 8) (length frame);
    if Nat.ltb (length dhcp) 240 || negb (bool_decide (take 4 (drop 236 dhcp) = [0x63; 0x82; 0x53; 0x63])) then None
    else parse_options (length dhcp) dhcp 240
           {| msg_type := None; yiaddr := take 4 (drop 16 dhcp); router := None; dns := None |}.

(** Bytes [from..to] of a frame. *)
Definition bytes_are (frame : list Z) (from to : nat) (l : list Z) : cmd world string unit :=
  assert_eq (get_range frame from to) (Some l).

(** ** The gateway seam *)
Definition gateway_destined_frame_reaches_owning_port_passt_fd_only : bool := root (
  src_ip ← attached_dp_with_observed_passt "vm1" "02:00:00:00:00:09";
  _ ← publish 2 "vm1" 6443; pid ← live_passt_pid "vm1"; _ ← assert_eq pid (Some 2);
  let local := eth_frame DP_PEER_MAC DP_VM_MAC 0x0800 (ipv4_header src_ip (ip 192 168 124 50) 24 17 ++ [0x11; 0x22; 0x33; 0x44]) in
  let wan := eth_frame DP_GW_MAC DP_VM_MAC 0x0800 (ipv4_header src_ip (ip 8 8 8 8) 24 17 ++ [0xde; 0xad; 0xbe; 0xef]) in
  _ ← transmit "vm1" local;
  leaked ← egress_frames 2; _ ← assert (bool_decide (local ∉ leaked));
  _ ← transmit "vm1" wan;
  got ← egress_frames 2; _ ← assert (bool_decide (wan ∈ got)); _ ← assert (bool_decide (local ∉ got));
  delete "vm1").
(** The bytes that the stub writes: a length of 46, and the frame. *)
Definition passt_inbound_frame_injected_into_owning_port_virtqueue : bool := root (
  _ ← attached_dp_with_observed_passt "vm1" "02:00:00:00:00:09";
  _ ← publish 2 "vm1" 6443; pid ← live_passt_pid "vm1"; _ ← assert_eq pid (Some 2);
  let expected := [0x02; 0x00; 0x00; 0x00; 0x00; 0x01] ++ DP_GW_MAC ++ u16_to_be 0x0800 ++ replicate 32 65 in
  payload ← unwrap (match read_passt_frames [] [[0; 0; 0; 46] ++ take 14 expected; drop 14 expected] with
                    | ([f], Some []) => Some f | _ => None end);
  mac ← no_panic (uplink_of payload);
  _ ← turn (deliver_wan "vm1" mac payload);
  got ← received "vm1" [128%nat]; _ ← assert_eq got [expected];
  delete "vm1").

(** ** The service seams *)
Definition gateway_icmp_echo_request_yields_echo_reply : bool := root (
  reserved ← attached_dp "vm9" "02:00:00:00:00:09";
  let body := [112; 97; 121; 108; 111; 97; 100] in
  let icmp := [ICMP_ECHO_REQUEST; 0; 0; 0; 0x12; 0x34; 0; 1] ++ body in
  let icmp := overwrite 2 (u16_to_be (inet_checksum icmp)) icmp in
  let iph := ipv4_header reserved DP_GW_IP (20 + zlen icmp) IPPROTO_ICMP in
  let pkt := overwrite 10 (u16_to_be (inet_checksum iph)) iph ++ icmp in
  _ ← transmit "vm9" (eth_frame DP_GW_MAC DP_VM_MAC ETHERTYPE_IPV4 pkt);
  l ← received "vm9" [128%nat]; frame ← unwrap (head l);
  _ ← bytes_are frame 0 6 DP_VM_MAC; _ ← bytes_are frame 6 12 DP_GW_MAC;
  first ← unwrap (frame !! 14%nat);
  let ihl := Z.to_nat (Z.land first 0x0f * 4) in
  _ ← bytes_are frame 14 16 [0x45; 0]; _ ← bytes_are frame 16 18 (u16_to_be (20 + zlen icmp));
  _ ← bytes_are frame 26 30 (ip_octets DP_GW_IP); _ ← bytes_are frame 30 34 (ip_octets reserved);
  icmp_reply ← unwrap (get_range frame (14 + ihl) (length frame));
  _ ← bytes_are icmp_reply 0 1 [ICMP_ECHO_REPLY]; _ ← bytes_are icmp_reply 4 6 [0x12; 0x34];
  _ ← bytes_are icmp_reply 6 8 [0; 1]; _ ← bytes_are icmp_reply 8 (length icmp_reply) body;
  _ ← assert_eq (inet_checksum icmp_reply) 0;
  header ← unwrap (get_range frame 14 (14 + ihl)); _ ← assert_eq (inet_checksum header) 0;
  delete "vm9").

(** A DHCP message from the guest with NIC address [mac], and the [n]th frame
    that the guest of vm9 reads. *)
Definition dhcp_from (mac : list Z) (msg_type : Z) (requested : option Ipv4Addr) : cmd world string unit :=
  transmit "vm9" (udp_over_eth BCAST mac ip_unspecified ip_broadcast 68 67 (dhcp_packet msg_type 0x11223344 mac requested)).
Definition nth_answer (n : nat) (msg_type_ : Z) : cmd world string (list Z * DhcpReply) :=
  l ← received "vm9" [512; 512]%nat; frame ← unwrap (l !! n);
  r ← unwrap (parse_dhcp_reply frame); _ ← assert_eq (msg_type r) (Some msg_type_); mret (frame, r).
Definition offers_address (r : DhcpReply) (a : Ipv4Addr) : cmd world string unit :=
  _ ← assert_eq (yiaddr r) (ip_octets a); _ ← assert_eq (router r) (Some (ip_octets DP_GW_IP));
  assert_eq (dns r) (Some (ip_octets DP_GW_IP)).

Definition dhcp_discover_on_attached_port_yields_offer_then_ack_with_reserved_ip_gateway_dns : bool := root (
  reserved ← attached_dp "vm9" "02:00:00:00:00:09";
  _ ← dhcp_from DP_VM_MAC 1 None; offer ← nth_answer 0 2; _ ← offers_address offer.2 reserved;
  _ ← dhcp_from DP_VM_MAC 3 (Some reserved); ack ← nth_answer 1 5; _ ← offers_address ack.2 reserved;
  delete "vm9").
Definition dhcp_offer_addressed_to_sender_mac_when_different_from_port_mac : bool := root (
  _ ← attached_dp "vm9" "02:00:00:00:00:09";
  _ ← dhcp_from DP_PEER_MAC 1 None; offer ← nth_answer 0 2;
  _ ← assert (bool_decide (yiaddr offer.2 <> [0; 0; 0; 0]));
  _ ← bytes_are offer.1 0 6 DP_PEER_MAC; _ ← assert (bool_decide (take 6 offer.1 <> DP_VM_MAC));
  delete "vm9").
Definition dhcp_ack_addressed_to_sender_mac_when_different_from_port_mac : bool := root (
  _ ← attached_dp "vm9" "02:00:00:00:00:09";
  v ← ok_request (allocate_ip (at_ 1 0)) [("network", Str "net0"); ("mac", Str "02:00:00:00:00:0a")];
  s ← unwrap (as_str v); guest_reserved ← unwrap (parse_ipv4_addr s);
  _ ← dhcp_from DP_PEER_MAC 1 None; offer ← nth_answer 0 2;
  _ ← assert_eq (yiaddr offer.2) (ip_octets guest_reserved);
  _ ← dhcp_from DP_PEER_MAC 3 (Some guest_reserved); ack ← nth_answer 1 5;
  _ ← assert_eq (yiaddr ack.2) (yiaddr offer.2);
  _ ← bytes_are ack.1 0 6 DP_PEER_MAC; _ ← assert (bool_decide (take 6 ack.1 <> DP_VM_MAC));
  delete "vm9").
Definition dhcp_nak_uses_ethernet_broadcast : bool := root (
  reserved ← attached_dp "vm9" "02:00:00:00:00:09";
  _ ← dhcp_from DP_PEER_MAC 3 (Some reserved); nak ← nth_answer 0 6;
  _ ← assert_eq (yiaddr nak.2) [0; 0; 0; 0];
  _ ← bytes_are nak.1 0 6 BCAST; _ ← bytes_are nak.1 30 34 [255; 255; 255; 255];
  _ ← bytes_are nak.1 26 30 (ip_octets DP_GW_IP);
  delete "vm9").
Definition wrap_udp_reply_broadcasts_ethernet_when_reply_ip_unspecified : bool := root (
  m ← unwrap (mac_from_bytes DP_VM_MAC);
  let frame := wrap_udp_reply (replicate 240 0) m (ip 192 168 124 1) ip_unspecified DHCP_SERVER_PORT DHCP_CLIENT_PORT in
  _ ← bytes_are frame 0 6 BCAST; _ ← bytes_are frame 30 34 [255; 255; 255; 255]; bytes_are frame 26 30 [192; 168; 124; 1]).

(** The upstream's answer: the query, with the response bit set. It answers
    [query] only, so an answer shows that it was sent these bytes. *)
Definition flip_qr (query : list Z) : list Z := alter (fun f => Z.lor f 0x80) 2%nat query.
Definition RecordingUpstream (query : list Z) : UpstreamSender := fun sent =>
  if decide (sent = query) then Ok (flip_qr sent) else Err Refused.
Definition with_upstream (query : list Z) : cmd world string unit := fun w =>
  match set_dns_upstreams [RecordingUpstream query] w with Val w' => Returns w' (Ok tt) | Panic => Panics w end.

Definition dns_query_to_gateway_ip_is_forwarded_to_stub_upstream_and_answered : bool := root (
  vm_ip ← attached_dp "vm9" "02:00:00:00:00:09";
  let query := dns_query_bytes 0x4242 in
  _ ← with_upstream query;
  _ ← transmit "vm9" (udp_over_eth DP_GW_MAC DP_VM_MAC vm_ip DP_GW_IP 12345 53 query);
  w ← get; _ ← assert_eq (Dns.handle (Dp.dns (inner w)) query).2 1%nat;
  l ← received "vm9" [512%nat]; reply ← unwrap (head l);
  first ← unwrap (reply !! 14%nat);
  let ihl := Z.to_nat (Z.land first 0x0f * 4) in
  _ ← bytes_are reply (14 + ihl + 8) (length reply) (flip_qr query);
  delete "vm9").
Definition dns_reply_keeps_port_mac_addressing_for_non_dhcp : bool := root (
  _ ← attached_dp "vm9" "02:00:00:00:00:09";
  let query := dns_query_bytes 0x4242 in
  _ ← with_upstream query;
  _ ← transmit "vm9" (udp_over_eth DP_GW_MAC DP_PEER_MAC (ip 192 168 124 150) DP_GW_IP 12345 53 query);
  l ← received "vm9" [512%nat]; reply ← unwrap (head l);
  _ ← bytes_are reply 0 6 DP_VM_MAC; _ ← bytes_are reply 30 34 [192; 168; 124; 150];
  delete "vm9").

Lemma dataplane_tests_pass : all_pass [
  broadcast_floods_between_two_live_ports; publish_port_ensures_passt_with_pinned_argv;
  republish_same_pair_does_not_respawn_passt; attach_port_spawns_egress_passt_without_forwards;
  publishing_second_vm_port_restarts_passt_with_both_forwards; delete_port_stops_the_port_passt;
  detach_port_stops_the_port_passt; daemon_reensures_passt_after_unexpected_exit;
  gateway_destined_frame_reaches_owning_port_passt_fd_only; passt_inbound_frame_injected_into_owning_port_virtqueue;
  gateway_icmp_echo_request_yields_echo_reply;
  dhcp_discover_on_attached_port_yields_offer_then_ack_with_reserved_ip_gateway_dns;
  dhcp_offer_addressed_to_sender_mac_when_different_from_port_mac;
  dhcp_ack_addressed_to_sender_mac_when_different_from_port_mac; dhcp_nak_uses_ethernet_broadcast;
  wrap_udp_reply_broadcasts_ethernet_when_reply_ip_unspecified;
  dns_query_to_gateway_ip_is_forwarded_to_stub_upstream_and_answered;
  dns_reply_keeps_port_mac_addressing_for_non_dhcp].
Proof. vm_compute. done. Qed.
End DataplaneTests.
