(* ===== verification/TestsPort.v ===== *)
(** * The repository's unit tests, on the definitions: the vhost-user port

    The tests of crates/k8netd-vhost/src/port.rs that the socket file does not
    decide: the session thread is run between the events a test makes, and the
    guest's rings are in memory. *)
From S2P Require Import Prelude RustStd VhostPort Tests.
From S2P Require Frontend Session.
Open Scope string_scope.
Open Scope list_scope.
Open Scope Z_scope.

Module PortTests.
Import Session.

(** The frame of the tests: broadcast, from 02:00:..., byte [i] is [i mod 251]. *)
Definition make_frame (payload_len : nat) : list Z :=
  replicate 6 0xff ++ [0x02] ++ replicate 7 0 ++ ((fun i => Z.of_nat i mod 251) <$> seq 14 payload_len).

(** ** Sessions *)

(** [spawn_port] under an existing directory, with a listener that binds. *)
Definition spawn_port (t : cmd Session string unit) : bool := on (new_session true (Ok tt) (Ok tt)) t.

(** The thread runs until it waits. *)
Fixpoint settle (fuel : nat) (s : Session) : Session :=
  match fuel with
  | O => s
  | S fuel => match worker Good false s with Some s' => settle fuel s' | None => s end
  end.
Definition wait : cmd Session string unit := modify (settle 10).

(** What the other side of the handshake answers: the device's features, and
    REPLY_ACK. *)
Definition backend (c : Frontend.Call) (_ : unit) : result string (Z * unit) :=
  match c with
  | Frontend.GetFeatures => Ok (features, tt)
  | Frontend.GetProtocolFeatures => Ok (8, tt)
  | _ => Ok (0, tt)
  end.
Definition kernel : Frontend.Kernel := {|
  Frontend.memfd := Ok 3; Frontend.set_len := Ok tt; Frontend.map_region := Ok 0x7f0000000000;
  Frontend.kick_fds := (Ok 4, Ok 5); Frontend.call_fds := (Ok 6, Ok 7) |}.

(** [FakeFrontend::connect]: the connection is taken by the thread, and the
    handshake ends. *)
Definition frontend : cmd Session string Frontend.FakeFrontend :=
  _ ← modify (connect true); _ ← wait;
  s ← get; _ ← assert (bool_decide (at_point s = Serving) && peer s);
  match Frontend.connect backend kernel ([], tt) with
  | Returns _ (Ok fe) => mret fe
  | _ => unwrap None
  end.
Definition drop_frontend : cmd Session string unit := _ ← modify (set_peer false); wait.

Definition req2_relisten_after_disconnect : bool := spawn_port (
  fe1 ← frontend; _ ← assert (negb (Frontend.features fe1 =? 0));
  _ ← drop_frontend;
  fe2 ← frontend; _ ← assert (negb (Frontend.features fe2 =? 0));
  _ ← assert (negb (Frontend.protocol_features fe2 =? 0));
  drop_frontend).
Definition edge_connect_without_negotiation_keeps_loop_alive : bool := spawn_port (
  _ ← modify (connect false); _ ← wait;
  fe ← frontend; assert (negb (Frontend.features fe =? 0))).
Definition edge_missing_parent_dir_fails_cleanly : bool := test (assert (is_err (new_session false (Ok tt) (Ok tt)))).
Definition edge_queue_pair_served_as_two_vrings : bool := test (assert_eq NUM_QUEUES 2%nat).

(** ** Frames *)

(** One chain posted on a ring, and what waits in the channel. *)
Definition posted_one (c : MemChain) (frames : list PortMessage) : PortState MemRing :=
  {| ring := {| mr_chains := [c]; mr_at := 0; mr_completed := []; mr_buffers := ∅ |}; channel := frames; sent := [] |}.
Definition work (thread_id : nat) (s : PortState MemRing) : cmd unit string (PortState MemRing) := fun u =>
  match handle_event true thread_id s with Returns s' (Ok _) => Returns u (Ok s') | _ => Panics u end.

Definition req1_full_session_frame_exchange : bool := test (
  _ ← assert_eq NUM_QUEUES 2%nat;
  let out := make_frame 64 in
  tx ← work TX_VRING (posted_one {| mc_head := 0; mc_flags := 0; mc_bytes := Ok (encode_driver_tx out); mc_cap := 0 |} []);
  _ ← assert (match sent tx with [FromVm f] => bool_decide (f = out) | _ => false end);
  let inp := make_frame 96 in
  rx ← work RX_VRING (posted_one {| mc_head := 1; mc_flags := VIRTQ_DESC_F_WRITE; mc_bytes := Ok []; mc_cap := 128 |} [ToVm inp]);
  _ ← assert_eq (mr_completed (ring rx)) [(1, zlen inp + Z.of_nat VNET_HDR_LEN)];
  buf ← unwrap (mr_buffers (ring rx) !! 1);
  header ← no_panic (slice buf 0 VNET_HDR_LEN); _ ← assert_eq header vnet_header;
  frame ← no_panic (slice buf VNET_HDR_LEN (VNET_HDR_LEN + length inp)); assert_eq frame inp).

Lemma port_tests_pass : all_pass [
  req1_full_session_frame_exchange; req2_relisten_after_disconnect;
  edge_connect_without_negotiation_keeps_loop_alive; edge_missing_parent_dir_fails_cleanly;
  edge_queue_pair_served_as_two_vrings].
Proof. vm_compute. done. Qed.
End PortTests.
